(* ===== verification/_CoqProject ===== *)
-Q . S2P
Prelude.v
CoreTypes.v
Instances.v
Messages.v
MessagesTheory.v
Smt.v
BlsAgg.v
BlsAggTheory.v
BlsAggService.v
BlsAggProgress.v
BlsAggExamples.v
BlsAggSharing.v
RpcClient.v
AvsReader.v
RegistryContract.v
RegistryContractTheory.v
SparseMerkle.v
Inclusion.v
OperatorSetRegistry.v
OperatorRegistrations.v
Database.v
DatabaseTheory.v
Aggregator.v
AggregatorTheory.v
AggregatorExamples.v
Servers.v
ServersExamples.v
Attestor.v
Rollups.v
Broadcaster.v
Consumer.v
OperatorPipeline.v
Operator.v
OperatorLoop.v
SafeClient.v
Relayer.v
Metrics.v
MetricsTheory.v
Chainio.v
ChainioTheory.v
ChainioExamples.v
ServiceManager.v
Config.v
OperatorStartup.v
AggregatorStartup.v
System.v
CheckpointSystem.v
RollupSystem.v
