(* ===== verification/Prelude.v ===== *)
(** * Verification of the SFFL (super fast finality layer) Go services

    SFFL lets operators, registered on Ethereum with stake, attest to the state roots of
    rollups.  This library models the Go services of the repository and proves what
    makes them correct; where the code does not do what it means to do, the theorem
    states what it does.

    ** The program and the files that model it

    - An operator (operator/) watches rollup nodes and a message queue, signs state root
      updates, operator set updates and checkpoint responses with its BLS key, and sends
      them to the aggregator.
      [Consumer]: operator/consumer/ (queue deliveries, [reconnect] as the state machine
      [cs_step]).  [Attestor]: operator/attestor/ ([Notifier], and the header goroutines
      as [at_step]).  [OperatorPipeline] runs the two together, from the broker's deliveries
      to the signed messages ([pipe_step]).  [Operator]: operator/operator.go,
      avs_manager.go (the main loop [op_step], signing, registration).  [OperatorLoop]: the
      goroutines of the AVS manager and the main loop running together ([rn_step]).  [RpcClient]: operator/rpc_client.go (the client
      with its resend queue, [cl_step]).  [OperatorStartup]: construction and [Start] of
      the operator and its attestor, the header loop [hl_step], the tools of cli/actions/
      and plugin/cmd/, the options of the Ethereum client.
    - The aggregator (aggregator/) checks the messages, adds up signatures and stake per
      message, stores what reaches quorum, creates checkpoint tasks, and updates the
      registries of the rollups.
      [BlsAgg]: aggregator/blsagg/ ([gstep] is one select of a message's goroutine,
      [Service] the maps of channels and goroutines).  [OperatorRegistrations]:
      operator_registrations_inmemory.go.  [Database]: aggregator/database/.
      [Aggregator]: aggregator.go (one definition per handler, [agg_deliver] for the
      select loop).  [Rollups]: rollup_writer.go, rollup_broadcaster.go, each call on its
      own; [Broadcaster]: the goroutines of all calls with their lock, the shared registries
      and the error channel (the step relations [task_step] and [bc_step]).  [Servers]:
      rpc_server/server.go, rest_server/server.go.  [AggregatorStartup]: [aggregatorMain],
      construction of the aggregator, its database, writers and broadcaster, and of the
      relayer.  [System] composes operators, aggregator and REST server; [CheckpointSystem]
      composes database, servers, operator and task manager around a checkpoint;
      [RollupSystem] composes operators, aggregator, broadcaster and the registries of the
      rollups.
    - The contracts (contracts/evm/src/) the services write to.  [RegistryContract]:
      rollup/SFFLRegistryRollup.sol with the libraries of base/ (the operator set, the
      check of an aggregate signature, message hashes, state roots), every transaction of
      it; [RegistryContractTheory] proves it.  eth/SFFLTaskManager.sol: its transactions are
      part of [Chainio], its check of inclusion proofs is [Inclusion], over the verifier of
      eth/utils/SparseMerkleTree.sol in [SparseMerkle].  [OperatorSetRegistry]:
      eth/SFFLOperatorSetUpdateRegistry.sol and the calls of eth/SFFLRegistryCoordinator.sol
      that record an update ([osr_step]).  [ServiceManager]: eth/SFFLServiceManager.sol
      ([sm_accept] for a transaction, [sm_run] for a history of them).
    - Shared code (core/).  [CoreTypes], [Messages]: core/types/, core/utils.go.  [Smt]:
      core/smt/ and the checkpoint response.  [AvsReader], [Chainio]: core/chainio/ (the
      operator set delta; bindings, builders, and the AVS writer over the task manager
      contract, [world_step] being one step of aggregator and contract).  [Config]:
      core/config/, the node and relayer configurations and their command lines.
      [Metrics]: the listeners and collectors of all services ([exec_op] is a callback on
      the samples) and the relayer's metrics server.
      [SafeClient]: core/safeclient/ (the log subscription that subscribes again,
      [log_step], and the head subscription, [head_step]).
    - The relayer (relayer/) posts rollup headers to NEAR.  [Relayer]: relayer.go (the two
      goroutines and their ticker, [rl_step]).

    Definitions keep the Go names; where three message types have a method of one name
    it gets the prefix [sru_], [osu_] or [ctr_] (state root update, operator set update,
    checkpoint task response).  [*Theory], [BlsAggService], [BlsAggProgress] and
    [BlsAggSharing] hold the theorems of the larger components, [*Examples] and modules [Examples] concrete runs.

    ** Modelling decisions

    - A function that returns an error is a [res]: [Ok], [Err], or [Panic] for a run-time
      panic and for [logger.Fatal].  Machine integers are [Z] with their wrap-around
      written out ([u32], [u64]).  Nil pointers are [None]; a curve point of the Go library
      is a struct around a pointer that can be nil itself, which [g1_affine_nil] tells.
      Checked Solidity products revert at their width ([mul96], [checked]).
    - Calls to the chain, to peers and to timers are not functions of the model's state:
      their answers are arguments (records such as [AvsEnv], [AggEnv], [Attempt],
      [ManagerEnv], [TxEnv], [StartEnv], [AggStartEnv]) or events of a step function, so that a theorem about all runs covers
      every interleaving and every answer.  A blocked goroutine is a value ([Blocked],
      [NotifyBlocked], [NeverReturns], [OrsStuck]).
    - Go maps that alias are modelled with a heap: the stake maps of the BLS service
      ([StakeHeap]), where the aliasing matters.  The key and signature of a response are
      those of the goroutine's aggregate, updated in place: a response holds the values of
      the moment it is sent, and [reread] what is found in it later.  Map iteration order is an argument where
      it can be observed ([GetOperatorSetUpdateDelta], [CompileRollupsInfo], the
      constructors that loop over rollups).
    - Third-party code is an interface with laws: [BlsOps]/[BlsLaws], [HashOps], [AbiOps],
      [SmtOps], [GormOps], [DecodeOps], [PromOps], [CliOps], and for the curve operations
      and the pairing the contract uses [Bn254Ops]/[Bn254Laws], with [Bn254BlsLaws] relating
      them to the Go library.  [Instances] and the example modules give
      executable instances that satisfy every law.  A digest theorem concludes with an
      explicit Keccak collision instead of assuming that there is none.
      [OperatorsInfo] is what the aggregator relies on of the registrations service, which
      [OperatorRegistrations] discharges.
    - Of the contracts, the registry of the rollups is modelled whole, a transaction being a
      function that reverts or returns the new storage ([accept_tx]); the owner and the
      pause flags, which inherited library contracts keep, are arguments of each
      transaction, and so is the check of a storage proof, a library of Optimism.  The task
      manager ([TaskManager] in [Chainio]) is modelled but for the signature check it
      inherits, a parameter; its owner and pause flags may change at any step.  The service
      manager's transactions take what the other contracts answer as an argument ([SmEnv]).
      What the contracts hash is laid out after the Solidity structs, apart from the Go
      encoder ([StateRootUpdate_Message_calldata], [OperatorSetUpdate_Message_calldata]).
    - [InitializeMessageIfNotExists] is one step although the chain is read in the middle,
      after the key is registered: whatever the service does before the goroutine is
      started leads to no state that it cannot reach otherwise ([initialize_atomic]).
    - Loops over slices are structural; retry loops count their attempts down from the
      source's constants; [sort.Slice] is the insertion sort Go uses for up to twelve
      elements, and any permutation above that.  Fuel is used once: [filter_loop] of
      [SafeClient] has as much as the range has blocks, which [paging_terminates] proves
      enough for every chunk size but zero, one iteration per chunk; with zero the source's
      loop does not end.

    ** What the theorems show

    - Aggregation: a reported quorum is backed by distinct signers with enough registry
      stake if nobody submits twice, its aggregate signature verifies, [Finished] is
      reported exactly once, non-signers are listed in the contract's order, at most one
      goroutine works on a key ([quorum_soundness], [aggregate_signature_valid],
      [finished_exactly_once], [nonsigners_listed], [service_invariant]); no call makes the
      service panic if the chain answers and the points of the signatures are set, and an
      honest quorum is reported if also nobody is accepted twice ([service_never_panics],
      [honest_quorum_reported]); repeated
      submissions double the counted stake, and two paths leave a key or a caller blocked
      ([resubmission_doubles_stake], [failed_initialization_blocks_key],
      [late_send_blocks]); the final response no longer changes, earlier ones do
      ([final_response_stable], [response_updated_in_place]).
    - Messages: digests bind all fields and the message type; checkpoint responses do not
      depend on message order; the proof bit mask is what the verifier reads.
    - Aggregator and servers: only messages signed with a registered key have effects
      ([only_authenticated_messages]); the checks of a call refuse nil pointers but not nil
      affine points, which crash the aggregator ([malformed_calls_refused]); checkpoint
      windows are adjacent, final results are
      broadcast or submitted, and what reached quorum is served by the REST API.  From end
      to end, an update that a quorum of attestors signs is served with a signature that
      verifies ([state_root_update_served]), and a registry that has the operators of the
      snapshot stores its state root ([quorum_state_root_stored]), both as long as no
      operator has two submissions accepted.
    - Registry contract: its storage is always that of some list of operators, it accepts a
      signature exactly when the signers hold the threshold's share, and its hashes are the
      digests of the Go code ([registry_invariant], [accepted_by_quorum],
      [contract_hashes_match]).
    - Checkpoints: the tasks the aggregator remembers are those of the contract, a tick
      creates the next one, and its final aggregation is recorded in time and only once
      ([checkpoint_tasks_match], [checkpoint_created], [checkpoint_answered]), but for
      stakes whose products do not fit in uint96 ([large_stake_reverts]).
      Any proof the task manager accepts for a message tells whether the message was in the
      checkpoint, and the Go code makes a proof that is accepted; the verifier is compared
      with a reference trie, whose laws the trie library is assumed to satisfy and a concrete
      trie is proved to ([inclusion_verdict_sound], [included_message_proved]).  So a checkpoint
      that operators compute from the aggregator's answers proves, on mainnet, exactly what the
      REST API served in its window ([checkpoint_decides_served]).
    - Service manager: state roots and storage values on mainnet are backed by a quorum of
      the stake, and two roots for one block expose equivocating operators with 32% of it
      ([storage_values_attested], [conflicting_roots_accountable]).
    - Construction: operator and aggregator do what their configuration says, with one key
      and for exactly the configured rollups, which are initialized to a mainnet operator
      set ([operator_from_config], [aggregator_from_config], [rollups_initialized]); a
      compiled command line parses back to its configuration ([compile_cmd_roundtrip]);
      the tools send only the transactions they are named after ([cli_actions_calls],
      [plugin_equivalent]).
    - Metrics: they can be enabled once, every callback fits its collector, each counting
      call increments the one counter a table names for it, the others none
      ([metrics_enabled], [calls_counted], [deliveries_exported]);
      the relayer's metrics server never restarts ([restart_panics]).
    - Database: first write wins, aggregations round trip, checkpoint queries return the
      stored range; a second quorum for one key mixes two rows.
    - Operator: the attestor signs only what it received, whichever of header and block
      comes first; everything the operator sends passes the aggregator's check; the resend
      queue refines a functional specification, loses nothing, and drops what is refused
      on ten resends; a dead connection is kept; headers are handed over in order, but shutdown
      can panic ([headers_in_order]); a checkpoint window over two hours is never answered.
    - Operator sets: the delta is right for every iteration order (but its order is not
      canonical), the operator's message takes a rollup from the previous to the new set,
      each update is executed at most once, and a rollup that gets all updates follows
      mainnet from its initialization on.  An update a quorum signs reaches every rollup and
      passes the contract's check there, if no operator has two submissions accepted
      ([operator_set_update_reaches_rollups]).  Whatever the interleaving, a rollup is at a
      mainnet set as long as quorums sign mainnet's updates and the owner does not
      intervene, the broadcaster's goroutines return, and a call of the sequential model is one of their schedules
      ([rollups_track_mainnet], [broadcasts_settle], [update_call_simulated]); but updates
      can overtake each other and goroutines leak at shutdown ([updates_race],
      [errors_leak]).  Operators sign each update at most once, and none after losing the
      subscription ([updates_signed_once], [lost_subscription_silent]).  The sets mainnet's
      update registry answers are those it had, in a chain without gaps, and the rollups
      track them ([updates_chain], [rollups_track_contract]).
    - Consumer: deliveries are settled exactly once and blocks forwarded in order, readiness
      means listening, and losing the connection during a channel setup crashes it.
      Together with the attestor: signed commitments were published, settled deliveries were
      handed over, and a published block can be attested while its header waits ([commitments_published],
      [settled_deliveries_handed_over], [delivered_block_attested]).
    - Ethereum client: a resubscription ends and recovers the logs of the last blocks once
      the node is past the block of the last log, a log is not
      forwarded again while a hundred others have not followed it, and a resubscription
      answered after [Unsubscribe] leaks ([resub_recovers_logs],
      [no_duplicates_within_cache], [late_resub_leaks]).
    - Relayer: every header is handed over exactly once and in order, and headers keep
      flowing as long as the ticker is stopped before it is reset; otherwise they never do
      again ([headers_handed_over_once], [headers_keep_flowing], [late_stop_wedges]).

    ** Not modelled

    Generated contract bindings (contracts/bindings/); methods that only pass a call to a
    generated binding or a library (the [Subscribe] methods of the AVS subscriber, plain
    contract reads, [GetClientAndVersion]), whose answers are arguments of
    the models that use them; the flag tables of the command lines other than the
    relayer's; the parsers of YAML and JSON; logging; the contracts of the middleware, which
    are not part of the repository. *)

From Stdlib Require Export ZArith Lia.
From stdpp Require Export base tactics option list list_numbers sorting gmap fin_maps strings pretty.

#[export] Set Default Goal Selector "!".
Open Scope Z_scope.

(** ** Outcomes of Go functions

    A Go function that returns [(T, error)] is modelled by [res T]: [Ok v] is the
    value with a nil error, [Err e] a non-nil error.  [Panic] is a run-time panic
    (nil dereference, index out of range, explicit [panic]) or a [logger.Fatal],
    after which the process does not continue. *)
Inductive res (E A : Type) : Type :=
| Ok (a : A)
| Err (e : E)
| Panic.
Arguments Ok {E A} a.
Arguments Err {E A} e.
Arguments Panic {E A}.

Definition res_bind {E A B} (r : res E A) (f : A → res E B) : res E B :=
  match r with Ok a => f a | Err e => Err e | Panic => Panic end.

Definition res_map {E A B} (f : A → B) (r : res E A) : res E B :=
  res_bind r (λ a, Ok (f a)).

Declare Scope go_scope.
Delimit Scope go_scope with go.
Notation "'let?' x := c 'in' k" := (res_bind c (λ x, k))
  (at level 200, x pattern, c at level 100, k at level 200) : go_scope.
Open Scope go_scope.

#[export] Instance res_eq_dec {E A} `{EqDecision E, EqDecision A} : EqDecision (res E A).
Proof. solve_decision. Defined.

Definition is_ok {E A} (r : res E A) : bool := match r with Ok _ => true | _ => false end.

(** The value of an outcome that is known to be [Ok]. *)
Definition res_or {E A} (d : A) (r : res E A) : A :=
  match r with Ok a => a | _ => d end.

Lemma res_or_ok {E A} (d : A) (r : res E A) : is_ok r = true → r = Ok (res_or d r).
Proof. by destruct r. Qed.

Lemma res_bind_ok {E A B} (r : res E A) (f : A → res E B) b :
  res_bind r f = Ok b ↔ ∃ a, r = Ok a ∧ f a = Ok b.
Proof. destruct r; simpl; naive_solver. Qed.

Lemma res_map_ok {E A B} (f : A → B) (r : res E A) b :
  res_map f r = Ok b ↔ ∃ a, r = Ok a ∧ b = f a.
Proof. unfold res_map. rewrite res_bind_ok. naive_solver. Qed.

(** [mapM] over [res], in list order, stopping at the first failure. *)
Fixpoint res_mapM {E A B} (f : A → res E B) (l : list A) : res E (list B) :=
  match l with
  | [] => Ok []
  | a :: l => let? b := f a in let? bs := res_mapM f l in Ok (b :: bs)
  end.

Lemma res_mapM_ok {E A B} (f : A → res E B) l bs :
  res_mapM f l = Ok bs ↔ Forall2 (λ a b, f a = Ok b) l bs.
Proof.
  revert bs; induction l as [|a l IH]; intros bs; simpl.
  - split; [intros [= <-]; constructor | intros H; inversion H; done].
  - rewrite res_bind_ok. setoid_rewrite res_bind_ok. setoid_rewrite IH.
    split; [|intros H; inversion H; subst; eauto 8].
    intros (b & Hb & bs' & Hbs & [= <-]). by constructor.
Qed.

(** ** Fixed-width integers *)

(** Go's [uint32] and [uint64] arithmetic wraps modulo the width. *)
Definition u32 (z : Z) : Z := z mod 2 ^ 32.
Definition u64 (z : Z) : Z := z mod 2 ^ 64.
(** The conversion to [int64]. *)
Definition i64 (z : Z) : Z := (z + 2 ^ 63) mod 2 ^ 64 - 2 ^ 63.
Definition max_u64 : Z := 2 ^ 64 - 1.
Definition max_i64 : Z := 2 ^ 63 - 1.

Definition is_u8 (z : Z) : Prop := 0 ≤ z < 256.
Definition is_u32 (z : Z) : Prop := 0 ≤ z < 2 ^ 32.
Definition is_u64 (z : Z) : Prop := 0 ≤ z < 2 ^ 64.

Lemma u32_small z : is_u32 z → u32 z = z.
Proof. unfold is_u32, u32. intros. by apply Z.mod_small. Qed.
Lemma u64_small z : is_u64 z → u64 z = z.
Proof. unfold is_u64, u64. intros. by apply Z.mod_small. Qed.
Lemma i64_small z : 0 ≤ z < 2 ^ 63 → i64 z = z.
Proof. unfold i64. intros. rewrite Z.mod_small; lia. Qed.
Lemma u32_is z : is_u32 (u32 z).
Proof. apply Z.mod_pos_bound. lia. Qed.
Lemma u64_is z : is_u64 (u64 z).
Proof. apply Z.mod_pos_bound. lia. Qed.

(** ** Byte strings, big-endian *)

Notation bytes := (list Z).

(** [binary.BigEndian.PutUint32/64] on an [n]-byte slice. *)
Fixpoint be_encode (n : nat) (z : Z) : bytes :=
  match n with
  | O => []
  | S n => be_encode n (z / 256) ++ [z mod 256]
  end.

(** [binary.BigEndian.Uint32/64], and [big.Int.SetBytes]. *)
Definition be_decode (bs : bytes) : Z := foldl (λ acc b, acc * 256 + b) 0 bs.

Lemma length_be_encode n z : length (be_encode n z) = n.
Proof.
  revert z; induction n as [|n IH]; intros z; simpl; [done|].
  rewrite length_app, IH; simpl; lia.
Qed.

Lemma be_decode_snoc bs b : be_decode (bs ++ [b]) = be_decode bs * 256 + b.
Proof. unfold be_decode. by rewrite foldl_app. Qed.

Lemma be_decode_app a b : be_decode (a ++ b) = be_decode a * 256 ^ Z.of_nat (length b) + be_decode b.
Proof.
  induction b as [|x b IH] using rev_ind; [rewrite app_nil_r; unfold be_decode; simpl; lia|].
  rewrite (assoc_L (++)), !be_decode_snoc, IH, length_app; simpl length.
  rewrite Nat.add_1_r, Nat2Z.inj_succ, Z.pow_succ_r by lia. lia.
Qed.

Lemma be_decode_zeros n : be_decode (replicate n 0) = 0.
Proof. induction n; [done|]. rewrite replicate_S_end, be_decode_snoc. lia. Qed.

Lemma be_decode_encode n z : be_decode (be_encode n z) = z mod 256 ^ Z.of_nat n.
Proof.
  revert z; induction n as [|n IH]; intros z; [by rewrite Z.mod_1_r|].
  cbn [be_encode]. rewrite be_decode_snoc, IH.
  replace (256 ^ Z.of_nat (S n)) with (256 * 256 ^ Z.of_nat n)
    by (rewrite Nat2Z.inj_succ, Z.pow_succ_r; lia).
  rewrite Z.rem_mul_r by (try apply Z.pow_nonzero; lia). lia.
Qed.

Lemma be_encode_bytes n z : Forall is_u8 (be_encode n z).
Proof.
  revert z; induction n as [|n IH]; intros z; simpl; [constructor|].
  apply Forall_app; split; [done|]. constructor; [|constructor].
  apply Z.mod_pos_bound; lia.
Qed.

Lemma be_encode_inj n z1 z2 :
  0 ≤ z1 < 256 ^ Z.of_nat n → 0 ≤ z2 < 256 ^ Z.of_nat n →
  be_encode n z1 = be_encode n z2 → z1 = z2.
Proof.
  intros H1 H2 H. apply (f_equal be_decode) in H.
  rewrite !be_decode_encode in H. by rewrite !Z.mod_small in H by lia.
Qed.

Lemma be_decode_bound bs :
  Forall is_u8 bs → 0 ≤ be_decode bs < 256 ^ Z.of_nat (length bs).
Proof.
  unfold is_u8. induction bs as [|b bs IH] using rev_ind; intros Hbs.
  - unfold be_decode; simpl. lia.
  - rewrite Forall_app, Forall_singleton in Hbs. destruct Hbs as [Hbs Hb].
    specialize (IH Hbs). rewrite be_decode_snoc, length_app; simpl length.
    rewrite Nat.add_1_r, Nat2Z.inj_succ, Z.pow_succ_r by lia.
    lia.
Qed.

Lemma be_encode_decode bs :
  Forall is_u8 bs → be_encode (length bs) (be_decode bs) = bs.
Proof.
  unfold is_u8. induction bs as [|b bs IH] using rev_ind; intros Hbs; [done|].
  rewrite Forall_app, Forall_singleton in Hbs. destruct Hbs as [Hbs Hb].
  rewrite length_app, be_decode_snoc, Nat.add_1_r. cbn [be_encode].
  rewrite Z.div_add_l by lia. rewrite (Z.div_small b 256), Z.add_0_r by lia. rewrite IH by done.
  rewrite Z.add_comm, Z.mod_add, Z.mod_small by lia. done.
Qed.

Lemma be_decode_inj bs1 bs2 :
  Forall is_u8 bs1 → Forall is_u8 bs2 → length bs1 = length bs2 →
  be_decode bs1 = be_decode bs2 → bs1 = bs2.
Proof.
  intros H1 H2 Hl H.
  by rewrite <- (be_encode_decode bs1), <- (be_encode_decode bs2), H, Hl.
Qed.

(** Bit [idx] of a big-endian number is in byte [idx / 8] from the end. *)
Lemma be_decode_testbit bs idx :
  Forall is_u8 bs →
  Z.testbit (be_decode bs) (Z.of_nat idx) =
  if decide (idx / 8 < length bs)%nat
  then Z.testbit (nth (length bs - 1 - idx / 8) bs 0) (Z.of_nat (idx mod 8)) else false.
Proof.
  unfold is_u8. revert idx. induction bs as [|b bs IH] using rev_ind; intros idx Hbs.
  { rewrite decide_False by (simpl; lia). apply Z.testbit_0_l. }
  rewrite Forall_app, Forall_singleton in Hbs. destruct Hbs as [Hbs Hb].
  rewrite be_decode_snoc, length_app; simpl length.
  assert (be_decode bs * 256 + b = be_decode bs * 2 ^ 8 + b) as -> by lia.
  destruct (decide (idx < 8)%nat) as [Hlt|Hge].
  - rewrite Nat.div_small, Nat.mod_small by lia. rewrite decide_True by lia.
    rewrite <- (Z.mod_pow2_bits_low _ 8) by lia.
    rewrite Z.add_comm, Z.mod_add, Z.mod_small by lia. f_equal.
    rewrite app_nth2 by lia. by replace (length bs + 1 - 1 - 0 - length bs)%nat with 0%nat by lia.
  - destruct (Nat.le_exists_sub 8 idx) as (j & -> & _); [lia|].
    rewrite Nat2Z.inj_add, <- Z.div_pow2_bits by lia.
    rewrite Z.div_add_l, (Z.div_small b), Z.add_0_r, IH by (done || lia).
    change (j + 8)%nat with (j + 1 * 8)%nat. rewrite Nat.div_add, Nat.Div0.mod_add by lia.
    repeat case_decide; try (done || lia). f_equal. rewrite app_nth1 by lia. f_equal. lia.
Qed.

#[global] Arguments be_encode : simpl never.
#[global] Arguments be_decode : simpl never.

(** ** Go slices *)

(** The conversion [[32]byte(slice)] panics when the slice is shorter. *)
Definition to_bytes32 {E} (slice : bytes) : res E bytes :=
  if (length slice <? 32)%nat then Panic else Ok (take 32 slice).

(** [s[from:to]] on a slice whose capacity is its length. *)
Definition go_slice {E A} (s : list A) (from to : nat) : res E (list A) :=
  if (from <=? to)%nat && (to <=? length s)%nat then Ok (take (to - from) (drop from s)) else Panic.

Lemma to_bytes32_id {E} bs : length bs = 32%nat → to_bytes32 (E := E) bs = Ok bs.
Proof. intros Hl. unfold to_bytes32. rewrite Hl; simpl. by rewrite take_ge by lia. Qed.

(** ** Sums over finite sets *)

Definition zsum (l : list Z) : Z := foldr Z.add 0 l.

Lemma zsum_perm l1 l2 : l1 ≡ₚ l2 → zsum l1 = zsum l2.
Proof. induction 1; simpl; lia. Qed.

#[export] Instance zsum_proper : Proper ((≡ₚ) ==> (=)) zsum.
Proof. intros l1 l2. apply zsum_perm. Qed.

Definition set_zsum `{Countable K} (f : K → Z) (s : gset K) : Z := zsum (f <$> elements s).

Lemma set_zsum_empty `{Countable K} (f : K → Z) : set_zsum f (∅ : gset K) = 0.
Proof. unfold set_zsum. by rewrite elements_empty. Qed.

Lemma set_zsum_insert `{Countable K} (f : K → Z) (k : K) (s : gset K) :
  k ∉ s → set_zsum f ({[k]} ∪ s) = f k + set_zsum f s.
Proof. intros Hk. unfold set_zsum. by rewrite elements_union_singleton. Qed.

Lemma set_zsum_singleton `{Countable K} (f : K → Z) (k : K) :
  set_zsum f ({[k]} : gset K) = f k.
Proof. unfold set_zsum. rewrite elements_singleton. simpl. lia. Qed.

(** ** Lists *)

Lemma elem_of_nth {A} (i : nat) (l : list A) (d : A) : (i < length l)%nat → nth i l d ∈ l.
Proof. intros Hi. apply list_elem_of_In, nth_In, Hi. Qed.

Lemma filter_id {A} (P : A → Prop) `{∀ x, Decision (P x)} l : Forall P l → filter P l = l.
Proof. induction 1; [done|]. rewrite filter_cons_True by done. by f_equal. Qed.

Lemma zsum_cons x l : zsum (x :: l) = x + zsum l.
Proof. done. Qed.

Lemma zsum_app l1 l2 : zsum (l1 ++ l2) = zsum l1 + zsum l2.
Proof. induction l1; simpl; lia. Qed.

Lemma zsum_nonneg l : Forall (λ z, 0 ≤ z) l → 0 ≤ zsum l.
Proof. induction 1; simpl; lia. Qed.

(** ** Strings with a separator *)

(** [c] does not occur in [s]. *)
Fixpoint lacks (c : Ascii.ascii) (s : string) : Prop :=
  match s with
  | EmptyString => True
  | String a s => a ≠ c ∧ lacks c s
  end.

Lemma lacks_pretty_go c x s : (∀ d, pretty_N_char d ≠ c) → lacks c s → lacks c (pretty_N_go x s).
Proof.
  intros Hc. revert s. induction (N.lt_wf_0 x) as [x _ IH]; intros s Hs.
  assert (x = 0 ∨ 0 < x)%N as [->|Hx] by lia; [by rewrite pretty_N_go_0|].
  rewrite pretty_N_go_step by done. apply IH; [by apply N.div_lt|]. by split.
Qed.

Lemma lacks_pretty_N c (n : N) : (∀ d, pretty_N_char d ≠ c) → lacks c (pretty n).
Proof.
  intros Hc. unfold pretty, pretty_N. case_decide; [split; [apply (Hc 0%N)|done]|]. by apply lacks_pretty_go.
Qed.

(** The parts around the first separator are determined. *)
Lemma split_separator (sep : Ascii.ascii) (a : string) : ∀ b c d : string,
  lacks sep a → lacks sep c → a +:+ String sep b = c +:+ String sep d → a = c ∧ b = d.
Proof.
  induction a as [|x a IH]; intros b [|y c] d Ha Hc Heq; simpl in *.
  - injection Heq as Heq. split; [done|exact Heq].
  - injection Heq as <- _. by destruct Hc as [? _].
  - injection Heq as -> _. by destruct Ha as [? _].
  - injection Heq as -> Heq. destruct Ha, Hc. by destruct (IH b c d) as [-> ->].
Qed.

(** ** Automation *)

(** [len]: lengths of the list operations the model uses. *)
Create HintDb len.
#[export] Hint Rewrite @length_app @length_take @length_drop @length_fmap @length_replicate
  @length_insert length_be_encode : len.
Ltac solve_len := autorewrite with len; simpl; lia.

(** [sffl]: the facts [eauto with sffl] closes routine side conditions with. *)
Create HintDb sffl.
#[export] Hint Resolve u32_is u64_is be_encode_bytes length_be_encode : sffl.

(** Case analysis on the scrutinee of the innermost match of a hypothesis. *)
Ltac case_in Hyp :=
  match type of Hyp with
  | context [match ?x with _ => _ end] =>
      lazymatch x with
      | context [match _ with _ => _ end] => fail
      | _ => destruct x eqn:?
      end
  end.
Ltac inv_case Hyp := repeat (case_in Hyp; simplify_eq/=).
