(* ===== verification/CoreTypes.v ===== *)
(** * Core types: identifiers, Go error values, and the interfaces of the
    cryptographic code the services call

    - the scalar types of [core/types/fields.go] and the constants of
      [aggregator/types/types.go];
    - [GoError], the error values the services create and compare;
    - [BlsOps], [HashOps] and [AbiOps]: the operations the code takes from
      eigensdk-go, x/crypto and go-ethereum, with the laws of [BlsLaws],
      [HashLaws] and [AbiLaws] that later theorems assume;
    - [Toy*]: concrete instances that satisfy every law, used to run the model. *)

From S2P Require Import Prelude.

(** ** Scalars of core/types/fields.go *)

Notation BlockNumber := Z (only parsing).
Notation Timestamp := Z (only parsing).
Notation TaskIndex := Z (only parsing).
Notation RollupId := Z (only parsing).
Notation OperatorSetUpdateId := Z (only parsing).
Notation MessageDigest := (list Z) (only parsing).
Notation MessageKey := (list Z) (only parsing).
Notation OperatorId := (list Z) (only parsing).
Notation QuorumNum := Z (only parsing).
Notation Address := Z (only parsing).

(** we only use a single quorum (quorum 0) for sffl *)
Definition QUORUM_NUMBERS : list QuorumNum := [0].
Definition QUORUM_NUMBERS_BYTES : bytes := [0].

(** ** Constants of aggregator/types/types.go (durations in seconds) *)

Definition TASK_QUORUM_THRESHOLD : Z := 66.
Definition MESSAGE_AGGREGATION_QUORUM_THRESHOLD : Z := 66.
Definition TASK_AGGREGATION_QUORUM_THRESHOLD : Z := 66.
Definition MESSAGE_TTL : Z := 60.
Definition MESSAGE_BLS_AGGREGATION_TIMEOUT : Z := 30.
Definition MESSAGE_SUBMISSION_TIMEOUT : Z := 60.

(** ** Error values *)

Inductive GoError : Type :=
(* aggregator/blsagg/message_blsagg.go *)
| MessageExpiredError
| MessageNotFoundErrorFn (messageDigest : bytes)
| OperatorNotPartOfMessageQuorumErrorFn (operatorId messageDigest : bytes)
| SignatureVerificationError (err : GoError)
| IncorrectSignatureError
| MessageDigestNotFoundError
| QuorumThresholdPercentageOutOfBoundsError
| QuorumThresholdPercentageLessThan51Error
(* aggregator/aggregator.go, RPC errors *)
| DigestError
| TaskResponseDigestError
| GetOperatorSetUpdateBlockError
| OperatorNotFoundError
| InvalidSignatureError
| UnsupportedMessageTypeError
| MessageTimeoutError
(* aggregator/aggregator.go, REST errors *)
| StateRootUpdateNotFoundError
| StateRootAggNotFoundError
| OperatorSetNotFoundError
| OperatorAggNotFoundError
| CheckpointNotFoundError
(* aggregator/rpc_server/server.go *)
| TaskResponseDigestNotFoundError500
| MessageDigestNotFoundError500
| OperatorSetUpdateBlockNotFoundError500
| InvalidSignatureError400
| OperatorNotFoundError400
| MessageExpiredError500
(* operator/attestor, operator/consumer *)
| unknownRollupIdError
| QueueExistsError
| AlreadyClosedError
(* context.Context, net/rpc, net *)
| ContextCanceled
| RpcErrShutdown
| NetOpError
(* an errors.New or fmt.Errorf at the place of use, by its text *)
| NewError (text : string)
(* any other error a library or a remote peer returns *)
| ExternalError (text : string).

#[export] Instance GoError_eq_dec : EqDecision GoError.
Proof. solve_decision. Defined.

Notation go A := (res GoError A).

(** ** BLS signatures (eigensdk-go, crypto/bls)

    [G1Point] is the struct [bls.G1Point], whose only field is a pointer to the affine
    point: [g1_affine_nil] says that this pointer is nil, as it can be in a message that
    a remote peer sent.  Coordinates are the big integers [X.BigInt], [Y.BigInt] (and [A0],
    [A1] for G2); [bls_verify sig pk digest] is [Signature.Verify]. *)
Class BlsOps : Type := {
  G1Point : Type;
  G2Point : Type;
  KeyPair : Type;
  g1_affine_nil : G1Point → bool;
  g1_X : G1Point → Z;
  g1_Y : G1Point → Z;
  g2_X_A0 : G2Point → Z;
  g2_X_A1 : G2Point → Z;
  g2_Y_A0 : G2Point → Z;
  g2_Y_A1 : G2Point → Z;
  fp_modulus : Z;
  NewG1Point : Z → Z → G1Point;
  NewG2Point : (Z * Z) → (Z * Z) → G2Point;
  NewZeroG2Point : G2Point;
  g1_add : G1Point → G1Point → G1Point;
  g2_add : G2Point → G2Point → G2Point;
  bls_verify : G1Point → G2Point → bytes → go bool;
  SignMessage : KeyPair → bytes → G1Point;
  GetPubKeyG1 : KeyPair → G1Point;
  GetPubKeyG2 : KeyPair → G2Point;
  OperatorIdFromG1Pubkey : G1Point → OperatorId;
}.

(** What the services rely on: G2 addition has the zero point as unit, the
    pairing check is additive (the sum of two signatures of one digest verifies
    under the sum of the two keys), a key pair's signature verifies under its
    public key, a check of a signature without an affine point dereferences nil, a point
    built from coordinates is set and has them if they are reduced, and a point that is set
    is determined by its coordinates. *)
Class BlsLaws (B : BlsOps) : Prop := {
  g2_add_zero_l p : g2_add NewZeroG2Point p = p;
  bls_verify_add s1 s2 p1 p2 d :
    bls_verify s1 p1 d = Ok true → bls_verify s2 p2 d = Ok true →
    bls_verify (g1_add s1 s2) (g2_add p1 p2) d = Ok true;
  bls_verify_sign k d : bls_verify (SignMessage k d) (GetPubKeyG2 k) d = Ok true;
  bls_verify_nil s p d : g1_affine_nil s = true → bls_verify s p d = Panic;
  NewG1Point_set x y : g1_affine_nil (NewG1Point x y) = false;
  NewG1Point_X x y : 0 ≤ x < fp_modulus → 0 ≤ y < fp_modulus → g1_X (NewG1Point x y) = x;
  NewG1Point_Y x y : 0 ≤ x < fp_modulus → 0 ≤ y < fp_modulus → g1_Y (NewG1Point x y) = y;
  g1_coords_inj p q : g1_affine_nil p = false → g1_affine_nil q = false → g1_X p = g1_X q → g1_Y p = g1_Y q → p = q;
}.

(** ** Keccak-256 (x/crypto/sha3) *)
Class HashOps : Type := { keccak256 : bytes → bytes }.
Class HashLaws (H : HashOps) : Prop := {
  keccak256_length bs : length (keccak256 bs) = 32%nat;
  keccak256_bytes bs : Forall is_u8 (keccak256 bs);
}.

(** ** Contract ABI encoding (go-ethereum, accounts/abi)

    A value together with the type it is marshalled at: [AUint w z] is a value
    of type [uint<w>], [ABytes32] of [bytes32], [ATuple] of a tuple of the
    components' types and [AArray] of [T[]]; [ANil] is a nil pointer handed to
    the encoder. *)
Inductive AbiVal : Type :=
| AUint (width : Z) (z : Z)
| ABytes32 (bs : bytes)
| ATuple (components : list AbiVal)
| AArray (elements : list AbiVal)
| ANil.

Inductive AbiTy : Type :=
| TUint (width : Z)
| TBytes32
| TTuple (components : list AbiTy)
| TArray (element : AbiTy).

(** [abi_has_ty v t]: [v] is a value of ABI type [t], within its range. *)
Inductive abi_has_ty : AbiVal → AbiTy → Prop :=
| ty_uint w z : 0 ≤ z < 2 ^ w → w ≤ 256 → abi_has_ty (AUint w z) (TUint w)
| ty_bytes32 bs : length bs = 32%nat → Forall is_u8 bs → abi_has_ty (ABytes32 bs) TBytes32
| ty_tuple vs ts : Forall2 abi_has_ty vs ts → abi_has_ty (ATuple vs) (TTuple ts)
| ty_array vs t : Forall (λ v, abi_has_ty v t) vs → Z.of_nat (length vs) < 2 ^ 256 →
    abi_has_ty (AArray vs) (TArray t).

(** [Arguments.Pack]. *)
Class AbiOps : Type := { abi_pack : list AbiVal → go bytes }.

(** Packing values of the argument types succeeds and can be decoded: two lists
    of values of the same types that pack to the same bytes are equal. *)
Class AbiLaws (A : AbiOps) : Prop := {
  abi_pack_total vs ts : Forall2 abi_has_ty vs ts → ∃ bs, abi_pack vs = Ok bs;
  abi_pack_inj vs ws ts bs :
    Forall2 abi_has_ty vs ts → Forall2 abi_has_ty ws ts →
    abi_pack vs = Ok bs → abi_pack ws = Ok bs → vs = ws;
}.
