(* ===== verification/Instances.v ===== *)
(** * Concrete instances of the cryptographic interfaces

    Small executable instances of [BlsOps], [HashOps] and [AbiOps] that satisfy
    every law of [CoreTypes].  They make the model runnable: the theorems are
    proved against the interfaces, and the examples evaluate at these instances. *)

From S2P Require Import Prelude CoreTypes.

(** ** BLS over the integers: a signature of [d] under secret [k] is [k * h d]

    A negative second coordinate stands for a point whose affine pointer is nil. *)
Module ToyBls.

Definition hash_to_scalar (d : bytes) : Z := 1 + be_decode d.

Definition affine_nil (p : Z * Z) : bool := p.2 <? 0.

Definition verify (s : Z * Z) (pk : Z * Z * Z * Z) (d : bytes) : go bool :=
  if affine_nil s then Panic else Ok (bool_decide (s.1 = pk.1.1.1 * hash_to_scalar d)).

Definition add4 (p q : Z * Z * Z * Z) : Z * Z * Z * Z :=
  (p.1.1.1 + q.1.1.1, p.1.1.2 + q.1.1.2, p.1.2 + q.1.2, p.2 + q.2).

Definition ops : BlsOps := {|
  G1Point := Z * Z;
  G2Point := Z * Z * Z * Z;
  KeyPair := Z;
  g1_affine_nil := affine_nil;
  g1_X := fst;
  g1_Y := snd;
  g2_X_A0 p := p.1.1.1;
  g2_X_A1 p := p.1.1.2;
  g2_Y_A0 p := p.1.2;
  g2_Y_A1 p := p.2;
  fp_modulus := 21888242871839275222246405745257275088696311157297823662689037894645226208583;
  NewG1Point x y := (x, Z.abs y);
  NewG2Point x y := (x.1, x.2, y.1, y.2);
  NewZeroG2Point := (0, 0, 0, 0);
  g1_add p q := (p.1 + q.1, p.2 + q.2);
  g2_add := add4;
  bls_verify := verify;
  SignMessage k d := (k * hash_to_scalar d, 0);
  GetPubKeyG1 k := (k, 0);
  GetPubKeyG2 k := (k, 0, 0, 0);
  OperatorIdFromG1Pubkey p := be_encode 32 p.1;
|}.

Lemma bls_laws : BlsLaws ops.
Proof.
  split; simpl.
  - intros [[[a b] c] d]. done.
  - intros [a b] [c d] [[[p ?] ?] ?] [[[q ?] ?] ?] dg. unfold verify, affine_nil; simpl.
    destruct (Z.ltb_spec b 0), (Z.ltb_spec d 0); try done.
    intros [= H1] [= H2]. apply bool_decide_eq_true in H1, H2.
    rewrite (proj2 (Z.ltb_ge (b + d) 0)) by lia. f_equal. apply bool_decide_eq_true. lia.
  - intros k d. unfold verify; simpl. by rewrite bool_decide_true.
  - intros s p d Hs. unfold verify. by rewrite Hs.
  - intros x y. apply Z.ltb_ge. simpl. lia.
  - done.
  - intros x y _ Hy. apply Z.abs_eq. lia.
  - intros [] [] _ _; simpl; by intros -> ->.
Qed.

End ToyBls.

(** ** A 32-byte checksum in place of Keccak-256 *)
Module ToyHash.

Definition ops : HashOps := {| keccak256 bs := be_encode 32 (be_decode (1 :: bs)) |}.

Lemma hash_laws : HashLaws ops.
Proof. split; intros bs; [apply length_be_encode | apply be_encode_bytes]. Qed.

End ToyHash.

(** ** Word-wise ABI encoding, arrays prefixed by their length *)
Module ToyAbi.

Fixpoint enc (v : AbiVal) : bytes :=
  match v with
  | AUint _ z => be_encode 32 z
  | ABytes32 bs => bs
  | ATuple vs => mjoin (enc <$> vs)
  | AArray vs => be_encode 32 (Z.of_nat (length vs)) ++ mjoin (enc <$> vs)
  | ANil => []
  end.

Definition ops : AbiOps := {| abi_pack vs := Ok (mjoin (enc <$> vs)) |}.

Lemma AbiVal_nested_ind (P : AbiVal → Prop) :
  (∀ w z, P (AUint w z)) → (∀ bs, P (ABytes32 bs)) →
  (∀ vs, Forall P vs → P (ATuple vs)) → (∀ vs, Forall P vs → P (AArray vs)) →
  P ANil → ∀ v, P v.
Proof.
  intros Hu Hb Ht Ha Hn. fix IH 1. intros [w z|bs|vs|vs|]; [apply Hu|apply Hb| | |apply Hn].
  - apply Ht. induction vs; constructor; auto.
  - apply Ha. induction vs; constructor; auto.
Qed.

Definition inj_at (v : AbiVal) : Prop := ∀ t w r1 r2,
  abi_has_ty v t → abi_has_ty w t → enc v ++ r1 = enc w ++ r2 → v = w ∧ r1 = r2.

Lemma enc_list_inj vs : Forall inj_at vs → ∀ ts ws r1 r2,
  Forall2 abi_has_ty vs ts → Forall2 abi_has_ty ws ts →
  mjoin (enc <$> vs) ++ r1 = mjoin (enc <$> ws) ++ r2 → vs = ws ∧ r1 = r2.
Proof.
  induction 1 as [|v vs Hv _ IH]; intros ts ws r1 r2 Hvs Hws Heq.
  - inversion Hvs; subst. inversion Hws; subst. done.
  - inversion Hvs as [|? t ? ts' Ht Hts]; subst. inversion Hws as [|w ? ws' ? Hw Hws']; subst.
    simpl in Heq. rewrite <- !(assoc_L (++)) in Heq.
    apply (Hv t) in Heq as [-> Heq]; [|done..].
    by apply (IH ts') in Heq as [-> ->].
Qed.

Lemma words_inj z1 z2 w r1 r2 :
  w ≤ 256 → 0 ≤ z1 < 2 ^ w → 0 ≤ z2 < 2 ^ w →
  be_encode 32 z1 ++ r1 = be_encode 32 z2 ++ r2 → z1 = z2 ∧ r1 = r2.
Proof.
  intros Hw H1 H2 Heq. assert (2 ^ w ≤ 2 ^ 256) as Hp by (apply Z.pow_le_mono_r; lia).
  change (2 ^ 256) with (256 ^ Z.of_nat 32) in Hp.
  apply app_inj_1 in Heq as [Heq ->]; [|by rewrite !length_be_encode].
  apply be_encode_inj in Heq as ->; [done|lia|lia].
Qed.

Lemma Forall_has_ty_replicate vs t :
  Forall (λ v, abi_has_ty v t) vs → Forall2 abi_has_ty vs (replicate (length vs) t).
Proof. induction 1; constructor; done. Qed.

Lemma enc_inj v : inj_at v.
Proof.
  induction v as [w z|bs|vs IH|vs IH|] using AbiVal_nested_ind; intros t u r1 r2 Hv Hu Heq;
    inversion Hv; subst; inversion Hu; subst; cbn [enc] in Heq.
  - eapply (words_inj _ _ w) in Heq as [-> ->]; done.
  - apply app_inj_1 in Heq as [-> ->]; [done|congruence].
  - eapply enc_list_inj in Heq as [-> ->]; done.
  - rewrite <- !(assoc_L (++)) in Heq.
    eapply (words_inj _ _ 256) in Heq as [Hlen Heq]; [|lia..].
    eapply enc_list_inj in Heq as [-> ->]; [done|done|by apply Forall_has_ty_replicate|].
    rewrite (Nat2Z.inj _ _ Hlen). by apply Forall_has_ty_replicate.
Qed.

Lemma abi_laws : AbiLaws ops.
Proof.
  split; simpl; [by eauto|].
  intros vs ws ts bs Hvs Hws [= <-] [= Heq].
  apply (enc_list_inj vs) with (ts := ts) (r1 := []) (r2 := []); [|done..|].
  - apply Forall_true. intros. apply enc_inj.
  - by rewrite Heq.
Qed.

End ToyAbi.
