(* ===== verification/Messages.v ===== *)
(** * Signed messages: core/utils.go and core/types/messages

    The three messages operators sign (state root updates, operator set updates
    and checkpoint task responses), their ABI encoding, digest and key, the
    validity checks the RPC server applies, and the conversions to and from the
    contract bindings.  The two interfaces of the source with methods [Digest]
    and [Key] ([smt.SmtMessage], [blsagg.MessageBlsAggregationServiceMessage])
    are the class [AggMessage]; [ServiceMessage] is the interface value that
    ranges over the three message types. *)

From S2P Require Import Prelude CoreTypes.

(** The bytes of a Go string. *)
Fixpoint string_bytes (s : string) : bytes :=
  match s with
  | EmptyString => []
  | String a s => Z.of_N (Ascii.N_of_ascii a) :: string_bytes s
  end.

(** ** Contract bindings used by the messages *)

Record BN254G1Point := mkBN254G1Point { bn_X : Z; bn_Y : Z }.
Record BN254G2Point := mkBN254G2Point { bn2_X : Z * Z; bn2_Y : Z * Z }.

(** [RollupOperatorsOperator]; the weight is a [*big.Int]. *)
Record RollupOperatorsOperator := mkBindingOperator {
  bo_Pubkey : BN254G1Point;
  bo_Weight : option Z }.

Record OperatorSetUpdateBinding := mkOsuBinding {
  osb_Id : Z;
  osb_Timestamp : Z;
  osb_Operators : list RollupOperatorsOperator }.

#[export] Instance BN254G1Point_eq_dec : EqDecision BN254G1Point.
Proof. solve_decision. Defined.
#[export] Instance RollupOperatorsOperator_eq_dec : EqDecision RollupOperatorsOperator.
Proof. solve_decision. Defined.

(** ** The message structs *)

Record StateRootUpdateMessage := mkStateRootUpdate {
  sru_RollupId : RollupId;
  sru_BlockHeight : BlockNumber;
  sru_Timestamp : Timestamp;
  sru_NearDaTransactionId : bytes;
  sru_NearDaCommitment : bytes;
  sru_StateRoot : bytes }.

#[export] Instance StateRootUpdateMessage_eq_dec : EqDecision StateRootUpdateMessage.
Proof. solve_decision. Defined.

Record CheckpointTaskResponse := mkCheckpointTaskResponse {
  ctr_ReferenceTaskIndex : TaskIndex;
  ctr_StateRootUpdatesRoot : bytes;
  ctr_OperatorSetUpdatesRoot : bytes }.

#[export] Instance CheckpointTaskResponse_eq_dec : EqDecision CheckpointTaskResponse.
Proof. solve_decision. Defined.

Section Messages.
Context `{B : BlsOps} `{H : HashOps} `{A : AbiOps}.

(** [coretypes.RollupOperator]: two pointers, either of which a remote peer can
    leave nil; so is the affine point inside [G1Point] ([g1_affine_nil]). *)
Record RollupOperator := mkRollupOperator {
  ro_Pubkey : option G1Point;
  ro_Weight : option Z }.

Record OperatorSetUpdateMessage := mkOperatorSetUpdate {
  osu_Id : OperatorSetUpdateId;
  osu_Timestamp : Timestamp;
  osu_Operators : list RollupOperator }.

(** Signed messages; [bls.Signature] embeds a [*G1Point], which embeds the affine point. *)
Record SignedStateRootUpdateMessage := mkSignedStateRootUpdate {
  ssru_Message : StateRootUpdateMessage;
  ssru_BlsSignature : option G1Point;
  ssru_OperatorId : OperatorId }.

Record SignedOperatorSetUpdateMessage := mkSignedOperatorSetUpdate {
  sosu_Message : OperatorSetUpdateMessage;
  sosu_BlsSignature : option G1Point;
  sosu_OperatorId : OperatorId }.

Record SignedCheckpointTaskResponse := mkSignedCheckpointTaskResponse {
  sctr_TaskResponse : CheckpointTaskResponse;
  sctr_BlsSignature : option G1Point;
  sctr_OperatorId : OperatorId }.

(** ** core/utils.go *)

Definition Keccak256 (data : bytes) : bytes := take 32 (keccak256 data).

Definition HashMessageWithPrefix (prefix data : bytes) : go bytes :=
  let prefixHash := Keccak256 prefix in
  let dataHash := Keccak256 data in
  let? bs := abi_pack [ABytes32 prefixHash; ABytes32 dataHash] in
  Ok (Keccak256 bs).

(** The points converted here are keys the library built and signatures that were verified,
    so their affine points are set. *)
Definition ConvertToBN254G1Point (input : G1Point) : BN254G1Point :=
  mkBN254G1Point (g1_X input) (g1_Y input).

Definition ConvertToBN254G2Point (input : G2Point) : BN254G2Point :=
  mkBN254G2Point (g2_X_A1 input, g2_X_A0 input) (g2_Y_A1 input, g2_Y_A0 input).

Definition HashBNG1Point (input : BN254G1Point) : go bytes :=
  let? bs := abi_pack [ATuple [AUint 256 (bn_X input); AUint 256 (bn_Y input)]] in
  Ok (Keccak256 bs).

Definition ConvertBytesToQuorumNumbers (input : bytes) : list QuorumNum :=
  (λ b, b) <$> input.

(** ** State root updates *)

Definition sru_IsValid (s : option SignedStateRootUpdateMessage) : go unit :=
  match s with
  | None => Err (NewError "SignedStateRootUpdateMessage is nil")
  | Some s =>
      match ssru_BlsSignature s with
      | None => Err (NewError "BlsSignature.G1Point is nil")
      | Some _ => Ok tt
      end
  end.

Definition sru_abi (msg : StateRootUpdateMessage) : AbiVal :=
  ATuple [AUint 32 (sru_RollupId msg); AUint 64 (sru_BlockHeight msg);
          AUint 64 (sru_Timestamp msg); ABytes32 (sru_NearDaTransactionId msg);
          ABytes32 (sru_NearDaCommitment msg); ABytes32 (sru_StateRoot msg)].

Definition sru_AbiEncode (msg : StateRootUpdateMessage) : go bytes :=
  abi_pack [sru_abi msg].

Definition sru_prefix : bytes := string_bytes "SFFL::StateRootUpdateMessage".

Definition sru_Digest (msg : StateRootUpdateMessage) : go MessageDigest :=
  let? data := sru_AbiEncode msg in HashMessageWithPrefix sru_prefix data.

(** [binary.BigEndian.PutUint32(key[20:24], ...)] then
    [PutUint64(key[24:32], ...)] on a zeroed 32-byte array. *)
Definition sru_Key (msg : StateRootUpdateMessage) : MessageKey :=
  list_inserts 24 (be_encode 8 (sru_BlockHeight msg))
    (list_inserts 20 (be_encode 4 (sru_RollupId msg)) (replicate 32 0)).

Definition HasNearDaCommitment (msg : StateRootUpdateMessage) : bool :=
  negb (bool_decide (sru_NearDaCommitment msg = replicate 32 0)) &&
  negb (bool_decide (sru_NearDaTransactionId msg = replicate 32 0)).

(** ** Operator set updates *)

Fixpoint osu_check_operators (ops : list RollupOperator) : go unit :=
  match ops with
  | [] => Ok tt
  | op :: ops =>
      match ro_Pubkey op, ro_Weight op with
      | None, _ => Err (NewError "Operator.Pubkey is nil")
      | Some _, None => Err (NewError "Operator.Weight is nil")
      | Some _, Some _ => osu_check_operators ops
      end
  end.

Definition osu_IsValid (s : option SignedOperatorSetUpdateMessage) : go unit :=
  match s with
  | None => Err (NewError "SignedOperatorSetUpdateMessage is nil")
  | Some s =>
      match sosu_BlsSignature s with
      | None => Err (NewError "BlsSignature.G1Point is nil")
      | Some _ => osu_check_operators (osu_Operators (sosu_Message s))
      end
  end.

Definition NewOperatorSetUpdateMessageFromBinding (binding : OperatorSetUpdateBinding)
    : OperatorSetUpdateMessage :=
  mkOperatorSetUpdate (osb_Id binding) (osb_Timestamp binding)
    ((λ op, mkRollupOperator
              (Some (NewG1Point (bn_X (bo_Pubkey op)) (bn_Y (bo_Pubkey op))))
              (bo_Weight op)) <$> osb_Operators binding).

(** [operator.Pubkey.X] dereferences the public key and the affine point inside it. *)
Definition operator_to_binding (op : RollupOperator) : go RollupOperatorsOperator :=
  match ro_Pubkey op with
  | None => Panic
  | Some pk =>
      if g1_affine_nil pk then Panic
      else Ok (mkBindingOperator (mkBN254G1Point (g1_X pk) (g1_Y pk)) (ro_Weight op))
  end.

Definition osu_ToBinding (msg : OperatorSetUpdateMessage) : go OperatorSetUpdateBinding :=
  let? operators := res_mapM operator_to_binding (osu_Operators msg) in
  Ok (mkOsuBinding (osu_Id msg) (osu_Timestamp msg) operators).

Definition binding_operator_abi (op : RollupOperatorsOperator) : AbiVal :=
  ATuple [ATuple [AUint 256 (bn_X (bo_Pubkey op)); AUint 256 (bn_Y (bo_Pubkey op))];
          match bo_Weight op with Some w => AUint 128 w | None => ANil end].

Definition osu_binding_abi (b : OperatorSetUpdateBinding) : AbiVal :=
  ATuple [AUint 64 (osb_Id b); AUint 64 (osb_Timestamp b);
          AArray (binding_operator_abi <$> osb_Operators b)].

Definition osu_AbiEncode (msg : OperatorSetUpdateMessage) : go bytes :=
  let? b := osu_ToBinding msg in abi_pack [osu_binding_abi b].

Definition osu_prefix : bytes := string_bytes "SFFL::OperatorSetUpdateMessage".

Definition osu_Digest (msg : OperatorSetUpdateMessage) : go MessageDigest :=
  let? data := osu_AbiEncode msg in HashMessageWithPrefix osu_prefix data.

Definition osu_Key (msg : OperatorSetUpdateMessage) : MessageKey :=
  list_inserts 24 (be_encode 8 (osu_Id msg)) (replicate 32 0).

(** ** Checkpoint task responses *)

Definition ctr_IsValid (s : option SignedCheckpointTaskResponse) : go unit :=
  match s with
  | None => Err (NewError "SignedCheckpointTaskResponse is nil")
  | Some s =>
      match sctr_BlsSignature s with
      | None => Err (NewError "BlsSignature.G1Point is nil")
      | Some _ => Ok tt
      end
  end.

Definition ctr_abi (msg : CheckpointTaskResponse) : AbiVal :=
  ATuple [AUint 32 (ctr_ReferenceTaskIndex msg);
          ABytes32 (ctr_StateRootUpdatesRoot msg);
          ABytes32 (ctr_OperatorSetUpdatesRoot msg)].

Definition ctr_AbiEncode (msg : CheckpointTaskResponse) : go bytes :=
  abi_pack [ctr_abi msg].

Definition ctr_prefix : bytes := string_bytes "SFFL::CheckpointTaskResponse".

Definition ctr_Digest (msg : CheckpointTaskResponse) : go MessageDigest :=
  let? data := ctr_AbiEncode msg in HashMessageWithPrefix ctr_prefix data.

Definition ctr_Key (msg : CheckpointTaskResponse) : MessageKey :=
  list_inserts 28 (be_encode 4 (ctr_ReferenceTaskIndex msg)) (replicate 32 0).

Definition CheckpointTaskResponseKeyToTaskIndex (key : MessageKey) : TaskIndex :=
  be_decode (take 4 (drop 28 key)).

(** ** The interface values *)

Class AggMessage (M : Type) : Type := {
  msg_Digest : M → go MessageDigest;
  msg_Key : M → MessageKey;
}.

Inductive ServiceMessage : Type :=
| MsgStateRootUpdate (m : StateRootUpdateMessage)
| MsgOperatorSetUpdate (m : OperatorSetUpdateMessage)
| MsgCheckpointTaskResponse (m : CheckpointTaskResponse).

#[export] Instance StateRootUpdate_AggMessage : AggMessage StateRootUpdateMessage :=
  {| msg_Digest := sru_Digest; msg_Key := sru_Key |}.
#[export] Instance OperatorSetUpdate_AggMessage : AggMessage OperatorSetUpdateMessage :=
  {| msg_Digest := osu_Digest; msg_Key := osu_Key |}.
#[export] Instance CheckpointTaskResponse_AggMessage : AggMessage CheckpointTaskResponse :=
  {| msg_Digest := ctr_Digest; msg_Key := ctr_Key |}.

#[export] Instance ServiceMessage_AggMessage : AggMessage ServiceMessage := {|
  msg_Digest m :=
    match m with
    | MsgStateRootUpdate m => sru_Digest m
    | MsgOperatorSetUpdate m => osu_Digest m
    | MsgCheckpointTaskResponse m => ctr_Digest m
    end;
  msg_Key m :=
    match m with
    | MsgStateRootUpdate m => sru_Key m
    | MsgOperatorSetUpdate m => osu_Key m
    | MsgCheckpointTaskResponse m => ctr_Key m
    end |}.

(** ** Aggregations *)

Record MessageBlsAggregation := mkMessageBlsAggregation {
  mba_EthBlockNumber : BlockNumber;
  mba_MessageDigest : MessageDigest;
  mba_NonSignersPubkeysG1 : list G1Point;
  mba_QuorumApksG1 : list (option G1Point);
  mba_SignersApkG2 : option G2Point;
  mba_SignersAggSigG1 : option G1Point;
  mba_NonSignerQuorumBitmapIndices : list Z;
  mba_QuorumApkIndices : list Z;
  mba_TotalStakeIndices : list Z;
  mba_NonSignerStakeIndices : list (list Z) }.

Record NonSignerStakesAndSignature := mkNonSignerStakes {
  nss_NonSignerQuorumBitmapIndices : list Z;
  nss_NonSignerPubkeys : list BN254G1Point;
  nss_QuorumApks : list BN254G1Point;
  nss_ApkG2 : BN254G2Point;
  nss_Sigma : BN254G1Point;
  nss_QuorumApkIndices : list Z;
  nss_TotalStakeIndices : list Z;
  nss_NonSignerStakeIndices : list (list Z) }.

Record RollupOperatorsSignatureInfo := mkSignatureInfo {
  rsi_NonSignerPubkeys : list BN254G1Point;
  rsi_ApkG2 : BN254G2Point;
  rsi_Sigma : BN254G1Point }.

Definition go_deref {T} (p : option T) : go T :=
  match p with Some v => Ok v | None => Panic end.

Definition ExtractBindingMainnet (msg : MessageBlsAggregation) : go NonSignerStakesAndSignature :=
  let nonSignersPubkeys := ConvertToBN254G1Point <$> mba_NonSignersPubkeysG1 msg in
  let? quorumApks := res_mapM (λ apk, res_map ConvertToBN254G1Point (go_deref apk))
                       (mba_QuorumApksG1 msg) in
  let? apkG2 := go_deref (mba_SignersApkG2 msg) in
  let? sigma := go_deref (mba_SignersAggSigG1 msg) in
  Ok {| nss_NonSignerQuorumBitmapIndices := mba_NonSignerQuorumBitmapIndices msg;
        nss_NonSignerPubkeys := nonSignersPubkeys;
        nss_QuorumApks := quorumApks;
        nss_ApkG2 := ConvertToBN254G2Point apkG2;
        nss_Sigma := ConvertToBN254G1Point sigma;
        nss_QuorumApkIndices := mba_QuorumApkIndices msg;
        nss_TotalStakeIndices := mba_TotalStakeIndices msg;
        nss_NonSignerStakeIndices := mba_NonSignerStakeIndices msg |}.

Definition ExtractBindingRollup (msg : MessageBlsAggregation) : go RollupOperatorsSignatureInfo :=
  let nonSignersPubkeys := ConvertToBN254G1Point <$> mba_NonSignersPubkeysG1 msg in
  let? apkG2 := go_deref (mba_SignersApkG2 msg) in
  let? sigma := go_deref (mba_SignersAggSigG1 msg) in
  Ok {| rsi_NonSignerPubkeys := nonSignersPubkeys;
        rsi_ApkG2 := ConvertToBN254G2Point apkG2;
        rsi_Sigma := ConvertToBN254G1Point sigma |}.

Record CheckpointMessages := mkCheckpointMessages {
  cm_StateRootUpdateMessages : list StateRootUpdateMessage;
  cm_StateRootUpdateMessageAggregations : list MessageBlsAggregation;
  cm_OperatorSetUpdateMessages : list OperatorSetUpdateMessage;
  cm_OperatorSetUpdateMessageAggregations : list MessageBlsAggregation }.

End Messages.
