(* ===== verification/MessagesTheory.v ===== *)
(** * Properties of the signed messages

    Keys identify what they are meant to identify, a digest commits to the
    message and to its type (up to an exhibited Keccak collision), and the
    validity checks of the RPC server rule out the nil dereferences of the
    conversions. *)

From S2P Require Import Prelude CoreTypes Instances Messages.

(** ** Well-formed messages: fields within their Go types *)

Definition is_bytes32 (bs : bytes) : Prop := length bs = 32%nat ∧ Forall is_u8 bs.

Definition sru_wf (m : StateRootUpdateMessage) : Prop :=
  is_u32 (sru_RollupId m) ∧ is_u64 (sru_BlockHeight m) ∧ is_u64 (sru_Timestamp m) ∧
  is_bytes32 (sru_NearDaTransactionId m) ∧ is_bytes32 (sru_NearDaCommitment m) ∧
  is_bytes32 (sru_StateRoot m).

Definition ctr_wf (m : CheckpointTaskResponse) : Prop :=
  is_u32 (ctr_ReferenceTaskIndex m) ∧ is_bytes32 (ctr_StateRootUpdatesRoot m) ∧
  is_bytes32 (ctr_OperatorSetUpdatesRoot m).

Section Theory.
Context `{B : BlsOps} `{H : HashOps} `{A : AbiOps}.
Context {BL : BlsLaws B} {HL : HashLaws H} {AL : AbiLaws A}.

Definition operator_wf (op : RollupOperator) : Prop :=
  match ro_Pubkey op, ro_Weight op with
  | Some pk, Some w => g1_affine_nil pk = false ∧ 0 ≤ g1_X pk < 2 ^ 256 ∧ 0 ≤ g1_Y pk < 2 ^ 256 ∧ 0 ≤ w < 2 ^ 128
  | _, _ => False
  end.

Definition osu_wf (m : OperatorSetUpdateMessage) : Prop :=
  is_u64 (osu_Id m) ∧ is_u64 (osu_Timestamp m) ∧ Forall operator_wf (osu_Operators m) ∧
  Z.of_nat (length (osu_Operators m)) < 2 ^ 256.

Definition service_wf (m : ServiceMessage) : Prop :=
  match m with
  | MsgStateRootUpdate m => sru_wf m
  | MsgOperatorSetUpdate m => osu_wf m
  | MsgCheckpointTaskResponse m => ctr_wf m
  end.

(** ** Keys *)

Lemma length_list_inserts_app (i : nat) (k : bytes) (l : bytes) :
  (i + length k ≤ length l)%nat →
  list_inserts i k l = take i l ++ k ++ drop (i + length k) l.
Proof.
  intros Hl. apply list_eq. intros j.
  destruct (decide (j < i)%nat).
  { rewrite list_lookup_inserts_lt by done.
    rewrite lookup_app_l by solve_len. by rewrite lookup_take_lt. }
  destruct (decide (j < i + length k)%nat).
  { rewrite list_lookup_inserts by lia.
    rewrite lookup_app_r by solve_len.
    rewrite length_take, Nat.min_l by lia. by rewrite lookup_app_l by lia. }
  rewrite list_lookup_inserts_ge by lia.
  rewrite lookup_app_r by solve_len.
  rewrite length_take, Nat.min_l by lia. rewrite lookup_app_r by lia.
  rewrite lookup_drop. f_equal. lia.
Qed.

Lemma sru_Key_layout (m : StateRootUpdateMessage) :
  sru_Key m = replicate 20 0 ++ be_encode 4 (sru_RollupId m) ++ be_encode 8 (sru_BlockHeight m).
Proof.
  unfold sru_Key. rewrite (length_list_inserts_app 20), length_be_encode by solve_len.
  change (take 20 (replicate 32 0)) with (replicate 20 0).
  change (drop (20 + 4) (replicate 32 0)) with (replicate 8 0).
  rewrite length_list_inserts_app by solve_len.
  rewrite drop_ge, app_nil_r by solve_len.
  rewrite (assoc_L (++) (replicate 20 0) (be_encode 4 _)).
  rewrite take_app_length' by solve_len. by rewrite (assoc_L (++)).
Qed.

Lemma osu_Key_layout (m : OperatorSetUpdateMessage) :
  osu_Key m = replicate 24 0 ++ be_encode 8 (osu_Id m).
Proof.
  unfold osu_Key. rewrite length_list_inserts_app by solve_len.
  rewrite drop_ge, app_nil_r by solve_len. done.
Qed.

Lemma ctr_Key_layout (m : CheckpointTaskResponse) :
  ctr_Key m = replicate 28 0 ++ be_encode 4 (ctr_ReferenceTaskIndex m).
Proof.
  unfold ctr_Key. rewrite length_list_inserts_app by solve_len.
  rewrite drop_ge, app_nil_r by solve_len. done.
Qed.

Lemma msg_Key_length (m : ServiceMessage) : length (msg_Key m) = 32%nat.
Proof.
  destruct m; cbn [msg_Key ServiceMessage_AggMessage];
    rewrite ?sru_Key_layout, ?osu_Key_layout, ?ctr_Key_layout,
      !length_app, !length_be_encode; done.
Qed.

Lemma sru_Key_inj_lemma (m1 m2 : StateRootUpdateMessage) :
  sru_wf m1 → sru_wf m2 →
  sru_Key m1 = sru_Key m2 ↔
  sru_RollupId m1 = sru_RollupId m2 ∧ sru_BlockHeight m1 = sru_BlockHeight m2.
Proof.
  intros (Hr1 & Hh1 & _) (Hr2 & Hh2 & _). rewrite !sru_Key_layout. split.
  - intros Heq. apply app_inv_head in Heq.
    apply app_inj_1 in Heq as [Hr Hh]; [|solve_len].
    split; [eapply (be_encode_inj 4); done | eapply (be_encode_inj 8); done].
  - by intros [-> ->].
Qed.

Lemma ctr_Key_roundtrip_lemma (m : CheckpointTaskResponse) :
  is_u32 (ctr_ReferenceTaskIndex m) →
  CheckpointTaskResponseKeyToTaskIndex (ctr_Key m) = ctr_ReferenceTaskIndex m.
Proof.
  intros Hm. unfold CheckpointTaskResponseKeyToTaskIndex. rewrite ctr_Key_layout.
  rewrite drop_app_length' by done.
  rewrite take_ge by solve_len.
  rewrite be_decode_encode. by apply Z.mod_small.
Qed.

(** ** Digests *)

Lemma Keccak256_eq data : Keccak256 data = keccak256 data.
Proof. unfold Keccak256. apply take_ge. rewrite keccak256_length. lia. Qed.

Lemma Keccak256_abi data : abi_has_ty (ABytes32 (Keccak256 data)) TBytes32.
Proof. rewrite Keccak256_eq. constructor; [apply keccak256_length | apply keccak256_bytes]. Qed.

(** The two strings a message hashes before the outer hash, and the outer string. *)
Definition hash_inputs (m : ServiceMessage) : bytes * go bytes :=
  match m with
  | MsgStateRootUpdate m => (sru_prefix, sru_AbiEncode m)
  | MsgOperatorSetUpdate m => (osu_prefix, osu_AbiEncode m)
  | MsgCheckpointTaskResponse m => (ctr_prefix, ctr_AbiEncode m)
  end.

Definition outer_input (prefix data : bytes) : go bytes :=
  abi_pack [ABytes32 (Keccak256 prefix); ABytes32 (Keccak256 data)].

(** The pairs of strings that two messages hash at the same place. *)
Definition hashed_pairs (m1 m2 : ServiceMessage) : list (bytes * bytes) :=
  match hash_inputs m1, hash_inputs m2 with
  | (p1, Ok d1), (p2, Ok d2) =>
      [(p1, p2); (d1, d2)] ++
      match outer_input p1 d1, outer_input p2 d2 with
      | Ok o1, Ok o2 => [(o1, o2)]
      | _, _ => []
      end
  | _, _ => []
  end.

Definition keccak_collision (p : bytes * bytes) : Prop :=
  p.1 ≠ p.2 ∧ keccak256 p.1 = keccak256 p.2.

Lemma msg_Digest_inputs (m : ServiceMessage) d :
  msg_Digest m = Ok d ↔
  ∃ data o, (hash_inputs m).2 = Ok data ∧ outer_input (hash_inputs m).1 data = Ok o ∧
            d = keccak256 o.
Proof.
  assert (∀ p (r : go bytes),
    (let? data := r in HashMessageWithPrefix p data) = Ok d ↔
    ∃ data o, r = Ok data ∧ outer_input p data = Ok o ∧ d = keccak256 o) as Hgen.
  { intros p r. rewrite res_bind_ok. unfold HashMessageWithPrefix, outer_input.
    setoid_rewrite res_bind_ok. setoid_rewrite Keccak256_eq. naive_solver. }
  destruct m; apply Hgen.
Qed.

Lemma hash_eq_or_collision x y :
  keccak256 x = keccak256 y → x = y ∨ keccak_collision (x, y).
Proof. intros. destruct (decide (x = y)); [by left|right; by split]. Qed.

(** Equal digests: equal prefixes and encodings, or a collision among the
    strings that were hashed. *)
Lemma digest_inputs_binding (m1 m2 : ServiceMessage) d :
  msg_Digest m1 = Ok d → msg_Digest m2 = Ok d →
  (hash_inputs m1 = hash_inputs m2) ∨ Exists keccak_collision (hashed_pairs m1 m2).
Proof.
  rewrite !msg_Digest_inputs. intros (d1 & o1 & Hd1 & Ho1 & ->) (d2 & o2 & Hd2 & Ho2 & Ho).
  unfold hashed_pairs. destruct (hash_inputs m1) as [p1 r1], (hash_inputs m2) as [p2 r2].
  simpl in *; subst. rewrite Ho1, Ho2.
  destruct (hash_eq_or_collision _ _ Ho) as [->|Hc].
  2:{ right. right. right. by left. }
  assert ([ABytes32 (Keccak256 p1); ABytes32 (Keccak256 d1)] =
          [ABytes32 (Keccak256 p2); ABytes32 (Keccak256 d2)]) as Hpack.
  { apply (abi_pack_inj _ _ [TBytes32; TBytes32] o2); [..|done|done];
      repeat apply Forall2_cons_2; auto using Keccak256_abi, Forall2_nil_2. }
  injection Hpack as Hp Hd. rewrite !Keccak256_eq in Hp, Hd.
  destruct (hash_eq_or_collision _ _ Hp) as [->|Hc]; [|right; by left].
  destruct (hash_eq_or_collision _ _ Hd) as [->|Hc]; [by left|right; by right; left].
Qed.

Lemma hash_inputs_prefix_inj (m1 m2 : ServiceMessage) :
  (hash_inputs m1).1 = (hash_inputs m2).1 →
  match m1, m2 with
  | MsgStateRootUpdate _, MsgStateRootUpdate _
  | MsgOperatorSetUpdate _, MsgOperatorSetUpdate _
  | MsgCheckpointTaskResponse _, MsgCheckpointTaskResponse _ => True
  | _, _ => False
  end.
Proof. destruct m1, m2; simpl; intros Heq; try done; vm_compute in Heq; done. Qed.

Definition sru_ty : AbiTy := TTuple [TUint 32; TUint 64; TUint 64; TBytes32; TBytes32; TBytes32].
Definition ctr_ty : AbiTy := TTuple [TUint 32; TBytes32; TBytes32].
Definition operator_ty : AbiTy := TTuple [TTuple [TUint 256; TUint 256]; TUint 128].
Definition osu_ty : AbiTy := TTuple [TUint 64; TUint 64; TArray operator_ty].

Lemma sru_abi_ty m : sru_wf m → abi_has_ty (sru_abi m) sru_ty.
Proof.
  intros (? & ? & ? & [] & [] & []). repeat constructor; unfold is_u32, is_u64 in *; try done; lia.
Qed.

Lemma ctr_abi_ty m : ctr_wf m → abi_has_ty (ctr_abi m) ctr_ty.
Proof. intros (? & [] & []). repeat constructor; unfold is_u32 in *; try done; lia. Qed.

Lemma operator_to_binding_wf op :
  operator_wf op → ∃ b, operator_to_binding op = Ok b ∧ abi_has_ty (binding_operator_abi b) operator_ty.
Proof.
  destruct op as [[pk|] [w|]]; unfold operator_wf; simpl; try done.
  intros (Hn & ? & ? & ?). unfold operator_to_binding; simpl. rewrite Hn.
  eexists; split; [done|]. repeat constructor; simpl; lia.
Qed.

Lemma operators_to_binding_wf ops :
  Forall operator_wf ops →
  ∃ bs, res_mapM operator_to_binding ops = Ok bs ∧ length bs = length ops ∧
        Forall (λ v, abi_has_ty v operator_ty) (binding_operator_abi <$> bs).
Proof.
  induction 1 as [|op ops Hop _ (bs & Hbs & Hlen & IH)]; simpl; [by exists []|].
  destruct (operator_to_binding_wf op Hop) as (b & Hb & Hty).
  rewrite Hb, Hbs; simpl. exists (b :: bs); simpl. split_and!; auto.
Qed.

Lemma osu_ToBinding_wf m :
  osu_wf m → ∃ b, osu_ToBinding m = Ok b ∧ abi_has_ty (osu_binding_abi b) osu_ty.
Proof.
  intros (Hid & Hts & Hops & Hlen). unfold osu_ToBinding.
  destruct (operators_to_binding_wf _ Hops) as (bs & -> & Hl & Hty).
  eexists; split; [done|]. unfold is_u64 in *.
  repeat constructor; simpl; try lia; [done|]. rewrite length_fmap. lia.
Qed.

Lemma binding_operator_abi_inj b1 b2 :
  binding_operator_abi b1 = binding_operator_abi b2 → b1 = b2.
Proof.
  destruct b1 as [[x1 y1] [w1|]], b2 as [[x2 y2] [w2|]]; unfold binding_operator_abi; simpl;
    naive_solver.
Qed.

Lemma osu_binding_abi_inj b1 b2 : osu_binding_abi b1 = osu_binding_abi b2 → b1 = b2.
Proof.
  destruct b1 as [i1 t1 l1], b2 as [i2 t2 l2]; unfold osu_binding_abi; simpl.
  intros [= -> -> Hl]. f_equal.
  assert (Inj (=) (=) binding_operator_abi) by (intros ??; apply binding_operator_abi_inj).
  by apply (inj (fmap binding_operator_abi)).
Qed.

Lemma operator_to_binding_inj op1 op2 b :
  operator_to_binding op1 = Ok b → operator_to_binding op2 = Ok b → op1 = op2.
Proof.
  destruct op1 as [[p1|] w1], op2 as [[p2|] w2]; unfold operator_to_binding; simpl; try done.
  destruct (g1_affine_nil p1) eqn:H1, (g1_affine_nil p2) eqn:H2; try done.
  intros [= <-] [= Hx Hy ->]. f_equal. f_equal. by apply g1_coords_inj.
Qed.

Lemma osu_ToBinding_inj m1 m2 b :
  osu_ToBinding m1 = Ok b → osu_ToBinding m2 = Ok b → m1 = m2.
Proof.
  destruct m1 as [i1 t1 l1], m2 as [i2 t2 l2]; unfold osu_ToBinding; simpl.
  intros (bs & Hbs & [= <-])%res_bind_ok (cs & Hcs & [= -> -> ->])%res_bind_ok.
  f_equal. apply res_mapM_ok in Hbs, Hcs. revert l2 Hcs.
  induction Hbs as [|o b l1 bs Hob _ IH]; intros l2 Hcs; inversion Hcs; subst; [done|].
  f_equal; [by eapply operator_to_binding_inj|by apply IH].
Qed.

Lemma packed_inj v w t r bs :
  abi_has_ty v t → abi_has_ty w t → abi_pack [v] = r → abi_pack [w] = r → r = Ok bs → v = w.
Proof.
  intros Hv Hw Hpv Hpw ->.
  assert ([v] = [w]) as [= ->]; [|done].
  apply (abi_pack_inj _ _ [t] bs); auto using Forall2_cons_2, Forall2_nil_2.
Qed.

Lemma sru_abi_inj m1 m2 : sru_abi m1 = sru_abi m2 → m1 = m2.
Proof. destruct m1, m2. unfold sru_abi; simpl. congruence. Qed.

Lemma ctr_abi_inj m1 m2 : ctr_abi m1 = ctr_abi m2 → m1 = m2.
Proof. destruct m1, m2. unfold ctr_abi; simpl. congruence. Qed.

(** The encodings of two well-formed messages of one type are equal only for
    equal messages. *)
Lemma hash_inputs_inj (m1 m2 : ServiceMessage) bs :
  service_wf m1 → service_wf m2 → hash_inputs m1 = hash_inputs m2 →
  (hash_inputs m1).2 = Ok bs → m1 = m2.
Proof.
  intros Hw1 Hw2 Heq Hbs. pose proof (hash_inputs_prefix_inj m1 m2) as Hp.
  rewrite Heq in Hp. specialize (Hp eq_refl). rewrite Heq in Hbs.
  destruct m1 as [m1|m1|m1], m2 as [m2|m2|m2]; try done; simpl in *; injection Heq as Heq; f_equal.
  - apply sru_abi_inj. eapply packed_inj; eauto using sru_abi_ty.
  - destruct (osu_ToBinding_wf _ Hw1) as (b1 & Hb1 & Ht1), (osu_ToBinding_wf _ Hw2) as (b2 & Hb2 & Ht2).
    unfold osu_AbiEncode in *. rewrite Hb1, Hb2 in *; simpl in *.
    eapply osu_ToBinding_inj; [done|]. rewrite Hb2. f_equal.
    apply osu_binding_abi_inj. symmetry. eapply packed_inj; eauto.
  - apply ctr_abi_inj. eapply packed_inj; eauto using ctr_abi_ty.
Qed.

Lemma digest_determines (m1 m2 : ServiceMessage) (d : MessageDigest) :
  service_wf m1 → service_wf m2 →
  msg_Digest m1 = Ok d → msg_Digest m2 = Ok d →
  m1 = m2 ∨ Exists keccak_collision (hashed_pairs m1 m2).
Proof.
  intros Hw1 Hw2 Hd1 Hd2.
  destruct (digest_inputs_binding m1 m2 d Hd1 Hd2) as [Heq|Hc]; [left|by right].
  apply msg_Digest_inputs in Hd1 as (bs & _ & Hbs & _). by eapply hash_inputs_inj.
Qed.

(** A well-formed message has a digest. *)
Lemma digest_total (m : ServiceMessage) : service_wf m → ∃ d, msg_Digest m = Ok d.
Proof.
  intros Hwf. assert (∃ data, (hash_inputs m).2 = Ok data) as [data Hdata].
  { destruct m as [m|m|m]; simpl in *.
    - apply (abi_pack_total _ [sru_ty]). apply Forall2_cons_2; [by apply sru_abi_ty|apply Forall2_nil_2].
    - destruct (osu_ToBinding_wf _ Hwf) as (b & Hb & Ht). unfold osu_AbiEncode. rewrite Hb. simpl.
      apply (abi_pack_total _ [osu_ty]). apply Forall2_cons_2; [done|apply Forall2_nil_2].
    - apply (abi_pack_total _ [ctr_ty]). apply Forall2_cons_2; [by apply ctr_abi_ty|apply Forall2_nil_2]. }
  destruct (abi_pack_total [ABytes32 (Keccak256 (hash_inputs m).1); ABytes32 (Keccak256 data)] [TBytes32; TBytes32])
    as [o Ho]; [repeat apply Forall2_cons_2; auto using Keccak256_abi, Forall2_nil_2|].
  exists (keccak256 o). apply msg_Digest_inputs. by exists data, o.
Qed.

Lemma digest_words (m : ServiceMessage) d : msg_Digest m = Ok d → length d = 32%nat.
Proof. intros (data & o & _ & _ & ->)%msg_Digest_inputs. apply keccak256_length. Qed.

(** ** The properties *)

(** C11: a digest commits to the message and to its type.  If two well-formed
    messages (state root update, operator set update or checkpoint response, of
    the same or of different types) have the same digest, they are the same
    message, or two different strings among those the two digests hash
    (prefixes, ABI encodings, outer encodings) have the same Keccak-256. *)
Theorem digest_binding (m1 m2 : ServiceMessage) (d : MessageDigest) :
  service_wf m1 → service_wf m2 →
  msg_Digest m1 = Ok d → msg_Digest m2 = Ok d →
  m1 = m2 ∨ Exists keccak_collision (hashed_pairs m1 m2).
Proof. apply digest_determines. Qed.

(** The aggregation key of a state root update identifies the rollup and the
    block height and nothing else: two updates have the same key exactly when
    both agree. *)
Theorem sru_Key_identifies (m1 m2 : StateRootUpdateMessage) :
  sru_wf m1 → sru_wf m2 →
  sru_Key m1 = sru_Key m2 ↔
  sru_RollupId m1 = sru_RollupId m2 ∧ sru_BlockHeight m1 = sru_BlockHeight m2.
Proof. apply sru_Key_inj_lemma. Qed.

(** The task index is recovered from the key of a checkpoint task response. *)
Theorem task_index_of_key (m : CheckpointTaskResponse) :
  is_u32 (ctr_ReferenceTaskIndex m) →
  CheckpointTaskResponseKeyToTaskIndex (ctr_Key m) = ctr_ReferenceTaskIndex m.
Proof. apply ctr_Key_roundtrip_lemma. Qed.

(** The operators of a message whose keys have an affine point. *)
Definition operator_set (op : RollupOperator) : Prop :=
  ∀ pk, ro_Pubkey op = Some pk → g1_affine_nil pk = false.

#[export] Instance operator_set_dec op : Decision (operator_set op).
Proof.
  unfold operator_set. destruct (ro_Pubkey op) as [pk|]; [|by left].
  destruct (decide (g1_affine_nil pk = false)) as [Hs|Hs]; [left; naive_solver|right; auto].
Defined.

(** The RPC server's validity check fails exactly when the signature or an operator's key or
    weight is nil.  It does not look inside the keys: a signed update that passes [IsValid]
    converts to its binding if all keys have their affine point, and the conversion panics
    if one has not. *)
Lemma osu_IsValid_guards (s : SignedOperatorSetUpdateMessage) :
  (osu_IsValid (Some s) = Ok tt ↔
     is_Some (sosu_BlsSignature s) ∧
     Forall (λ op, is_Some (ro_Pubkey op) ∧ is_Some (ro_Weight op))
       (osu_Operators (sosu_Message s))) ∧
  (osu_IsValid (Some s) = Ok tt → Forall operator_set (osu_Operators (sosu_Message s)) →
     ∃ b, osu_ToBinding (sosu_Message s) = Ok b) ∧
  (osu_IsValid (Some s) = Ok tt → ¬ Forall operator_set (osu_Operators (sosu_Message s)) →
     osu_ToBinding (sosu_Message s) = Panic).
Proof.
  assert (∀ ops, osu_check_operators ops = Ok tt ↔
    Forall (λ op, is_Some (ro_Pubkey op) ∧ is_Some (ro_Weight op)) ops) as Hops.
  { induction ops as [|[[pk|] [w|]] ops IH]; simpl; rewrite ?Forall_cons; simpl;
      (split; [done || rewrite ?IH; naive_solver | ]); rewrite ?IH; try done;
      try (intros [[[? [=]] [? [=]]] ?] || intros [[[? [=]] ?] ?] || intros [[? [? [=]]] ?]);
      naive_solver. }
  unfold osu_IsValid. destruct (sosu_BlsSignature s) eqn:Hs.
  2:{ split; [|done]. split; [done|]. by intros [[? [=]] _]. }
  rewrite Hops. unfold osu_ToBinding. split; [naive_solver|]. split.
  - intros Hf Hset. enough (∃ bs, res_mapM operator_to_binding (osu_Operators (sosu_Message s)) = Ok bs)
      as [bs ->] by (by eexists).
    induction Hf as [|[pk w] ops [[k Hk] _] _ IH]; simpl in *; [by eexists|].
    apply Forall_cons in Hset as [Hk' Hset]. destruct (IH Hset) as [bs Hbs].
    unfold operator_to_binding at 1; simpl. rewrite Hk, (Hk' k Hk), Hbs; simpl. by eexists.
  - intros Hf Hset. enough (res_mapM operator_to_binding (osu_Operators (sosu_Message s)) = Panic) as -> by done.
    induction Hf as [|[pk w] ops [[k Hk] _] _ IH]; simpl in *; [by destruct Hset|].
    unfold operator_to_binding at 1; simpl. rewrite Hk. destruct (g1_affine_nil k) eqn:Hn; [done|]. simpl.
    rewrite IH; [done|]. intros Hall. apply Hset. constructor; [|done]. intros k' Hk'. simpl in *. congruence.
Qed.

(** Converting a contract binding to a message and back is the identity,
    when the coordinates are reduced field elements. *)
Lemma osu_binding_roundtrip (b : OperatorSetUpdateBinding) :
  Forall (λ op, 0 ≤ bn_X (bo_Pubkey op) < fp_modulus ∧ 0 ≤ bn_Y (bo_Pubkey op) < fp_modulus)
    (osb_Operators b) →
  osu_ToBinding (NewOperatorSetUpdateMessageFromBinding b) = Ok b.
Proof.
  destruct b as [i t ops]; simpl. intros Hops. unfold osu_ToBinding; simpl.
  enough (res_mapM operator_to_binding (osu_Operators
    (NewOperatorSetUpdateMessageFromBinding (mkOsuBinding i t ops))) = Ok ops) as Heq.
  { simpl in Heq. by rewrite Heq. }
  simpl. apply res_mapM_ok, Forall2_fmap_l.
  induction Hops as [|[[x y] w] ops [Hx Hy] _ IH]; constructor; [|done].
  unfold operator_to_binding; simpl in *. by rewrite NewG1Point_set, NewG1Point_X, NewG1Point_Y.
Qed.
End Theory.

(** ** Concrete instances *)
Module Examples.

#[local] Existing Instances ToyBls.ops ToyHash.ops ToyAbi.ops.
#[local] Existing Instances ToyBls.bls_laws ToyHash.hash_laws ToyAbi.abi_laws.

Definition root_a : bytes := replicate 32 7.
Definition root_b : bytes := replicate 32 9.

Definition resp_a : ServiceMessage :=
  MsgCheckpointTaskResponse (mkCheckpointTaskResponse 5 root_a root_b).
Definition resp_b : ServiceMessage :=
  MsgCheckpointTaskResponse (mkCheckpointTaskResponse 5 root_b root_b).

Definition update_a : StateRootUpdateMessage :=
  mkStateRootUpdate 3 1000 1700000000 root_a root_a root_b.
Definition update_b : StateRootUpdateMessage :=
  mkStateRootUpdate 3 1000 1700000000 (replicate 32 0) (replicate 32 0) root_b.

Lemma root_wf x : 0 ≤ x < 256 → is_bytes32 (replicate 32 x).
Proof. intros. split; [done|]. by apply Forall_replicate. Qed.

Lemma resp_wf : service_wf resp_a ∧ service_wf resp_b.
Proof. repeat split; try (unfold is_u32; simpl; lia); apply root_wf; lia. Qed.

Lemma update_wf : sru_wf update_a ∧ sru_wf update_b.
Proof. repeat split; try (unfold is_u32, is_u64; simpl; lia); try apply root_wf; try lia; by apply Forall_replicate. Qed.

(** Under the checksum [ToyHash], which keeps the last 32 bytes only, two different
    responses share a digest, and the theorem exhibits the colliding strings. *)
Lemma digest_binding_witness :
  Exists keccak_collision (hashed_pairs resp_a resp_b).
Proof.
  destruct (digest_binding resp_a resp_b
    (match msg_Digest resp_a with Ok d => d | _ => [] end)) as [Heq|Hc].
  - apply resp_wf.
  - apply resp_wf.
  - vm_compute. reflexivity.
  - vm_compute. reflexivity.
  - discriminate Heq.
  - exact Hc.
Defined.

Lemma sru_Key_identifies_witness : sru_Key update_a = sru_Key update_b.
Proof.
  apply (sru_Key_identifies update_a update_b); [apply update_wf..|].
  split; reflexivity.
Defined.

Lemma task_index_of_key_witness :
  CheckpointTaskResponseKeyToTaskIndex (ctr_Key (mkCheckpointTaskResponse 77 root_a root_b)) = 77.
Proof.
  apply (task_index_of_key (mkCheckpointTaskResponse 77 root_a root_b)).
  unfold is_u32; simpl; lia.
Defined.

Lemma osu_binding_roundtrip_witness :
  osu_ToBinding (NewOperatorSetUpdateMessageFromBinding
    (mkOsuBinding 4 1700000000 [mkBindingOperator (mkBN254G1Point 11 12) (Some 100)]))
  = Ok (mkOsuBinding 4 1700000000 [mkBindingOperator (mkBN254G1Point 11 12) (Some 100)]).
Proof.
  apply (osu_binding_roundtrip
    (mkOsuBinding 4 1700000000 [mkBindingOperator (mkBN254G1Point 11 12) (Some 100)])).
  constructor; [simpl; lia|constructor].
Defined.

End Examples.
