(* ===== verification/Smt.v ===== *)
(** * Checkpoint commitments: core/smt/smt.go and the checkpoint response

    The sparse Merkle trie is the pokt-network library: [SmtOps] names the
    operations the code calls, [SmtLaws] what it relies on.  Modelled here: adding
    messages ([AddMessage]), the conversion of a compact proof to the on-chain
    verifier's format ([NewSMTVerifierProof], [formatBitMask]), and the checkpoint
    task response computed from the checkpoint's messages
    ([NewCheckpointTaskResponseFromMessages]). *)

From S2P Require Import Prelude CoreTypes Instances Messages.

(** ** The trie library *)

Class SmtOps : Type := {
  Trie : Type;
  smt_new : Trie;
  smt_Update : Trie → bytes → bytes → go Trie;
  smt_Commit : Trie → go Trie;
  smt_Root : Trie → bytes;
}.

(** The trie stores, per path of a key, the last value written; committing does not
    change the contents; the root is a function of the contents. *)
Class SmtLaws (T : SmtOps) : Type := {
  smt_path : bytes → bytes;
  smt_contents : Trie → gmap bytes bytes;
  smt_contents_new : smt_contents smt_new = ∅;
  smt_contents_update t k v t' :
    smt_Update t k v = Ok t' → smt_contents t' = <[smt_path k := v]> (smt_contents t);
  smt_contents_commit t t' : smt_Commit t = Ok t' → smt_contents t' = smt_contents t;
  smt_root_contents t1 t2 : smt_contents t1 = smt_contents t2 → smt_Root t1 = smt_Root t2;
  smt_update_total t k v : ∃ t', smt_Update t k v = Ok t';
  smt_commit_total t : ∃ t', smt_Commit t = Ok t';
}.

(** ** Proofs in the verifier's format *)

(** [smt.SparseCompactMerkleProof], with the fields the code reads. *)
Record SparseCompactMerkleProof := mkCompactProof {
  cp_SideNodes : list bytes;
  cp_NonMembershipLeafData : option bytes;
  cp_BitMask : bytes;
  cp_NumSideNodes : Z }.

Record SMTVerifierCompactProof := mkVerifierProof {
  vp_Key : bytes;
  vp_Value : bytes;
  vp_BitMask : Z;
  vp_SideNodes : list bytes;
  vp_NumSideNodes : Z;
  vp_NonMembershipLeafPath : bytes;
  vp_NonMembershipLeafValue : bytes }.

(** [math/bits.Reverse8]. *)
Definition Reverse8 (b : Z) : Z :=
  foldr (λ i acc, Z.lor (Z.shiftl (Z.b2z (Z.testbit b i)) (7 - i)) acc) 0 (seqZ 0 8).

(** [reversed[i] = bits.Reverse8(bitMask[len(bitMask)-1-i])]. *)
Definition formatBitMask (bitMask : bytes) : bytes :=
  (λ i, Reverse8 (nth (length bitMask - 1 - i) bitMask 0)) <$> seq 0 (length bitMask).

Definition NewSMTVerifierProof (key value : bytes) (proof : SparseCompactMerkleProof)
    : go SMTVerifierCompactProof :=
  let? sideNodes := res_mapM to_bytes32 (cp_SideNodes proof) in
  let? leaf :=
    match cp_NonMembershipLeafData proof with
    | None => Ok (replicate 32 0, replicate 32 0)
    | Some data =>
        let? path := (let? s := go_slice data 1 33 in to_bytes32 s) in
        let? value := (let? s := go_slice data 33 65 in to_bytes32 s) in
        Ok (path, value)
    end in
  Ok {| vp_Key := key;
        vp_Value := value;
        vp_BitMask := be_decode (formatBitMask (cp_BitMask proof));
        vp_SideNodes := sideNodes;
        vp_NumSideNodes := cp_NumSideNodes proof;
        vp_NonMembershipLeafPath := leaf.1;
        vp_NonMembershipLeafValue := leaf.2 |}.

(** The bit the library sets for position [idx]: the most significant bit of the
    first byte is position 0. *)
Definition getPathBit (data : bytes) (idx : nat) : bool :=
  Z.testbit (nth (idx / 8) data 0) (7 - Z.of_nat (idx mod 8)).

(** ** Adding messages *)

Section Smt.
Context `{B : BlsOps} `{H : HashOps} `{A : AbiOps} `{T : SmtOps}.

Definition AddMessage {M} `{AggMessage M} (s : Trie) (msg : M) : go Trie :=
  let? digest := msg_Digest msg in
  smt_Update s (msg_Key msg) digest.

Fixpoint AddMessages {M} `{AggMessage M} (s : Trie) (msgs : list M) : go Trie :=
  match msgs with
  | [] => Ok s
  | msg :: msgs => let? s := AddMessage s msg in AddMessages s msgs
  end.

Definition NewCheckpointTaskResponseFromMessages (taskIndex : TaskIndex)
    (checkpointMessages : CheckpointMessages) : go CheckpointTaskResponse :=
  let? stateRootUpdatesSmt := AddMessages smt_new (cm_StateRootUpdateMessages checkpointMessages) in
  let? stateRootUpdatesSmt := smt_Commit stateRootUpdatesSmt in
  let? operatorSetUpdatesSmt := AddMessages smt_new (cm_OperatorSetUpdateMessages checkpointMessages) in
  let? operatorSetUpdatesSmt := smt_Commit operatorSetUpdatesSmt in
  let? stateRootUpdatesRoot := to_bytes32 (smt_Root stateRootUpdatesSmt) in
  let? operatorSetUpdatesRoot := to_bytes32 (smt_Root operatorSetUpdatesSmt) in
  Ok (mkCheckpointTaskResponse taskIndex stateRootUpdatesRoot operatorSetUpdatesRoot).

End Smt.

(** ** The bit mask *)

Lemma Reverse8_testbit b i : 0 ≤ i < 8 → Z.testbit (Reverse8 b) i = Z.testbit b (7 - i).
Proof.
  intros Hi. unfold Reverse8.
  assert (i = 0 ∨ i = 1 ∨ i = 2 ∨ i = 3 ∨ i = 4 ∨ i = 5 ∨ i = 6 ∨ i = 7) as Hcases by lia.
  change (seqZ 0 8) with [0; 1; 2; 3; 4; 5; 6; 7]. cbn [foldr].
  rewrite !Z.lor_spec, !Z.shiftl_spec by lia.
  destruct Hcases as [->|[->|[->|[->|[->|[->|[->| ->]]]]]]];
    cbn -[Z.testbit Z.b2z]; rewrite ?Z.b2z_bit0;
    repeat match goal with |- context [Z.testbit (Z.b2z ?x) ?j] =>
      first [rewrite (Z.testbit_neg_r (Z.b2z x) j) by lia
            |replace (Z.testbit (Z.b2z x) j) with false by (by destruct x)] end;
    rewrite ?orb_false_r, ?orb_false_l; done.
Qed.

Lemma Reverse8_is_u8 b : is_u8 (Reverse8 b).
Proof.
  unfold is_u8, Reverse8. change (seqZ 0 8) with [0; 1; 2; 3; 4; 5; 6; 7]. cbn [foldr].
  destruct (Z.testbit b 0), (Z.testbit b 1), (Z.testbit b 2), (Z.testbit b 3),
    (Z.testbit b 4), (Z.testbit b 5), (Z.testbit b 6), (Z.testbit b 7);
    (split; [vm_compute; discriminate|vm_compute; reflexivity]).
Qed.

Lemma formatBitMask_bytes bm : Forall is_u8 (formatBitMask bm).
Proof. apply Forall_fmap, Forall_true. intros i. apply Reverse8_is_u8. Qed.

Lemma length_formatBitMask bm : length (formatBitMask bm) = length bm.
Proof. unfold formatBitMask. by rewrite length_fmap, length_seq. Qed.

Lemma nth_formatBitMask bm i :
  (i < length bm)%nat →
  nth i (formatBitMask bm) 0 = Reverse8 (nth (length bm - 1 - i) bm 0).
Proof.
  intros Hi. rewrite nth_lookup. unfold formatBitMask. rewrite list_lookup_fmap.
  by rewrite lookup_seq_lt.
Qed.

(** The formatted bit mask, read as a big integer, has bit [idx] set exactly when
    the trie library's mask has position [idx] set, so that the on-chain verifier's
    test [bitMask & (1 << idx)] reads the intended bit. *)
Theorem formatBitMask_bits (bitMask : bytes) (idx : nat) :
  Z.testbit (be_decode (formatBitMask bitMask)) (Z.of_nat idx) = getPathBit bitMask idx.
Proof.
  rewrite be_decode_testbit, length_formatBitMask by apply formatBitMask_bytes.
  unfold getPathBit. assert (idx mod 8 < 8)%nat by (apply Nat.mod_upper_bound; lia).
  case_decide as Hlt.
  - rewrite nth_formatBitMask by lia.
    replace (length bitMask - 1 - (length bitMask - 1 - idx / 8))%nat with (idx / 8)%nat by lia.
    by rewrite Reverse8_testbit by lia.
  - rewrite nth_overflow by lia. by rewrite Z.testbit_0_l.
Qed.

(** ** Checkpoint roots *)

Section Checkpoint.
Context `{B : BlsOps} `{H : HashOps} `{A : AbiOps} `{T : SmtOps} {TL : SmtLaws T}.

(** The trie entry of a message: the path of its key, and its digest. *)
Definition smt_entry {M} `{AggMessage M} (m : M) : bytes * bytes :=
  (smt_path (msg_Key m), res_or [] (msg_Digest m)).

Lemma AddMessages_ok {M} `{AggMessage M} (msgs : list M) : ∀ s s',
  AddMessages s msgs = Ok s' →
  Forall (λ m, is_ok (msg_Digest m) = true) msgs ∧
  smt_contents s' = list_to_map (reverse (smt_entry <$> msgs)) ∪ smt_contents s.
Proof.
  induction msgs as [|m msgs IH]; intros s s'; simpl.
  { intros [= <-]. split; [done|]. by rewrite (left_id_L ∅ (∪)). }
  intros (s1 & (d & Hd & Hup)%res_bind_ok & (Hok & Hc)%IH)%res_bind_ok.
  split; [constructor; [by rewrite Hd|done]|].
  rewrite Hc, (smt_contents_update _ _ _ _ Hup), reverse_cons, list_to_map_app; simpl.
  rewrite Hd; simpl. by rewrite <- (assoc_L (∪)), <- insert_union_l, (left_id_L ∅ (∪)).
Qed.

Lemma AddMessages_total {M} `{AggMessage M} (msgs : list M) : ∀ s,
  Forall (λ m, is_ok (msg_Digest m) = true) msgs → ∃ s', AddMessages s msgs = Ok s'.
Proof.
  induction msgs as [|m msgs IH]; intros s Hok; simpl; [by eexists|].
  apply Forall_cons in Hok as [Hm Hok]. unfold AddMessage.
  destruct (msg_Digest m) as [d| |]; [|done..]; simpl.
  destruct (smt_update_total s (msg_Key m) d) as [s' ->]; simpl. by apply IH.
Qed.

(** Messages in another order, with different paths, give the same contents. *)
Lemma AddMessages_perm {M} `{AggMessage M} (l1 l2 : list M) t1 :
  l1 ≡ₚ l2 → NoDup ((λ m, smt_path (msg_Key m)) <$> l1) → AddMessages smt_new l1 = Ok t1 →
  ∃ t2, AddMessages smt_new l2 = Ok t2 ∧ smt_contents t2 = smt_contents t1.
Proof.
  intros Hperm Hnd H1. destruct (AddMessages_ok _ _ _ H1) as [Hok Hc1].
  rewrite Hperm in Hok. destruct (AddMessages_total l2 smt_new Hok) as [t2 H2].
  exists t2. split; [done|]. apply AddMessages_ok in H2 as [_ ->]. rewrite Hc1. f_equal.
  symmetry. apply list_to_map_proper.
  - rewrite fmap_reverse, reverse_Permutation. by rewrite <- list_fmap_compose.
  - rewrite !reverse_Permutation. by rewrite Hperm.
Qed.

(** A committed trie of the messages in another order has the same root. *)
Lemma committed_root_perm {M} `{AggMessage M} (l1 l2 : list M) t1 c1 :
  l1 ≡ₚ l2 → NoDup ((λ m, smt_path (msg_Key m)) <$> l1) →
  AddMessages smt_new l1 = Ok t1 → smt_Commit t1 = Ok c1 →
  ∃ t2 c2, AddMessages smt_new l2 = Ok t2 ∧ smt_Commit t2 = Ok c2 ∧ smt_Root c2 = smt_Root c1.
Proof.
  intros Hperm Hnd H1 Hc1. destruct (AddMessages_perm l1 l2 t1 Hperm Hnd H1) as (t2 & H2 & Heq).
  destruct (smt_commit_total t2) as [c2 Hc2]. exists t2, c2. split_and!; [done..|].
  apply smt_root_contents. by rewrite (smt_contents_commit _ _ Hc1), (smt_contents_commit _ _ Hc2).
Qed.

(** C32: the checkpoint response does not depend on the order in which the aggregator
    and the operators list the checkpoint's messages: when the message keys lead to
    different trie paths, any permutation of the state root updates and of the
    operator set updates gives the same response, so that operators who agree on the
    set of messages sign the same digest. *)
Theorem checkpoint_response_order_independent i (cm1 cm2 : CheckpointMessages) r :
  cm_StateRootUpdateMessages cm1 ≡ₚ cm_StateRootUpdateMessages cm2 →
  cm_OperatorSetUpdateMessages cm1 ≡ₚ cm_OperatorSetUpdateMessages cm2 →
  NoDup ((λ m, smt_path (msg_Key m)) <$> cm_StateRootUpdateMessages cm1) →
  NoDup ((λ m, smt_path (msg_Key m)) <$> cm_OperatorSetUpdateMessages cm1) →
  NewCheckpointTaskResponseFromMessages i cm1 = Ok r →
  NewCheckpointTaskResponseFromMessages i cm2 = Ok r.
Proof.
  intros Hp1 Hp2 Hn1 Hn2. unfold NewCheckpointTaskResponseFromMessages.
  intros (t1 & Ht1 & (c1 & Hc1 & (t2 & Ht2 & (c2 & Hc2 & Hr)%res_bind_ok)%res_bind_ok)%res_bind_ok)%res_bind_ok.
  destruct (committed_root_perm _ _ _ _ Hp1 Hn1 Ht1 Hc1) as (t1' & c1' & -> & Hc1' & Hroot1).
  destruct (committed_root_perm _ _ _ _ Hp2 Hn2 Ht2 Hc2) as (t2' & c2' & -> & Hc2' & Hroot2).
  simpl. rewrite Hc1'; simpl. rewrite Hc2'; simpl. by rewrite Hroot1, Hroot2.
Qed.

End Checkpoint.

(** ** A map in place of the trie *)
Module ToySmt.

Definition root (t : gmap bytes bytes) : bytes :=
  be_encode 32 (map_fold (λ k v acc, acc + be_decode k * be_decode v) 0 t).

Definition ops : SmtOps := {|
  Trie := gmap bytes bytes;
  smt_new := ∅;
  smt_Update t k v := Ok (<[k := v]> t);
  smt_Commit t := Ok t;
  smt_Root := root |}.

Definition smt_laws : SmtLaws ops.
Proof.
  refine {| smt_path k := k; smt_contents (t : @Trie ops) := t |}; simpl.
  - done.
  - by intros t k v t' [= <-].
  - by intros t t' [= <-].
  - by intros t1 t2 ->.
  - by eexists.
  - by eexists.
Defined.

End ToySmt.

Module Examples.

#[local] Existing Instances ToyBls.ops ToyHash.ops ToyAbi.ops ToySmt.ops ToySmt.smt_laws.

Definition update (h : Z) : StateRootUpdateMessage :=
  mkStateRootUpdate 3 h 1700000000 (replicate 32 0) (replicate 32 0) (replicate 32 h).
Definition messages (hs : list Z) : CheckpointMessages :=
  mkCheckpointMessages (update <$> hs) [] [] [].

Lemma checkpoint_response_order_independent_witness :
  NewCheckpointTaskResponseFromMessages 7 (messages [2; 1]) =
  NewCheckpointTaskResponseFromMessages 7 (messages [1; 2]).
Proof.
  rewrite (res_or_ok (mkCheckpointTaskResponse 0 [] [])
    (NewCheckpointTaskResponseFromMessages 7 (messages [1; 2]))) by (vm_compute; reflexivity).
  apply (checkpoint_response_order_independent 7 (messages [1; 2]) (messages [2; 1])).
  - simpl. apply Permutation_swap.
  - reflexivity.
  - apply (bool_decide_unpack (NoDup _)). vm_compute. exact I.
  - constructor.
  - apply res_or_ok. vm_compute. reflexivity.
Defined.

End Examples.
