(* ===== verification/BlsAgg.v ===== *)
(** * The message BLS aggregator: aggregator/blsagg/message_blsagg.go

    One goroutine per message key collects signed messages, checks them, adds up
    signatures, public keys and stake per digest, and reports on the response
    channel when the quorum thresholds are reached, when all stake has signed,
    or when a timer fires.

    - [StakeHeap]: the Go maps [StakePerQuorum], as objects.  The aggregated stake
      of a digest ([signersTotalStakePerQuorum]) is not a copy: it is the map object
      of the digest's first signer, which the code then updates in place, so the
      model keeps a reference to that object.
    - The aggregate key and signature of a response are not copies either: they are the
      pointers of the aggregate, and later submissions for the digest add to them in
      place.  A response holds the values at the moment it is sent, and [reread] is what
      its reader finds in a later state of the goroutine.
    - [handleSignedMessageDigest], [getMessageBlsAggregationStatus] and
      [getMessageBlsAggregationResponse]: the bookkeeping of one goroutine.
    - [gstep]: one iteration of the two select loops of a goroutine
      ([handleSignedMessagePreThreshold], [handleSignedMessageThresholdReached]).
    - [Service]: the map from message keys to channels and the running
      goroutines, with [InitializeMessageIfNotExists] and [ProcessNewSignature]. *)

From S2P Require Import Prelude CoreTypes Messages.

Inductive MessageBlsAggregationStatus : Type :=
| MessageBlsAggregationStatusNone
| MessageBlsAggregationStatusFullStakeThresholdMet
| MessageBlsAggregationStatusThresholdNotReached
| MessageBlsAggregationStatusThresholdReached.

#[export] Instance Status_eq_dec : EqDecision MessageBlsAggregationStatus.
Proof. solve_decision. Defined.

(** References to [map[QuorumNum]*big.Int] objects. *)
Notation MapRef := nat (only parsing).
Notation StakeMap := (gmap Z Z) (only parsing).
Notation StakeHeap := (gmap nat (gmap Z Z)) (only parsing).

(** ** Stake checks *)

(** [for quorumNum, stake := range m { if _, ok := total[quorumNum]; !ok { total[quorumNum] = 0 };
    total[quorumNum].Add(total[quorumNum], stake) }].  When [m] and [total] are the
    same map every entry is visited once, so each value is doubled. *)
Definition addStakes (m total : StakeMap) : StakeMap :=
  foldr (λ qs acc, <[qs.1 := default 0 (acc !! qs.1) + qs.2]> acc) total (map_to_list m).

(** [big.Int.Mul] and [Cmp] on a nil pointer (a missing key) panic. *)
Fixpoint stakeThresholdsMet_loop (thresholds : list (QuorumNum * Z))
    (signed total : StakeMap) : go bool :=
  match thresholds with
  | [] => Ok true
  | (q, pct) :: rest =>
      match signed !! q, total !! q with
      | Some s, Some t =>
          if s * 100 <? t * pct then Ok false
          else stakeThresholdsMet_loop rest signed total
      | _, _ => Panic
      end
  end.

Definition checkIfStakeThresholdsMet
    (signedStakePerQuorum totalStakePerQuorum : StakeMap)
    (quorumThresholdPercentagesMap : gmap Z Z) : go bool :=
  stakeThresholdsMet_loop (map_to_list quorumThresholdPercentagesMap)
    signedStakePerQuorum totalStakePerQuorum.

Fixpoint fullStake_loop (signed : list (QuorumNum * Z)) (total : StakeMap) : go bool :=
  match signed with
  | [] => Ok true
  | (q, s) :: rest =>
      match total !! q with
      | Some t => if bool_decide (s = t) then fullStake_loop rest total else Ok false
      | None => Panic
      end
  end.

Definition checkIfFullStakeThresholdMet
    (signedStakePerQuorum totalStakePerQuorum : StakeMap) : go bool :=
  fullStake_loop (map_to_list signedStakePerQuorum) totalStakePerQuorum.

Fixpoint validateQuorumThresholdPercentages (percentages : list Z) : go unit :=
  match percentages with
  | [] => Ok tt
  | p :: rest =>
      if 100 <? p then Err QuorumThresholdPercentageOutOfBoundsError
      else if p <? 51 then Err QuorumThresholdPercentageLessThan51Error
      else validateQuorumThresholdPercentages rest
  end.

(** [CheckSignaturesIndices] of the OperatorStateRetriever binding. *)
Record CheckSignaturesIndices := mkIndices {
  csi_NonSignerQuorumBitmapIndices : list Z;
  csi_QuorumApkIndices : list Z;
  csi_TotalStakeIndices : list Z;
  csi_NonSignerStakeIndices : list (list Z) }.

(** Order of [big.Int.SetBytes] of two operator ids. *)
Definition id_le (a b : OperatorId) : Prop := be_decode a ≤ be_decode b.
#[export] Instance id_le_dec a b : Decision (id_le a b).
Proof. unfold id_le. apply _. Defined.

Section BlsAgg.
Context `{B : BlsOps} {M : Type} `{MI : AggMessage M}.

(** ** Data *)

(** [eigentypes.OperatorAvsState], with the fields the service reads. *)
Record OperatorAvsState := mkOperatorAvsState {
  oas_G1Pubkey : G1Point;
  oas_G2Pubkey : option G2Point;
  oas_StakePerQuorum : MapRef }.

Record QuorumAvsState := mkQuorumAvsState {
  qas_TotalStake : Z;
  qas_AggPubkeyG1 : G1Point }.

Record AggregatedOperators := mkAggregatedOperators {
  ao_signersApkG2 : G2Point;
  ao_signersAggSigG1 : G1Point;
  ao_signersTotalStakePerQuorum : MapRef;
  ao_signersOperatorIdsSet : gset OperatorId }.

Record SignedMessage := mkSignedMessage {
  sm_Message : M;
  sm_MessageDigest : MessageDigest;
  sm_BlsSignature : G1Point;
  sm_OperatorId : OperatorId }.

(** [signedMessageDigestValidationInfo] and the map objects it refers to. *)
Record ValidationInfo := mkValidationInfo {
  vi_operatorsAvsStateDict : gmap OperatorId OperatorAvsState;
  vi_quorumsAvsStakeDict : gmap Z QuorumAvsState;
  vi_totalStakePerQuorum : StakeMap;
  vi_quorumApksG1 : list (option G1Point);
  vi_aggregatedOperatorsDict : gmap MessageDigest AggregatedOperators;
  vi_quorumThresholdPercentagesMap : gmap Z Z;
  vi_quorumNumbers : list QuorumNum;
  vi_ethBlockNumber : Z;
  vi_stakeHeap : StakeHeap }.

Record MessageBlsAggregationServiceResponse := mkResponse {
  resp_Aggregation : MessageBlsAggregation;
  resp_MessageKey : MessageKey;
  resp_Message : option M;
  resp_Status : MessageBlsAggregationStatus;
  resp_Finished : bool;
  resp_Err : option GoError }.

(** The answers of the AVS registry and of the Ethereum node, which are remote:
    each call of the model is given the answers it receives. *)
Record AvsEnv := mkAvsEnv {
  env_BlockNumber : go Z;
  env_GetOperatorsAvsStateAtBlock :
    list QuorumNum → Z → go (gmap OperatorId OperatorAvsState * StakeHeap);
  env_GetQuorumsAvsStateAtBlock : list QuorumNum → Z → go (gmap Z QuorumAvsState);
  env_GetCheckSignaturesIndices :
    Z → list QuorumNum → list OperatorId → go CheckSignaturesIndices }.

(** ** Validation info *)

Fixpoint threshold_map (quorumNumbers percentages : list Z) : go (gmap Z Z) :=
  match quorumNumbers, percentages with
  | [], _ => Ok ∅
  | q :: qs, p :: ps => let? m := threshold_map qs ps in
      Ok (match m !! q with Some _ => m | None => <[q := p]> m end)
  | _ :: _, [] => Panic
  end.

Definition fetchValidationInfo (env : AvsEnv) (quorumNumbers percentages : list Z)
    (ethBlockNumber : Z) : go ValidationInfo :=
  let? ethBlockNumber :=
    (if bool_decide (ethBlockNumber = 0)
     then match env_BlockNumber env with Ok n => Ok n | _ => Panic end
     else Ok ethBlockNumber) in
  let? ops := env_GetOperatorsAvsStateAtBlock env quorumNumbers (u32 ethBlockNumber) in
  let? quorums := env_GetQuorumsAvsStateAtBlock env quorumNumbers (u32 ethBlockNumber) in
  let totalStakePerQuorum := qas_TotalStake <$> quorums in
  let quorumApksG1 := (λ q, qas_AggPubkeyG1 <$> quorums !! q) <$> quorumNumbers in
  let? thresholds := threshold_map quorumNumbers percentages in
  Ok {| vi_operatorsAvsStateDict := ops.1;
        vi_quorumsAvsStakeDict := quorums;
        vi_totalStakePerQuorum := totalStakePerQuorum;
        vi_quorumApksG1 := quorumApksG1;
        vi_aggregatedOperatorsDict := ∅;
        vi_quorumThresholdPercentagesMap := thresholds;
        vi_quorumNumbers := quorumNumbers;
        vi_ethBlockNumber := ethBlockNumber;
        vi_stakeHeap := ops.2 |}.

(** ** One signed message *)

Definition verifySignature (sm : SignedMessage)
    (operators : gmap OperatorId OperatorAvsState) : go unit :=
  match operators !! sm_OperatorId sm with
  | None => Err (OperatorNotPartOfMessageQuorumErrorFn (sm_OperatorId sm) (sm_MessageDigest sm))
  | Some op =>
      match oas_G2Pubkey op with
      | None => Panic
      | Some pk =>
          match bls_verify (sm_BlsSignature sm) pk (sm_MessageDigest sm) with
          | Err e => Err (SignatureVerificationError e)
          | Panic => Panic
          | Ok false => Err IncorrectSignatureError
          | Ok true => Ok tt
          end
      end
  end.

Definition set_aggregated (vi : ValidationInfo) (d : MessageDigest)
    (a : AggregatedOperators) (h : StakeHeap) : ValidationInfo :=
  {| vi_operatorsAvsStateDict := vi_operatorsAvsStateDict vi;
     vi_quorumsAvsStakeDict := vi_quorumsAvsStakeDict vi;
     vi_totalStakePerQuorum := vi_totalStakePerQuorum vi;
     vi_quorumApksG1 := vi_quorumApksG1 vi;
     vi_aggregatedOperatorsDict := <[d := a]> (vi_aggregatedOperatorsDict vi);
     vi_quorumThresholdPercentagesMap := vi_quorumThresholdPercentagesMap vi;
     vi_quorumNumbers := vi_quorumNumbers vi;
     vi_ethBlockNumber := vi_ethBlockNumber vi;
     vi_stakeHeap := h |}.

(** The map object behind a reference; a nil map reads as empty. *)
Definition deref (h : StakeHeap) (r : MapRef) : StakeMap := default ∅ (h !! r).

(** The loop that adds the stakes [m] to the map object [r], in place: an assignment to a
    nil map panics. *)
Definition add_in_place (h : StakeHeap) (r : MapRef) (m : StakeMap) : go StakeHeap :=
  match h !! r with
  | Some total => Ok (<[r := addStakes m total]> h)
  | None => if bool_decide (m = ∅) then Ok h else Panic
  end.

Definition handleSignedMessageDigest (sm : SignedMessage) (vi : ValidationInfo)
    : go ValidationInfo :=
  let? _ := verifySignature sm (vi_operatorsAvsStateDict vi) in
  let? digest := msg_Digest (sm_Message sm) in
  match vi_operatorsAvsStateDict vi !! sm_OperatorId sm with
  | Some op =>
      match oas_G2Pubkey op with
      | Some pk =>
          match vi_aggregatedOperatorsDict vi !! digest with
          | None =>
              Ok (set_aggregated vi digest
                    {| ao_signersApkG2 := g2_add NewZeroG2Point pk;
                       ao_signersAggSigG1 := sm_BlsSignature sm;
                       ao_signersTotalStakePerQuorum := oas_StakePerQuorum op;
                       ao_signersOperatorIdsSet := {[sm_OperatorId sm]} |}
                    (vi_stakeHeap vi))
          | Some a =>
              let r := ao_signersTotalStakePerQuorum a in
              let h := vi_stakeHeap vi in
              let? h := add_in_place h r (deref h (oas_StakePerQuorum op)) in
              Ok (set_aggregated vi digest
                    {| ao_signersApkG2 := g2_add (ao_signersApkG2 a) pk;
                       ao_signersAggSigG1 := g1_add (ao_signersAggSigG1 a) (sm_BlsSignature sm);
                       ao_signersTotalStakePerQuorum := r;
                       ao_signersOperatorIdsSet :=
                         {[sm_OperatorId sm]} ∪ ao_signersOperatorIdsSet a |}
                    h)
          end
      | None => Panic
      end
  | None => Panic
  end.

(** ** Status and response of a digest *)

Definition getMessageBlsAggregationStatus (digest : MessageDigest) (vi : ValidationInfo)
    : go MessageBlsAggregationStatus :=
  match vi_aggregatedOperatorsDict vi !! digest with
  | None => Err (MessageNotFoundErrorFn digest)
  | Some a =>
      let signed := deref (vi_stakeHeap vi) (ao_signersTotalStakePerQuorum a) in
      let? full := checkIfFullStakeThresholdMet signed (vi_totalStakePerQuorum vi) in
      if (full : bool) then Ok MessageBlsAggregationStatusFullStakeThresholdMet else
      let? met := checkIfStakeThresholdsMet signed (vi_totalStakePerQuorum vi)
                    (vi_quorumThresholdPercentagesMap vi) in
      if (met : bool) then Ok MessageBlsAggregationStatusThresholdReached
      else Ok MessageBlsAggregationStatusThresholdNotReached
  end.

(** The operators of the quorum that have not signed, in the order of their ids. *)
Definition nonSignersOperatorIds (vi : ValidationInfo) (a : AggregatedOperators)
    : list OperatorId :=
  merge_sort id_le
    (filter (λ o, o ∉ ao_signersOperatorIdsSet a)
       (map_to_list (vi_operatorsAvsStateDict vi)).*1).

(** [validationInfo.operatorsAvsStateDict[operatorId].OperatorInfo.Pubkeys.G1Pubkey] of
    each id. *)
Definition g1_pubkeys (vi : ValidationInfo) (ids : list OperatorId) : list G1Point :=
  omap (λ o, oas_G1Pubkey <$> vi_operatorsAvsStateDict vi !! o) ids.

Definition emptyAggregation (digest : MessageDigest) (block : Z) : MessageBlsAggregation :=
  mkMessageBlsAggregation block digest [] [] None None [] [] [] [].

Definition errResponse (message : M) (digest : MessageDigest) (vi : ValidationInfo)
    (forceFinished : bool) (e : GoError) : MessageBlsAggregationServiceResponse :=
  {| resp_Aggregation := emptyAggregation digest (vi_ethBlockNumber vi);
     resp_MessageKey := msg_Key message;
     resp_Message := Some message;
     resp_Status := MessageBlsAggregationStatusNone;
     resp_Finished := forceFinished;
     resp_Err := Some e |}.

Definition getMessageBlsAggregationResponse (env : AvsEnv) (message : M)
    (digest : MessageDigest) (vi : ValidationInfo) (forceFinished : bool)
    : go MessageBlsAggregationServiceResponse :=
  match vi_aggregatedOperatorsDict vi !! digest with
  | None => Ok (errResponse message digest vi forceFinished (MessageNotFoundErrorFn digest))
  | Some a =>
      match getMessageBlsAggregationStatus digest vi with
      | Panic => Panic
      | Err e => Ok (errResponse message digest vi forceFinished e)
      | Ok status =>
          let nonSigners := nonSignersOperatorIds vi a in
          match env_GetCheckSignaturesIndices env (u32 (vi_ethBlockNumber vi))
                  (vi_quorumNumbers vi) nonSigners with
          | Panic => Panic
          | Err e => Ok (errResponse message digest vi forceFinished e)
          | Ok indices =>
              Ok {| resp_Aggregation :=
                      {| mba_EthBlockNumber := vi_ethBlockNumber vi;
                         mba_MessageDigest := digest;
                         mba_NonSignersPubkeysG1 := g1_pubkeys vi nonSigners;
                         mba_QuorumApksG1 := vi_quorumApksG1 vi;
                         mba_SignersApkG2 := Some (ao_signersApkG2 a);
                         mba_SignersAggSigG1 := Some (ao_signersAggSigG1 a);
                         mba_NonSignerQuorumBitmapIndices := csi_NonSignerQuorumBitmapIndices indices;
                         mba_QuorumApkIndices := csi_QuorumApkIndices indices;
                         mba_TotalStakeIndices := csi_TotalStakeIndices indices;
                         mba_NonSignerStakeIndices := csi_NonSignerStakeIndices indices |};
                    resp_MessageKey := msg_Key message;
                    resp_Message := Some message;
                    resp_Status := status;
                    resp_Finished :=
                      bool_decide (status = MessageBlsAggregationStatusFullStakeThresholdMet)
                      || forceFinished;
                    resp_Err := None |}
          end
      end
  end.

(** What a reader of [r] finds when the goroutine's state is [vi]: a response without
    error shares [signersApkG2] and [signersAggSigG1] with the aggregate of its digest. *)
Definition reread (vi : ValidationInfo) (r : MessageBlsAggregationServiceResponse)
    : MessageBlsAggregationServiceResponse :=
  let agg := resp_Aggregation r in
  match resp_Err r, vi_aggregatedOperatorsDict vi !! mba_MessageDigest agg with
  | None, Some a =>
      {| resp_Aggregation :=
           {| mba_EthBlockNumber := mba_EthBlockNumber agg;
              mba_MessageDigest := mba_MessageDigest agg;
              mba_NonSignersPubkeysG1 := mba_NonSignersPubkeysG1 agg;
              mba_QuorumApksG1 := mba_QuorumApksG1 agg;
              mba_SignersApkG2 := Some (ao_signersApkG2 a);
              mba_SignersAggSigG1 := Some (ao_signersAggSigG1 a);
              mba_NonSignerQuorumBitmapIndices := mba_NonSignerQuorumBitmapIndices agg;
              mba_QuorumApkIndices := mba_QuorumApkIndices agg;
              mba_TotalStakeIndices := mba_TotalStakeIndices agg;
              mba_NonSignerStakeIndices := mba_NonSignerStakeIndices agg |};
         resp_MessageKey := resp_MessageKey r;
         resp_Message := resp_Message r;
         resp_Status := resp_Status r;
         resp_Finished := resp_Finished r;
         resp_Err := resp_Err r |}
  | _, _ => r
  end.

(** ** The goroutine of one message key *)

(** Which select loop the goroutine is in: [handleSignedMessagePreThreshold],
    [handleSignedMessageThresholdReached] for a message, or returned. *)
Inductive Phase : Type :=
| PreThreshold
| ThresholdReached (message : M)
| Closed.

Record Goroutine := mkGoroutine {
  gr_key : MessageKey;
  gr_vi : ValidationInfo;
  gr_phase : Phase }.

(** What a select receives: a signed message, or the expiry of the running timer
    ([messageExpiredTimer] before the threshold, [thresholdReachedTimer] after). *)
Inductive GEvent : Type :=
| EvSigned (sm : SignedMessage)
| EvTimer.

(** A step yields the goroutine, the value sent on [SignatureVerificationErrorC], and
    the responses sent on [aggregatedResponsesC]. *)
Definition GResult : Type :=
  Goroutine * option (go unit) * list MessageBlsAggregationServiceResponse.

Definition expiredResponse (g : Goroutine) : MessageBlsAggregationServiceResponse :=
  {| resp_Aggregation := emptyAggregation (replicate 32 0) (vi_ethBlockNumber (gr_vi g));
     resp_MessageKey := gr_key g;
     resp_Message := None;
     resp_Status := MessageBlsAggregationStatusNone;
     resp_Finished := true;
     resp_Err := Some MessageExpiredError |}.

Definition handleSignedMessagePreThreshold (env : AvsEnv) (g : Goroutine) (ev : GEvent)
    : go GResult :=
  match ev with
  | EvSigned sm =>
      match handleSignedMessageDigest sm (gr_vi g) with
      | Panic => Panic
      | Err e => Ok (g, Some (Err e), [])
      | Ok vi =>
          let? aggregation := getMessageBlsAggregationResponse env (sm_Message sm)
                                (sm_MessageDigest sm) vi false in
          Ok (match resp_Status aggregation with
              | MessageBlsAggregationStatusThresholdNotReached =>
                  (mkGoroutine (gr_key g) vi PreThreshold, Some (Ok tt), [])
              | MessageBlsAggregationStatusThresholdReached =>
                  (mkGoroutine (gr_key g) vi (ThresholdReached (sm_Message sm)),
                   Some (Ok tt), [aggregation])
              | MessageBlsAggregationStatusFullStakeThresholdMet =>
                  (mkGoroutine (gr_key g) vi Closed, Some (Ok tt), [aggregation])
              | MessageBlsAggregationStatusNone =>
                  (mkGoroutine (gr_key g) vi PreThreshold, Some (Ok tt), [aggregation])
              end)
      end
  | EvTimer => Ok (mkGoroutine (gr_key g) (gr_vi g) Closed, None, [expiredResponse g])
  end.

Definition handleSignedMessageThresholdReached (env : AvsEnv) (message : M)
    (g : Goroutine) (ev : GEvent) : go GResult :=
  match msg_Digest message with
  | Err _ | Panic => Panic
  | Ok messageDigest =>
      match ev with
      | EvSigned sm =>
          if bool_decide (sm_MessageDigest sm = messageDigest) then
            match handleSignedMessageDigest sm (gr_vi g) with
            | Panic => Panic
            | Err e => Ok (g, Some (Err e), [])
            | Ok vi =>
                let? aggregation := getMessageBlsAggregationResponse env (sm_Message sm)
                                      (sm_MessageDigest sm) vi false in
                let phase :=
                  if bool_decide (resp_Status aggregation
                                  = MessageBlsAggregationStatusFullStakeThresholdMet)
                  then Closed else ThresholdReached message in
                Ok (mkGoroutine (gr_key g) vi phase, Some (Ok tt), [aggregation])
            end
          else Ok (g, Some (Ok tt), [])
      | EvTimer =>
          let? aggregation := getMessageBlsAggregationResponse env message messageDigest
                                (gr_vi g) true in
          Ok (mkGoroutine (gr_key g) (gr_vi g) Closed, None, [aggregation])
      end
  end.

(** [singleMessageAggregatorGoroutineFunc], one select at a time. *)
Definition gstep (env : AvsEnv) (g : Goroutine) (ev : GEvent) : go GResult :=
  match gr_phase g with
  | PreThreshold => handleSignedMessagePreThreshold env g ev
  | ThresholdReached message => handleSignedMessageThresholdReached env message g ev
  | Closed => Ok (g, None, [])
  end.

(** A run of the goroutine on a sequence of events, each with the answers the
    remote services give at that moment; the responses are accumulated. *)
Fixpoint grun (g : Goroutine) (evs : list (AvsEnv * GEvent))
    : go (Goroutine * list MessageBlsAggregationServiceResponse) :=
  match evs with
  | [] => Ok (g, [])
  | (env, ev) :: evs =>
      let? r := gstep env g ev in
      let? r' := grun r.1.1 evs in
      Ok (r'.1, r.2 ++ r'.2)
  end.

Definition newGoroutine (messageKey : MessageKey) (vi : ValidationInfo) : Goroutine :=
  mkGoroutine messageKey vi PreThreshold.

(** ** The service *)

(** [signedMessageCs], the goroutines that receive on the channels, and the next
    channel identity for [make(chan SignedMessage)]. *)
Record Service := mkService {
  sv_signedMessageCs : gmap MessageKey nat;
  sv_goroutines : gmap nat Goroutine;
  sv_nextChan : nat }.

Definition NewMessageBlsAggregatorService : Service := mkService ∅ ∅ 0.

Definition initializeMessageChan (sv : Service) (messageKey : MessageKey)
    : Service * option nat :=
  match sv_signedMessageCs sv !! messageKey with
  | Some _ => (sv, None)
  | None =>
      let c := sv_nextChan sv in
      (mkService (<[messageKey := c]> (sv_signedMessageCs sv)) (sv_goroutines sv) (S c), Some c)
  end.

(** One step of the model: the key is registered under the lock, and everything after that
    concerns only the new channel, which nobody receives from until the goroutine runs.
    [initialize_atomic] in [BlsAggService] shows that a goroutine started later, after any
    steps of others, leaves the service in a state the atomic step leads to as well. *)
Definition InitializeMessageIfNotExists (env : AvsEnv) (sv : Service)
    (messageKey : MessageKey) (quorumNumbers percentages : list Z) (ethBlockNumber : Z)
    : Service * go unit :=
  match validateQuorumThresholdPercentages percentages with
  | Err e => (sv, Err e)
  | Panic => (sv, Panic)
  | Ok _ =>
      match initializeMessageChan sv messageKey with
      | (sv, None) => (sv, Ok tt)
      | (sv, Some c) =>
          match fetchValidationInfo env quorumNumbers percentages ethBlockNumber with
          | Err e => (sv, Err e)
          | Panic => (sv, Panic)
          | Ok vi =>
              (mkService (sv_signedMessageCs sv)
                 (<[c := newGoroutine messageKey vi]> (sv_goroutines sv)) (sv_nextChan sv),
               Ok tt)
          end
      end
  end.

Definition closeMessageGoroutine (sv : Service) (messageKey : MessageKey) (c : nat) : Service :=
  mkService (delete messageKey (sv_signedMessageCs sv)) (delete c (sv_goroutines sv))
    (sv_nextChan sv).

(** The goroutine on channel [c] makes a step; when it returns, the deferred
    [closeMessageGoroutine] runs. *)
Definition after_step (sv : Service) (c : nat) (g : Goroutine) : Service :=
  match gr_phase g with
  | Closed => closeMessageGoroutine sv (gr_key g) c
  | _ => mkService (sv_signedMessageCs sv) (<[c := g]> (sv_goroutines sv)) (sv_nextChan sv)
  end.

(** A sender either gets the reply on its error channel or waits for ever: the
    channel is unbuffered, so a send with no receiver blocks. *)
Inductive SendResult : Type :=
| Replied (r : go unit)
| Blocked.

Definition sendSignedMessage (env : AvsEnv) (sv : Service) (c : nat) (sm : SignedMessage)
    : go (Service * SendResult * list MessageBlsAggregationServiceResponse) :=
  match sv_goroutines sv !! c with
  | None => Ok (sv, Blocked, [])
  | Some g =>
      let? r := gstep env g (EvSigned sm) in
      Ok (after_step sv c r.1.1,
          match r.1.2 with Some reply => Replied reply | None => Blocked end,
          r.2)
  end.

(** [ctx] is [Some e] when the select takes the [ctx.Done()] case with error [e]; the
    callers in aggregator.go pass [context.Background()], which is never done. *)
Definition ProcessNewSignature (env : AvsEnv) (sv : Service) (ctx : option GoError)
    (message : M) (blsSignature : G1Point) (operatorId : OperatorId)
    : go (Service * SendResult * list MessageBlsAggregationServiceResponse) :=
  match sv_signedMessageCs sv !! msg_Key message with
  | None => Ok (sv, Replied (Err (MessageNotFoundErrorFn (msg_Key message))), [])
  | Some c =>
      match msg_Digest message with
      | Panic => Panic
      | Err _ => Ok (sv, Replied (Err MessageDigestNotFoundError), [])
      | Ok messageDigest =>
          match ctx with
          | Some e => Ok (sv, Replied (Err e), [])
          | None =>
              sendSignedMessage env sv c
                (mkSignedMessage message messageDigest blsSignature operatorId)
          end
      end
  end.

(** The running timer of the goroutine on channel [c] fires. *)
Definition fireTimer (env : AvsEnv) (sv : Service) (c : nat)
    : go (Service * list MessageBlsAggregationServiceResponse) :=
  match sv_goroutines sv !! c with
  | None => Ok (sv, [])
  | Some g => let? r := gstep env g EvTimer in Ok (after_step sv c r.1.1, r.2)
  end.

(** The steps of the service, in any interleaving.  A sender that has read its
    channel from the map may send at any later time, so [step_send] allows every
    channel identity. *)
Inductive sv_step (sv : Service) : Service → Prop :=
| step_initialize env key qs ps blk sv' r :
    InitializeMessageIfNotExists env sv key qs ps blk = (sv', r) → r ≠ Panic → sv_step sv sv'
| step_send env c sm sv' r out :
    sendSignedMessage env sv c sm = Ok (sv', r, out) → sv_step sv sv'
| step_timer env c sv' out :
    fireTimer env sv c = Ok (sv', out) → sv_step sv sv'.

End BlsAgg.
