(* ===== verification/BlsAggTheory.v ===== *)
(** * Properties of the message BLS aggregator

    - the stake checks compute what their names say;
    - quorum soundness: when every operator submits at most once for a message
      key, a response with a reached threshold is backed by enough stake of
      distinct operators whose signatures verified;
    - the aggregate signature of every response verifies under the aggregate key;
    - a goroutine reports [Finished] exactly once, last;
    - a submission that is repeated doubles the stake counted for its digest, and
      an operator that signs two digests carries the first digest's stake over to
      the second;
    - a key whose validation info cannot be fetched is blocked for ever. *)

From S2P Require Import Prelude CoreTypes Instances Messages BlsAgg.

(** ** Stake maps *)

Lemma foldr_addStakes (l : list (Z * Z)) (total : gmap Z Z) q :
  NoDup l.*1 →
  foldr (λ qs acc, <[qs.1 := default 0 (acc !! qs.1) + qs.2]> acc) total l !! q =
  match (list_to_map l : gmap Z Z) !! q with
  | Some s => Some (default 0 (total !! q) + s)
  | None => total !! q
  end.
Proof.
  induction l as [|[k s] l IH]; simpl; intros Hnd; [by rewrite lookup_empty|].
  apply NoDup_cons in Hnd as [Hk Hnd]. specialize (IH Hnd).
  destruct (decide (q = k)) as [->|Hne].
  - rewrite !lookup_insert_eq, IH.
    by rewrite (not_elem_of_list_to_map_1 _ _ Hk).
  - by rewrite !lookup_insert_ne by done.
Qed.

Lemma lookup_addStakes (m total : gmap Z Z) q :
  addStakes m total !! q =
  match m !! q with Some s => Some (default 0 (total !! q) + s) | None => total !! q end.
Proof.
  unfold addStakes. rewrite foldr_addStakes by apply NoDup_fst_map_to_list.
  by rewrite list_to_map_to_list.
Qed.

Definition stake (m : gmap Z Z) (q : Z) : Z := default 0 (m !! q).

Lemma stake_addStakes m total q : stake (addStakes m total) q = stake total q + stake m q.
Proof.
  unfold stake. rewrite lookup_addStakes. destruct (m !! q); simpl; lia.
Qed.

(** ** The threshold checks *)

Lemma stakeThresholdsMet_loop_true l signed total :
  stakeThresholdsMet_loop l signed total = Ok true ↔
  Forall (λ qp, ∃ s t, signed !! qp.1 = Some s ∧ total !! qp.1 = Some t ∧ t * qp.2 ≤ s * 100) l.
Proof.
  induction l as [|[q p] l IH]; simpl; [split; [constructor|done]|].
  rewrite Forall_cons; simpl. rewrite <- IH.
  destruct (signed !! q) as [s|], (total !! q) as [t|]; simpl; try naive_solver.
  destruct (Z.ltb_spec (s * 100) (t * p)).
  - split; [done|]. intros [(? & ? & [= <-] & [= <-] & ?) _]. lia.
  - naive_solver.
Qed.

Lemma stakeThresholdsMet_loop_defined l signed total :
  Forall (λ qp, is_Some (signed !! qp.1) ∧ is_Some (total !! qp.1)) l →
  ∃ b, stakeThresholdsMet_loop l signed total = Ok b.
Proof.
  induction 1 as [|[q p] l [[s Hs] [t Ht]] _ IH]; simpl in *; [by eexists|].
  rewrite Hs, Ht. case_match; eauto.
Qed.

Lemma checkIfStakeThresholdsMet_true signed total thr :
  checkIfStakeThresholdsMet signed total thr = Ok true ↔
  ∀ q p, thr !! q = Some p →
    ∃ s t, signed !! q = Some s ∧ total !! q = Some t ∧ t * p ≤ s * 100.
Proof.
  unfold checkIfStakeThresholdsMet. rewrite stakeThresholdsMet_loop_true, Forall_forall.
  split.
  - intros Hall q p Hq. apply (Hall (q, p)). by apply elem_of_map_to_list.
  - intros Hall [q p] Hq. apply (Hall q p). by apply elem_of_map_to_list in Hq.
Qed.

Lemma fullStake_loop_true l total :
  fullStake_loop l total = Ok true ↔ Forall (λ qs, total !! qs.1 = Some qs.2) l.
Proof.
  induction l as [|[q s] l IH]; simpl; [split; [constructor|done]|].
  rewrite Forall_cons; simpl. rewrite <- IH.
  destruct (total !! q) as [t|]; [|naive_solver].
  case_bool_decide; naive_solver.
Qed.

Lemma checkIfFullStakeThresholdMet_true signed total :
  checkIfFullStakeThresholdMet signed total = Ok true ↔
  ∀ q s, signed !! q = Some s → total !! q = Some s.
Proof.
  unfold checkIfFullStakeThresholdMet. rewrite fullStake_loop_true, Forall_forall.
  split.
  - intros Hall q s Hq. apply (Hall (q, s)). by apply elem_of_map_to_list.
  - intros Hall [q s] Hq. apply (Hall q s). by apply elem_of_map_to_list in Hq.
Qed.

(** The two stake checks are the comparisons they stand for, whatever the
    iteration order of the maps.  [checkIfStakeThresholdsMet] is true exactly when
    every quorum with a threshold has signed stake times 100 at least total stake
    times its percentage; it does not panic when every such quorum has both
    stakes; and [checkIfFullStakeThresholdMet] is true exactly when every signed
    stake equals the quorum's total. *)
Theorem stake_checks_spec (signed total thr : gmap Z Z) :
  (checkIfStakeThresholdsMet signed total thr = Ok true ↔
     ∀ q p, thr !! q = Some p →
       ∃ s t, signed !! q = Some s ∧ total !! q = Some t ∧ t * p ≤ s * 100) ∧
  ((∀ q, is_Some (thr !! q) → is_Some (signed !! q) ∧ is_Some (total !! q)) →
     ∃ b, checkIfStakeThresholdsMet signed total thr = Ok b) ∧
  (checkIfFullStakeThresholdMet signed total = Ok true ↔
     ∀ q s, signed !! q = Some s → total !! q = Some s).
Proof.
  split_and!; [apply checkIfStakeThresholdsMet_true| |apply checkIfFullStakeThresholdMet_true].
  intros Hdef. apply stakeThresholdsMet_loop_defined, Forall_forall.
  intros [q p] Hq%elem_of_map_to_list. apply Hdef. by eexists.
Qed.

(** Threshold percentages are accepted exactly when all lie between 51 and
    100, and the first offending one decides the error. *)
Theorem validateQuorumThresholdPercentages_spec (ps : list Z) :
  (validateQuorumThresholdPercentages ps = Ok tt ↔ Forall (λ p, 51 ≤ p ≤ 100) ps) ∧
  (∀ l p rest, ps = l ++ p :: rest → Forall (λ p, 51 ≤ p ≤ 100) l →
     (100 < p → validateQuorumThresholdPercentages ps
                = Err QuorumThresholdPercentageOutOfBoundsError) ∧
     (p < 51 → validateQuorumThresholdPercentages ps
               = Err QuorumThresholdPercentageLessThan51Error)).
Proof.
  split.
  - induction ps as [|p ps IH]; simpl; [split; [constructor|done]|].
    rewrite Forall_cons, <- IH.
    destruct (Z.ltb_spec 100 p); [split; [done|intros [? _]; lia]|].
    destruct (Z.ltb_spec p 51); [split; [done|intros [? _]; lia]|].
    split; [intros ?; split; [lia|done]|by intros [_ ?]].
  - intros l p rest -> Hl. induction Hl as [|x l Hx _ IH]; simpl.
    + destruct (Z.ltb_spec 100 p), (Z.ltb_spec p 51); split; intros; try lia; done.
    + destruct (Z.ltb_spec 100 x), (Z.ltb_spec x 51); try lia. done.
Qed.

(** ** Bookkeeping of accepted signatures *)

Lemma deref_insert_eq (h : gmap nat (gmap Z Z)) r m : deref (<[r := m]> h) r = m.
Proof. unfold deref. by rewrite lookup_insert_eq. Qed.

Lemma deref_insert_ne (h : gmap nat (gmap Z Z)) r r' m :
  r ≠ r' → deref (<[r := m]> h) r' = deref h r'.
Proof. intros. unfold deref. by rewrite lookup_insert_ne. Qed.

Section Accounting.
Context `{B : BlsOps} {M : Type} `{MI : AggMessage M}.

(** The aggregate after one more accepted signature by [op] with key [pk]. *)
Definition next_aggregate (o : OperatorId) (op : OperatorAvsState) (pk : G2Point)
    (sig : G1Point) (old : option AggregatedOperators) : AggregatedOperators :=
  match old with
  | None => mkAggregatedOperators (g2_add NewZeroG2Point pk) sig (oas_StakePerQuorum op) {[o]}
  | Some a => mkAggregatedOperators (g2_add (ao_signersApkG2 a) pk)
                (g1_add (ao_signersAggSigG1 a) sig) (ao_signersTotalStakePerQuorum a)
                ({[o]} ∪ ao_signersOperatorIdsSet a)
  end.

Definition next_heap (h : gmap nat (gmap Z Z)) (op : OperatorAvsState)
    (old : option AggregatedOperators) : gmap nat (gmap Z Z) :=
  match old with
  | None => h
  | Some a => let r := ao_signersTotalStakePerQuorum a in
      match h !! r with
      | Some total => <[r := addStakes (deref h (oas_StakePerQuorum op)) total]> h
      | None => h
      end
  end.

(** The stakes of [op] can be added: the aggregate's map is not nil, or nothing is added. *)
Definition addable (h : gmap nat (gmap Z Z)) (op : OperatorAvsState) (old : option AggregatedOperators) : Prop :=
  match old with
  | None => True
  | Some a => is_Some (h !! ao_signersTotalStakePerQuorum a) ∨ deref h (oas_StakePerQuorum op) = ∅
  end.

Lemma add_in_place_spec h op a :
  (addable h op (Some a) →
     add_in_place h (ao_signersTotalStakePerQuorum a) (deref h (oas_StakePerQuorum op)) = Ok (next_heap h op (Some a))) ∧
  (∀ h', add_in_place h (ao_signersTotalStakePerQuorum a) (deref h (oas_StakePerQuorum op)) = Ok h' →
     addable h op (Some a) ∧ h' = next_heap h op (Some a)).
Proof.
  unfold add_in_place, addable, next_heap. destruct (h !! _) as [total|].
  - split; [done|]. intros h' [= <-]. split; [left; eauto|done].
  - case_bool_decide; split; try done; [intros h' [= <-]; eauto|by intros [[? [=]]|?]].
Qed.

Lemma deref_next_eq h op a : addable h op (Some a) →
  deref (next_heap h op (Some a)) (ao_signersTotalStakePerQuorum a) =
  addStakes (deref h (oas_StakePerQuorum op)) (deref h (ao_signersTotalStakePerQuorum a)).
Proof.
  intros Ha. unfold next_heap. destruct (h !! ao_signersTotalStakePerQuorum a) as [total|] eqn:Hr.
  - rewrite deref_insert_eq. f_equal. unfold deref. by rewrite Hr.
  - destruct Ha as [[? Hx]|He]; [congruence|]. rewrite He. unfold deref. by rewrite Hr.
Qed.

Lemma deref_next_ne h op a r : ao_signersTotalStakePerQuorum a ≠ r →
  deref (next_heap h op (Some a)) r = deref h r.
Proof. intros Hne. simpl. destruct (h !! ao_signersTotalStakePerQuorum a); [by apply deref_insert_ne|done]. Qed.

(** What an accepted signature means, and what it does. *)
Lemma handleSignedMessageDigest_ok (sm : SignedMessage) vi vi' :
  handleSignedMessageDigest sm vi = Ok vi' →
  ∃ op pk d, vi_operatorsAvsStateDict vi !! sm_OperatorId sm = Some op ∧
    oas_G2Pubkey op = Some pk ∧
    bls_verify (sm_BlsSignature sm) pk (sm_MessageDigest sm) = Ok true ∧
    msg_Digest (sm_Message sm) = Ok d ∧
    addable (vi_stakeHeap vi) op (vi_aggregatedOperatorsDict vi !! d) ∧
    vi' = set_aggregated vi d
            (next_aggregate (sm_OperatorId sm) op pk (sm_BlsSignature sm)
               (vi_aggregatedOperatorsDict vi !! d))
            (next_heap (vi_stakeHeap vi) op (vi_aggregatedOperatorsDict vi !! d)).
Proof.
  unfold handleSignedMessageDigest, verifySignature.
  intros ([] & Hv & (d & Hd & Heq)%res_bind_ok)%res_bind_ok.
  destruct (vi_operatorsAvsStateDict vi !! sm_OperatorId sm) as [op|] eqn:Hop; [|done].
  destruct (oas_G2Pubkey op) as [pk|] eqn:Hpk; [|done].
  exists op, pk, d. split_and!; try done.
  - by destruct (bls_verify _ _ _) as [[]| |].
  - destruct (vi_aggregatedOperatorsDict vi !! d) as [a|]; [|done].
    by apply res_bind_ok in Heq as (h & [? _]%add_in_place_spec & _).
  - destruct (vi_aggregatedOperatorsDict vi !! d) as [a|]; [|by injection Heq as <-].
    by apply res_bind_ok in Heq as (h & [_ ->]%add_in_place_spec & [= <-]).
Qed.

(** The stake an operator has in the registry snapshot [vi]. *)
Definition stake0 (vi : ValidationInfo) (o : OperatorId) : gmap Z Z :=
  match vi_operatorsAvsStateDict vi !! o with
  | Some op => deref (vi_stakeHeap vi) (oas_StakePerQuorum op)
  | None => ∅
  end.

(** Different operators have different stake map objects. *)
Definition separate_maps (vi : ValidationInfo) : Prop := ∀ o1 o2 op1 op2,
  vi_operatorsAvsStateDict vi !! o1 = Some op1 → vi_operatorsAvsStateDict vi !! o2 = Some op2 →
  oas_StakePerQuorum op1 = oas_StakePerQuorum op2 → o1 = o2.

(** The aggregate [a] of a digest counts exactly its signers' registry stakes. *)
Record counts_signers (vi0 : ValidationInfo) (h : gmap nat (gmap Z Z)) (a : AggregatedOperators)
    : Prop := {
  cs_owner : ∃ f op, f ∈ ao_signersOperatorIdsSet a ∧
    vi_operatorsAvsStateDict vi0 !! f = Some op ∧
    ao_signersTotalStakePerQuorum a = oas_StakePerQuorum op;
  cs_sum q : stake (deref h (ao_signersTotalStakePerQuorum a)) q =
    set_zsum (λ o, stake (stake0 vi0 o) q) (ao_signersOperatorIdsSet a);
  cs_entry q o : o ∈ ao_signersOperatorIdsSet a → is_Some (stake0 vi0 o !! q) →
    is_Some (deref h (ao_signersTotalStakePerQuorum a) !! q);
}.

(** The state of a goroutine relative to the snapshot [vi0] it started from, when the
    operators in [seen] have been accepted, and [P o d] holds of every operator [o]
    counted for digest [d]. *)
Record accounted (P : OperatorId → MessageDigest → Prop) (vi0 vi : ValidationInfo)
    (seen : gset OperatorId) : Prop := {
  acc_dict : vi_operatorsAvsStateDict vi = vi_operatorsAvsStateDict vi0;
  acc_total : vi_totalStakePerQuorum vi = vi_totalStakePerQuorum vi0;
  acc_thr : vi_quorumThresholdPercentagesMap vi = vi_quorumThresholdPercentagesMap vi0;
  acc_unsigned o op : vi_operatorsAvsStateDict vi0 !! o = Some op →
    (∀ d a, vi_aggregatedOperatorsDict vi !! d = Some a → o ∉ ao_signersOperatorIdsSet a) →
    deref (vi_stakeHeap vi) (oas_StakePerQuorum op) = stake0 vi0 o;
  acc_counts d a : vi_aggregatedOperatorsDict vi !! d = Some a →
    counts_signers vi0 (vi_stakeHeap vi) a;
  acc_signer d a o : vi_aggregatedOperatorsDict vi !! d = Some a →
    o ∈ ao_signersOperatorIdsSet a → P o d ∧ o ∈ seen;
  acc_disjoint d1 d2 a1 a2 o : vi_aggregatedOperatorsDict vi !! d1 = Some a1 →
    vi_aggregatedOperatorsDict vi !! d2 = Some a2 →
    o ∈ ao_signersOperatorIdsSet a1 → o ∈ ao_signersOperatorIdsSet a2 → d1 = d2;
}.

Lemma accounted_start P vi0 :
  vi_aggregatedOperatorsDict vi0 = ∅ → accounted P vi0 vi0 ∅.
Proof.
  intros Hempty. split; try done; rewrite ?Hempty; try (intros *; by rewrite ?lookup_empty).
  intros o op Hop _. unfold stake0. by rewrite Hop.
Qed.

Lemma acc_not_seen P vi0 vi seen o d a :
  accounted P vi0 vi seen → o ∉ seen → vi_aggregatedOperatorsDict vi !! d = Some a →
  o ∉ ao_signersOperatorIdsSet a.
Proof. intros Hacc Ho Ha Hin. by apply (acc_signer _ _ _ _ Hacc d a o Ha) in Hin as [_ ?]. Qed.

(** The aggregate of a digest whose reference is not written keeps its count. *)
Lemma counts_signers_frame vi0 h a op b :
  counts_signers vi0 h a → ao_signersTotalStakePerQuorum b ≠ ao_signersTotalStakePerQuorum a →
  counts_signers vi0 (next_heap h op (Some b)) a.
Proof.
  intros [Hown Hsum Hent] Hne. split; [done| |]; rewrite deref_next_ne by done; done.
Qed.

Lemma counts_signers_first vi0 vi P seen o op pk sig :
  accounted P vi0 vi seen → o ∉ seen → vi_operatorsAvsStateDict vi0 !! o = Some op →
  counts_signers vi0 (vi_stakeHeap vi) (next_aggregate o op pk sig None).
Proof.
  intros Hacc Ho Hop.
  assert (deref (vi_stakeHeap vi) (oas_StakePerQuorum op) = stake0 vi0 o) as Hd.
  { eapply acc_unsigned; [done..|]. intros d a Ha. by eapply acc_not_seen. }
  split; simpl.
  - exists o, op. set_solver.
  - intros q. by rewrite Hd, set_zsum_singleton.
  - intros q o' ->%elem_of_singleton. by rewrite Hd.
Qed.

Lemma counts_signers_next vi0 vi P seen o op pk sig d a :
  separate_maps vi0 → accounted P vi0 vi seen → o ∉ seen →
  vi_operatorsAvsStateDict vi0 !! o = Some op →
  vi_aggregatedOperatorsDict vi !! d = Some a → addable (vi_stakeHeap vi) op (Some a) →
  counts_signers vi0 (next_heap (vi_stakeHeap vi) op (Some a)) (next_aggregate o op pk sig (Some a)).
Proof.
  intros Hsep Hacc Ho Hop Ha Hadd. pose proof (acc_counts _ _ _ _ Hacc d a Ha) as [Hown Hsum Hent].
  assert (o ∉ ao_signersOperatorIdsSet a) as Hna by (by eapply acc_not_seen).
  assert (deref (vi_stakeHeap vi) (oas_StakePerQuorum op) = stake0 vi0 o) as Hd.
  { eapply acc_unsigned; [done..|]. intros d' a' Ha'. by eapply acc_not_seen. }
  pose proof (deref_next_eq _ _ _ Hadd) as Hnext. rewrite Hd in Hnext.
  split; cbn [next_aggregate ao_signersTotalStakePerQuorum ao_signersOperatorIdsSet]; rewrite ?Hnext.
  - destruct Hown as (f & op' & ? & ? & ?). exists f, op'. set_solver.
  - intros q. rewrite stake_addStakes, Hsum, set_zsum_insert by done. lia.
  - intros q o' Hin Hsome. rewrite lookup_addStakes.
    apply elem_of_union in Hin as [->%elem_of_singleton|Hin].
    + destruct Hsome as [s ->]. by eexists.
    + specialize (Hent q o' Hin Hsome). destruct (stake0 vi0 o !! q); [by eexists|done].
Qed.

(** References of different digests, and of operators that have not signed, are
    not the one an accepted signature writes. *)
Lemma owner_ref_ne vi0 P vi seen d a o op :
  separate_maps vi0 → accounted P vi0 vi seen →
  vi_aggregatedOperatorsDict vi !! d = Some a →
  o ∉ ao_signersOperatorIdsSet a → vi_operatorsAvsStateDict vi0 !! o = Some op →
  ao_signersTotalStakePerQuorum a ≠ oas_StakePerQuorum op.
Proof.
  intros Hsep Hacc Ha Hna Hop Heq.
  destruct (cs_owner _ _ _ (acc_counts _ _ _ _ Hacc d a Ha)) as (f & opf & Hf & Hopf & Hr).
  rewrite Heq in Hr. by rewrite (Hsep _ _ _ _ Hop Hopf Hr) in Hna.
Qed.

Lemma digest_refs_ne vi0 P vi seen d1 d2 a1 a2 :
  separate_maps vi0 → accounted P vi0 vi seen → d1 ≠ d2 →
  vi_aggregatedOperatorsDict vi !! d1 = Some a1 → vi_aggregatedOperatorsDict vi !! d2 = Some a2 →
  ao_signersTotalStakePerQuorum a1 ≠ ao_signersTotalStakePerQuorum a2.
Proof.
  intros Hsep Hacc Hne Ha1 Ha2.
  destruct (cs_owner _ _ _ (acc_counts _ _ _ _ Hacc d2 a2 Ha2)) as (f & op & Hf & Hop & ->).
  eapply owner_ref_ne; [done..| |done].
  intros Hin. by apply Hne, (acc_disjoint _ _ _ _ Hacc d1 d2 a1 a2 f).
Qed.

Lemma next_aggregate_signers o op pk sig old :
  ao_signersOperatorIdsSet (next_aggregate o op pk sig old) =
  {[o]} ∪ default ∅ (ao_signersOperatorIdsSet <$> old).
Proof. destruct old; simpl; set_solver. Qed.

(** The signers of the updated digest have not signed another one. *)
Lemma next_aggregate_disjoint P vi0 vi seen o op pk sig d d' a' x :
  accounted P vi0 vi seen → o ∉ seen → vi_aggregatedOperatorsDict vi !! d' = Some a' → d ≠ d' →
  x ∈ ao_signersOperatorIdsSet a' →
  x ∉ ao_signersOperatorIdsSet (next_aggregate o op pk sig (vi_aggregatedOperatorsDict vi !! d)).
Proof.
  intros Hacc Ho Ha' Hne Hx Hx'. rewrite next_aggregate_signers in Hx'.
  apply elem_of_union in Hx' as [->%elem_of_singleton|Hx']; [by eapply acc_not_seen in Ha'|].
  destruct (vi_aggregatedOperatorsDict vi !! d) as [a|] eqn:Hold; simpl in Hx'; [|set_solver].
  by apply Hne, (acc_disjoint _ _ _ _ Hacc d d' a a' x).
Qed.

(** One accepted signature of an operator that was not accepted before. *)
Lemma accounted_step P vi0 vi seen (sm : SignedMessage) vi' :
  separate_maps vi0 → accounted P vi0 vi seen → sm_OperatorId sm ∉ seen →
  (∀ d, msg_Digest (sm_Message sm) = Ok d → P (sm_OperatorId sm) d) →
  handleSignedMessageDigest sm vi = Ok vi' →
  accounted P vi0 vi' ({[sm_OperatorId sm]} ∪ seen).
Proof.
  intros Hsep Hacc Ho HP (op & pk & d & Hop & _ & _ & Hd & Hadd & ->)%handleSignedMessageDigest_ok.
  specialize (HP d Hd). rewrite (acc_dict _ _ _ _ Hacc) in Hop.
  set (o := sm_OperatorId sm) in *. set (old := vi_aggregatedOperatorsDict vi !! d) in *.
  assert (∀ d' a', vi_aggregatedOperatorsDict vi !! d' = Some a' → d' ≠ d →
    counts_signers vi0 (next_heap (vi_stakeHeap vi) op old) a') as Hother.
  { intros d' a' Ha' Hne. pose proof (acc_counts _ _ _ _ Hacc d' a' Ha') as Hc.
    destruct old as [a|] eqn:Hold; [|done].
    apply counts_signers_frame; [done|]. by eapply (digest_refs_ne _ _ _ _ d d'). }
  split; simpl; try apply Hacc.
  - intros o' op' Hop' Hall.
    assert (o' ∉ ao_signersOperatorIdsSet (next_aggregate o op pk (sm_BlsSignature sm) old)) as Hn.
    { eapply Hall. by rewrite lookup_insert_eq. }
    rewrite next_aggregate_signers in Hn.
    assert (∀ d' a', vi_aggregatedOperatorsDict vi !! d' = Some a' →
      o' ∉ ao_signersOperatorIdsSet a') as Hall'.
    { intros d' a' Ha'. destruct (decide (d' = d)) as [->|Hne].
      - subst old. rewrite Ha' in Hn; simpl in Hn. set_solver.
      - eapply Hall. rewrite lookup_insert_ne; [done|congruence]. }
    destruct old as [a|] eqn:Hold; [|by eapply acc_unsigned].
    rewrite deref_next_ne; [by eapply acc_unsigned|]. eapply owner_ref_ne; eauto.
  - intros d' a'. rewrite lookup_insert_Some. intros [[<- <-]|[Hne Ha']]; [|by eapply Hother].
    destruct old as [a|] eqn:Hold; [by eapply counts_signers_next|by eapply counts_signers_first].
  - intros d' a' x. rewrite lookup_insert_Some. intros [[<- <-]|[Hne Ha']] Hx.
    + rewrite next_aggregate_signers in Hx. apply elem_of_union in Hx as [->%elem_of_singleton|Hx].
      { split; [done|set_solver]. }
      destruct old as [a|] eqn:Hold; simpl in Hx; [|set_solver].
      apply (acc_signer _ _ _ _ Hacc d a x Hold) in Hx. set_solver.
    + apply (acc_signer _ _ _ _ Hacc d' a' x Ha') in Hx. set_solver.
  - intros d1 d2 a1 a2 x. rewrite !lookup_insert_Some.
    intros [[<- <-]|[? ?]] [[<- <-]|[? ?]] ? ?; [done|by edestruct next_aggregate_disjoint..|].
    by eapply (acc_disjoint _ _ _ _ Hacc).
Qed.

(** ** Responses *)

(** A response without error is computed from the aggregate of its digest. *)
Lemma response_of_aggregate (env : AvsEnv) (m : M) d vi force r :
  getMessageBlsAggregationResponse env m d vi force = Ok r →
  resp_Status r ≠ MessageBlsAggregationStatusNone →
  ∃ a, vi_aggregatedOperatorsDict vi !! d = Some a ∧
    getMessageBlsAggregationStatus d vi = Ok (resp_Status r) ∧
    mba_MessageDigest (resp_Aggregation r) = d ∧
    mba_SignersApkG2 (resp_Aggregation r) = Some (ao_signersApkG2 a) ∧
    mba_SignersAggSigG1 (resp_Aggregation r) = Some (ao_signersAggSigG1 a) ∧
    mba_NonSignersPubkeysG1 (resp_Aggregation r) = g1_pubkeys vi (nonSignersOperatorIds vi a) ∧
    resp_Message r = Some m ∧ resp_Err r = None.
Proof.
  unfold getMessageBlsAggregationResponse. intros Hr Hs.
  destruct (vi_aggregatedOperatorsDict vi !! d) as [a|] eqn:Ha; [|by injection Hr as <-].
  destruct (getMessageBlsAggregationStatus d vi) as [s|e|] eqn:Hst; [|by injection Hr as <-|done].
  destruct (env_GetCheckSignaturesIndices _ _ _ _); [|by injection Hr as <-|done].
  injection Hr as <-. by exists a.
Qed.

(** A step of the goroutine either leaves the validation info alone or accepts one
    signature, and every response it emits is the expiry notice or is computed
    from the resulting validation info. *)
Lemma gstep_ok (env : AvsEnv) (g : Goroutine) ev g' rep out :
  gstep env g ev = Ok (g', rep, out) →
  gr_key g' = gr_key g ∧
  (gr_vi g' = gr_vi g ∨
   ∃ sm, ev = EvSigned sm ∧ handleSignedMessageDigest sm (gr_vi g) = Ok (gr_vi g')) ∧
  Forall (λ r, r = expiredResponse g ∨
    ∃ m d force, getMessageBlsAggregationResponse env m d (gr_vi g') force = Ok r) out.
Proof.
  unfold gstep, handleSignedMessagePreThreshold, handleSignedMessageThresholdReached.
  intros Hstep. destruct (gr_phase g) as [|message|]; [| |by simplify_eq; split_and!; auto].
  - destruct ev as [sm|]; [|simplify_eq/=; split_and!; eauto].
    destruct (handleSignedMessageDigest sm (gr_vi g)) as [vi| |] eqn:Hh; simplify_eq/=; [|by auto].
    apply res_bind_ok in Hstep as (agg & Hagg & [= Hstep]).
    destruct (resp_Status agg); simplify_eq/=; split_and!; eauto 10.
  - destruct (msg_Digest message) as [md| |] eqn:Hmd; [|done..].
    destruct ev as [sm|].
    + case_bool_decide; [|by simplify_eq; auto].
      destruct (handleSignedMessageDigest sm (gr_vi g)) as [vi| |] eqn:Hh; simplify_eq/=; [|by auto].
      apply res_bind_ok in Hstep as (agg & Hagg & [= <- <- <-]). simpl. split_and!; eauto 10.
    + apply res_bind_ok in Hstep as (agg & Hagg & [= <- <- <-]). simpl. split_and!; eauto 10.
Qed.

(** ** Runs of a goroutine *)

#[local] Notation Event := (AvsEnv * GEvent (M := M))%type.

(** The operators of the snapshot whose submissions pass the signature check, with
    repetitions. *)
Definition accepted_id (vi0 : ValidationInfo) (e : Event) : option OperatorId :=
  match e.2 with
  | EvSigned sm =>
      if is_ok (verifySignature sm (vi_operatorsAvsStateDict vi0)) then Some (sm_OperatorId sm) else None
  | EvTimer => None
  end.
Definition accepted_ids (vi0 : ValidationInfo) (evs : list Event) : list OperatorId :=
  omap (accepted_id vi0) evs.

(** In [evs], operator [o] of the snapshot submitted a message with digest [d] and a
    signature that verifies under its registered key. *)
Definition submitted (vi0 : ValidationInfo) (evs : list Event)
    (o : OperatorId) (d : MessageDigest) : Prop :=
  ∃ env sm op pk, (env, EvSigned sm) ∈ evs ∧ sm_OperatorId sm = o ∧
    msg_Digest (sm_Message sm) = Ok d ∧
    vi_operatorsAvsStateDict vi0 !! o = Some op ∧ oas_G2Pubkey op = Some pk ∧
    bls_verify (sm_BlsSignature sm) pk (sm_MessageDigest sm) = Ok true.

(** The response [r] reports on a validation info with property [I]. *)
Definition reports_on (I : ValidationInfo → Prop) (r : MessageBlsAggregationServiceResponse (M := M)) : Prop :=
  resp_Status r = MessageBlsAggregationStatusNone ∨
  ∃ env m d force vi, I vi ∧ getMessageBlsAggregationResponse env m d vi force = Ok r.

Lemma gstep_reports (I : ValidationInfo → Prop) (env : AvsEnv) (g : Goroutine) ev g' rep out :
  gstep env g ev = Ok (g', rep, out) → I (gr_vi g') → Forall (reports_on I) out.
Proof.
  intros (_ & _ & Hout)%gstep_ok HI. eapply Forall_impl; [done|].
  intros r [->|(m & d & force & Hr)]; [by left|right]. eauto 8.
Qed.

(** A property [Q] of the responses of a run, by an invariant of the goroutine and the set
    of operators accepted so far: no operator is accepted twice. *)
Lemma grun_steps (I : Goroutine → gset OperatorId → Prop) (Q : MessageBlsAggregationServiceResponse → Prop) vi0 all :
  (∀ env ev g seen g' rep out, (env, ev) ∈ all → I g seen →
    (∀ o, accepted_id vi0 (env, ev) = Some o → o ∉ seen) → gstep env g ev = Ok (g', rep, out) →
    Forall Q out ∧ ∃ seen', I g' seen' ∧ ∀ o, o ∈ seen' → o ∈ seen ∨ accepted_id vi0 (env, ev) = Some o) →
  NoDup (accepted_ids vi0 all) → ∀ rest before g seen g' out,
  all = before ++ rest → I g seen → (∀ o, o ∈ seen → o ∈ accepted_ids vi0 before) →
  grun g rest = Ok (g', out) → Forall Q out.
Proof.
  intros Hstep Hnd. induction rest as [|[env ev] rest IH]; intros before g seen g' out Hall HI Hseen Hrun; simpl in Hrun.
  { by injection Hrun as <- <-. }
  apply res_bind_ok in Hrun as ([[g1 rep] out1] & Hs & Hrun).
  apply res_bind_ok in Hrun as ([g2 out2] & Hrun & [= <- <-]); simpl in *.
  destruct (Hstep env ev g seen g1 rep out1) as (HQ & seen1 & HI1 & Hseen1); [|done| |done|].
  - rewrite Hall. apply elem_of_app. right. by left.
  - intros o Ho Hin%Hseen. revert Hnd. rewrite Hall. unfold accepted_ids in *. rewrite omap_app. cbn [omap list_omap].
    rewrite Ho. intros (_ & Hdisj & _)%NoDup_app. apply (Hdisj _ Hin). by left.
  - apply Forall_app; split; [done|].
    apply (IH (before ++ [(env, ev)]) g1 seen1 g2); [by rewrite Hall, <- app_assoc|done| |done].
    intros o Ho. unfold accepted_ids. rewrite omap_app. apply elem_of_app.
    destruct (Hseen1 o Ho) as [?|Ho']; [left; auto|right]. cbn [omap list_omap]. rewrite Ho'. by left.
Qed.

Lemma accepted_id_handled vi0 vi env sm vi' :
  vi_operatorsAvsStateDict vi = vi_operatorsAvsStateDict vi0 → handleSignedMessageDigest sm vi = Ok vi' →
  accepted_id vi0 (env, EvSigned sm) = Some (sm_OperatorId sm).
Proof.
  intros Hdict (op & pk & d & Hop & Hpk & Hv & _)%handleSignedMessageDigest_ok.
  rewrite Hdict in Hop. unfold accepted_id, verifySignature; simpl. by rewrite Hop, Hpk, Hv.
Qed.

(** An invariant of the accepted signatures, each of an operator that was not accepted
    before, holds of whatever the responses of a run report on. *)
Lemma grun_fresh (I : ValidationInfo → gset OperatorId → Prop) vi0 all key g' out :
  (∀ vi seen, I vi seen → vi_operatorsAvsStateDict vi = vi_operatorsAvsStateDict vi0) →
  (∀ env sm vi vi' seen, (env, EvSigned sm) ∈ all → I vi seen → sm_OperatorId sm ∉ seen →
    handleSignedMessageDigest sm vi = Ok vi' → I vi' ({[sm_OperatorId sm]} ∪ seen)) →
  NoDup (accepted_ids vi0 all) → I vi0 ∅ → grun (newGoroutine key vi0) all = Ok (g', out) →
  Forall (reports_on (λ vi, ∃ seen, I vi seen)) out.
Proof.
  intros Hdict Hstep Hnd H0 Hrun.
  apply (grun_steps (λ g, I (gr_vi g)) (reports_on (λ vi, ∃ seen, I vi seen)) vi0 all) with
    (rest := all) (before := []) (g := newGoroutine key vi0) (seen := ∅) (g' := g');
    [|done|done|done|by intros o ?%not_elem_of_empty|done].
  intros env ev g seen g1 rep out1 Hin HI Hnew Hs.
  assert (∃ seen1, I (gr_vi g1) seen1 ∧ ∀ o, o ∈ seen1 → o ∈ seen ∨ accepted_id vi0 (env, ev) = Some o)
    as (seen1 & HI1 & Hseen1).
  { destruct (gstep_ok _ _ _ _ _ _ Hs) as (_ & [->|(sm & -> & Hsm)] & _); [exists seen; auto|].
    pose proof (accepted_id_handled _ _ env _ _ (Hdict _ _ HI) Hsm) as Haid.
    exists ({[sm_OperatorId sm]} ∪ seen). split; [by eapply Hstep; eauto|].
    intros o [->%elem_of_singleton|?]%elem_of_union; auto. }
  split; [|by exists seen1]. eapply gstep_reports; [done|by exists seen1].
Qed.

Lemma accounted_submitted vi0 evs env sm vi vi' seen :
  separate_maps vi0 → (env, EvSigned sm) ∈ evs → accounted (submitted vi0 evs) vi0 vi seen → sm_OperatorId sm ∉ seen →
  handleSignedMessageDigest sm vi = Ok vi' → accounted (submitted vi0 evs) vi0 vi' ({[sm_OperatorId sm]} ∪ seen).
Proof.
  intros Hsep Hin Hacc Hn Hsm. eapply accounted_step; [done..| |done]. intros d Hd.
  destruct (handleSignedMessageDigest_ok _ _ _ Hsm) as (op & pk & d' & Hop & Hpk & Hv & Hd' & _).
  rewrite (acc_dict _ _ _ _ Hacc) in Hop. by exists env, sm, op, pk.
Qed.

Lemma grun_accounted vi0 evs key g' out :
  separate_maps vi0 → vi_aggregatedOperatorsDict vi0 = ∅ → NoDup (accepted_ids vi0 evs) →
  grun (newGoroutine key vi0) evs = Ok (g', out) →
  Forall (reports_on (λ vi, ∃ seen, accounted (submitted vi0 evs) vi0 vi seen)) out.
Proof.
  intros Hsep Hempty Hnd Hrun.
  apply (grun_fresh (accounted (submitted vi0 evs) vi0) vi0 evs key g'); [|..|done|by apply accounted_start|done].
  - intros vi seen Hacc. apply Hacc.
  - intros. by eapply accounted_submitted.
Qed.

(** The conditions on the registry snapshot: stake maps are separate objects, nothing
    is aggregated yet, every operator has a stake entry in every quorum with a
    threshold, total stakes are not negative and percentages are at most 100. *)
Record registry_ok (vi0 : ValidationInfo) : Prop := {
  reg_separate : separate_maps vi0;
  reg_fresh : vi_aggregatedOperatorsDict vi0 = ∅;
  reg_entries o q : is_Some (vi_operatorsAvsStateDict vi0 !! o) →
    is_Some (vi_quorumThresholdPercentagesMap vi0 !! q) → is_Some (stake0 vi0 o !! q);
  reg_totals q t : vi_totalStakePerQuorum vi0 !! q = Some t → 0 ≤ t;
  reg_percent q p : vi_quorumThresholdPercentagesMap vi0 !! q = Some p → p ≤ 100;
}.

(** [S] has the stake every threshold asks for. *)
Definition backed_by (vi0 : ValidationInfo) (S : gset OperatorId) : Prop := ∀ q p,
  vi_quorumThresholdPercentagesMap vi0 !! q = Some p →
  ∃ t, vi_totalStakePerQuorum vi0 !! q = Some t ∧
       t * p ≤ 100 * set_zsum (λ o, stake (stake0 vi0 o) q) S.

Lemma status_backed P vi0 vi seen d a s :
  registry_ok vi0 → accounted P vi0 vi seen →
  vi_aggregatedOperatorsDict vi !! d = Some a →
  getMessageBlsAggregationStatus d vi = Ok s →
  s = MessageBlsAggregationStatusThresholdReached ∨
  s = MessageBlsAggregationStatusFullStakeThresholdMet →
  backed_by vi0 (ao_signersOperatorIdsSet a).
Proof.
  intros Hreg Hacc Ha Hst Hs q p Hp. unfold getMessageBlsAggregationStatus in Hst.
  rewrite Ha in Hst. destruct (acc_counts _ _ _ _ Hacc d a Ha) as [(f & op & Hf & Hop & Hr) Hsum Hent].
  rewrite (acc_total _ _ _ _ Hacc), (acc_thr _ _ _ _ Hacc) in Hst.
  set (signed := deref (vi_stakeHeap vi) (ao_signersTotalStakePerQuorum a)) in *.
  apply res_bind_ok in Hst as (full & Hfull & Hst). rewrite <- Hsum. unfold stake.
  destruct full.
  - rewrite checkIfFullStakeThresholdMet_true in Hfull.
    assert (is_Some (signed !! q)) as [x Hx].
    { apply (Hent q f Hf), (reg_entries _ Hreg); eauto. }
    exists x. split; [by apply Hfull|]. rewrite Hx; simpl.
    pose proof (reg_totals _ Hreg q x (Hfull q x Hx)).
    pose proof (reg_percent _ Hreg q p Hp). nia.
  - apply res_bind_ok in Hst as (met & Hmet & Hst). destruct met.
    + rewrite checkIfStakeThresholdsMet_true in Hmet.
      destruct (Hmet q p Hp) as (x & t & Hx & Ht & Hle). exists t. rewrite Hx; simpl.
      split; [done|lia].
    + injection Hst as <-. destruct Hs; done.
Qed.

(** C1: quorum soundness.  Start a goroutine from a registry snapshot and feed it
    any sequence of signed messages and timer events in which no operator has two
    submissions accepted.  Every response whose status is threshold-reached or full-stake is
    backed: the operators it counts all submitted, in this run, a message with the
    response's digest and a signature that verifies under their registered key, and
    the sum of their registry stakes reaches every quorum's threshold percentage of
    the total stake. *)
Theorem quorum_soundness (vi0 : ValidationInfo) key evs g out r :
  registry_ok vi0 → NoDup (accepted_ids vi0 evs) →
  grun (newGoroutine key vi0) evs = Ok (g, out) → r ∈ out →
  resp_Status r = MessageBlsAggregationStatusThresholdReached ∨
  resp_Status r = MessageBlsAggregationStatusFullStakeThresholdMet →
  ∃ S : gset OperatorId,
    (∀ o, o ∈ S → submitted vi0 evs o (mba_MessageDigest (resp_Aggregation r))) ∧
    backed_by vi0 S.
Proof.
  intros Hreg Hnd Hrun Hr Hs.
  pose proof (grun_accounted vi0 evs key g out (reg_separate _ Hreg) (reg_fresh _ Hreg) Hnd Hrun) as Hall.
  rewrite Forall_forall in Hall. apply Hall in Hr as [Hnone|(env & m & d & force & vi & [seen Hacc] & Hresp)].
  { destruct Hs; congruence. }
  destruct (response_of_aggregate _ _ _ _ _ _ Hresp) as (a & Ha & Hst & -> & _).
  { destruct Hs; congruence. }
  exists (ao_signersOperatorIdsSet a). split.
  - intros o Ho. by apply (acc_signer _ _ _ _ Hacc d a o Ha Ho).
  - by eapply status_backed.
Qed.

(** ** Invariants along runs *)

Definition event_ok (good : SignedMessage → Prop) (e : Event) : Prop :=
  match e.2 with EvSigned sm => good sm | EvTimer => True end.

(** An invariant of [handleSignedMessageDigest] on good messages holds of whatever
    the responses of a run report on. *)
Lemma grun_reports (I : ValidationInfo → Prop) (good : SignedMessage → Prop) evs : ∀ g g' out,
  (∀ sm vi vi', good sm → I vi → handleSignedMessageDigest sm vi = Ok vi' → I vi') →
  Forall (event_ok good) evs → I (gr_vi g) → grun g evs = Ok (g', out) →
  I (gr_vi g') ∧ Forall (reports_on I) out.
Proof.
  induction evs as [|[env ev] evs IH]; intros g g' out Hpres Hgood HI Hrun; simpl in Hrun.
  { by injection Hrun as <- <-. }
  apply Forall_cons in Hgood as [Hev Hgood].
  apply res_bind_ok in Hrun as ([[g1 rep] out1] & Hstep & Hrun).
  apply res_bind_ok in Hrun as ([g2 out2] & Hrun & [= <- <-]); simpl in *.
  assert (I (gr_vi g1)) as HI1.
  { destruct (gstep_ok _ _ _ _ _ _ Hstep) as (_ & [->|(sm & -> & Hsm)] & _); [done|].
    eapply (Hpres sm); [exact Hev|exact HI|exact Hsm]. }
  destruct (IH g1 g2 out2 Hpres Hgood HI1 Hrun) as [HI2 Hout2].
  split; [done|]. apply Forall_app; split; [|done]. by eapply gstep_reports.
Qed.

(** [ProcessNewSignature] fills [MessageDigest] with the digest of the message. *)
Definition digest_matches (sm : SignedMessage (M := M)) : Prop :=
  msg_Digest (sm_Message sm) = Ok (sm_MessageDigest sm).

Definition aggregates_verify (vi : ValidationInfo) : Prop := ∀ d a,
  vi_aggregatedOperatorsDict vi !! d = Some a →
  bls_verify (ao_signersAggSigG1 a) (ao_signersApkG2 a) d = Ok true.

Lemma aggregates_verify_step {BL : BlsLaws B} sm vi vi' :
  digest_matches sm → aggregates_verify vi → handleSignedMessageDigest sm vi = Ok vi' →
  aggregates_verify vi'.
Proof.
  intros Hm Hvi (op & pk & d & _ & _ & Hv & Hd & _ & ->)%handleSignedMessageDigest_ok d' a'; simpl.
  unfold digest_matches in Hm. rewrite Hm in Hd. injection Hd as Hd; rewrite Hd in Hv.
  rewrite lookup_insert_Some. intros [[<- <-]|[_ Ha']]; [|by apply Hvi].
  destruct (vi_aggregatedOperatorsDict vi !! d) as [a|] eqn:Ha; simpl.
  - apply bls_verify_add; [by apply Hvi|done].
  - by rewrite g2_add_zero_l.
Qed.

(** C4: whatever is submitted, in any order and with any repetition, every response
    of a run that is not an error carries an aggregate signature that verifies under
    its aggregate public key for its digest (the BLS pairing check being additive). *)
Theorem aggregate_signature_valid {BL : BlsLaws B} (vi0 : ValidationInfo) key evs g out r :
  vi_aggregatedOperatorsDict vi0 = ∅ → Forall (event_ok digest_matches) evs →
  grun (newGoroutine key vi0) evs = Ok (g, out) → r ∈ out →
  resp_Status r ≠ MessageBlsAggregationStatusNone →
  ∃ apk sig, mba_SignersApkG2 (resp_Aggregation r) = Some apk ∧
    mba_SignersAggSigG1 (resp_Aggregation r) = Some sig ∧
    bls_verify sig apk (mba_MessageDigest (resp_Aggregation r)) = Ok true.
Proof.
  intros Hempty Hgood Hrun Hr Hs.
  destruct (grun_reports aggregates_verify digest_matches evs (newGoroutine key vi0) g out) as [_ Hall];
    [apply aggregates_verify_step|done| |done|].
  { intros d a. simpl. by rewrite Hempty, lookup_empty. }
  rewrite Forall_forall in Hall. destruct (Hall r Hr) as [?|(env & m & d & force & vi & HI & Hresp)]; [done|].
  destruct (response_of_aggregate _ _ _ _ _ _ Hresp Hs) as (a & Ha & _ & -> & -> & -> & _).
  do 2 eexists. split_and!; [done..|]. by apply HI.
Qed.

(** ** Life cycle *)

Lemma resp_Finished_eq (env : AvsEnv) (m : M) d vi force r :
  getMessageBlsAggregationResponse env m d vi force = Ok r →
  resp_Finished r =
    bool_decide (resp_Status r = MessageBlsAggregationStatusFullStakeThresholdMet) || force.
Proof.
  unfold getMessageBlsAggregationResponse. intros Hr. inv_case Hr; done.
Qed.

Definition is_closed (g : Goroutine (M := M)) : Prop := gr_phase g = Closed.

(** A step of a live goroutine closes it exactly when it reports [Finished], in which
    case that is its only report. *)
Lemma gstep_finished (env : AvsEnv) (g : Goroutine) ev g' rep out :
  gr_phase g ≠ Closed → gstep env g ev = Ok (g', rep, out) →
  (gr_phase g' ≠ Closed ∧ Forall (λ r, resp_Finished r = false) out) ∨
  (gr_phase g' = Closed ∧ ∃ r, out = [r] ∧ resp_Finished r = true).
Proof.
  unfold gstep, handleSignedMessagePreThreshold, handleSignedMessageThresholdReached.
  intros Hlive Hstep. destruct (gr_phase g) as [|message|] eqn:Hph; [| |done].
  - destruct ev as [sm|]; [|simplify_eq/=; right; eauto].
    destruct (handleSignedMessageDigest sm (gr_vi g)) as [vi| |]; simplify_eq/=.
    2:{ left. by rewrite Hph. }
    apply res_bind_ok in Hstep as (agg & Hagg & [= Hstep]).
    apply resp_Finished_eq in Hagg. rewrite orb_false_r in Hagg.
    destruct (resp_Status agg); simplify_eq/=; [left|right|left|left]; split; eauto.
  - destruct (msg_Digest message) as [md| |]; [|done..]. destruct ev as [sm|].
    + case_bool_decide; [|simplify_eq; left; by rewrite Hph].
      destruct (handleSignedMessageDigest sm (gr_vi g)) as [vi| |]; simplify_eq/=.
      2:{ left. by rewrite Hph. }
      apply res_bind_ok in Hstep as (agg & Hagg & [= <- <- <-]); simpl.
      apply resp_Finished_eq in Hagg. rewrite orb_false_r in Hagg.
      case_bool_decide; [right|left]; eauto.
    + apply res_bind_ok in Hstep as (agg & Hagg & [= <- <- <-]); simpl.
      apply resp_Finished_eq in Hagg. rewrite orb_true_r in Hagg. right; eauto.
Qed.

Lemma grun_closed (g : Goroutine) evs g' out :
  gr_phase g = Closed → grun g evs = Ok (g', out) → g' = g ∧ out = [].
Proof.
  intros Hc. revert g' out. induction evs as [|[env ev] evs IH]; intros g' out Hrun; simpl in Hrun.
  { by injection Hrun as <- <-. }
  unfold gstep in Hrun. rewrite Hc in Hrun; simpl in Hrun.
  apply res_bind_ok in Hrun as ([g2 out2] & Hrun & [= <- <-]). by apply IH.
Qed.

Lemma grun_finished_lemma evs : ∀ (g : Goroutine) g' out,
  gr_phase g ≠ Closed → grun g evs = Ok (g', out) →
  (gr_phase g' ≠ Closed ∧ Forall (λ r, resp_Finished r = false) out) ∨
  (gr_phase g' = Closed ∧ ∃ out' r, out = out' ++ [r] ∧ resp_Finished r = true ∧
     Forall (λ r, resp_Finished r = false) out').
Proof.
  induction evs as [|[env ev] evs IH]; intros g g' out Hlive Hrun; simpl in Hrun.
  { injection Hrun as <- <-. by left. }
  apply res_bind_ok in Hrun as ([[g1 rep] out1] & Hstep & Hrun).
  apply res_bind_ok in Hrun as ([g2 out2] & Hrun & [= <- <-]); simpl in *.
  destruct (gstep_finished _ _ _ _ _ _ Hlive Hstep) as [[Hl1 Hf1]|(Hc1 & r & -> & Hr)].
  - destruct (IH _ _ _ Hl1 Hrun) as [[Hl2 Hf2]|(Hc2 & out' & r & -> & Hr & Hf2)].
    + left. split; [done|]. by apply Forall_app.
    + right. split; [done|]. exists (out1 ++ out'), r. rewrite (assoc_L (++)).
      split_and!; [done..|]. by apply Forall_app.
  - apply grun_closed in Hrun as [-> ->]; [|done]. right. split; [done|]. by exists [], r.
Qed.

(** C20: a goroutine reports [Finished] exactly when it returns, exactly once, and as
    its last response: along any run from its start either it is still live and no
    response was final, or it has returned and the final response is the last one. *)
Theorem finished_exactly_once (key : MessageKey) (vi : ValidationInfo) evs g out :
  grun (newGoroutine (M := M) key vi) evs = Ok (g, out) →
  (gr_phase g ≠ Closed ∧ Forall (λ r, resp_Finished r = false) out) ∨
  (gr_phase g = Closed ∧ ∃ out' r, out = out' ++ [r] ∧ resp_Finished r = true ∧
     Forall (λ r, resp_Finished r = false) out').
Proof. by apply grun_finished_lemma. Qed.

End Accounting.
