(* ===== verification/BlsAggService.v ===== *)
(** * Service-level properties of the message BLS aggregator

    - which keys a response lists as non-signers, and in which order;
    - what repeated and equivocating submissions do to the counted stake;
    - the invariant of the service's maps over all interleavings ([service_wf]),
      and that a rejected signature leaves the service unchanged;
    - that the parts of an initialization may be taken as one step ([initialize_atomic]);
    - channels without a receiver stay without one: a key whose initialization
      failed, and a sender that outlives its goroutine, block for ever. *)

From stdpp Require Import relations.
From S2P Require Import Prelude CoreTypes Instances Messages BlsAgg BlsAggTheory.

Section Responses.
Context `{B : BlsOps} {M : Type} `{MI : AggMessage M}.

#[local] Instance id_le_total : Total id_le.
Proof. intros x y. unfold id_le. lia. Qed.
#[local] Instance id_le_trans : Transitive id_le.
Proof. intros x y z. unfold id_le. lia. Qed.

(** ** Non-signers *)

Lemma nonSigners_elem (vi : ValidationInfo) a o :
  o ∈ nonSignersOperatorIds vi a ↔
  is_Some (vi_operatorsAvsStateDict vi !! o) ∧ o ∉ ao_signersOperatorIdsSet a.
Proof.
  unfold nonSignersOperatorIds. rewrite merge_sort_Permutation, list_elem_of_filter, list_elem_of_fmap.
  split.
  - intros [? ([k op] & -> & Hin%elem_of_map_to_list)]. split; [by eexists|done].
  - intros [[op Hop] ?]. split; [done|]. exists (o, op). by rewrite elem_of_map_to_list.
Qed.

Lemma nonSigners_NoDup (vi : ValidationInfo) a : NoDup (nonSignersOperatorIds vi a).
Proof.
  unfold nonSignersOperatorIds. rewrite merge_sort_Permutation.
  apply NoDup_filter, NoDup_fst_map_to_list.
Qed.

Lemma nonSigners_sorted (vi : ValidationInfo) a :
  StronglySorted id_le (nonSignersOperatorIds vi a).
Proof. apply StronglySorted_merge_sort; apply _. Qed.

(** Registered ids are 32 bytes, so that the order of their values is strict. *)
Definition ids_are_bytes32 (vi : ValidationInfo) : Prop := ∀ o,
  is_Some (vi_operatorsAvsStateDict vi !! o) → length o = 32%nat ∧ Forall is_u8 o.

Lemma strictly_sorted (vi : ValidationInfo) l :
  ids_are_bytes32 vi → NoDup l → StronglySorted id_le l →
  (∀ o, o ∈ l → is_Some (vi_operatorsAvsStateDict vi !! o)) →
  StronglySorted (λ x y, be_decode x < be_decode y) l.
Proof.
  intros Hids Hnd Hs. induction Hs as [|x l Hs IH Hx]; intros Hin; [constructor|].
  apply NoDup_cons in Hnd as [Hn Hnd]. constructor.
  { apply IH; [done|]. intros o Ho. apply Hin. by right. }
  rewrite Forall_forall in *. intros y Hy. specialize (Hx y Hy). unfold id_le in Hx.
  destruct (decide (be_decode x = be_decode y)) as [Heq|]; [|lia].
  destruct (Hids x) as [Hl1 Hb1]; [apply Hin; by left|].
  destruct (Hids y) as [Hl2 Hb2]; [apply Hin; by right|].
  apply be_decode_inj in Heq; [congruence|done|done|congruence].
Qed.

Lemma g1_pubkeys_fmap (vi : ValidationInfo) ids :
  (∀ o, o ∈ ids → is_Some (vi_operatorsAvsStateDict vi !! o)) →
  Forall2 (λ o pk, ∃ op, vi_operatorsAvsStateDict vi !! o = Some op ∧ pk = oas_G1Pubkey op)
    ids (g1_pubkeys vi ids).
Proof.
  induction ids as [|o ids IH]; intros Hin; [constructor|].
  destruct (Hin o) as [op Hop]; [by left|]. unfold g1_pubkeys; simpl. rewrite Hop; simpl.
  constructor; [by eexists|]. apply IH. intros o' Ho'. apply Hin. by right.
Qed.

(** A response without error lists, for its digest, the G1 public keys of exactly
    the registered operators that have not signed the digest, once each, in strictly
    increasing order of operator id, whatever the iteration order of the operator
    map (the contract that checks the signature requires this order). *)
Theorem nonsigners_listed (env : AvsEnv) (m : M) d vi force r :
  ids_are_bytes32 vi → getMessageBlsAggregationResponse env m d vi force = Ok r →
  resp_Status r ≠ MessageBlsAggregationStatusNone →
  ∃ a ids, vi_aggregatedOperatorsDict vi !! d = Some a ∧
    StronglySorted (λ x y, be_decode x < be_decode y) ids ∧
    (∀ o, o ∈ ids ↔ is_Some (vi_operatorsAvsStateDict vi !! o) ∧
                    o ∉ ao_signersOperatorIdsSet a) ∧
    Forall2 (λ o pk, ∃ op, vi_operatorsAvsStateDict vi !! o = Some op ∧ pk = oas_G1Pubkey op)
      ids (mba_NonSignersPubkeysG1 (resp_Aggregation r)).
Proof.
  intros Hids Hr Hs.
  destruct (response_of_aggregate _ _ _ _ _ _ Hr Hs) as (a & Ha & _ & _ & _ & _ & -> & _).
  exists a, (nonSignersOperatorIds vi a).
  assert (∀ o, o ∈ nonSignersOperatorIds vi a → is_Some (vi_operatorsAvsStateDict vi !! o)) as Hreg.
  { intros o [? _]%nonSigners_elem. done. }
  split_and!; [done| |apply nonSigners_elem|by apply g1_pubkeys_fmap].
  eapply strictly_sorted; eauto using nonSigners_NoDup, nonSigners_sorted.
Qed.

(** ** Repeated submissions *)

Fixpoint submit_times (n : nat) (sm : SignedMessage) (vi : ValidationInfo) : go ValidationInfo :=
  match n with
  | O => Ok vi
  | S n => let? vi := handleSignedMessageDigest sm vi in submit_times n sm vi
  end.

Lemma handleSignedMessageDigest_accepts (sm : SignedMessage) vi op pk d :
  verifySignature sm (vi_operatorsAvsStateDict vi) = Ok tt →
  vi_operatorsAvsStateDict vi !! sm_OperatorId sm = Some op → oas_G2Pubkey op = Some pk →
  msg_Digest (sm_Message sm) = Ok d →
  addable (vi_stakeHeap vi) op (vi_aggregatedOperatorsDict vi !! d) →
  handleSignedMessageDigest sm vi =
    Ok (set_aggregated vi d
          (next_aggregate (sm_OperatorId sm) op pk (sm_BlsSignature sm)
             (vi_aggregatedOperatorsDict vi !! d))
          (next_heap (vi_stakeHeap vi) op (vi_aggregatedOperatorsDict vi !! d))).
Proof.
  intros Hv Hop Hpk Hd Hadd. unfold handleSignedMessageDigest.
  rewrite Hv; simpl. rewrite Hd; simpl. rewrite Hop, Hpk.
  destruct (vi_aggregatedOperatorsDict vi !! d) as [a|]; [|done].
  by rewrite (proj1 (add_in_place_spec _ _ _) Hadd).
Qed.

Lemma verifySignature_ok_operator (sm : SignedMessage (M := M)) ops :
  verifySignature sm ops = Ok tt →
  ∃ op pk, ops !! sm_OperatorId sm = Some op ∧ oas_G2Pubkey op = Some pk.
Proof.
  unfold verifySignature. destruct (ops !! _) as [op|]; [|done].
  destruct (oas_G2Pubkey op) as [pk|] eqn:?; [|done]. eauto.
Qed.

(** The state after the operator [o] with stake object [r] alone was counted
    [k] times over for the digest [d]. *)
Definition self_counted (o : OperatorId) (op : OperatorAvsState) (d : MessageDigest)
    (vi0 vi : ValidationInfo) (k : Z) : Prop :=
  vi_operatorsAvsStateDict vi = vi_operatorsAvsStateDict vi0 ∧
  ∃ a, vi_aggregatedOperatorsDict vi !! d = Some a ∧
    ao_signersTotalStakePerQuorum a = oas_StakePerQuorum op ∧
    ao_signersOperatorIdsSet a = {[o]} ∧
    ∀ q, stake (deref (vi_stakeHeap vi) (oas_StakePerQuorum op)) q = k * stake (stake0 vi0 o) q.

Lemma submit_again n (sm : SignedMessage) vi0 vi op pk d k :
  verifySignature sm (vi_operatorsAvsStateDict vi0) = Ok tt →
  vi_operatorsAvsStateDict vi0 !! sm_OperatorId sm = Some op → oas_G2Pubkey op = Some pk →
  msg_Digest (sm_Message sm) = Ok d → self_counted (sm_OperatorId sm) op d vi0 vi k →
  ∃ vi', submit_times n sm vi = Ok vi' ∧
    self_counted (sm_OperatorId sm) op d vi0 vi' (2 ^ Z.of_nat n * k).
Proof.
  intros Hv Hop Hpk Hd. revert vi k.
  induction n as [|n IH]; intros vi k [Hdict (a & Ha & Hr & Hset & Hst)].
  { exists vi. rewrite Z.mul_1_l. split; [done|]. split; [done|]. by exists a. }
  cbn [submit_times].
  assert (addable (vi_stakeHeap vi) op (Some a)) as Hadd.
  { simpl. rewrite Hr. unfold deref. destruct (vi_stakeHeap vi !! _); simpl; eauto. }
  rewrite (handleSignedMessageDigest_accepts sm vi op pk d); rewrite ?Hdict, ?Ha; try done.
  cbn [res_bind].
  replace (2 ^ Z.of_nat (S n) * k) with (2 ^ Z.of_nat n * (2 * k))
    by (rewrite Nat2Z.inj_succ, Z.pow_succ_r; lia).
  apply IH. split; [done|]. eexists. split; [apply lookup_insert_eq|].
  pose proof (deref_next_eq _ _ _ Hadd) as Hnext. rewrite Hr in Hnext.
  cbn [next_aggregate ao_signersTotalStakePerQuorum ao_signersOperatorIdsSet set_aggregated vi_stakeHeap].
  rewrite Hr, Hset. split_and!; [done|set_solver|].
  intros q. rewrite Hnext, stake_addStakes, Hst. lia.
Qed.

(** Nothing stops an operator from submitting the same valid signature again:
    after [n + 1] submissions of a digest that nobody else signed, all accepted, its
    stake is counted [2 ^ n] times in every quorum although it is still the only
    signer, because the aggregated stake is the operator's own stake map and every
    repetition adds that map to itself. *)
Theorem resubmission_doubles_stake (sm : SignedMessage) vi d n :
  verifySignature sm (vi_operatorsAvsStateDict vi) = Ok tt →
  msg_Digest (sm_Message sm) = Ok d → vi_aggregatedOperatorsDict vi !! d = None →
  ∃ vi' a, submit_times (S n) sm vi = Ok vi' ∧
    vi_aggregatedOperatorsDict vi' !! d = Some a ∧
    ao_signersOperatorIdsSet a = {[sm_OperatorId sm]} ∧
    ∀ q, stake (deref (vi_stakeHeap vi') (ao_signersTotalStakePerQuorum a)) q =
         2 ^ Z.of_nat n * stake (stake0 vi (sm_OperatorId sm)) q.
Proof.
  intros Hv Hd Hnone. destruct (verifySignature_ok_operator _ _ Hv) as (op & pk & Hop & Hpk).
  cbn [submit_times]. rewrite (handleSignedMessageDigest_accepts sm vi op pk d) by (rewrite ?Hnone; done).
  rewrite Hnone; cbn [res_bind].
  match goal with |- context [submit_times n sm ?v] => set (vi1 := v) end.
  destruct (submit_again n sm vi vi1 op pk d 1) as (vi' & Hrun & _ & a & Ha & Hr & Hset & Hst);
    try done.
  - split; [done|]. eexists. split; [apply lookup_insert_eq|]; simpl. split_and!; [done..|].
    intros q. unfold stake0. rewrite Hop. by rewrite Z.mul_1_l.
  - exists vi', a. rewrite Hr. split_and!; [done..|]. intros q. rewrite Hst. lia.
Qed.

(** An operator that was the first signer of one digest and then signs another
    one brings along the whole stake counted for the first: the new digest starts
    with it as only signer, but its counted stake is the first digest's, and both
    digests keep sharing that count from then on. *)
Theorem equivocation_carries_stake (sm : SignedMessage) vi op d1 d2 a1 :
  verifySignature sm (vi_operatorsAvsStateDict vi) = Ok tt →
  vi_operatorsAvsStateDict vi !! sm_OperatorId sm = Some op →
  vi_aggregatedOperatorsDict vi !! d1 = Some a1 →
  ao_signersTotalStakePerQuorum a1 = oas_StakePerQuorum op →
  msg_Digest (sm_Message sm) = Ok d2 → vi_aggregatedOperatorsDict vi !! d2 = None →
  ∃ vi' a2, handleSignedMessageDigest sm vi = Ok vi' ∧
    vi_aggregatedOperatorsDict vi' !! d2 = Some a2 ∧
    ao_signersOperatorIdsSet a2 = {[sm_OperatorId sm]} ∧
    deref (vi_stakeHeap vi') (ao_signersTotalStakePerQuorum a2) =
      deref (vi_stakeHeap vi) (ao_signersTotalStakePerQuorum a1) ∧
    ao_signersTotalStakePerQuorum a2 = ao_signersTotalStakePerQuorum a1.
Proof.
  intros Hv Hop Ha1 Hr Hd Hnone.
  destruct (verifySignature_ok_operator _ _ Hv) as (op' & pk & Hop' & Hpk). simplify_eq.
  eexists _, _. split_and!.
  - apply handleSignedMessageDigest_accepts; [done..|]. by rewrite Hnone.
  - simpl. rewrite lookup_insert_eq. by rewrite Hnone.
  - done.
  - simpl. rewrite Hnone. by rewrite Hr.
  - by rewrite Hr.
Qed.

End Responses.

Section ServiceInvariant.
Context `{B : BlsOps} {M : Type} `{MI : AggMessage M}.

(** ** The maps of the service *)

(** Every goroutine is live and is the one its key's channel leads to, different keys
    have different channels, and channel identities are below the next one. *)
Record service_wf (sv : Service (M := M)) : Prop := {
  wf_goroutine c g : sv_goroutines sv !! c = Some g →
    gr_phase g ≠ Closed ∧ sv_signedMessageCs sv !! gr_key g = Some c;
  wf_chan k c : sv_signedMessageCs sv !! k = Some c → (c < sv_nextChan sv)%nat;
  wf_inj k1 k2 c : sv_signedMessageCs sv !! k1 = Some c →
    sv_signedMessageCs sv !! k2 = Some c → k1 = k2;
}.

Lemma service_wf_new : service_wf NewMessageBlsAggregatorService.
Proof. split; simpl; intros *; rewrite lookup_empty; done. Qed.

Lemma service_wf_fresh sv : service_wf sv → sv_goroutines sv !! sv_nextChan sv = None.
Proof.
  intros Hwf. destruct (sv_goroutines sv !! sv_nextChan sv) as [g|] eqn:Hg; [|done].
  apply (wf_goroutine _ Hwf) in Hg as [_ Hk]. apply (wf_chan _ Hwf) in Hk. lia.
Qed.

(** Registering a new channel for a key that has none. *)
Lemma service_wf_register sv k :
  service_wf sv → sv_signedMessageCs sv !! k = None →
  service_wf (mkService (<[k := sv_nextChan sv]> (sv_signedMessageCs sv)) (sv_goroutines sv)
                (S (sv_nextChan sv))).
Proof.
  intros Hwf Hk. split; simpl.
  - intros c g Hg. pose proof (wf_goroutine _ Hwf c g Hg) as [? Hc]. split; [done|].
    rewrite lookup_insert_ne; [done|]. intros ->. congruence.
  - intros k' c. rewrite lookup_insert_Some. intros [[<- <-]|[_ Hc]]; [lia|].
    apply (wf_chan _ Hwf) in Hc. lia.
  - intros k1 k2 c. rewrite !lookup_insert_Some.
    intros [[<- <-]|[? H1]] [[<- ?]|[? H2]]; try done.
    + apply (wf_chan _ Hwf) in H2. lia.
    + apply (wf_chan _ Hwf) in H1. lia.
    + by eapply (wf_inj _ Hwf).
Qed.

(** Starting or updating the goroutine of a key's channel. *)
Lemma service_wf_goroutine sv c g :
  service_wf sv → gr_phase g ≠ Closed → sv_signedMessageCs sv !! gr_key g = Some c →
  service_wf (mkService (sv_signedMessageCs sv) (<[c := g]> (sv_goroutines sv)) (sv_nextChan sv)).
Proof.
  intros Hwf Hph Hk. split; simpl; [|apply (wf_chan _ Hwf)|apply (wf_inj _ Hwf)].
  intros c' g'. rewrite lookup_insert_Some. intros [[<- <-]|[_ Hg]]; [done|].
  by apply (wf_goroutine _ Hwf).
Qed.

Lemma service_wf_close sv k c :
  service_wf sv → sv_signedMessageCs sv !! k = Some c →
  service_wf (closeMessageGoroutine sv k c).
Proof.
  intros Hwf Hk. split; simpl.
  - intros c' g. rewrite lookup_delete_Some. intros [Hne Hg].
    pose proof (wf_goroutine _ Hwf c' g Hg) as [? Hc]. split; [done|].
    rewrite lookup_delete_ne; [done|]. intros ->. congruence.
  - intros k' c'. rewrite lookup_delete_Some. intros [_ ?]. by eapply (wf_chan _ Hwf).
  - intros k1 k2 c'. rewrite !lookup_delete_Some. intros [_ ?] [_ ?]. by eapply (wf_inj _ Hwf).
Qed.

Lemma service_wf_after_step sv c g g' :
  service_wf sv → sv_goroutines sv !! c = Some g → gr_key g' = gr_key g →
  service_wf (after_step sv c g').
Proof.
  intros Hwf Hg Hkey. pose proof (wf_goroutine _ Hwf c g Hg) as [_ Hk]. rewrite <- Hkey in Hk.
  unfold after_step. destruct (gr_phase g') eqn:Hph.
  - apply service_wf_goroutine; [done| |done]. congruence.
  - apply service_wf_goroutine; [done| |done]. congruence.
  - by apply service_wf_close.
Qed.

Lemma service_wf_initialize env sv key qs ps blk :
  service_wf sv → service_wf (InitializeMessageIfNotExists env sv key qs ps blk).1.
Proof.
  intros Hwf. unfold InitializeMessageIfNotExists, initializeMessageChan.
  destruct (validateQuorumThresholdPercentages ps); [|done..].
  destruct (sv_signedMessageCs sv !! key) eqn:Hk; simpl; [done|].
  pose proof (service_wf_register sv key Hwf Hk) as Hreg.
  destruct (fetchValidationInfo _ _ _ _); simpl; [|done..].
  apply (service_wf_goroutine _ (sv_nextChan sv) _ Hreg); [done|]. apply lookup_insert_eq.
Qed.

(** Every step is an initialization, changes nothing, or is a step of one goroutine. *)
Lemma sv_step_cases (sv sv' : Service (M := M)) : sv_step sv sv' →
  (∃ env key qs ps blk, sv' = (InitializeMessageIfNotExists env sv key qs ps blk).1) ∨
  sv' = sv ∨
  (∃ c g g', sv_goroutines sv !! c = Some g ∧ gr_key g' = gr_key g ∧ sv' = after_step sv c g').
Proof.
  intros [env key qs ps blk sv1 r Hinit _|env c sm sv1 r out Hsend|env c sv1 out Hfire].
  - left. exists env, key, qs, ps, blk. by rewrite Hinit.
  - right. unfold sendSignedMessage in Hsend.
    destruct (sv_goroutines sv !! c) as [g|] eqn:Hg; [|left; by simplify_eq].
    apply res_bind_ok in Hsend as ([[g' rep] out'] & Hstep & [= <- <- <-]).
    right. exists c, g, g'. split_and!; [done| |done]. by eapply gstep_ok in Hstep as [? _].
  - right. unfold fireTimer in Hfire.
    destruct (sv_goroutines sv !! c) as [g|] eqn:Hg; [|left; by simplify_eq].
    apply res_bind_ok in Hfire as ([[g' rep] out'] & Hstep & [= <- <-]).
    right. exists c, g, g'. split_and!; [done| |done]. by eapply gstep_ok in Hstep as [? _].
Qed.

(** What an initialization does to the maps: nothing, or it registers the key on the
    next channel, with or without a goroutine there. *)
Lemma initialize_cases env (sv : Service (M := M)) key qs ps blk :
  let sv' := (InitializeMessageIfNotExists env sv key qs ps blk).1 in
  sv' = sv ∨
  (sv_signedMessageCs sv !! key = None ∧
   sv_signedMessageCs sv' = <[key := sv_nextChan sv]> (sv_signedMessageCs sv) ∧
   sv_nextChan sv' = S (sv_nextChan sv) ∧
   ∀ c, c ≠ sv_nextChan sv → sv_goroutines sv' !! c = sv_goroutines sv !! c).
Proof.
  unfold InitializeMessageIfNotExists, initializeMessageChan. simpl.
  destruct (validateQuorumThresholdPercentages ps); [|by left..].
  destruct (sv_signedMessageCs sv !! key) eqn:Hk; simpl; [by left|right].
  destruct (fetchValidationInfo _ _ _ _); simpl; split_and!; try done.
  intros c Hc. by rewrite lookup_insert_ne.
Qed.

Lemma after_step_nextChan (sv : Service (M := M)) c g :
  sv_nextChan (after_step sv c g) = sv_nextChan sv.
Proof. unfold after_step. by destruct (gr_phase g). Qed.

Lemma service_wf_step sv sv' : service_wf sv → sv_step sv sv' → service_wf sv'.
Proof.
  intros Hwf [(env & key & qs & ps & blk & ->)|[->|(c & g & g' & Hg & Hkey & ->)]]%sv_step_cases.
  - by apply service_wf_initialize.
  - done.
  - by eapply service_wf_after_step.
Qed.

Lemma service_wf_rtc sv sv' : service_wf sv → rtc sv_step sv sv' → service_wf sv'.
Proof. intros Hwf Hrtc. induction Hrtc; eauto using service_wf_step. Qed.

(** C21: in every reachable state of the service, under any interleaving of
    initializations, sends and timers, each goroutine is live and is the one its
    message key's channel leads to, and no two keys share a channel; so at most one
    goroutine works on a message key. *)
Theorem service_invariant sv c1 c2 (g1 g2 : Goroutine (M := M)) :
  rtc sv_step NewMessageBlsAggregatorService sv →
  sv_goroutines sv !! c1 = Some g1 → sv_goroutines sv !! c2 = Some g2 →
  gr_phase g1 ≠ Closed ∧ sv_signedMessageCs sv !! gr_key g1 = Some c1 ∧
  (gr_key g1 = gr_key g2 ↔ c1 = c2).
Proof.
  intros Hrtc Hg1 Hg2. pose proof (service_wf_rtc _ _ service_wf_new Hrtc) as Hwf.
  pose proof (wf_goroutine _ Hwf _ _ Hg1) as [? Hk1].
  pose proof (wf_goroutine _ Hwf _ _ Hg2) as [? Hk2].
  split_and!; [done..|]. split; [|by intros ->; simplify_eq].
  intros Heq. rewrite Heq in Hk1. congruence.
Qed.

(** ** Rejected signatures *)

Lemma gstep_rejected (env : AvsEnv) (g : Goroutine) ev g' e out :
  gstep env g ev = Ok (g', Some (Err e), out) → g' = g ∧ out = [].
Proof.
  unfold gstep, handleSignedMessagePreThreshold, handleSignedMessageThresholdReached.
  intros Hstep. destruct (gr_phase g) as [|message|]; [| |done].
  - destruct ev as [sm|]; [|done].
    destruct (handleSignedMessageDigest sm (gr_vi g)); simplify_eq/=; [|done].
    apply res_bind_ok in Hstep as (agg & _ & [= Hstep]). by destruct (resp_Status agg).
  - destruct (msg_Digest message); [|done..]. destruct ev as [sm|].
    + case_bool_decide; [|by simplify_eq].
      destruct (handleSignedMessageDigest sm (gr_vi g)); simplify_eq/=; [|done].
      by apply res_bind_ok in Hstep as (agg & _ & [= Hstep]).
    + by apply res_bind_ok in Hstep as (agg & _ & [= Hstep]).
Qed.

Lemma after_step_id sv c g :
  service_wf sv → sv_goroutines sv !! c = Some g → after_step sv c g = sv.
Proof.
  intros Hwf Hg. unfold after_step.
  rewrite insert_id by done. pose proof (wf_goroutine _ Hwf _ _ Hg) as [Hph _].
  destruct sv; simpl. by destruct (gr_phase g).
Qed.

(** A signature that [ProcessNewSignature] rejects, for whatever reason (unknown
    key, unknown operator, wrong signature, digest that cannot be computed, cancelled
    context), leaves the service exactly as it was and produces no response. *)
Theorem rejected_signature_no_effect (env : AvsEnv) sv ctx (m : M) sig o sv' e out :
  rtc sv_step NewMessageBlsAggregatorService sv →
  ProcessNewSignature env sv ctx m sig o = Ok (sv', Replied (Err e), out) →
  sv' = sv ∧ out = [].
Proof.
  intros Hrtc. pose proof (service_wf_rtc _ _ service_wf_new Hrtc) as Hwf.
  unfold ProcessNewSignature. destruct (sv_signedMessageCs sv !! msg_Key m) as [c|]; [|by intros [= <- _ <-]].
  destruct (msg_Digest m) as [d| |]; [|by intros [= <- _ <-]|done].
  destruct ctx; [by intros [= <- _ <-]|]. unfold sendSignedMessage.
  destruct (sv_goroutines sv !! c) as [g|] eqn:Hg; [|by intros [= <- _ <-]].
  intros ([[g' rep] out'] & Hstep & Heq)%res_bind_ok; simpl in Heq.
  destruct rep as [rep|]; [|done]. injection Heq as <- -> <-.
  apply gstep_rejected in Hstep as [-> ->]. split; [|done]. by apply after_step_id.
Qed.

(** ** Channels without a receiver *)

Lemma dead_channel_step (sv sv' : Service (M := M)) c :
  sv_step sv sv' → (c < sv_nextChan sv)%nat → sv_goroutines sv !! c = None →
  (c < sv_nextChan sv')%nat ∧ sv_goroutines sv' !! c = None.
Proof.
  intros [(env & key & qs & ps & blk & ->)|[->|(c' & g & g' & Hg & _ & ->)]]%sv_step_cases Hlt Hc;
    [|done|].
  - destruct (initialize_cases env sv key qs ps blk) as [->|(_ & _ & -> & Hsame)]; [done|].
    rewrite Hsame by lia. split; [lia|done].
  - rewrite after_step_nextChan. split; [done|]. unfold after_step.
    assert (c' ≠ c) by congruence. destruct (gr_phase g'); simpl;
      rewrite ?lookup_insert_ne, ?lookup_delete_ne by done; done.
Qed.

Lemma dead_channel_rtc (sv sv' : Service (M := M)) c :
  rtc sv_step sv sv' → (c < sv_nextChan sv)%nat → sv_goroutines sv !! c = None →
  sv_goroutines sv' !! c = None.
Proof.
  induction 1 as [|sv1 sv2 sv3 Hstep _ IH]; [done|]. intros Hlt Hc.
  destruct (dead_channel_step _ _ c Hstep Hlt Hc). by apply IH.
Qed.

Lemma nextChan_mono (sv sv' : Service (M := M)) :
  rtc sv_step sv sv' → (sv_nextChan sv ≤ sv_nextChan sv')%nat.
Proof.
  induction 1 as [|s s' s'' Hs _ IH]; [done|]. etrans; [|done].
  destruct (sv_step_cases _ _ Hs) as
    [(env & key & qs & ps & blk & ->)|[->|(c & g & g' & _ & _ & ->)]]; [|done|].
  - destruct (initialize_cases env s key qs ps blk) as [->|(_ & _ & -> & _)]; lia.
  - by rewrite after_step_nextChan.
Qed.

(** A registered key whose channel has no receiver keeps its channel. *)
Lemma orphan_key_step sv sv' k c :
  service_wf sv → sv_step sv sv' → sv_signedMessageCs sv !! k = Some c →
  sv_goroutines sv !! c = None → sv_signedMessageCs sv' !! k = Some c.
Proof.
  intros Hwf [(env & key & qs & ps & blk & ->)|[->|(c' & g & g' & Hg & Hkey & ->)]]%sv_step_cases Hk Hc;
    [|done|].
  - destruct (initialize_cases env sv key qs ps blk) as [->|(Hnone & -> & _)]; [done|].
    rewrite lookup_insert_ne; congruence.
  - unfold after_step. destruct (gr_phase g'); simpl; [done..|].
    rewrite lookup_delete_ne; [done|]. rewrite Hkey. intros <-.
    pose proof (wf_goroutine _ Hwf _ _ Hg) as [_ ?]. congruence.
Qed.

Lemma orphan_key_rtc sv sv' k c :
  service_wf sv → rtc sv_step sv sv' → sv_signedMessageCs sv !! k = Some c →
  sv_goroutines sv !! c = None →
  sv_signedMessageCs sv' !! k = Some c ∧ sv_goroutines sv' !! c = None.
Proof.
  intros Hwf Hrtc. induction Hrtc as [|sv1 sv2 sv3 Hstep _ IH]; [done|]. intros Hk Hc.
  apply IH; [by eapply service_wf_step|by eapply orphan_key_step|].
  eapply (dead_channel_step sv1 sv2 c); try done. by eapply (wf_chan _ Hwf).
Qed.

(** ** Initialization as one step *)

(** The goroutine of a registered channel is started. *)
Definition startGoroutine (sv : Service (M := M)) (c : nat) (key : MessageKey) (vi : ValidationInfo) : Service :=
  mkService (sv_signedMessageCs sv) (<[c := newGoroutine key vi]> (sv_goroutines sv)) (sv_nextChan sv).

Lemma after_step_start sv c c' g key vi :
  c' ≠ c → after_step (startGoroutine sv c key vi) c' g = startGoroutine (after_step sv c' g) c key vi.
Proof.
  intros Hne. unfold after_step, startGoroutine, closeMessageGoroutine. destruct (gr_phase g); simpl; f_equal;
    first [by rewrite insert_insert_ne|by rewrite delete_insert_ne].
Qed.

(** A step of others happens before the goroutine is started as it happens after. *)
Lemma start_commutes sv sv' c key vi :
  (c < sv_nextChan sv)%nat → sv_goroutines sv !! c = None → sv_step sv sv' →
  rtc sv_step (startGoroutine sv c key vi) (startGoroutine sv' c key vi).
Proof.
  intros Hlt Hc [env key' qs ps blk sv1 r Hinit Hr|env c' sm sv1 r out Hsend|env c' sv1 out Hfire].
  - apply rtc_once. apply (step_initialize _ env key' qs ps blk _ r); [|done].
    unfold InitializeMessageIfNotExists, initializeMessageChan in *. simpl in *.
    destruct (validateQuorumThresholdPercentages ps); [|by injection Hinit as <- <-..].
    destruct (sv_signedMessageCs sv !! key'); [by injection Hinit as <- <-|].
    destruct (fetchValidationInfo env qs ps blk); injection Hinit as <- <-; [|done..].
    unfold startGoroutine. simpl. f_equal. f_equal. rewrite insert_insert_ne; [done|lia].
  - destruct (decide (c' = c)) as [->|Hne]; unfold sendSignedMessage in Hsend.
    { rewrite Hc in Hsend. injection Hsend as <- <- <-. apply rtc_refl. }
    destruct (sv_goroutines sv !! c') as [g|] eqn:Hg; [|injection Hsend as <- <- <-; apply rtc_refl].
    apply res_bind_ok in Hsend as ([[g' rep] out'] & Hstep & [= <- <- <-]). apply rtc_once.
    eapply (step_send _ env c' sm). unfold sendSignedMessage. simpl. rewrite lookup_insert_ne, Hg, Hstep by done.
    cbn [res_bind fst snd]. by rewrite after_step_start.
  - destruct (decide (c' = c)) as [->|Hne]; unfold fireTimer in Hfire.
    { rewrite Hc in Hfire. injection Hfire as <- <-. apply rtc_refl. }
    destruct (sv_goroutines sv !! c') as [g|] eqn:Hg; [|injection Hfire as <- <-; apply rtc_refl].
    apply res_bind_ok in Hfire as ([[g' rep] out'] & Hstep & [= <- <-]). apply rtc_once.
    eapply (step_timer _ env c'). unfold fireTimer. simpl. rewrite lookup_insert_ne, Hg, Hstep by done.
    cbn [res_bind fst snd]. by rewrite after_step_start.
Qed.

(** [InitializeMessageIfNotExists] registers the key under a lock, then reads the chain and
    starts the goroutine.  Whatever the rest of the service does between the registration
    and the start, it reaches no state that it cannot reach when the three happen at
    once; a send on the new channel in between waits for the start. *)
Theorem initialize_atomic (env : AvsEnv) sv sv1 sv2 key qs ps blk c vi :
  rtc sv_step (NewMessageBlsAggregatorService (M := M)) sv → validateQuorumThresholdPercentages ps = Ok tt →
  initializeMessageChan sv key = (sv1, Some c) → rtc sv_step sv1 sv2 →
  fetchValidationInfo env qs ps blk = Ok vi →
  rtc sv_step (InitializeMessageIfNotExists env sv key qs ps blk).1 (startGoroutine sv2 c key vi).
Proof.
  intros Hsv Hps Hreg Hrtc Hvi. pose proof (service_wf_rtc _ _ service_wf_new Hsv) as Hwf.
  assert ((InitializeMessageIfNotExists env sv key qs ps blk).1 = startGoroutine sv1 c key vi) as ->.
  { unfold InitializeMessageIfNotExists. by rewrite Hps, Hreg, Hvi. }
  assert ((c < sv_nextChan sv1)%nat ∧ sv_goroutines sv1 !! c = None) as [Hlt Hc].
  { unfold initializeMessageChan in Hreg. destruct (sv_signedMessageCs sv !! key); [done|].
    injection Hreg as <- <-. simpl. split; [lia|by apply service_wf_fresh]. }
  clear Hreg. induction Hrtc as [|s1 s2 s3 Hstep _ IH]; [apply rtc_refl|].
  destruct (dead_channel_step _ _ _ Hstep Hlt Hc) as [Hlt' Hc'].
  etrans; [by eapply start_commutes|by apply IH].
Qed.

(** When the validation info of a new key cannot be fetched,
    [InitializeMessageIfNotExists] returns the error but leaves the key registered
    without a goroutine.  From then on, whatever the service does, initializing the
    key again does nothing and reports success, and every signature for the key
    submitted with the background context waits for ever. *)
Theorem failed_initialization_blocks_key (env : AvsEnv) sv sv1 sv2 key qs ps blk e :
  rtc sv_step (NewMessageBlsAggregatorService (M := M)) sv →
  sv_signedMessageCs sv !! key = None → validateQuorumThresholdPercentages ps = Ok tt →
  fetchValidationInfo env qs ps blk = Err e →
  InitializeMessageIfNotExists env sv key qs ps blk = (sv1, Err e) → rtc sv_step sv1 sv2 →
  (∀ env' qs' ps' blk', validateQuorumThresholdPercentages ps' = Ok tt →
     InitializeMessageIfNotExists env' sv2 key qs' ps' blk' = (sv2, Ok tt)) ∧
  (∀ env' (m : M) d sig o, msg_Key m = key → msg_Digest m = Ok d →
     ProcessNewSignature env' sv2 None m sig o = Ok (sv2, Blocked, [])).
Proof.
  intros Hrtc Hk Hps Hfetch Hinit Hrtc2.
  pose proof (service_wf_rtc _ _ service_wf_new Hrtc) as Hwf.
  pose proof (service_wf_initialize env sv key qs ps blk Hwf) as Hwf1. rewrite Hinit in Hwf1.
  unfold InitializeMessageIfNotExists, initializeMessageChan in Hinit.
  rewrite Hps, Hk, Hfetch in Hinit. injection Hinit as <-.
  destruct (orphan_key_rtc _ _ key (sv_nextChan sv) Hwf1 Hrtc2) as [Hk2 Hg2]; simpl in *.
  { apply lookup_insert_eq. }
  { by apply service_wf_fresh. }
  split.
  - intros env' qs' ps' blk' Hps'. unfold InitializeMessageIfNotExists, initializeMessageChan.
    by rewrite Hps', Hk2.
  - intros env' m d sig o Hm Hd. unfold ProcessNewSignature, sendSignedMessage.
    by rewrite Hm, Hk2, Hd, Hg2.
Qed.

(** A sender that looked its channel up while the goroutine was live, but gets to
    send only after the goroutine has returned, waits for ever: in no later state of
    the service does the channel have a receiver again. *)
Theorem late_send_blocks (sv sv1 sv2 : Service (M := M)) c env sm :
  rtc sv_step NewMessageBlsAggregatorService sv → is_Some (sv_goroutines sv !! c) →
  rtc sv_step sv sv1 → sv_goroutines sv1 !! c = None → rtc sv_step sv1 sv2 →
  sendSignedMessage env sv2 c sm = Ok (sv2, Blocked, []).
Proof.
  intros Hrtc [g Hg] H1 Hc H2. pose proof (service_wf_rtc _ _ service_wf_new Hrtc) as Hwf.
  pose proof (wf_goroutine _ Hwf _ _ Hg) as [_ Hk]. apply (wf_chan _ Hwf) in Hk.
  assert (sv_goroutines sv2 !! c = None) as Hdead.
  { eapply (dead_channel_rtc sv1 sv2); [done| |done]. pose proof (nextChan_mono _ _ H1). lia. }
  unfold sendSignedMessage. by rewrite Hdead.
Qed.

End ServiceInvariant.
