(* ===== verification/BlsAggProgress.v ===== *)
(** * Progress of the message BLS aggregator

    - [goroutine_never_panics] and [service_never_panics]: on a registry snapshot that has
      an entry for every requested quorum no sequence of submissions, repeated, forged or
      for any digests, and timers makes a goroutine or the service panic, as long as the
      chain answers and the signatures have their affine points;
    - [honest_quorum_reported]: when operators with enough stake sign one digest and no
      operator has two submissions accepted, the goroutine reports it, whatever the other
      operators sign and in whatever order. *)

From S2P Require Import Prelude CoreTypes Instances Messages BlsAgg BlsAggTheory BlsAggService.

(** ** Lists *)

Lemma NoDup_omap_inj {A C} (f : A → option C) l x y k :
  NoDup (omap f l) → x ∈ l → y ∈ l → f x = Some k → f y = Some k → x = y.
Proof.
  induction l as [|z l IH]; intros Hnd Hx Hy Hfx Hfy; [by apply elem_of_nil in Hx|].
  simpl in Hnd.
  assert (NoDup (omap f l)) as Hnd' by (destruct (f z); [by apply NoDup_cons in Hnd as [_ ?]|done]).
  assert (∀ w, w ∈ l → f w = Some k → f z = Some k → False) as Hclash.
  { intros w Hw Hfw Hfz. rewrite Hfz in Hnd. apply NoDup_cons in Hnd as [Hn _]. apply Hn.
    apply list_elem_of_omap. eauto. }
  apply elem_of_cons in Hx as [->|Hx], Hy as [->|Hy]; [done|exfalso; eauto..|by apply IH].
Qed.

(** ** Sums of stakes *)

Lemma set_zsum_mono {K} `{Countable K} (f : K → Z) (X Y : gset K) :
  (∀ k, k ∈ Y → 0 ≤ f k) → X ⊆ Y → set_zsum f X ≤ set_zsum f Y.
Proof.
  revert Y. induction X as [|k X Hk IH] using set_ind_L; intros Y Hpos Hsub.
  - rewrite set_zsum_empty. unfold set_zsum.
    assert (Forall (λ z, 0 ≤ z) (f <$> elements Y)) as Hall.
    { apply Forall_forall. intros z (k & -> & Hk%elem_of_elements)%list_elem_of_fmap. by apply Hpos. }
    induction Hall; simpl; lia.
  - assert (Y = {[k]} ∪ Y ∖ {[k]}) as HY by (apply union_difference_singleton_L; set_solver).
    rewrite HY, !set_zsum_insert by set_solver.
    specialize (IH (Y ∖ {[k]})). enough (set_zsum f X ≤ set_zsum f (Y ∖ {[k]})) by lia.
    apply IH; set_solver.
Qed.

Lemma set_zsum_union {K} `{Countable K} (f : K → Z) (X Y : gset K) :
  X ## Y → set_zsum f (X ∪ Y) = set_zsum f X + set_zsum f Y.
Proof.
  revert Y. induction X as [|k X Hk IH] using set_ind_L; intros Y Hd.
  - rewrite union_empty_l_L, set_zsum_empty. lia.
  - rewrite <- (assoc_L (∪)), !set_zsum_insert, IH by set_solver. lia.
Qed.

(** ** Threshold checks *)

Lemma stakeThresholdsMet_loop_false l signed total :
  stakeThresholdsMet_loop l signed total = Ok false →
  ∃ q p s t, (q, p) ∈ l ∧ signed !! q = Some s ∧ total !! q = Some t ∧ s * 100 < t * p.
Proof.
  induction l as [|[q p] l IH]; simpl; [done|].
  destruct (signed !! q) as [s|] eqn:Hs, (total !! q) as [t|] eqn:Ht; simpl; try done.
  destruct (Z.ltb_spec (s * 100) (t * p)).
  - intros _. exists q, p, s, t. split_and!; [left|done..].
  - intros Hl. destruct (IH Hl) as (q' & p' & s' & t' & Hin & ?). exists q', p', s', t'.
    split; [by right|done].
Qed.

Lemma fullStake_loop_defined l (total : gmap Z Z) :
  Forall (λ qs, is_Some (total !! qs.1)) l → ∃ b, fullStake_loop l total = Ok b.
Proof.
  induction 1 as [|[q s] l [t Ht] _ IH]; simpl in *; [by eexists|].
  rewrite Ht. case_bool_decide; eauto.
Qed.

Section Progress.
Context `{B : BlsOps} {M : Type} `{MI : AggMessage M}.

(** ** Panic freedom *)

(** What the snapshot has to hold: a key and a stake map for every operator, in every stake
    map an entry for every quorum with a threshold and only for quorums with a total; and
    the stake map of every aggregate is the one of some operator. *)
Record vi_ok (vi : ValidationInfo) : Prop := {
  vo_key o op : vi_operatorsAvsStateDict vi !! o = Some op → is_Some (oas_G2Pubkey op);
  vo_map o op : vi_operatorsAvsStateDict vi !! o = Some op →
    is_Some (vi_stakeHeap vi !! oas_StakePerQuorum op);
  vo_known o op q : vi_operatorsAvsStateDict vi !! o = Some op →
    is_Some (deref (vi_stakeHeap vi) (oas_StakePerQuorum op) !! q) →
    is_Some (vi_totalStakePerQuorum vi !! q);
  vo_entry o op q : vi_operatorsAvsStateDict vi !! o = Some op →
    is_Some (vi_quorumThresholdPercentagesMap vi !! q) →
    is_Some (deref (vi_stakeHeap vi) (oas_StakePerQuorum op) !! q);
  vo_owner d a : vi_aggregatedOperatorsDict vi !! d = Some a → ∃ o op,
    vi_operatorsAvsStateDict vi !! o = Some op ∧ ao_signersTotalStakePerQuorum a = oas_StakePerQuorum op;
}.

Lemma lookup_addStakes_is_Some m total q :
  is_Some (addStakes m total !! q) ↔ is_Some (m !! q) ∨ is_Some (total !! q).
Proof.
  rewrite lookup_addStakes. destruct (m !! q); unfold is_Some; naive_solver.
Qed.

Lemma vi_ok_addable vi op d : vi_ok vi → addable (vi_stakeHeap vi) op (vi_aggregatedOperatorsDict vi !! d).
Proof.
  intros Hok. destruct (vi_aggregatedOperatorsDict vi !! d) as [a|] eqn:Ha; [|done].
  destruct (vo_owner _ Hok _ _ Ha) as (o & op' & Ho & Hr). left. rewrite Hr. by eapply vo_map.
Qed.

Lemma vi_ok_step (sm : SignedMessage) vi vi' :
  vi_ok vi → handleSignedMessageDigest sm vi = Ok vi' → vi_ok vi'.
Proof.
  intros Hok (op & pk & d & Hop & _ & _ & _ & Hadd & ->)%handleSignedMessageDigest_ok.
  assert (∀ o' op', vi_operatorsAvsStateDict vi !! o' = Some op' → ∀ q,
    let m := deref (next_heap (vi_stakeHeap vi) op (vi_aggregatedOperatorsDict vi !! d)) (oas_StakePerQuorum op') in
    (is_Some (m !! q) → is_Some (vi_totalStakePerQuorum vi !! q)) ∧
    (is_Some (vi_quorumThresholdPercentagesMap vi !! q) → is_Some (m !! q))) as Hmaps.
  { intros o' op' Hop' q. cbn zeta. destruct (vi_aggregatedOperatorsDict vi !! d) as [a|] eqn:Ha.
    2:{ split; [by eapply vo_known|by eapply vo_entry]. }
    destruct (decide (ao_signersTotalStakePerQuorum a = oas_StakePerQuorum op')) as [Heq|Hne].
    - rewrite <- Heq, (deref_next_eq _ _ _ Hadd), lookup_addStakes_is_Some. split.
      + intros [?|Hs]; [by eapply (vo_known _ Hok _ op)|]. rewrite Heq in Hs. by eapply (vo_known _ Hok _ op').
      + intros Ht. left. by eapply (vo_entry _ Hok _ op).
    - rewrite deref_next_ne by done. split; [by eapply vo_known|by eapply vo_entry]. }
  split; simpl.
  - by apply vo_key.
  - intros o' op' Ho'. unfold next_heap. pose proof (vo_map _ Hok _ _ Ho') as Hm.
    destruct (vi_aggregatedOperatorsDict vi !! d) as [a|]; [|done].
    destruct (vi_stakeHeap vi !! ao_signersTotalStakePerQuorum a); [|done].
    apply lookup_insert_is_Some'. by right.
  - intros o' op' q Ho'. by apply (Hmaps o' op' Ho' q).
  - intros o' op' q Ho'. by apply (Hmaps o' op' Ho' q).
  - intros d' a'. rewrite lookup_insert_Some. intros [[<- <-]|[_ Ha']]; [|by eapply vo_owner].
    destruct (vi_aggregatedOperatorsDict vi !! d) as [a|] eqn:Ha; simpl; [by eapply vo_owner|eauto].
Qed.

Lemma status_defined vi d a :
  vi_ok vi → vi_aggregatedOperatorsDict vi !! d = Some a →
  ∃ s, getMessageBlsAggregationStatus d vi = Ok s.
Proof.
  intros Hok Ha. unfold getMessageBlsAggregationStatus. rewrite Ha.
  destruct (vo_owner _ Hok _ _ Ha) as (o & op & Ho & ->).
  destruct (fullStake_loop_defined (map_to_list (deref (vi_stakeHeap vi) (oas_StakePerQuorum op)))
    (vi_totalStakePerQuorum vi)) as [full Hfull].
  { apply Forall_forall. intros [q s] Hq%elem_of_map_to_list. eapply vo_known; [done..|]. by exists s. }
  unfold checkIfFullStakeThresholdMet. rewrite Hfull; simpl. destruct full; [by eexists|].
  destruct (stakeThresholdsMet_loop_defined (map_to_list (vi_quorumThresholdPercentagesMap vi))
    (deref (vi_stakeHeap vi) (oas_StakePerQuorum op)) (vi_totalStakePerQuorum vi)) as [met Hmet].
  { apply Forall_forall. intros [q p] Hq%elem_of_map_to_list. simpl.
    assert (is_Some (deref (vi_stakeHeap vi) (oas_StakePerQuorum op) !! q)) as He.
    { eapply vo_entry; [done..|]. by exists p. }
    split; [done|]. by eapply vo_known. }
  unfold checkIfStakeThresholdsMet. rewrite Hmet; simpl. destruct met; by eexists.
Qed.

(** The libraries answer without panicking: the check of a signature whose affine point is
    set, and the registry's indices. *)
Definition verify_total : Prop := ∀ sig pk d, g1_affine_nil sig = false → bls_verify sig pk d ≠ Panic.
Definition indices_total (env : AvsEnv) : Prop :=
  ∀ blk qs ids, env_GetCheckSignaturesIndices env blk qs ids ≠ Panic.

Definition goroutine_ok (g : Goroutine (M := M)) : Prop :=
  vi_ok (gr_vi g) ∧
  match gr_phase g with ThresholdReached m => ∃ d, msg_Digest m = Ok d | _ => True end.

(** A submission with its digest and a signature that is set. *)
Definition sm_ok (sm : SignedMessage (M := M)) : Prop :=
  digest_matches sm ∧ g1_affine_nil (sm_BlsSignature sm) = false.

Lemma handle_total (sm : SignedMessage (M := M)) vi :
  verify_total → vi_ok vi → sm_ok sm → handleSignedMessageDigest sm vi ≠ Panic.
Proof.
  intros Hv Hok [Hm Hset]. unfold handleSignedMessageDigest, verifySignature.
  destruct (vi_operatorsAvsStateDict vi !! sm_OperatorId sm) as [op|] eqn:Hop; [|done].
  destruct (vo_key _ Hok _ _ Hop) as [pk ->]. unfold digest_matches in Hm.
  specialize (Hv (sm_BlsSignature sm) pk (sm_MessageDigest sm) Hset).
  destruct (bls_verify _ _ _) as [[]| |]; simpl; try done. rewrite Hm; simpl.
  pose proof (vi_ok_addable vi op (sm_MessageDigest sm) Hok) as Hadd.
  destruct (vi_aggregatedOperatorsDict vi !! _) as [a|]; [|done].
  by rewrite (proj1 (add_in_place_spec _ _ _) Hadd).
Qed.

Lemma response_total (env : AvsEnv) (m : M) d vi force :
  vi_ok vi → indices_total env → ∃ r, getMessageBlsAggregationResponse env m d vi force = Ok r.
Proof.
  intros Hok Hi. unfold getMessageBlsAggregationResponse.
  destruct (vi_aggregatedOperatorsDict vi !! d) as [a|] eqn:Ha; [|by eexists].
  destruct (status_defined _ _ _ Hok Ha) as [s ->].
  specialize (Hi (u32 (vi_ethBlockNumber vi)) (vi_quorumNumbers vi) (nonSignersOperatorIds vi a)).
  destruct (env_GetCheckSignaturesIndices _ _ _ _); [by eexists..|done].
Qed.

Lemma gstep_total (env : AvsEnv) (g : Goroutine) ev :
  verify_total → indices_total env → goroutine_ok g → event_ok sm_ok (env, ev) →
  ∃ r, gstep env g ev = Ok r ∧ goroutine_ok r.1.1.
Proof.
  intros Hv Hi [Hok Hph] Hev. unfold gstep, handleSignedMessagePreThreshold, handleSignedMessageThresholdReached.
  destruct (gr_phase g) as [|message|] eqn:Hphase.
  - destruct ev as [sm|]; [|eexists; split; [done|by split]].
    pose proof (handle_total sm (gr_vi g) Hv Hok Hev) as Hh.
    destruct (handleSignedMessageDigest sm (gr_vi g)) as [vi| |] eqn:Heq; [| |done].
    2:{ eexists. split; [done|]. split; simpl; [done|]. by rewrite Hphase. }
    pose proof (vi_ok_step _ _ _ Hok Heq) as Hok'.
    destruct (response_total env (sm_Message sm) (sm_MessageDigest sm) vi false Hok' Hi) as [r ->]. simpl.
    eexists. split; [done|]. destruct (resp_Status r); split; simpl; try done. eexists. exact (proj1 Hev).
  - destruct Hph as [d Hd]. rewrite Hd. destruct ev as [sm|].
    + case_bool_decide; [|eexists; split; [done|split; simpl; [done|]; rewrite Hphase; eauto]].
      pose proof (handle_total sm (gr_vi g) Hv Hok Hev) as Hh.
      destruct (handleSignedMessageDigest sm (gr_vi g)) as [vi| |] eqn:Heq; [| |done].
      2:{ eexists. split; [done|]. split; simpl; [done|]. rewrite Hphase. eauto. }
      pose proof (vi_ok_step _ _ _ Hok Heq) as Hok'.
      destruct (response_total env (sm_Message sm) (sm_MessageDigest sm) vi false Hok' Hi) as [r ->]. simpl.
      eexists. split; [done|]. split; simpl; [done|]. case_bool_decide; eauto.
    + destruct (response_total env message d (gr_vi g) true Hok Hi) as [r ->]. simpl.
      eexists. split; [done|]. by split.
  - eexists. split; [done|]. split; simpl; [done|]. by rewrite Hphase.
Qed.

Lemma grun_total evs : ∀ g : Goroutine (M := M),
  verify_total → goroutine_ok g → Forall (event_ok sm_ok) evs →
  Forall (λ e, indices_total e.1) evs → ∃ g' out, grun g evs = Ok (g', out).
Proof.
  induction evs as [|[env ev] evs IH]; intros g Hv Hg Hevs Hi; simpl; [by do 2 eexists|].
  apply Forall_cons in Hevs as [Hev Hevs], Hi as [Hi1 Hi].
  destruct (gstep_total env g ev Hv Hi1 Hg Hev) as (r & -> & Hg'). simpl.
  destruct (IH r.1.1 Hv Hg' Hevs Hi) as (g' & out & ->). by do 2 eexists.
Qed.

(** No sequence of submissions, repeated, forged, unknown or for any digests, and of
    timer events makes the goroutine of a message panic, and it answers them all: on a
    snapshot where every operator has a key and stake entries exactly for known quorums,
    every run is defined. *)
Theorem goroutine_never_panics (vi0 : ValidationInfo) key evs :
  verify_total → vi_ok vi0 → Forall (event_ok sm_ok) evs →
  Forall (λ e, indices_total e.1) evs →
  ∃ g out, grun (newGoroutine (M := M) key vi0) evs = Ok (g, out).
Proof. intros Hv Hok. by apply grun_total. Qed.

(** ** An honest quorum is reported *)

#[local] Notation Event := (AvsEnv * GEvent (M := M))%type.

Lemma submitted_accepted vi0 evs o d :
  submitted vi0 evs o d → ∃ env sm, (env, EvSigned sm) ∈ evs ∧ accepted_id vi0 (env, EvSigned sm) = Some o ∧
    msg_Digest (sm_Message sm) = Ok d.
Proof.
  intros (env & sm & op & pk & Hin & <- & Hd & Hop & Hpk & Hv). exists env, sm. split_and!; [done| |done].
  unfold accepted_id, verifySignature; simpl. by rewrite Hop, Hpk, Hv.
Qed.

(** With one accepted submission each, an operator stands behind one digest. *)
Lemma submitted_unique vi0 evs o d1 d2 :
  NoDup (accepted_ids vi0 evs) → submitted vi0 evs o d1 → submitted vi0 evs o d2 → d1 = d2.
Proof.
  intros Hnd (env1 & sm1 & Hin1 & Ha1 & Hd1)%submitted_accepted (env2 & sm2 & Hin2 & Ha2 & Hd2)%submitted_accepted.
  pose proof (NoDup_omap_inj _ _ _ _ _ Hnd Hin1 Hin2 Ha1 Ha2) as Heq. simplify_eq. congruence.
Qed.

(** The stake side of an honest majority: no stake is negative, the total of a quorum is
    the sum over its operators, thresholds are above half, and some quorum with a
    threshold has stake. *)
Record majority_ok (vi0 : ValidationInfo) : Prop := {
  maj_stakes o q : 0 ≤ stake (stake0 vi0 o) q;
  maj_totals q t : vi_totalStakePerQuorum vi0 !! q = Some t →
    t = set_zsum (λ o, stake (stake0 vi0 o) q) (dom (vi_operatorsAvsStateDict vi0));
  maj_percent q p : vi_quorumThresholdPercentagesMap vi0 !! q = Some p → 51 ≤ p;
  maj_live : ∃ q p t, vi_quorumThresholdPercentagesMap vi0 !! q = Some p ∧
    vi_totalStakePerQuorum vi0 !! q = Some t ∧ 0 < t;
}.

Lemma quorums_intersect (vi0 : ValidationInfo) (S1 S2 : gset OperatorId) :
  majority_ok vi0 → S1 ⊆ dom (vi_operatorsAvsStateDict vi0) → S2 ⊆ dom (vi_operatorsAvsStateDict vi0) →
  backed_by vi0 S1 → backed_by vi0 S2 → ∃ o, o ∈ S1 ∧ o ∈ S2.
Proof.
  intros Hmaj H1 H2 Hb1 Hb2. destruct (maj_live _ Hmaj) as (q & p & t & Hp & Ht & Hpos).
  destruct (Hb1 q p Hp) as (t1 & Ht1 & Hle1), (Hb2 q p Hp) as (t2 & Ht2 & Hle2). simplify_eq.
  destruct (decide (S1 ## S2)) as [Hd|Hn].
  - pose proof (set_zsum_mono (λ o, stake (stake0 vi0 o) q) (S1 ∪ S2) (dom (vi_operatorsAvsStateDict vi0))
      (λ o _, maj_stakes _ Hmaj o q)) as Hmono.
    rewrite set_zsum_union in Hmono by done. rewrite <- (maj_totals _ Hmaj q t Ht) in Hmono.
    pose proof (maj_percent _ Hmaj q p Hp). specialize (Hmono ltac:(set_solver)). nia.
  - destruct (set_choose_or_empty (S1 ∩ S2)) as [[o Ho]|He]; [|set_solver].
    exists o. set_solver.
Qed.

Lemma backed_by_mono (vi0 : ValidationInfo) (S1 S2 : gset OperatorId) :
  majority_ok vi0 → S1 ⊆ S2 → backed_by vi0 S1 → backed_by vi0 S2.
Proof.
  intros Hmaj Hsub Hb q p Hp. destruct (Hb q p Hp) as (t & Ht & Hle). exists t. split; [done|].
  pose proof (set_zsum_mono (λ o, stake (stake0 vi0 o) q) S1 S2 (λ o _, maj_stakes _ Hmaj o q) Hsub). lia.
Qed.

(** The converse of [status_backed]: a threshold that is not reached is not backed. *)
Lemma status_not_backed P (vi0 : ValidationInfo) vi seen d a :
  accounted P vi0 vi seen → vi_aggregatedOperatorsDict vi !! d = Some a →
  getMessageBlsAggregationStatus d vi = Ok MessageBlsAggregationStatusThresholdNotReached →
  ¬ backed_by vi0 (ao_signersOperatorIdsSet a).
Proof.
  intros Hacc Ha Hst Hb. unfold getMessageBlsAggregationStatus in Hst. rewrite Ha in Hst.
  pose proof (cs_sum _ _ _ (acc_counts _ _ _ _ Hacc d a Ha)) as Hsum.
  apply res_bind_ok in Hst as (full & _ & Hst). destruct full; [done|].
  apply res_bind_ok in Hst as (met & Hmet & Hst). destruct met; [done|].
  apply stakeThresholdsMet_loop_false in Hmet as (q & p & s & t & Hq%elem_of_map_to_list & Hs & Ht & Hlt).
  rewrite (acc_thr _ _ _ _ Hacc) in Hq. rewrite (acc_total _ _ _ _ Hacc) in Ht.
  destruct (Hb q p Hq) as (t' & Ht' & Hle). simplify_eq. rewrite <- Hsum in Hle. unfold stake in Hle.
  rewrite Hs in Hle. simpl in Hle. lia.
Qed.

Definition indices_answered (env : AvsEnv) : Prop :=
  ∀ blk qs ids, ∃ i, env_GetCheckSignaturesIndices env blk qs ids = Ok i.

Lemma indices_answered_total env : indices_answered env → indices_total env.
Proof. intros Hi blk qs ids. by destruct (Hi blk qs ids) as [i ->]. Qed.

Definition reached (s : MessageBlsAggregationStatus) : Prop :=
  s = MessageBlsAggregationStatusThresholdReached ∨ s = MessageBlsAggregationStatusFullStakeThresholdMet.

(** A submission before the threshold: rejected, counted without reaching it, or reported
    at once. *)
Lemma pre_threshold_step (env : AvsEnv) (g : Goroutine) (sm : SignedMessage (M := M)) :
  verify_total → indices_answered env → vi_ok (gr_vi g) → gr_phase g = PreThreshold → sm_ok sm →
  ∃ g' rep out, gstep env g (EvSigned sm) = Ok (g', rep, out) ∧
  ((∃ e, handleSignedMessageDigest sm (gr_vi g) = Err e ∧ g' = g ∧ out = []) ∨
   (handleSignedMessageDigest sm (gr_vi g) = Ok (gr_vi g') ∧ gr_phase g' = PreThreshold ∧ out = [] ∧
    getMessageBlsAggregationStatus (sm_MessageDigest sm) (gr_vi g')
      = Ok MessageBlsAggregationStatusThresholdNotReached) ∨
   (handleSignedMessageDigest sm (gr_vi g) = Ok (gr_vi g') ∧
    ∃ r, out = [r] ∧ reached (resp_Status r) ∧ resp_Err r = None ∧ resp_Message r = Some (sm_Message sm) ∧
      mba_MessageDigest (resp_Aggregation r) = sm_MessageDigest sm ∧
      getMessageBlsAggregationStatus (sm_MessageDigest sm) (gr_vi g') = Ok (resp_Status r))).
Proof.
  intros Hv Hi Hok Hph Hsm. pose proof Hsm as [Hm _]. unfold gstep. rewrite Hph. unfold handleSignedMessagePreThreshold.
  pose proof (handle_total sm (gr_vi g) Hv Hok Hsm) as Hh.
  destruct (handleSignedMessageDigest sm (gr_vi g)) as [vi|e|] eqn:Heq; [| |done].
  2:{ do 3 eexists. split; [done|]. left. eauto. }
  pose proof (vi_ok_step _ _ _ Hok Heq) as Hok'.
  assert (∃ a, vi_aggregatedOperatorsDict vi !! sm_MessageDigest sm = Some a) as [a Ha].
  { destruct (handleSignedMessageDigest_ok _ _ _ Heq) as (op & pk & d & _ & _ & _ & Hd & _ & ->).
    unfold digest_matches in Hm. assert (d = sm_MessageDigest sm) as -> by congruence.
    simpl. rewrite lookup_insert_eq. eauto. }
  destruct (status_defined _ _ _ Hok' Ha) as [s Hs].
  unfold getMessageBlsAggregationResponse. rewrite Ha, Hs.
  destruct (Hi (u32 (vi_ethBlockNumber vi)) (vi_quorumNumbers vi) (nonSignersOperatorIds vi a)) as [idx ->].
  simpl. assert (s ≠ MessageBlsAggregationStatusNone) as Hns.
  { intros ->. unfold getMessageBlsAggregationStatus in Hs. rewrite Ha in Hs.
    apply res_bind_ok in Hs as (full & _ & Hs). destruct full; [done|].
    apply res_bind_ok in Hs as (met & _ & Hs). by destruct met. }
  destruct s; [done|..]; do 3 eexists; (split; [done|]); right; simpl.
  - right. split; [done|]. eexists. split_and!; [done|by right|done..].
  - by left.
  - right. split; [done|]. eexists. split_and!; [done|by left|done..].
Qed.

(** The first report of a run before the threshold: nothing is reported by the events
    [pre], and the next submission is reported, for digest [d]. *)
Definition first_report (d : MessageDigest) (g : Goroutine (M := M)) (evs : list Event) : Prop :=
  ∃ pre env (sm : SignedMessage (M := M)) post g1 g2 rep r,
    evs = pre ++ (env, EvSigned sm) :: post ∧ grun g pre = Ok (g1, []) ∧ goroutine_ok g1 ∧
    gr_phase g1 = PreThreshold ∧ gstep env g1 (EvSigned sm) = Ok (g2, rep, [r]) ∧
    reached (resp_Status r) ∧ resp_Err r = None ∧ sm_MessageDigest sm = d ∧ sm_ok sm ∧
    resp_Message r = Some (sm_Message sm) ∧ mba_MessageDigest (resp_Aggregation r) = d.

Lemma first_report_later d env ev g g1 rep evs :
  gstep env g ev = Ok (g1, rep, []) → first_report d g1 evs → first_report d g ((env, ev) :: evs).
Proof.
  intros Hstep (pre & env' & sm & post & g2 & g3 & rep' & r & -> & Hrun & Hrest).
  exists ((env, ev) :: pre), env', sm, post, g2, g3, rep', r. split; [done|]. split; [|done].
  cbn [grun]. rewrite Hstep; simpl. by rewrite Hrun.
Qed.

Section HonestQuorum.
Context (vi0 : ValidationInfo) (all : list Event) (d : MessageDigest) (H : gset OperatorId).
Context (Hverify : verify_total) (Hreg : registry_ok vi0) (Hmaj : majority_ok vi0).
Context (Hevs : Forall (λ e, ∃ sm, e.2 = EvSigned sm ∧ sm_ok sm) all).
Context (Henv : Forall (λ e, indices_answered e.1) all).
Context (Hnodup : NoDup (accepted_ids vi0 all)).
Context (Hhonest : ∀ o, o ∈ H → submitted vi0 all o d) (Hquorum : backed_by vi0 H).

(** Before the threshold, after the events [done]: who signed what is accounted for, no
    digest is backed, and every honest submission so far is counted for [d]. *)
Record waiting (done : list Event) (g : Goroutine (M := M)) (seen : gset OperatorId) : Prop := {
  wt_phase : gr_phase g = PreThreshold;
  wt_ok : vi_ok (gr_vi g);
  wt_acc : accounted (submitted vi0 all) vi0 (gr_vi g) seen;
  wt_seen o : o ∈ seen → o ∈ accepted_ids vi0 done;
  wt_open d' a : vi_aggregatedOperatorsDict (gr_vi g) !! d' = Some a →
    ¬ backed_by vi0 (ao_signersOperatorIdsSet a);
  wt_counted o : submitted vi0 done o d → ∃ a,
    vi_aggregatedOperatorsDict (gr_vi g) !! d = Some a ∧ o ∈ ao_signersOperatorIdsSet a;
}.

Lemma submitted_dom evs o (d' : MessageDigest) : submitted vi0 evs o d' → o ∈ dom (vi_operatorsAvsStateDict vi0).
Proof. intros (? & ? & op & ? & _ & _ & _ & Hop & _). apply elem_of_dom. eauto. Qed.

(** Whatever is backed, if it was signed in this run, is [d]. *)
Lemma backed_is_d (d' : MessageDigest) (S : gset OperatorId) :
  (∀ o, o ∈ S → submitted vi0 all o d') → backed_by vi0 S → d' = d.
Proof.
  intros HS Hb. destruct (quorums_intersect vi0 S H) as (o & Ho & HoH); try done.
  - intros o Ho. eapply submitted_dom; eauto.
  - intros o Ho. eapply submitted_dom; eauto.
  - by eapply submitted_unique; [exact Hnodup|apply HS|apply Hhonest].
Qed.

Lemma waiting_not_finished g seen : waiting all g seen → False.
Proof.
  intros Hw. destruct (set_choose_or_empty H) as [[o Ho]|Hempty].
  - destruct (wt_counted _ _ _ Hw o (Hhonest o Ho)) as (a & Ha & _).
    apply (wt_open _ _ _ Hw d a Ha). eapply backed_by_mono; [done| |exact Hquorum].
    intros x Hx. destruct (wt_counted _ _ _ Hw x (Hhonest x Hx)) as (a' & Ha' & Hx'). by simplify_eq.
  - apply leibniz_equiv in Hempty. destruct (maj_live _ Hmaj) as (q & p & t & Hp & Ht & Hpos).
    destruct (Hquorum q p Hp) as (t' & Ht' & Hle). rewrite Hempty, set_zsum_empty in Hle.
    assert (t' = t) by congruence. pose proof (maj_percent _ Hmaj q p Hp). nia.
Qed.

(** A submission that is accepted is a new operator's. *)
Lemma accepted_fresh done g seen env (sm : SignedMessage (M := M)) rest :
  waiting done g seen → all = done ++ (env, EvSigned sm) :: rest →
  accepted_id vi0 (env, EvSigned sm) = Some (sm_OperatorId sm) → sm_OperatorId sm ∉ seen.
Proof.
  intros Hw Hall Hacc Hin%(wt_seen _ _ _ Hw). revert Hnodup. rewrite Hall. unfold accepted_ids in *.
  rewrite omap_app. cbn [omap list_omap]. rewrite Hacc. intros (_ & Hdisj & _)%NoDup_app.
  apply (Hdisj _ Hin). by left.
Qed.

Lemma submitted_snoc done env (sm : SignedMessage (M := M)) o (d' : MessageDigest) :
  submitted vi0 (done ++ [(env, EvSigned sm)]) o d' →
  submitted vi0 done o d' ∨
  (o = sm_OperatorId sm ∧ msg_Digest (sm_Message sm) = Ok d' ∧
   verifySignature sm (vi_operatorsAvsStateDict vi0) = Ok tt).
Proof.
  intros (env' & sm' & op & pk & [Hin|Hin]%elem_of_app & Ho & Hd & Hop & Hpk & Hv); [left; by exists env', sm', op, pk|].
  apply list_elem_of_singleton in Hin. simplify_eq. right. split_and!; [done..|].
  unfold verifySignature. by rewrite Hop, Hpk, Hv.
Qed.

Lemma waiting_rejected done g seen env (sm : SignedMessage (M := M)) e :
  waiting done g seen → digest_matches sm → handleSignedMessageDigest sm (gr_vi g) = Err e →
  waiting (done ++ [(env, EvSigned sm)]) g seen.
Proof.
  intros Hw Hm Hh. destruct Hw as [Hph Hok Hacc Hseen Hopen Hcnt]. split; try done.
  - intros o Ho%Hseen. unfold accepted_ids. rewrite omap_app. apply elem_of_app. by left.
  - intros o [Hs|(_ & Hd & Hv)]%submitted_snoc; [by apply Hcnt|]. exfalso.
    rewrite <- (acc_dict _ _ _ _ Hacc) in Hv. destruct (verifySignature_ok_operator _ _ Hv) as (op & pk & Hop & Hpk).
    by rewrite (handleSignedMessageDigest_accepts sm (gr_vi g) op pk d Hv Hop Hpk Hd (vi_ok_addable _ _ _ Hok)) in Hh.
Qed.

Lemma waiting_counted done g seen env (sm : SignedMessage (M := M)) rest g' :
  waiting done g seen → all = done ++ (env, EvSigned sm) :: rest → digest_matches sm →
  handleSignedMessageDigest sm (gr_vi g) = Ok (gr_vi g') →
  accounted (submitted vi0 all) vi0 (gr_vi g') ({[sm_OperatorId sm]} ∪ seen) ∧
  (gr_phase g' = PreThreshold →
   getMessageBlsAggregationStatus (sm_MessageDigest sm) (gr_vi g')
     = Ok MessageBlsAggregationStatusThresholdNotReached →
   waiting (done ++ [(env, EvSigned sm)]) g' ({[sm_OperatorId sm]} ∪ seen)).
Proof.
  intros Hw Hall Hm Hh. destruct (handleSignedMessageDigest_ok _ _ _ Hh) as
    (op & pk & d' & Hop & Hpk & Hv & Hd' & _ & Hvi).
  unfold digest_matches in Hm. assert (d' = sm_MessageDigest sm) as -> by congruence.
  pose proof (wt_acc _ _ _ Hw) as Hacc. rewrite (acc_dict _ _ _ _ Hacc) in Hop.
  assert (accepted_id vi0 (env, EvSigned sm) = Some (sm_OperatorId sm)) as Haid.
  { unfold accepted_id, verifySignature; simpl. by rewrite Hop, Hpk, Hv. }
  assert (accounted (submitted vi0 all) vi0 (gr_vi g') ({[sm_OperatorId sm]} ∪ seen)) as Hacc'.
  { eapply accounted_step; [exact (reg_separate _ Hreg)|exact Hacc| | |exact Hh].
    - by eapply accepted_fresh.
    - intros d'' Hd''. exists env, sm, op, pk. split_and!; try done. rewrite Hall.
      apply elem_of_app. right. by left. }
  split; [done|]. intros Hph Hst.
  assert (∀ d1 a, vi_aggregatedOperatorsDict (gr_vi g') !! d1 = Some a → d1 ≠ sm_MessageDigest sm →
    vi_aggregatedOperatorsDict (gr_vi g) !! d1 = Some a) as Hold.
  { intros d1 a. rewrite Hvi; simpl. intros Ha Hne. by rewrite lookup_insert_ne in Ha by done. }
  split; [done|by eapply vi_ok_step; [apply Hw|]|done| | |].
  - intros o. unfold accepted_ids. rewrite omap_app, elem_of_app. cbn [omap list_omap]. rewrite Haid.
    intros [->%elem_of_singleton|Ho%(wt_seen _ _ _ Hw)]%elem_of_union; [right; by left|by left].
  - intros d1 a Ha. destruct (decide (d1 = sm_MessageDigest sm)) as [->|Hne].
    + by eapply status_not_backed.
    + eapply (wt_open _ _ _ Hw). by apply Hold.
  - intros o Hs. assert (submitted vi0 done o d ∨ (o = sm_OperatorId sm ∧ sm_MessageDigest sm = d)) as Hcase.
    { apply submitted_snoc in Hs as [?|(-> & Hd & _)]; [by left|right]. split; [done|congruence]. }
    rewrite Hvi; simpl. destruct (decide (sm_MessageDigest sm = d)) as [->|Hne].
    + rewrite lookup_insert_eq. eexists. split; [done|]. rewrite next_aggregate_signers.
      destruct Hcase as [Hs'|[-> _]]; [|set_solver].
      destruct (wt_counted _ _ _ Hw o Hs') as (a & -> & Ho). simpl. set_solver.
    + rewrite lookup_insert_ne by done. destruct Hcase as [Hs'|[_ ?]]; [|done]. by apply (wt_counted _ _ _ Hw).
Qed.

Lemma honest_quorum_first rest : ∀ done g seen,
  all = done ++ rest → waiting done g seen → first_report d g rest.
Proof.
  induction rest as [|[env ev] rest IH]; intros done g seen Hall Hw.
  { rewrite app_nil_r in Hall. subst done. by apply waiting_not_finished in Hw. }
  pose proof Hevs as He. pose proof Henv as Hi. rewrite Hall in He, Hi.
  apply Forall_app in He as [_ [(sm & Hev & Hsm) _]%Forall_cons]. pose proof Hsm as [Hm _].
  apply Forall_app in Hi as [_ [Hi1 _]%Forall_cons]. simpl in Hev, Hi1. subst ev.
  destruct (pre_threshold_step env g sm Hverify Hi1 (wt_ok _ _ _ Hw) (wt_phase _ _ _ Hw) Hsm)
    as (g1 & rep & out1 & Hstep & Hcase).
  assert (all = (done ++ [(env, EvSigned sm)]) ++ rest) as Hall' by (by rewrite <- app_assoc).
  destruct Hcase as [(e & Hh & -> & ->)|[(Hh & Hph & -> & Hst)|(Hh & r & -> & Hr & He' & Hmsg & Hdg & Hst)]].
  - eapply first_report_later; [exact Hstep|]. eapply IH; [done|]. by eapply waiting_rejected.
  - eapply first_report_later; [exact Hstep|]. eapply IH; [done|]. by eapply waiting_counted.
  - destruct (waiting_counted _ _ _ _ _ _ g1 Hw Hall Hm Hh) as [Hacc _].
    assert (sm_MessageDigest sm = d) as Hd.
    { destruct (handleSignedMessageDigest_ok _ _ _ Hh) as (op & pk & d' & _ & _ & _ & Hd' & _ & Hvi).
      unfold digest_matches in Hm. assert (d' = sm_MessageDigest sm) as -> by congruence.
      assert (∃ a, vi_aggregatedOperatorsDict (gr_vi g1) !! sm_MessageDigest sm = Some a) as [a Ha].
      { rewrite Hvi; simpl. rewrite lookup_insert_eq. eauto. }
      apply (backed_is_d _ (ao_signersOperatorIdsSet a)); [|by eapply status_backed].
      intros o Ho. by apply (acc_signer _ _ _ _ Hacc _ a o Ha Ho). }
    exists [], env, sm, rest, g, g1, rep, r. split_and!; try done; [|apply Hw|congruence].
    split; [apply Hw|by rewrite (wt_phase _ _ _ Hw)].
Qed.

End HonestQuorum.

Lemma waiting_start (vi0 : ValidationInfo) (evs : list Event) (d : MessageDigest) (key : MessageKey) :
  registry_ok vi0 → vi_ok vi0 → waiting vi0 evs d [] (newGoroutine key vi0) ∅.
Proof.
  intros Hreg Hok. split; simpl; [done|done|by apply accounted_start, Hreg|set_solver| |].
  - intros d' a. by rewrite (reg_fresh _ Hreg), lookup_empty.
  - intros o (env & sm & op & pk & Hin & _). by apply elem_of_nil in Hin.
Qed.

Lemma grun_app (evs1 evs2 : list Event) : ∀ g g1 out1,
  grun g evs1 = Ok (g1, out1) →
  grun g (evs1 ++ evs2) = (let? r := grun g1 evs2 in Ok (r.1, out1 ++ r.2)).
Proof.
  induction evs1 as [|[env ev] evs1 IH]; intros g g1 out1 Hrun; cbn [grun app] in Hrun |- *.
  { injection Hrun as <- <-. destruct (grun g evs2) as [[]| |]; done. }
  apply res_bind_ok in Hrun as (r & Hs & ([g2 o2] & Hr & [= <- <-])%res_bind_ok). rewrite Hs. cbn [res_bind].
  rewrite (IH _ _ _ Hr). destruct (grun g2 evs2) as [[]| |]; simpl; by rewrite ?app_assoc.
Qed.

Lemma closed_total (g : Goroutine (M := M)) evs : gr_phase g = Closed → grun g evs = Ok (g, []).
Proof.
  intros Hc. induction evs as [|[env ev] evs IH]; simpl; [done|]. unfold gstep. rewrite Hc. simpl. by rewrite IH.
Qed.

(** C6: an honest quorum is reported.  Feed a goroutine a sequence of submissions, of
    registered operators and strangers, with valid and with forged signatures, for any
    digests and in any order, in which no operator has two submissions accepted (the code
    does not rule a second one out), the digests are those of the messages, the signatures
    have their affine points and the registry answers the index queries.  If the operators
    in [H] submitted digest [d] and their stake reaches the thresholds (each above half of
    the total), then the run does not panic and a response without error reports the
    quorum for [d] with a message of that digest. *)
Theorem honest_quorum_reported (vi0 : ValidationInfo) (key : MessageKey) (evs : list Event) (d : MessageDigest) (H : gset OperatorId) :
  verify_total → registry_ok vi0 → vi_ok vi0 → majority_ok vi0 →
  Forall (λ e, ∃ sm : SignedMessage (M := M), e.2 = EvSigned sm ∧ sm_ok sm) evs →
  Forall (λ e, indices_answered e.1) evs → NoDup (accepted_ids vi0 evs) →
  (∀ o, o ∈ H → submitted vi0 evs o d) → backed_by vi0 H →
  ∃ g out r, grun (newGoroutine key vi0) evs = Ok (g, out) ∧ r ∈ out ∧
    reached (resp_Status r) ∧ resp_Err r = None ∧
    mba_MessageDigest (resp_Aggregation r) = d ∧ ∃ m, resp_Message r = Some m ∧ msg_Digest m = Ok d.
Proof.
  intros Hv Hreg Hok Hmaj Hevs Hi Hnd HH Hb.
  destruct (honest_quorum_first vi0 evs d H Hv Hreg Hmaj Hevs Hi Hnd HH Hb evs [] _ ∅ eq_refl
    (waiting_start _ _ _ key Hreg Hok)) as
    (pre & env & sm & post & g1 & g2 & rep & r & -> & Hrun & Hok1 & _ & Hstep & Hr & He & Hd & Hsm & Hmsg & Hdg).
  pose proof Hsm as [Hm _]. apply Forall_app in Hevs as [_ [_ Hevs]%Forall_cons], Hi as [_ [Hi1 Hi]%Forall_cons].
  destruct (gstep_total env g1 (EvSigned sm) Hv (indices_answered_total _ Hi1) Hok1 Hsm) as (r1 & Hs1 & Hg2).
  rewrite Hstep in Hs1. injection Hs1 as <-.
  destruct (grun_total post g2 Hv Hg2) as (g' & out & Hpost).
  { eapply Forall_impl; [exact Hevs|]. intros [e2 ev2] (sm2 & Hev2 & Hm2); simpl in Hev2.
    unfold event_ok; simpl. by rewrite Hev2. }
  { eapply Forall_impl; [exact Hi|]. intros e2. apply indices_answered_total. }
  exists g', (r :: out), r. split_and!; try done.
  - rewrite (grun_app _ _ _ _ _ Hrun). cbn [grun]. rewrite Hstep; simpl. by rewrite Hpost.
  - by left.
  - exists (sm_Message sm). split; [done|]. unfold digest_matches in Hm. congruence.
Qed.

(** ** The service *)

(** The calls into the service, and what its senders and timers do later: a sender that
    has looked its channel up sends at any time. *)
Inductive SvOp : Type :=
| OpInitialize (env : AvsEnv) (key : MessageKey) (quorumNumbers percentages : list Z) (ethBlockNumber : Z)
| OpSignature (env : AvsEnv) (ctx : option GoError) (message : M) (sig : G1Point) (operatorId : OperatorId)
| OpSend (env : AvsEnv) (c : nat) (sm : SignedMessage (M := M))
| OpTimer (env : AvsEnv) (c : nat).

Definition sv_exec (sv : Service (M := M)) (op : SvOp) : go Service :=
  match op with
  | OpInitialize env key qs ps blk =>
      match InitializeMessageIfNotExists env sv key qs ps blk with (_, Panic) => Panic | (sv, _) => Ok sv end
  | OpSignature env ctx m sig o => let? r := ProcessNewSignature env sv ctx m sig o in Ok r.1.1
  | OpSend env c sm => let? r := sendSignedMessage env sv c sm in Ok r.1.1
  | OpTimer env c => let? r := fireTimer env sv c in Ok r.1
  end.

Fixpoint sv_exec_all (sv : Service (M := M)) (ops : list SvOp) : go Service :=
  match ops with
  | [] => Ok sv
  | op :: ops => let? sv := sv_exec sv op in sv_exec_all sv ops
  end.

(** The registry answers a query for some quorums with the operators of these quorums,
    each with a key and with a stake map that has an entry for each of them, and with the
    state of each quorum; the Ethereum node answers. *)
Record registry_answers (env : AvsEnv) (qs : list QuorumNum) : Prop := {
  ra_block : ∃ n, env_BlockNumber env = Ok n;
  ra_no_panic blk : env_GetOperatorsAvsStateAtBlock env qs blk ≠ Panic ∧
    env_GetQuorumsAvsStateAtBlock env qs blk ≠ Panic;
  ra_operators blk ops h o op : env_GetOperatorsAvsStateAtBlock env qs blk = Ok (ops, h) →
    ops !! o = Some op → is_Some (oas_G2Pubkey op) ∧ is_Some (h !! oas_StakePerQuorum op) ∧
    ∀ q, is_Some (deref h (oas_StakePerQuorum op) !! q) ↔ q ∈ qs;
  ra_quorums blk quorums q : env_GetQuorumsAvsStateAtBlock env qs blk = Ok quorums → q ∈ qs →
    is_Some (quorums !! q);
}.

Definition op_ok (op : SvOp) : Prop :=
  match op with
  | OpInitialize env _ qs ps _ => registry_answers env qs ∧ (length qs ≤ length ps)%nat
  | OpSignature env _ m sig _ => indices_total env ∧ msg_Digest m ≠ Panic ∧ g1_affine_nil sig = false
  | OpSend env _ sm => indices_total env ∧ sm_ok sm
  | OpTimer env _ => indices_total env
  end.

Lemma threshold_map_spec qs : ∀ ps, (length qs ≤ length ps)%nat →
  ∃ m, threshold_map qs ps = Ok m ∧ ∀ q, is_Some (m !! q) → q ∈ qs.
Proof.
  induction qs as [|q qs IH]; intros ps Hl; simpl; [exists ∅; split; [by destruct ps|]|].
  { intros q. rewrite lookup_empty. by intros []. }
  destruct ps as [|p ps]; simpl in Hl; [lia|]. destruct (IH ps) as (m & -> & Hm); [lia|]. simpl.
  eexists. split; [done|]. intros q' Hq'. apply elem_of_cons.
  destruct (m !! q) as [x|] eqn:Hq; [right; by apply Hm|].
  destruct (decide (q' = q)); [by left|right]. apply Hm. by rewrite lookup_insert_ne in Hq'.
Qed.

Lemma fetchValidationInfo_total env qs ps blk :
  registry_answers env qs → (length qs ≤ length ps)%nat →
  (∃ e, fetchValidationInfo env qs ps blk = Err e) ∨
  (∃ vi, fetchValidationInfo env qs ps blk = Ok vi ∧ vi_ok vi).
Proof.
  intros Hra Hl. unfold fetchValidationInfo.
  assert (∃ n, (if bool_decide (blk = 0) then match env_BlockNumber env with Ok n => Ok n | _ => Panic end
    else (Ok blk : go Z)) = Ok n) as [n ->].
  { destruct (ra_block _ _ Hra) as [n ->]. case_bool_decide; eauto. }
  simpl. destruct (ra_no_panic _ _ Hra (u32 n)) as [Hp1 Hp2].
  destruct (env_GetOperatorsAvsStateAtBlock env qs (u32 n)) as [[ops h]|e|] eqn:Hops; [|by left; eexists|done].
  destruct (env_GetQuorumsAvsStateAtBlock env qs (u32 n)) as [quorums|e|] eqn:Hq; [|by left; eexists|done].
  simpl. destruct (threshold_map_spec qs ps Hl) as (m & -> & Hm). simpl. right. eexists. split; [done|].
  split; simpl.
  - intros o op Ho. by eapply (ra_operators _ _ Hra _ _ _ o op Hops).
  - intros o op Ho. by eapply (ra_operators _ _ Hra _ _ _ o op Hops).
  - intros o op q Ho Hs. rewrite lookup_fmap, fmap_is_Some.
    eapply (ra_quorums _ _ Hra); [done|]. by eapply (ra_operators _ _ Hra _ _ _ o op Hops).
  - intros o op q Ho Hs. by eapply (ra_operators _ _ Hra _ _ _ o op Hops), Hm.
  - intros d a. by rewrite lookup_empty.
Qed.

Definition service_ok (sv : Service (M := M)) : Prop :=
  ∀ c g, sv_goroutines sv !! c = Some g → goroutine_ok g.

Lemma after_step_ok sv c g : service_ok sv → goroutine_ok g → service_ok (after_step sv c g).
Proof.
  intros Hsv Hg c' g'. unfold after_step. destruct (gr_phase g); simpl.
  1,2: rewrite lookup_insert_Some; intros [[_ <-]|[_ ?]]; [done|by eapply Hsv].
  rewrite lookup_delete_Some. intros [_ ?]. by eapply Hsv.
Qed.

Lemma send_total (env : AvsEnv) sv c (sm : SignedMessage (M := M)) :
  verify_total → service_ok sv → indices_total env → sm_ok sm →
  ∃ r, sendSignedMessage env sv c sm = Ok r ∧ service_ok r.1.1.
Proof.
  intros Hv Hsv Hi Hm. unfold sendSignedMessage.
  destruct (sv_goroutines sv !! c) as [g|] eqn:Hg; [|by eexists].
  destruct (gstep_total env g (EvSigned sm) Hv Hi (Hsv _ _ Hg) Hm) as (r & -> & Hr). simpl.
  eexists. split; [done|]. by apply after_step_ok.
Qed.

Lemma sv_exec_total sv op :
  verify_total → service_ok sv → op_ok op → ∃ sv', sv_exec sv op = Ok sv' ∧ service_ok sv'.
Proof.
  intros Hv Hsv Hop. destruct op as [env key qs ps blk|env ctx m sig o|env c sm|env c]; simpl in *.
  - destruct Hop as [Hra Hl]. unfold InitializeMessageIfNotExists.
    destruct (validateQuorumThresholdPercentages ps) as [[]|e|] eqn:Hps; [|eauto|].
    2:{ exfalso. revert Hps. clear. induction ps as [|p ps IH]; simpl; [done|]. by repeat case_match. }
    unfold initializeMessageChan. destruct (sv_signedMessageCs sv !! key); [eauto|].
    destruct (fetchValidationInfo_total env qs ps blk Hra Hl) as [[e ->]|(vi & -> & Hvi)]; [eauto|].
    eexists. split; [done|]. intros c g. simpl. rewrite lookup_insert_Some.
    intros [[_ <-]|[_ ?]]; [by split|by eapply Hsv].
  - destruct Hop as (Hi & Hm & Hset). unfold ProcessNewSignature.
    destruct (sv_signedMessageCs sv !! msg_Key m) as [c|]; [|simpl; eauto].
    destruct (msg_Digest m) as [d| |] eqn:Hd; [|simpl; eauto|done]. destruct ctx; [simpl; eauto|].
    destruct (send_total env sv c (mkSignedMessage m d sig o) Hv Hsv Hi) as (r & -> & ?); [done|simpl; eauto].
  - destruct Hop as [Hi Hm]. destruct (send_total env sv c sm Hv Hsv Hi Hm) as (r & -> & ?). simpl. eauto.
  - unfold fireTimer. destruct (sv_goroutines sv !! c) as [g|] eqn:Hg; [|simpl; eauto].
    destruct (gstep_total env g EvTimer Hv Hop (Hsv _ _ Hg) I) as (r & -> & Hr). simpl.
    eexists. split; [done|]. by apply after_step_ok.
Qed.

(** C22: no call into the aggregation service panics.  From its start, under any
    interleaving of initializations, signatures, sends by late senders and timers, the
    service runs on, whoever submits and whether the signatures verify or not, provided
    that the Ethereum node and the registry answer the queries completely, that every
    submitted signature has its affine point, and that computing a digest and checking
    such a signature do not panic.  This does not say that every call returns: the send
    to a goroutine that is gone blocks for ever. *)
Theorem service_never_panics ops :
  verify_total → Forall op_ok ops →
  ∃ sv, sv_exec_all NewMessageBlsAggregatorService ops = Ok sv.
Proof.
  intros Hv. assert (service_ok (NewMessageBlsAggregatorService (M := M))) as H0.
  { intros c g. simpl. by rewrite lookup_empty. }
  revert H0. generalize (NewMessageBlsAggregatorService (M := M)).
  induction ops as [|op ops IH]; intros sv Hsv Hops; simpl; [by eexists|].
  apply Forall_cons in Hops as [Hop Hops].
  destruct (sv_exec_total sv op Hv Hsv Hop) as (sv' & -> & Hsv'). simpl. by apply IH.
Qed.

End Progress.
