(* ===== verification/BlsAggExamples.v ===== *)
(** * Concrete runs of the message BLS aggregator

    A registry of three operators with stake 10 each in quorum 0 and a threshold of
    66 percent, at the executable instances of [Instances]: the theorems about runs
    applied to runs the model evaluates. *)

From stdpp Require Import relations.
From S2P Require Import Prelude CoreTypes Instances Messages BlsAgg BlsAggTheory BlsAggService.
From S2P Require Import BlsAggProgress.

#[local] Existing Instances ToyBls.ops ToyHash.ops ToyAbi.ops.
#[local] Existing Instances ToyBls.bls_laws ToyHash.hash_laws ToyAbi.abi_laws.

Definition op_id (k : Z) : OperatorId := be_encode 32 k.
Definition ex_pk (k : Z) : G2Point := GetPubKeyG2 k.
Definition op_state (k : Z) (r : nat) : OperatorAvsState :=
  mkOperatorAvsState (GetPubKeyG1 k) (Some (ex_pk k)) r.

Definition ex_operators : gmap OperatorId OperatorAvsState :=
  <[op_id 1 := op_state 1 1%nat]> (<[op_id 2 := op_state 2 2%nat]>
    (<[op_id 3 := op_state 3 3%nat]> ∅)).
Definition ex_stakes : gmap Z Z := {[ 0 := 10 ]}.
Definition ex_heap : gmap nat (gmap Z Z) :=
  <[1%nat := ex_stakes]> (<[2%nat := ex_stakes]> (<[3%nat := ex_stakes]> ∅)).

(** The registry answers; [fails] makes the operator query fail. *)
Definition ex_env (fails : bool) : AvsEnv := {|
  env_BlockNumber := Ok 100;
  env_GetOperatorsAvsStateAtBlock _ _ :=
    if fails then Err (ExternalError "registry down") else Ok (ex_operators, ex_heap);
  env_GetQuorumsAvsStateAtBlock _ _ := Ok {[ 0 := mkQuorumAvsState 30 (GetPubKeyG1 6) ]};
  env_GetCheckSignaturesIndices _ _ _ := Ok (mkIndices [] [0] [0] [[]]) |}.

Definition ex_vi : ValidationInfo := {|
  vi_operatorsAvsStateDict := ex_operators;
  vi_quorumsAvsStakeDict := {[ 0 := mkQuorumAvsState 30 (GetPubKeyG1 6) ]};
  vi_totalStakePerQuorum := {[ 0 := 30 ]};
  vi_quorumApksG1 := [Some (GetPubKeyG1 6)];
  vi_aggregatedOperatorsDict := ∅;
  vi_quorumThresholdPercentagesMap := {[ 0 := 66 ]};
  vi_quorumNumbers := [0];
  vi_ethBlockNumber := 100;
  vi_stakeHeap := ex_heap |}.

Lemma ex_vi_fetched : fetchValidationInfo (ex_env false) [0] [66] 0 = Ok ex_vi.
Proof. reflexivity. Qed.

Definition ex_msg (n : Z) : CheckpointTaskResponse :=
  mkCheckpointTaskResponse 5 (replicate 32 7) (be_encode 32 n).
Definition ex_digest (n : Z) : MessageDigest := res_or [] (msg_Digest (ex_msg n)).
Definition ex_sig (k n : Z) : G1Point := SignMessage k (ex_digest n).
Definition ex_sm (k n : Z) : SignedMessage (M := CheckpointTaskResponse) :=
  mkSignedMessage (ex_msg n) (ex_digest n) (ex_sig k n) (op_id k).
#[local] Notation Event := (AvsEnv * GEvent (M := CheckpointTaskResponse))%type.
Definition ex_ev (k n : Z) : Event := (ex_env false, EvSigned (ex_sm k n)).

(** A run of the goroutine started from [ex_vi], which ends without panic. *)
Definition ex_start : Goroutine (M := CheckpointTaskResponse) := newGoroutine (msg_Key (ex_msg 1)) ex_vi.
Definition ex_run (evs : list Event) := res_or (ex_start, []) (grun ex_start evs).
Definition ex_resp (evs : list Event) (i : nat) :=
  nth i (ex_run evs).2 (expiredResponse ex_start).

Lemma ex_run_ok evs :
  is_ok (grun ex_start evs) = true → grun ex_start evs = Ok ((ex_run evs).1, (ex_run evs).2).
Proof. intros Hok. unfold ex_run. rewrite (res_or_ok (ex_start, []) _ Hok). by destruct (res_or _ _). Qed.

Lemma ex_operators_cases o op :
  ex_operators !! o = Some op →
  (o = op_id 1 ∧ op = op_state 1 1%nat) ∨ (o = op_id 2 ∧ op = op_state 2 2%nat) ∨
  (o = op_id 3 ∧ op = op_state 3 3%nat).
Proof.
  unfold ex_operators. rewrite !lookup_insert_Some, lookup_empty.
  intros [[<- <-]|[_ [[<- <-]|[_ [[<- <-]|[_ [=]]]]]]]; auto.
Qed.

Lemma ex_registry_ok : registry_ok ex_vi.
Proof.
  split.
  - intros o1 o2 op1 op2 H1%ex_operators_cases H2%ex_operators_cases.
    destruct H1 as [[-> ->]|[[-> ->]|[-> ->]]], H2 as [[-> ->]|[[-> ->]|[-> ->]]]; done.
  - done.
  - intros o q [op Hop] [p Hp]. change (({[ 0 := 66 ]} : gmap Z Z) !! q = Some p) in Hp.
    apply lookup_singleton_Some in Hp as [<- _]. unfold stake0. rewrite Hop.
    apply ex_operators_cases in Hop as [[_ ->]|[[_ ->]|[_ ->]]]; vm_compute; by eexists.
  - intros q t Ht. change (({[ 0 := 30 ]} : gmap Z Z) !! q = Some t) in Ht.
    apply lookup_singleton_Some in Ht as [_ <-]. lia.
  - intros q p Hp. change (({[ 0 := 66 ]} : gmap Z Z) !! q = Some p) in Hp.
    apply lookup_singleton_Some in Hp as [_ <-]. lia.
Qed.

(** ** Honest runs *)

Definition honest : list Event := [ex_ev 1 1; ex_ev 2 1; ex_ev 3 1].

Lemma quorum_soundness_witness :
  resp_Status (ex_resp honest 0) = MessageBlsAggregationStatusThresholdReached ∧
  ∃ S : gset OperatorId,
    (∀ o, o ∈ S → submitted ex_vi honest o (mba_MessageDigest (resp_Aggregation (ex_resp honest 0)))) ∧
    backed_by ex_vi S.
Proof.
  split; [vm_compute; reflexivity|].
  apply (quorum_soundness ex_vi (msg_Key (ex_msg 1)) honest
           (ex_run honest).1 (ex_run honest).2 (ex_resp honest 0)).
  - apply ex_registry_ok.
  - unfold honest; simpl. apply (bool_decide_unpack (NoDup _)). vm_compute. exact I.
  - apply ex_run_ok. vm_compute. reflexivity.
  - apply elem_of_nth. vm_compute. lia.
  - left. vm_compute. reflexivity.
Defined.

Lemma aggregate_signature_valid_witness :
  ∃ apk sig, mba_SignersApkG2 (resp_Aggregation (ex_resp honest 1)) = Some apk ∧
    mba_SignersAggSigG1 (resp_Aggregation (ex_resp honest 1)) = Some sig ∧
    bls_verify sig apk (mba_MessageDigest (resp_Aggregation (ex_resp honest 1))) = Ok true.
Proof.
  apply (aggregate_signature_valid ex_vi (msg_Key (ex_msg 1)) honest
           (ex_run honest).1 (ex_run honest).2 (ex_resp honest 1)).
  - reflexivity.
  - repeat (constructor; [vm_compute; reflexivity|]). constructor.
  - apply ex_run_ok. vm_compute. reflexivity.
  - apply elem_of_nth. vm_compute. lia.
  - vm_compute. discriminate.
Defined.

Lemma finished_exactly_once_witness :
  gr_phase (ex_run honest).1 = Closed ∧ length (ex_run honest).2 = 2%nat ∧
  ((gr_phase (ex_run honest).1 ≠ Closed ∧
      Forall (λ r, resp_Finished r = false) (ex_run honest).2) ∨
   (gr_phase (ex_run honest).1 = Closed ∧
      ∃ out' r, (ex_run honest).2 = out' ++ [r] ∧ resp_Finished r = true ∧
        Forall (λ r, resp_Finished r = false) out')).
Proof.
  split; [vm_compute; reflexivity|]. split; [vm_compute; reflexivity|].
  apply (finished_exactly_once (msg_Key (ex_msg 1)) ex_vi honest).
  apply ex_run_ok. vm_compute. reflexivity.
Defined.

(** The validation info after operator [k] alone signed message [n]. *)
Definition ex_vi_signed (k n : Z) : ValidationInfo :=
  res_or ex_vi (handleSignedMessageDigest (ex_sm k n) ex_vi).
Definition ex_resp_signed : MessageBlsAggregationServiceResponse :=
  res_or (expiredResponse ex_start)
    (getMessageBlsAggregationResponse (ex_env false) (ex_msg 1) (ex_digest 1) (ex_vi_signed 2 1) true).

Lemma ex_vi_signed_dict : vi_operatorsAvsStateDict (ex_vi_signed 2 1) = ex_operators.
Proof.
  unfold ex_vi_signed. destruct (handleSignedMessageDigest _ _) as [vi| |] eqn:Hh; [|done..].
  by apply handleSignedMessageDigest_ok in Hh as (op & pk & d & _ & _ & _ & _ & _ & ->).
Qed.

Lemma ex_ids_bytes32 : ids_are_bytes32 (ex_vi_signed 2 1).
Proof.
  intros o [op Hop]. rewrite ex_vi_signed_dict in Hop.
  apply ex_operators_cases in Hop as [[-> _]|[[-> _]|[-> _]]];
    (split; [apply length_be_encode|apply be_encode_bytes]).
Qed.

Lemma nonsigners_listed_witness :
  mba_NonSignersPubkeysG1 (resp_Aggregation ex_resp_signed) = [GetPubKeyG1 1; GetPubKeyG1 3] ∧
  ∃ a ids, vi_aggregatedOperatorsDict (ex_vi_signed 2 1) !! ex_digest 1 = Some a ∧
    StronglySorted (λ x y, be_decode x < be_decode y) ids ∧
    (∀ o, o ∈ ids ↔ is_Some (vi_operatorsAvsStateDict (ex_vi_signed 2 1) !! o) ∧
                    o ∉ ao_signersOperatorIdsSet a) ∧
    Forall2 (λ o pk, ∃ op, vi_operatorsAvsStateDict (ex_vi_signed 2 1) !! o = Some op ∧
                           pk = oas_G1Pubkey op)
      ids (mba_NonSignersPubkeysG1 (resp_Aggregation ex_resp_signed)).
Proof.
  split; [vm_compute; reflexivity|].
  apply (nonsigners_listed (ex_env false) (ex_msg 1) (ex_digest 1) (ex_vi_signed 2 1) true).
  - apply ex_ids_bytes32.
  - unfold ex_resp_signed. apply (res_or_ok (expiredResponse ex_start)). vm_compute. reflexivity.
  - vm_compute. discriminate.
Defined.

(** ** Repeated and equivocating submissions *)

(** Operator 1 holds a third of the stake; its second submission of the same
    signature reaches the 66 percent threshold. *)
Lemma resubmission_doubles_stake_witness :
  resp_Status (ex_resp [ex_ev 1 1; ex_ev 1 1] 0) = MessageBlsAggregationStatusThresholdReached ∧
  ∃ vi' a, submit_times 2 (ex_sm 1 1) ex_vi = Ok vi' ∧
    vi_aggregatedOperatorsDict vi' !! ex_digest 1 = Some a ∧
    ao_signersOperatorIdsSet a = {[op_id 1]} ∧
    ∀ q, stake (deref (vi_stakeHeap vi') (ao_signersTotalStakePerQuorum a)) q =
         2 ^ Z.of_nat 1 * stake (stake0 ex_vi (op_id 1)) q.
Proof.
  split; [vm_compute; reflexivity|].
  apply (resubmission_doubles_stake (ex_sm 1 1) ex_vi (ex_digest 1) 1).
  - vm_compute. reflexivity.
  - vm_compute. reflexivity.
  - reflexivity.
Defined.

Definition ex_agg : AggregatedOperators :=
  mkAggregatedOperators (g2_add NewZeroG2Point (ex_pk 1)) (ex_sig 1 1) 1%nat {[op_id 1]}.

Lemma ex_vi_signed_1 : ex_vi_signed 1 1 = set_aggregated ex_vi (ex_digest 1) ex_agg ex_heap.
Proof.
  assert (handleSignedMessageDigest (ex_sm 1 1) ex_vi =
    Ok (set_aggregated ex_vi (ex_digest 1) ex_agg ex_heap)) as Heq.
  { eapply (handleSignedMessageDigest_accepts (ex_sm 1 1) ex_vi (op_state 1 1%nat) (ex_pk 1)
      (ex_digest 1)).
    - vm_compute. reflexivity.
    - apply lookup_insert_eq.
    - reflexivity.
    - vm_compute. reflexivity.
    - exact I. }
  unfold ex_vi_signed. by rewrite Heq.
Qed.

Lemma equivocation_carries_stake_witness :
  ∃ vi' a2, handleSignedMessageDigest (ex_sm 1 2) (ex_vi_signed 1 1) = Ok vi' ∧
    vi_aggregatedOperatorsDict vi' !! ex_digest 2 = Some a2 ∧
    ao_signersOperatorIdsSet a2 = {[op_id 1]} ∧
    deref (vi_stakeHeap vi') (ao_signersTotalStakePerQuorum a2) =
      deref (vi_stakeHeap (ex_vi_signed 1 1)) (ao_signersTotalStakePerQuorum ex_agg) ∧
    ao_signersTotalStakePerQuorum a2 = ao_signersTotalStakePerQuorum ex_agg.
Proof.
  rewrite ex_vi_signed_1.
  apply (equivocation_carries_stake (ex_sm 1 2)
    (set_aggregated ex_vi (ex_digest 1) ex_agg ex_heap) (op_state 1 1%nat)
    (ex_digest 1) (ex_digest 2) ex_agg).
  - vm_compute. reflexivity.
  - apply lookup_insert_eq.
  - apply lookup_insert_eq.
  - reflexivity.
  - vm_compute. reflexivity.
  - apply lookup_insert_None. split; [reflexivity|]. vm_compute. discriminate.
Defined.

(** ** The service *)

#[local] Notation sv_new := (NewMessageBlsAggregatorService (M := CheckpointTaskResponse)).
Definition ex_key : MessageKey := msg_Key (ex_msg 1).
Definition ex_sv (fails : bool) : Service (M := CheckpointTaskResponse) :=
  (InitializeMessageIfNotExists (ex_env fails) sv_new ex_key [0] [66] 100).1.

Lemma ex_sv_reachable fails : rtc sv_step sv_new (ex_sv fails).
Proof.
  apply rtc_once. eapply (step_initialize _ (ex_env fails) ex_key [0] [66] 100);
    [apply surjective_pairing|]. destruct fails; vm_compute; discriminate.
Qed.

Lemma service_invariant_witness :
  gr_phase (newGoroutine ex_key ex_vi) ≠ Closed (M := CheckpointTaskResponse) ∧
  sv_signedMessageCs (ex_sv false) !! ex_key = Some 0%nat ∧
  (ex_key = ex_key ↔ 0%nat = 0%nat).
Proof.
  apply (service_invariant (ex_sv false) 0%nat 0%nat (newGoroutine ex_key ex_vi)
           (newGoroutine ex_key ex_vi)).
  - apply ex_sv_reachable.
  - reflexivity.
  - reflexivity.
Defined.

(** Operator 2 submits with operator 1's signature. *)
Lemma rejected_signature_no_effect_witness :
  ProcessNewSignature (ex_env false) (ex_sv false) None (ex_msg 1) (ex_sig 1 1) (op_id 2) =
    Ok (ex_sv false, Replied (Err IncorrectSignatureError), []) ∧
  ex_sv false = ex_sv false ∧ @nil (MessageBlsAggregationServiceResponse (M := CheckpointTaskResponse)) = [].
Proof.
  split; [reflexivity|].
  apply (rejected_signature_no_effect (ex_env false) (ex_sv false) None (ex_msg 1)
    (ex_sig 1 1) (op_id 2) (ex_sv false) IncorrectSignatureError []).
  - apply ex_sv_reachable.
  - reflexivity.
Defined.

Lemma failed_initialization_blocks_key_witness :
  ProcessNewSignature (ex_env false) (ex_sv true) None (ex_msg 1)
    (ex_sig 1 1) (op_id 1) = Ok (ex_sv true, Blocked, []).
Proof.
  apply (failed_initialization_blocks_key (ex_env true) sv_new (ex_sv true) (ex_sv true)
    ex_key [0] [66] 100 (ExternalError "registry down")) with (d := ex_digest 1).
  - apply rtc_refl.
  - reflexivity.
  - reflexivity.
  - reflexivity.
  - reflexivity.
  - apply rtc_refl.
  - reflexivity.
  - vm_compute. reflexivity.
Defined.

(** Another key is initialized before the goroutine of [ex_key] starts. *)
Definition ex_registered : Service (M := CheckpointTaskResponse) := (initializeMessageChan sv_new ex_key).1.
Definition ex_between : Service (M := CheckpointTaskResponse) :=
  (InitializeMessageIfNotExists (ex_env true) ex_registered [7] [0] [66] 100).1.

Lemma initialize_atomic_witness : rtc sv_step (ex_sv false) (startGoroutine ex_between 0%nat ex_key ex_vi).
Proof.
  apply (initialize_atomic (ex_env false) sv_new ex_registered ex_between ex_key [0] [66] 100 0%nat ex_vi).
  - apply rtc_refl.
  - reflexivity.
  - reflexivity.
  - apply rtc_once. eapply (step_initialize _ (ex_env true) [7] [0] [66] 100); [apply surjective_pairing|].
    vm_compute. discriminate.
  - reflexivity.
Defined.

Definition ex_sv_expired : Service (M := CheckpointTaskResponse) :=
  (res_or (ex_sv false, []) (fireTimer (ex_env false) (ex_sv false) 0%nat)).1.

Lemma late_send_blocks_witness :
  sendSignedMessage (ex_env false) ex_sv_expired 0%nat (ex_sm 1 1) = Ok (ex_sv_expired, Blocked, []).
Proof.
  apply (late_send_blocks (ex_sv false) ex_sv_expired ex_sv_expired 0%nat).
  - apply ex_sv_reachable.
  - exists (newGoroutine ex_key ex_vi). reflexivity.
  - apply rtc_once. eapply (step_timer _ (ex_env false) 0%nat).
    rewrite (res_or_ok (ex_sv false, []) (fireTimer (ex_env false) (ex_sv false) 0%nat))
      by (vm_compute; reflexivity). rewrite (surjective_pairing (res_or _ _)). reflexivity.
  - reflexivity.
  - apply rtc_refl.
Defined.

(** ** Progress *)

Lemma ex_verify_total : verify_total.
Proof. intros sig pk d Hs. simpl in *. unfold ToyBls.verify. by rewrite Hs. Qed.

Lemma ex_heap_entry o op q :
  ex_operators !! o = Some op → is_Some (deref ex_heap (oas_StakePerQuorum op) !! q) ↔ q = 0.
Proof.
  intros Hop. assert (deref ex_heap (oas_StakePerQuorum op) = ex_stakes) as ->.
  { apply ex_operators_cases in Hop as [[_ ->]|[[_ ->]|[_ ->]]]; reflexivity. }
  unfold ex_stakes. rewrite lookup_singleton_is_Some. naive_solver.
Qed.

Lemma ex_vi_ok : vi_ok ex_vi.
Proof.
  split.
  - intros o op Hop%ex_operators_cases. destruct Hop as [[_ ->]|[[_ ->]|[_ ->]]]; by eexists.
  - intros o op Hop%ex_operators_cases. destruct Hop as [[_ ->]|[[_ ->]|[_ ->]]]; by eexists.
  - intros o op q Hop Hs. apply (ex_heap_entry o op q Hop) in Hs as ->. by exists 30.
  - intros o op q Hop [p Hp]. change (({[ 0 := 66 ]} : gmap Z Z) !! q = Some p) in Hp.
    apply lookup_singleton_Some in Hp as [<- _]. by apply (ex_heap_entry o op 0 Hop).
  - intros d a Ha. change ((∅ : gmap MessageDigest AggregatedOperators) !! d = Some a) in Ha.
    by rewrite lookup_empty in Ha.
Qed.

Lemma ex_majority_ok : majority_ok ex_vi.
Proof.
  split.
  - intros o q. unfold stake, stake0.
    destruct (vi_operatorsAvsStateDict ex_vi !! o) as [op|] eqn:Hop; [|by rewrite lookup_empty].
    assert (deref (vi_stakeHeap ex_vi) (oas_StakePerQuorum op) = ex_stakes) as ->.
    { apply ex_operators_cases in Hop as [[_ ->]|[[_ ->]|[_ ->]]]; reflexivity. }
    destruct (ex_stakes !! q) as [s|] eqn:Hs; simpl; [|done].
    unfold ex_stakes in Hs. apply lookup_singleton_Some in Hs as [_ <-]. lia.
  - intros q t Ht. change (({[ 0 := 30 ]} : gmap Z Z) !! q = Some t) in Ht.
    apply lookup_singleton_Some in Ht as [<- <-]. vm_compute. reflexivity.
  - intros q p Hp. change (({[ 0 := 66 ]} : gmap Z Z) !! q = Some p) in Hp.
    apply lookup_singleton_Some in Hp as [_ <-]. lia.
  - exists 0, 66, 30. split_and!; [reflexivity..|lia].
Qed.

(** Operator 3 signs another digest first, and a signature in the name of operator 1 is
    forged. *)
Definition ex_forged : Event :=
  (ex_env false, EvSigned (mkSignedMessage (ex_msg 1) (ex_digest 1) (ex_sig 7 1) (op_id 1))).
Definition contested : list Event := [ex_ev 3 2; ex_forged; ex_ev 1 1; ex_ev 2 1].

Lemma contested_digests : Forall (λ e : Event, ∃ sm, e.2 = EvSigned sm ∧ sm_ok sm) contested.
Proof. repeat (constructor; [eexists; split; [reflexivity|split; vm_compute; reflexivity]|]). constructor. Qed.

Lemma contested_honest k : k = 1 ∨ k = 2 → submitted ex_vi contested (op_id k) (ex_digest 1).
Proof.
  intros Hk. exists (ex_env false), (ex_sm k 1), (op_state k (Z.to_nat k)), (ex_pk k).
  split_and!; [|reflexivity|..].
  - destruct Hk as [-> | ->]; unfold contested, ex_ev; set_solver.
  - vm_compute. reflexivity.
  - destruct Hk as [-> | ->]; reflexivity.
  - reflexivity.
  - apply bls_verify_sign.
Qed.

Lemma honest_quorum_reported_witness :
  ∃ g out r, grun (newGoroutine (msg_Key (ex_msg 1)) ex_vi) contested = Ok (g, out) ∧ r ∈ out ∧
    reached (resp_Status r) ∧ resp_Err r = None ∧
    mba_MessageDigest (resp_Aggregation r) = ex_digest 1 ∧
    ∃ m, resp_Message r = Some m ∧ msg_Digest m = Ok (ex_digest 1).
Proof.
  apply (honest_quorum_reported ex_vi (msg_Key (ex_msg 1)) contested (ex_digest 1) {[op_id 1; op_id 2]}).
  - apply ex_verify_total.
  - apply ex_registry_ok.
  - apply ex_vi_ok.
  - apply ex_majority_ok.
  - apply contested_digests.
  - repeat (constructor; [by intros; eexists|]). constructor.
  - apply (bool_decide_unpack (NoDup _)). vm_compute. exact I.
  - intros o [->%elem_of_singleton| ->%elem_of_singleton]%elem_of_union; apply contested_honest; auto.
  - intros q p Hp. change (({[ 0 := 66 ]} : gmap Z Z) !! q = Some p) in Hp.
    apply lookup_singleton_Some in Hp as [<- <-]. exists 30. split; [reflexivity|]. vm_compute. discriminate.
Defined.

(** Repeated submissions and both timers do not make the goroutine panic. *)
Definition repeated : list Event :=
  [ex_ev 1 1; ex_ev 1 1; ex_forged; ex_ev 3 2; ex_ev 1 1; (ex_env false, EvTimer); ex_ev 2 1].

Lemma goroutine_never_panics_witness :
  ∃ g out, grun (newGoroutine (msg_Key (ex_msg 1)) ex_vi) repeated = Ok (g, out).
Proof.
  apply (goroutine_never_panics ex_vi (msg_Key (ex_msg 1)) repeated).
  - apply ex_verify_total.
  - apply ex_vi_ok.
  - repeat (constructor; [first [exact I|split; vm_compute; reflexivity]|]). constructor.
  - repeat (constructor; [done|]). constructor.
Defined.

Definition ex_ops : list SvOp :=
  [OpInitialize (ex_env false) (msg_Key (ex_msg 1)) [0] [66] 0;
   OpSignature (ex_env false) None (ex_msg 1) (ex_sig 1 1) (op_id 1);
   OpSignature (ex_env false) None (ex_msg 1) (ex_sig 1 1) (op_id 1);
   OpTimer (ex_env false) 0; OpSend (ex_env false) 0 (ex_sm 2 1);
   OpInitialize (ex_env true) (msg_Key (ex_msg 2)) [0] [66] 5].

Lemma ex_registry_answers fails : registry_answers (ex_env fails) [0].
Proof.
  split.
  - by exists 100.
  - intros blk. destruct fails; done.
  - intros blk ops h o op Hq Ho. destruct fails; [done|]. injection Hq as <- <-. split_and!.
    + by eapply (vo_key _ ex_vi_ok).
    + by eapply (vo_map _ ex_vi_ok).
    + intros q. by rewrite (ex_heap_entry o op q Ho), list_elem_of_singleton.
  - intros blk quorums q [= <-] ->%list_elem_of_singleton. by eexists.
Qed.

Lemma service_never_panics_witness :
  ∃ sv, sv_exec_all NewMessageBlsAggregatorService ex_ops = Ok sv.
Proof.
  apply (service_never_panics ex_ops).
  - apply ex_verify_total.
  - repeat (constructor; [first [split; [apply ex_registry_answers|simpl; lia]
                                |split; [done|split; vm_compute; (reflexivity || discriminate)]|done]|]).
    constructor.
Defined.
