(* ===== verification/BlsAggSharing.v ===== *)
(** * Responses share their aggregates

    The aggregate key and the aggregate signature of a response are the objects the
    goroutine keeps adding to.  [reread vi r] is the response [r] as its reader finds it
    when the goroutine's state is [vi].

    - [final_response_stable]: a final response never changes, since the goroutine has
      returned;
    - [response_updated_in_place]: one that is not final changes with the next submission
      for its digest, and its list of non-signers does not change with it. *)

From S2P Require Import Prelude CoreTypes Instances Messages BlsAgg BlsAggTheory BlsAggService BlsAggProgress.
From S2P Require Import BlsAggExamples.

Section Sharing.
Context `{B : BlsOps} {M : Type} `{MI : AggMessage M}.

#[local] Notation Response := (MessageBlsAggregationServiceResponse (M := M)).

(** A response as it is sent. *)
Lemma response_reread (env : AvsEnv) (m : M) d vi force r :
  getMessageBlsAggregationResponse env m d vi force = Ok r → reread vi r = r.
Proof.
  unfold getMessageBlsAggregationResponse. intros Hr.
  destruct (vi_aggregatedOperatorsDict vi !! d) as [a|] eqn:Ha; [|by injection Hr as <-].
  destruct (getMessageBlsAggregationStatus d vi) as [s|e|]; [|by injection Hr as <-|done].
  destruct (env_GetCheckSignaturesIndices _ _ _ _); [|by injection Hr as <-|done].
  injection Hr as <-. unfold reread. simpl. by rewrite Ha.
Qed.

Lemma gstep_reread (env : AvsEnv) (g : Goroutine) ev g' rep out :
  gstep env g ev = Ok (g', rep, out) → Forall (λ r : Response, reread (gr_vi g') r = r) out.
Proof.
  intros Hs. unfold gstep, handleSignedMessagePreThreshold, handleSignedMessageThresholdReached in Hs.
  destruct (gr_phase g) as [|message|]; [| |by injection Hs as <- <- <-].
  - destruct ev as [sm|]; [|injection Hs as <- <- <-; by repeat constructor].
    destruct (handleSignedMessageDigest sm (gr_vi g)) as [vi| |]; [|by injection Hs as <- <- <-|done].
    apply res_bind_ok in Hs as (r & Hr%response_reread & [= Hs]).
    destruct (resp_Status r); injection Hs as <- <- <-; by repeat constructor.
  - destruct (msg_Digest message) as [md| |]; [|done..]. destruct ev as [sm|].
    + case_bool_decide; [|by injection Hs as <- <- <-].
      destruct (handleSignedMessageDigest sm (gr_vi g)) as [vi| |]; [|by injection Hs as <- <- <-|done].
      apply res_bind_ok in Hs as (r & Hr%response_reread & [= <- <- <-]). by repeat constructor.
    + apply res_bind_ok in Hs as (r & Hr%response_reread & [= <- <- <-]). by repeat constructor.
Qed.

Lemma grun_final_reread evs : ∀ (g : Goroutine) g' out,
  grun g evs = Ok (g', out) → Forall (λ r : Response, resp_Finished r = true → reread (gr_vi g') r = r) out.
Proof.
  induction evs as [|[env ev] evs IH]; intros g g' out Hrun; simpl in Hrun; [by injection Hrun as <- <-|].
  apply res_bind_ok in Hrun as ([[g1 rep] out1] & Hs & ([g2 out2] & Hrun & [= <- <-])%res_bind_ok).
  simpl in *. apply Forall_app. split; [|by eapply IH]. pose proof (gstep_reread _ _ _ _ _ _ Hs) as Hnow.
  assert (gr_phase g = Closed ∨ gr_phase g ≠ Closed) as [Hg|Hg] by (destruct (gr_phase g); auto).
  { unfold gstep in Hs. rewrite Hg in Hs. by injection Hs as <- <- <-. }
  destruct (gstep_finished _ _ _ _ _ _ Hg Hs) as [[_ Hf]|[Hc _]].
  - eapply Forall_impl; [exact Hf|]. simpl. congruence.
  - apply grun_closed in Hrun as [-> _]; [|done]. eapply Forall_impl; [exact Hnow|]. done.
Qed.

(** A final response is never changed: whatever is submitted after it, its reader finds
    the key and the signature it was sent with. *)
Theorem final_response_stable (g : Goroutine) evs g1 out (r : Response) later g2 out2 :
  gr_phase g ≠ Closed → grun g evs = Ok (g1, out) → r ∈ out → resp_Finished r = true →
  grun g1 later = Ok (g2, out2) → reread (gr_vi g2) r = r.
Proof.
  intros Hg Hrun Hr Hf Hlater. pose proof (grun_final_reread _ _ _ _ Hrun) as Hall. rewrite Forall_forall in Hall.
  destruct (grun_finished_lemma _ _ _ _ Hg Hrun) as [[_ Hno]|[Hc _]].
  - rewrite Forall_forall in Hno. rewrite (Hno r Hr) in Hf. done.
  - apply grun_closed in Hlater as [-> _]; [|done]. by apply Hall.
Qed.

(** A response that is not final changes when the next submission for its digest is
    accepted: the key and the signature a later reader finds include that operator, while
    the response still lists it among the operators that did not sign. *)
Theorem response_updated_in_place (env : AvsEnv) (m : M) d vi force (r : Response) a (sm : SignedMessage) vi' :
  getMessageBlsAggregationResponse env m d vi force = Ok r → resp_Err r = None →
  vi_aggregatedOperatorsDict vi !! d = Some a → sm_OperatorId sm ∉ ao_signersOperatorIdsSet a →
  handleSignedMessageDigest sm vi = Ok vi' → msg_Digest (sm_Message sm) = Ok d →
  let later := resp_Aggregation (reread vi' r) in
  ∃ op pk, vi_operatorsAvsStateDict vi !! sm_OperatorId sm = Some op ∧ oas_G2Pubkey op = Some pk ∧
    mba_SignersApkG2 (resp_Aggregation r) = Some (ao_signersApkG2 a) ∧
    mba_SignersApkG2 later = Some (g2_add (ao_signersApkG2 a) pk) ∧
    mba_SignersAggSigG1 later = Some (g1_add (ao_signersAggSigG1 a) (sm_BlsSignature sm)) ∧
    mba_NonSignersPubkeysG1 later = mba_NonSignersPubkeysG1 (resp_Aggregation r) ∧
    oas_G1Pubkey op ∈ mba_NonSignersPubkeysG1 later.
Proof.
  intros Hr He Ha Hnot Hh Hd later.
  destruct (handleSignedMessageDigest_ok _ _ _ Hh) as (op & pk & d' & Hop & Hpk & _ & Hd' & _ & ->).
  assert (d' = d) as -> by congruence. exists op, pk. subst later.
  unfold getMessageBlsAggregationResponse in Hr. rewrite Ha in Hr.
  destruct (getMessageBlsAggregationStatus d vi) as [s|e|]; [|by injection Hr as <-|done].
  destruct (env_GetCheckSignaturesIndices _ _ _ _); [|by injection Hr as <-|done].
  injection Hr as <-. unfold reread. cbn [resp_Err resp_Aggregation mba_MessageDigest set_aggregated vi_aggregatedOperatorsDict].
  rewrite lookup_insert_eq, Ha. split_and!; try done. simpl. unfold g1_pubkeys. apply list_elem_of_omap.
  exists (sm_OperatorId sm). rewrite Hop. split; [|done]. apply nonSigners_elem. by rewrite Hop.
Qed.

End Sharing.

Module Examples.

#[local] Existing Instances ToyBls.ops ToyHash.ops ToyAbi.ops.

#[local] Notation Event := (AvsEnv * GEvent (M := CheckpointTaskResponse))%type.

(** All three operators sign; the third response is final, and a late submission follows. *)
Lemma final_response_stable_witness :
  resp_Finished (ex_resp honest 1) = true ∧
  reread (gr_vi (ex_run honest).1) (ex_resp honest 1) = ex_resp honest 1.
Proof.
  split; [vm_compute; reflexivity|].
  apply (final_response_stable ex_start honest (ex_run honest).1 (ex_run honest).2 (ex_resp honest 1)
    [ex_ev 1 1] (ex_run honest).1 []).
  - discriminate.
  - apply ex_run_ok. vm_compute. reflexivity.
  - apply elem_of_nth. vm_compute. lia.
  - vm_compute. reflexivity.
  - apply (closed_total (ex_run honest).1 [ex_ev 1 1]). vm_compute. reflexivity.
Defined.

(** Operators 1 and 2 have reached the threshold; operator 3 signs before the response is
    read. *)
Definition two_signed : ValidationInfo := gr_vi (ex_run [ex_ev 1 1; ex_ev 2 1]).1.
Definition two_response : MessageBlsAggregationServiceResponse (M := CheckpointTaskResponse) :=
  res_or (expiredResponse ex_start)
    (getMessageBlsAggregationResponse (ex_env false) (ex_msg 1) (ex_digest 1) two_signed false).
Definition two_agg : AggregatedOperators :=
  default (mkAggregatedOperators (ex_pk 1) (ex_sig 1 1) 0%nat ∅) (vi_aggregatedOperatorsDict two_signed !! ex_digest 1).

Lemma two_agg_stored : vi_aggregatedOperatorsDict two_signed !! ex_digest 1 = Some two_agg.
Proof.
  assert (bool_decide (is_Some (vi_aggregatedOperatorsDict two_signed !! ex_digest 1)) = true) as Hs by (vm_compute; reflexivity).
  apply bool_decide_eq_true in Hs as [a Ha]. unfold two_agg. by rewrite Ha.
Qed.

Lemma response_updated_in_place_witness :
  ∃ op pk, vi_operatorsAvsStateDict two_signed !! op_id 3 = Some op ∧ oas_G2Pubkey op = Some pk ∧
    mba_SignersApkG2 (resp_Aggregation two_response) = Some (ao_signersApkG2 two_agg) ∧
    mba_SignersApkG2 (resp_Aggregation (reread (res_or two_signed (handleSignedMessageDigest (ex_sm 3 1) two_signed)) two_response))
      = Some (g2_add (ao_signersApkG2 two_agg) pk) ∧
    oas_G1Pubkey op ∈ mba_NonSignersPubkeysG1
      (resp_Aggregation (reread (res_or two_signed (handleSignedMessageDigest (ex_sm 3 1) two_signed)) two_response)).
Proof.
  destruct (response_updated_in_place (ex_env false) (ex_msg 1) (ex_digest 1) two_signed false two_response two_agg (ex_sm 3 1)
    (res_or two_signed (handleSignedMessageDigest (ex_sm 3 1) two_signed))) as (op & pk & H1 & H2 & H3 & H4 & _ & _ & H5).
  - apply res_or_ok. vm_compute. reflexivity.
  - vm_compute. reflexivity.
  - apply two_agg_stored.
  - apply (bool_decide_unpack _). vm_compute. exact I.
  - apply res_or_ok. vm_compute. reflexivity.
  - vm_compute. reflexivity.
  - exists op, pk. exact (conj H1 (conj H2 (conj H3 (conj H4 H5)))).
Defined.

End Examples.
