(* ===== verification/RpcClient.v ===== *)
(** * The operator's aggregator client: operator/rpc_client.go

    Messages the aggregator did not accept are queued and sent again at every tick.
    [tryResendFromDeque] compacts the queue in place; [resend_spec] is the
    specification it refines.  The client is a state machine ([cl_step]): sends,
    ticks (connection set-up and resending are two steps, since other goroutines
    run between them) and the shutdown goroutines started by failed sends.

    Each RPC's result is an argument of the step that makes it.  Besides the new
    state a step yields an [Effect]: the messages the aggregator accepted, the
    messages dropped, and the calls of the metrics listener. *)

From S2P Require Import Prelude CoreTypes Instances Messages.

Definition MaxRetries : Z := 10.

(** ** In-place compaction of a slice *)

Section Compaction.
Context {A : Type}.

(** [for j := i; j < len(q); j++ { q[errorPos] = q[j]; errorPos++ }], [n] rounds. *)
Fixpoint copy_loop (n j errorPos : nat) (q : list A) : nat * list A :=
  match n with
  | O => (errorPos, q)
  | S n =>
      match q !! j with
      | Some x => copy_loop n (S j) (S errorPos) (<[errorPos := x]> q)
      | None => (errorPos, q)
      end
  end.

Lemma copy_loop_length n : ∀ j p (q : list A), length (copy_loop n j p q).2 = length q.
Proof.
  induction n as [|n IH]; intros j p q; simpl; [done|].
  destruct (q !! j); [|done]. by rewrite IH, length_insert.
Qed.

Lemma copy_loop_spec n : ∀ j p (q : list A), (p ≤ j)%nat → (j + n = length q)%nat →
  let '(p', q') := copy_loop n j p q in
  p' = (p + n)%nat ∧ take p' q' = take p q ++ drop j q.
Proof.
  induction n as [|n IH]; intros j p q Hp Hn; cbn [copy_loop].
  { rewrite drop_ge by lia. rewrite app_nil_r. split; [lia|done]. }
  destruct (lookup_lt_is_Some_2 q j) as [x Hx]; [lia|]. rewrite Hx.
  specialize (IH (S j) (S p) (<[p := x]> q)).
  rewrite length_insert in IH. specialize (IH ltac:(lia) ltac:(lia)).
  destruct (copy_loop n (S j) (S p) (<[p := x]> q)) as [p' q']. destruct IH as [-> ->].
  split; [lia|]. rewrite drop_insert_lt by lia.
  rewrite (take_S_r _ _ x) by (by rewrite list_lookup_insert_eq by lia).
  rewrite take_insert_ge by lia. rewrite <- (assoc_L (++)); simpl.
  by rewrite (drop_S q x j).
Qed.

End Compaction.

Section RpcClient.
Context `{B : BlsOps}.

(** ** Data *)

(** The dynamic types of [unsentRpcMessage.Message]. *)
Inductive RpcMessage : Type :=
| RpcCheckpointTaskResponse (m : SignedCheckpointTaskResponse)
| RpcStateRootUpdate (m : SignedStateRootUpdateMessage)
| RpcOperatorSetUpdate (m : SignedOperatorSetUpdateMessage).

Record unsentRpcMessage := mkUnsent {
  um_Message : RpcMessage;
  um_Retries : Z }.

(** Calls of [RpcClientEventListener]. *)
Inductive ListenerEvent : Type :=
| IncErroredCheckpointSubmissions (resend : bool)
| IncCheckpointTaskResponseSubmissions (resend : bool)
| ObserveLastCheckpointIdResponded (i : TaskIndex)
| IncErroredStateRootUpdateSubmissions (rollup : RollupId) (resend : bool)
| IncStateRootUpdateSubmissions (rollup : RollupId) (resend : bool)
| IncErroredOperatorSetUpdateSubmissions (resend : bool)
| IncOperatorSetUpdateUpdateSubmissions (resend : bool)
| ObserveLastOperatorSetUpdateIdResponded (i : OperatorSetUpdateId)
| OnMessagesReceived
| ObserveResendQueueSize (n : nat).

(** [rpcClient] is nil or a connection; [rc_pendingShutdown] counts the started
    goroutines [handleRpcShutdown] that have not run yet, and [rc_ticking] says that
    [onTick] is past the initialization of the client. *)
Record Client := mkClient {
  rc_rpcClient : option nat;
  rc_registryCoordinatorAddress : Address;
  rc_notifiedInitialized : bool;
  rc_unsentMessages : list unsentRpcMessage;
  rc_pendingShutdown : nat;
  rc_ticking : bool;
  rc_nextConn : nat }.

Record Effect := mkEffect {
  ef_delivered : list RpcMessage;
  ef_dropped : list RpcMessage;
  ef_events : list ListenerEvent }.

Definition NewAggregatorRpcClient (registryCoordinatorAddress : Address) : Client :=
  mkClient None registryCoordinatorAddress false [] 0 false 0.

Definition set_queue (c : Client) (q : list unsentRpcMessage) : Client :=
  mkClient (rc_rpcClient c) (rc_registryCoordinatorAddress c) (rc_notifiedInitialized c) q
    (rc_pendingShutdown c) (rc_ticking c) (rc_nextConn c).
Definition set_ticking (c : Client) (b : bool) : Client :=
  mkClient (rc_rpcClient c) (rc_registryCoordinatorAddress c) (rc_notifiedInitialized c)
    (rc_unsentMessages c) (rc_pendingShutdown c) b (rc_nextConn c).
Definition set_conn (c : Client) (conn : option nat) (notified : bool) (next : nat) : Client :=
  mkClient conn (rc_registryCoordinatorAddress c) notified
    (rc_unsentMessages c) (rc_pendingShutdown c) (rc_ticking c) next.
Definition set_pending (c : Client) (n : nat) : Client :=
  mkClient (rc_rpcClient c) (rc_registryCoordinatorAddress c) (rc_notifiedInitialized c)
    (rc_unsentMessages c) n (rc_ticking c) (rc_nextConn c).

(** ** Connecting *)

(** What the remote end answers to the three requests of a dial. *)
Record DialEnv := mkDialEnv {
  de_DialHTTP : option GoError;
  de_GetRegistryCoordinatorAddress : go string;
  de_NotifyOperatorInitialization : option GoError }.

Context (HexToAddress : string → Address).

(** A mismatching address ends the process ([logger.Fatal]). *)
Definition dialAggregatorRpcClient (env : DialEnv) (c : Client) : Client * go unit :=
  match rc_rpcClient c with
  | Some _ => (c, Ok tt)
  | None =>
      match de_DialHTTP env with
      | Some e => (c, Err e)
      | None =>
          let client := rc_nextConn c in
          let c := set_conn c None (rc_notifiedInitialized c) (S client) in
          match de_GetRegistryCoordinatorAddress env with
          | Err e => (c, Err e)
          | Panic => (c, Panic)
          | Ok address =>
              match (if rc_notifiedInitialized c then None
                     else de_NotifyOperatorInitialization env) with
              | Some e => (c, Err e)
              | None =>
                  let c := set_conn c None true (rc_nextConn c) in
                  if bool_decide (HexToAddress address = rc_registryCoordinatorAddress c)
                  then (set_conn c (Some client) true (rc_nextConn c), Ok tt)
                  else (c, Panic)
              end
          end
      end
  end.

Definition InitializeClientIfNotExist (env : DialEnv) (c : Client) : Client * go unit :=
  match rc_rpcClient c with
  | Some _ => (c, Ok tt)
  | None => dialAggregatorRpcClient env c
  end.

Definition isShutdownOrNetworkError (err : GoError) : bool :=
  match err with RpcErrShutdown | NetOpError => true | _ => false end.

Definition handleRpcError (err : GoError) (c : Client) : Client :=
  if isShutdownOrNetworkError err then set_pending c (S (rc_pendingShutdown c)) else c.

(** One started goroutine gets the lock. *)
Definition handleRpcShutdown (c : Client) : Client :=
  set_conn (set_pending c (pred (rc_pendingShutdown c))) None
    (rc_notifiedInitialized c) (rc_nextConn c).

(** ** Resending *)

(** The listener calls after an RPC of [message] with result [err]. *)
Definition listener_events (message : RpcMessage) (err : option GoError) (resend : bool)
    : list ListenerEvent :=
  match message with
  | RpcCheckpointTaskResponse m =>
      match err with
      | Some _ => [IncErroredCheckpointSubmissions resend]
      | None => [IncCheckpointTaskResponseSubmissions resend;
                 ObserveLastCheckpointIdResponded (ctr_ReferenceTaskIndex (sctr_TaskResponse m))]
      end
  | RpcStateRootUpdate m =>
      match err with
      | Some _ => [IncErroredStateRootUpdateSubmissions (sru_RollupId (ssru_Message m)) resend]
      | None => [IncStateRootUpdateSubmissions (sru_RollupId (ssru_Message m)) resend]
      end
  | RpcOperatorSetUpdate m =>
      match err with
      | Some _ => [IncErroredOperatorSetUpdateSubmissions resend]
      | None => [IncOperatorSetUpdateUpdateSubmissions resend;
                 ObserveLastOperatorSetUpdateIdResponded (osu_Id (sosu_Message m))]
      end
  end.

(** The loop over the queue array: [n] rounds are left, [i] and [errorPos] as in the
    source, [calls k] the result of the [k]-th RPC.  Yields whether the loop
    returned early, the queue slice, and the effect. *)
Fixpoint resend_loop (calls : nat → option GoError) (n i errorPos : nat)
    (q : list unsentRpcMessage) (ef : Effect) : bool * list unsentRpcMessage * Effect :=
  match n with
  | O => (false, take errorPos q, ef)
  | S n =>
      match q !! i with
      | None => (false, take errorPos q, ef)
      | Some entry =>
          let message := um_Message entry in
          let events := ef_events ef ++ listener_events message (calls i) true in
          match calls i with
          | None =>
              resend_loop calls n (S i) errorPos q
                (mkEffect (ef_delivered ef ++ [message]) (ef_dropped ef) events)
          | Some err =>
              let ef := mkEffect (ef_delivered ef) (ef_dropped ef) events in
              if isShutdownOrNetworkError err then
                if (errorPos =? 0)%nat then (true, drop i q, ef)
                else let '(errorPos, q) := copy_loop (S n) i errorPos q in
                     (false, take errorPos q, ef)
              else
                let entry := mkUnsent message (um_Retries entry + 1) in
                if MaxRetries <=? um_Retries entry then
                  resend_loop calls n (S i) errorPos q
                    (mkEffect (ef_delivered ef) (ef_dropped ef ++ [message]) events)
                else
                  resend_loop calls n (S i) (S errorPos) (<[errorPos := entry]> q) ef
          end
      end
  end.

Definition no_effect : Effect := mkEffect [] [] [].

(** A call on a nil [*rpc.Client] panics. *)
Definition tryResendFromDeque (calls : nat → option GoError) (c : Client)
    : go (Client * Effect) :=
  let q := rc_unsentMessages c in
  match rc_rpcClient c, q with
  | None, _ :: _ => Panic
  | _, _ =>
      let '(early, q', ef) := resend_loop calls (length q) 0 0 q no_effect in
      Ok (set_queue c q',
          if early then ef
          else mkEffect (ef_delivered ef) (ef_dropped ef)
                 (ef_events ef ++ [ObserveResendQueueSize (length q')]))
  end.

(** ** Sending *)

Definition appendProtected (message : RpcMessage) (c : Client) (events : list ListenerEvent)
    : Client * Effect :=
  let q := rc_unsentMessages c ++ [mkUnsent message 0] in
  (set_queue c q, mkEffect [] [] (events ++ [ObserveResendQueueSize (length q)])).

(** [call] is the result of the callback's RPC. *)
Definition sendOperatorMessage (call : option GoError) (message : RpcMessage) (c : Client)
    : Client * Effect :=
  match rc_rpcClient c with
  | None => appendProtected message c []
  | Some _ =>
      match call with
      | Some err => appendProtected message (handleRpcError err c)
                      (listener_events message call false)
      | None => (c, mkEffect [message] []
                      (listener_events message None false ++ [OnMessagesReceived]))
      end
  end.

Definition SendSignedCheckpointTaskResponseToAggregator (call : option GoError)
    (m : SignedCheckpointTaskResponse) (c : Client) : Client * Effect :=
  sendOperatorMessage call (RpcCheckpointTaskResponse m) c.
Definition SendSignedStateRootUpdateToAggregator (call : option GoError)
    (m : SignedStateRootUpdateMessage) (c : Client) : Client * Effect :=
  sendOperatorMessage call (RpcStateRootUpdate m) c.
Definition SendSignedOperatorSetUpdateToAggregator (call : option GoError)
    (m : SignedOperatorSetUpdateMessage) (c : Client) : Client * Effect :=
  sendOperatorMessage call (RpcOperatorSetUpdate m) c.

Definition sendRequest {A} (call : go A) (c : Client) : Client * go A :=
  match rc_rpcClient c with
  | None => (c, Err (NewError "rpc client is nil"))
  | Some _ =>
      match call with
      | Err err => (handleRpcError err c, Err err)
      | r => (c, r)
      end
  end.

Definition GetAggregatedCheckpointMessages (call : Timestamp → Timestamp → go CheckpointMessages)
    (fromTimestamp toTimestamp : Timestamp) (c : Client) : Client * go CheckpointMessages :=
  sendRequest (call fromTimestamp toTimestamp) c.

(** ** The client as a state machine *)

Inductive ClientEvent : Type :=
| CSend (m : RpcMessage) (call : option GoError)
| CTick (env : DialEnv)
| CResend (calls : nat → option GoError)
| CShutdown.

(** [onTick] up to the unlock before [tryResendFromDeque], and from there on. *)
Definition onTick_initialize (env : DialEnv) (c : Client) : go Client :=
  match InitializeClientIfNotExist env c with
  | (c, Ok _) => Ok (set_ticking c (negb (bool_decide (rc_unsentMessages c = []))))
  | (c, Err _) => Ok c
  | (_, Panic) => Panic
  end.

Definition onTick_resend (calls : nat → option GoError) (c : Client) : go (Client * Effect) :=
  let? r := tryResendFromDeque calls c in Ok (set_ticking r.1 false, r.2).

Definition cl_step (c : Client) (ev : ClientEvent) : go (Client * Effect) :=
  match ev with
  | CSend m call => Ok (sendOperatorMessage call m c)
  | CTick env =>
      if rc_ticking c then Ok (c, no_effect)
      else let? c := onTick_initialize env c in Ok (c, no_effect)
  | CResend calls => if rc_ticking c then onTick_resend calls c else Ok (c, no_effect)
  | CShutdown =>
      if (0 <? rc_pendingShutdown c)%nat then Ok (handleRpcShutdown c, no_effect)
      else Ok (c, no_effect)
  end.

Fixpoint cl_run (c : Client) (evs : list ClientEvent) : go (Client * Effect) :=
  match evs with
  | [] => Ok (c, no_effect)
  | ev :: evs =>
      let? r := cl_step c ev in
      let? r' := cl_run r.1 evs in
      Ok (r'.1, mkEffect (ef_delivered r.2 ++ ef_delivered r'.2)
                  (ef_dropped r.2 ++ ef_dropped r'.2) (ef_events r.2 ++ ef_events r'.2))
  end.

(** ** Specification of a resend *)

(** The queue after a resend that starts at call number [i]: entries accepted are
    gone, entries refused are kept with one more retry, or dropped at [MaxRetries];
    after a shutdown or network error everything is kept as it is. *)
Fixpoint resend_spec (calls : nat → option GoError) (i : nat) (q : list unsentRpcMessage)
    : list unsentRpcMessage :=
  match q with
  | [] => []
  | entry :: rest =>
      match calls i with
      | None => resend_spec calls (S i) rest
      | Some err =>
          if isShutdownOrNetworkError err then entry :: rest
          else if MaxRetries <=? um_Retries entry + 1 then resend_spec calls (S i) rest
          else mkUnsent (um_Message entry) (um_Retries entry + 1) :: resend_spec calls (S i) rest
      end
  end.

(** The messages the aggregator accepts in that resend, and those dropped. *)
Fixpoint resend_outcome (calls : nat → option GoError) (i : nat) (q : list unsentRpcMessage)
    : list RpcMessage * list RpcMessage :=
  match q with
  | [] => ([], [])
  | entry :: rest =>
      match calls i with
      | None => let r := resend_outcome calls (S i) rest in (um_Message entry :: r.1, r.2)
      | Some err =>
          if isShutdownOrNetworkError err then ([], [])
          else let r := resend_outcome calls (S i) rest in
               if MaxRetries <=? um_Retries entry + 1 then (r.1, um_Message entry :: r.2) else r
      end
  end.

End RpcClient.

Section Theory.
Context `{B : BlsOps} (HexToAddress : string → Address).
#[local] Notation cl_step := (cl_step HexToAddress).
#[local] Notation cl_run := (cl_run HexToAddress).

(** ** Resending refines its specification *)

Lemma resend_loop_spec calls n : ∀ i p q ef, (p ≤ i)%nat → (i + n = length q)%nat →
  let '(early, q', ef') := resend_loop calls n i p q ef in
  q' = take p q ++ resend_spec calls i (drop i q) ∧
  ef_delivered ef' = ef_delivered ef ++ (resend_outcome calls i (drop i q)).1 ∧
  ef_dropped ef' = ef_dropped ef ++ (resend_outcome calls i (drop i q)).2.
Proof.
  induction n as [|n IH]; intros i p q ef Hp Hn; cbn [resend_loop].
  { rewrite drop_ge by lia. simpl. by rewrite !app_nil_r. }
  destruct (lookup_lt_is_Some_2 q i) as [[m k] Hx]; [lia|]. rewrite Hx, (drop_S q _ i Hx).
  cbn [resend_spec resend_outcome um_Message um_Retries].
  destruct (calls i) as [err|] eqn:Hcall.
  2:{ specialize (IH (S i) p q (mkEffect (ef_delivered ef ++ [m]) (ef_dropped ef)
        (ef_events ef ++ listener_events m None true)) ltac:(lia) ltac:(lia)).
      destruct (resend_loop _ _ _ _ _ _) as [[early q'] ef']. simpl in *.
      by rewrite <- (assoc_L (++)) in IH. }
  destruct (isShutdownOrNetworkError err).
  - rewrite <- (drop_S q _ i Hx). cbn [fst snd]. rewrite !app_nil_r. destruct (Nat.eqb_spec p 0) as [->|Hne]; [done|].
    pose proof (copy_loop_spec (S n) i p q Hp Hn) as Hcopy.
    destruct (copy_loop (S n) i p q) as [p' q']; simpl in *. destruct Hcopy as [-> ->]. done.
  - destruct (MaxRetries <=? k + 1).
    + specialize (IH (S i) p q (mkEffect (ef_delivered ef) (ef_dropped ef ++ [m])
        (ef_events ef ++ listener_events m (Some err) true)) ltac:(lia) ltac:(lia)).
      destruct (resend_loop _ _ _ _ _ _) as [[early q'] ef']. simpl in *.
      by rewrite <- (assoc_L (++)) in IH.
    + specialize (IH (S i) (S p) (<[p := mkUnsent m (k + 1)]> q) (mkEffect (ef_delivered ef) (ef_dropped ef)
        (ef_events ef ++ listener_events m (Some err) true)) ltac:(lia)).
      rewrite length_insert in IH. specialize (IH ltac:(lia)).
      destruct (resend_loop _ _ _ _ _ _) as [[early q'] ef']. simpl in *.
      rewrite drop_insert_lt in IH by lia.
      rewrite (take_S_r _ _ (mkUnsent m (k + 1))) in IH by (by rewrite list_lookup_insert_eq by lia).
      rewrite take_insert_ge, <- (assoc_L (++)) in IH by lia. done.
Qed.

Lemma tryResend_lemma calls c conn :
  rc_rpcClient c = Some conn →
  ∃ ef, tryResendFromDeque calls c =
      Ok (set_queue c (resend_spec calls 0 (rc_unsentMessages c)), ef) ∧
    ef_delivered ef = (resend_outcome calls 0 (rc_unsentMessages c)).1 ∧
    ef_dropped ef = (resend_outcome calls 0 (rc_unsentMessages c)).2.
Proof.
  intros Hc. unfold tryResendFromDeque. rewrite Hc.
  pose proof (resend_loop_spec calls (length (rc_unsentMessages c)) 0 0 (rc_unsentMessages c)
    no_effect ltac:(lia) ltac:(lia)) as Hloop.
  destruct (resend_loop _ _ _ _ _ _) as [[early q'] ef']. simpl in Hloop. rewrite drop_0 in Hloop.
  destruct Hloop as (-> & Hd & Hr). eexists. split; [reflexivity|].
  by destruct early.
Qed.

Lemma resend_spec_sublist calls q : ∀ i,
  um_Message <$> resend_spec calls i q `sublist_of` um_Message <$> q.
Proof.
  induction q as [|[m k] q IH]; intros i; simpl; [done|].
  destruct (calls i) as [err|]; [|by apply sublist_cons].
  destruct (isShutdownOrNetworkError err); [done|].
  case_match; simpl; [by apply sublist_cons|by apply sublist_skip].
Qed.

(** C7: the in-place compaction of the queue by [tryResendFromDeque] refines the
    specification [resend_spec]: on a connected client it always returns, the new
    queue is what the specification says (accepted entries gone, refused entries kept
    with one more retry or dropped at the limit, everything from a connection failure
    on kept unchanged), and the messages stay in their order. *)
Theorem tryResend_refines (calls : nat → option GoError) c conn :
  rc_rpcClient c = Some conn →
  ∃ c' ef, tryResendFromDeque calls c = Ok (c', ef) ∧
    rc_unsentMessages c' = resend_spec calls 0 (rc_unsentMessages c) ∧
    rc_rpcClient c' = Some conn ∧
    ef_delivered ef = (resend_outcome calls 0 (rc_unsentMessages c)).1 ∧
    ef_dropped ef = (resend_outcome calls 0 (rc_unsentMessages c)).2 ∧
    um_Message <$> rc_unsentMessages c' `sublist_of` um_Message <$> rc_unsentMessages c.
Proof.
  intros Hc. destruct (tryResend_lemma calls c conn Hc) as (ef & Heq & Hd & Hr).
  do 2 eexists. split; [done|]. simpl. split_and!; try done. apply resend_spec_sublist.
Qed.

(** ** Conservation *)

Lemma resend_conserves calls q : ∀ i,
  um_Message <$> q ≡ₚ (resend_outcome calls i q).1 ++ (resend_outcome calls i q).2 ++
                      (um_Message <$> resend_spec calls i q).
Proof.
  induction q as [|[m k] q IH]; intros i; simpl; [done|].
  destruct (calls i) as [err|]; simpl; [|by rewrite (IH (S i))].
  destruct (isShutdownOrNetworkError err); [done|]. rewrite (IH (S i)).
  case_match; simpl; solve_Permutation.
Qed.

(** The messages handed to the client for sending. *)
Definition sent (evs : list ClientEvent) : list RpcMessage :=
  omap (λ ev, match ev with CSend m _ => Some m | _ => None end) evs.

#[local] Arguments sent : simpl never.

Lemma sent_cons ev evs : sent (ev :: evs) = sent [ev] ++ sent evs.
Proof. by destruct ev. Qed.

Lemma sendOperatorMessage_conserves call m c :
  let '(c', ef) := sendOperatorMessage call m c in
  m :: (um_Message <$> rc_unsentMessages c) ≡ₚ
  ef_delivered ef ++ ef_dropped ef ++ (um_Message <$> rc_unsentMessages c').
Proof.
  unfold sendOperatorMessage, appendProtected, handleRpcError.
  repeat case_match; simplify_eq/=; rewrite ?fmap_app; simpl; solve_Permutation.
Qed.

Lemma dial_queue env c : rc_unsentMessages (dialAggregatorRpcClient HexToAddress env c).1 = rc_unsentMessages c.
Proof. unfold dialAggregatorRpcClient. repeat case_match; done. Qed.

Lemma onTick_initialize_queue env c c' :
  onTick_initialize HexToAddress env c = Ok c' → rc_unsentMessages c' = rc_unsentMessages c.
Proof.
  unfold onTick_initialize, InitializeClientIfNotExist. intros Hc.
  destruct (rc_rpcClient c); [by simplify_eq/=|]. pose proof (dial_queue env c) as Hq.
  destruct (dialAggregatorRpcClient _ _ _) as [c1 []]; by simplify_eq/=.
Qed.

Lemma onTick_resend_ok calls c c' ef :
  onTick_resend calls c = Ok (c', ef) →
  rc_unsentMessages c' = resend_spec calls 0 (rc_unsentMessages c) ∧
  ef_delivered ef = (resend_outcome calls 0 (rc_unsentMessages c)).1 ∧
  ef_dropped ef = (resend_outcome calls 0 (rc_unsentMessages c)).2.
Proof.
  unfold onTick_resend. intros ([c1 ef1] & Heq & [= <- <-])%res_bind_ok. simpl.
  destruct (rc_rpcClient c) as [conn|] eqn:Hconn.
  - destruct (tryResend_lemma calls c conn Hconn) as (ef2 & Heq2 & Hd & Hr).
    rewrite Heq2 in Heq. injection Heq as <- <-. done.
  - unfold tryResendFromDeque in Heq. rewrite Hconn in Heq.
    destruct (rc_unsentMessages c) eqn:Hq; [|done]. by simplify_eq/=.
Qed.

Lemma cl_step_conserves c ev c' ef :
  cl_step c ev = Ok (c', ef) →
  sent [ev] ++ (um_Message <$> rc_unsentMessages c) ≡ₚ
  ef_delivered ef ++ ef_dropped ef ++ (um_Message <$> rc_unsentMessages c').
Proof.
  destruct ev as [m call|env|calls|]; simpl; intros Hstep.
  - pose proof (sendOperatorMessage_conserves call m c) as Hs.
    injection Hstep as Hstep. by rewrite Hstep in Hs.
  - case_match; [by simplify_eq|]. apply res_bind_ok in Hstep as (c1 & Hc1 & [= <- <-]); simpl.
    by rewrite (onTick_initialize_queue _ _ _ Hc1).
  - case_match; [|by simplify_eq].
    apply onTick_resend_ok in Hstep as (-> & -> & ->). apply resend_conserves.
  - case_match; by simplify_eq/=.
Qed.

Lemma cl_run_conserves evs : ∀ c c' ef,
  cl_run c evs = Ok (c', ef) →
  sent evs ++ (um_Message <$> rc_unsentMessages c) ≡ₚ
  ef_delivered ef ++ ef_dropped ef ++ (um_Message <$> rc_unsentMessages c').
Proof.
  induction evs as [|ev evs IH]; intros c c' ef; simpl; [by intros [= <- <-]|].
  intros ([c1 ef1] & Hstep & ([c2 ef2] & Hrun & [= <- <-])%res_bind_ok)%res_bind_ok; simpl in *.
  apply cl_step_conserves in Hstep. apply IH in Hrun.
  rewrite sent_cons.
  transitivity (sent evs ++ (sent [ev] ++ (um_Message <$> rc_unsentMessages c)));
    [solve_Permutation|].
  rewrite Hstep.
  transitivity (ef_delivered ef1 ++ ef_dropped ef1 ++
    (sent evs ++ (um_Message <$> rc_unsentMessages c1))); [solve_Permutation|].
  rewrite Hrun. solve_Permutation.
Qed.

(** C25: no message is lost and none is duplicated.  Along any run of a fresh client,
    whatever the interleaving of sends, ticks, failures and shutdowns, the messages
    handed to it are, as a multiset, exactly those the aggregator has accepted, those
    dropped at the retry limit, and those still queued. *)
Theorem messages_conserved addr evs c ef :
  cl_run (NewAggregatorRpcClient addr) evs = Ok (c, ef) →
  sent evs ≡ₚ ef_delivered ef ++ ef_dropped ef ++ (um_Message <$> rc_unsentMessages c).
Proof. intros Hrun. apply cl_run_conserves in Hrun. simpl in Hrun. by rewrite app_nil_r in Hrun. Qed.

(** ** Retry counters *)

Definition retries_ok (q : list unsentRpcMessage) : Prop :=
  Forall (λ e, 0 ≤ um_Retries e < MaxRetries) q.

Lemma resend_spec_retries calls q : ∀ i, retries_ok q → retries_ok (resend_spec calls i q).
Proof.
  induction q as [|[m k] q IH]; intros i Hq; simpl; [done|].
  pose proof Hq as [Hk Hrest]%Forall_cons. simpl in Hk.
  destruct (calls i) as [err|]; [|by apply IH].
  destruct (isShutdownOrNetworkError err); [done|].
  destruct (Z.leb_spec MaxRetries (k + 1)); [by apply IH|].
  constructor; [simpl; lia|by apply IH].
Qed.

Lemma cl_step_retries c ev c' ef :
  cl_step c ev = Ok (c', ef) → retries_ok (rc_unsentMessages c) → retries_ok (rc_unsentMessages c').
Proof.
  destruct ev as [m call|env|calls|]; simpl; intros Hstep Hq.
  - unfold sendOperatorMessage, appendProtected, handleRpcError in Hstep.
    repeat case_match; simplify_eq/=; try done;
      (apply Forall_app; split; [done|]; rewrite Forall_singleton; unfold MaxRetries; simpl; lia).
  - case_match; [by simplify_eq|]. apply res_bind_ok in Hstep as (c1 & Hc1 & [= <- <-]); simpl.
    by rewrite (onTick_initialize_queue _ _ _ Hc1).
  - case_match; [|by simplify_eq].
    apply onTick_resend_ok in Hstep as (-> & _). by apply resend_spec_retries.
  - case_match; by simplify_eq/=.
Qed.

Lemma cl_run_retries evs : ∀ c c' ef,
  cl_run c evs = Ok (c', ef) → retries_ok (rc_unsentMessages c) → retries_ok (rc_unsentMessages c').
Proof.
  induction evs as [|ev evs IH]; intros c c' ef; simpl; [by intros [= <- <-]|].
  intros ([c1 ef1] & Hstep & ([c2 ef2] & Hrun & [= <- <-])%res_bind_ok)%res_bind_ok Hq; simpl in *.
  eapply IH; [done|]. by eapply cl_step_retries.
Qed.

(** *** Ticks on which the aggregator refuses everything *)

Definition refuses (calls : nat → option GoError) : Prop :=
  ∀ i, ∃ err, calls i = Some err ∧ isShutdownOrNetworkError err = false.

(** A tick with its resend. *)
Definition tick_events (t : DialEnv * (nat → option GoError)) : list ClientEvent := [CTick t.1; CResend t.2].

Lemma refused_resend calls q n : refuses calls → retries_ok q →
  Forall (λ e, MaxRetries - um_Retries e ≤ n + 1) q → ∀ i,
  Forall (λ e, MaxRetries - um_Retries e ≤ n) (resend_spec calls i q) ∧
  (resend_outcome calls i q).1 = [] ∧
  um_Message <$> q ≡ₚ (resend_outcome calls i q).2 ++ (um_Message <$> resend_spec calls i q).
Proof.
  intros Hr Hq Hn. induction q as [|[m k] q IH]; intros i; simpl; [done|].
  apply Forall_cons in Hq as [Hk Hq], Hn as [Hkn Hn]. simpl in *.
  destruct (Hr i) as (err & -> & ->). destruct (IH Hq Hn (S i)) as (IH1 & IH2 & IH3).
  destruct (Z.leb_spec MaxRetries (k + 1)); simpl.
  - split_and!; [done..|]. by rewrite <- IH3.
  - split_and!; [|done|].
    + constructor; [simpl; lia|done].
    + rewrite IH3. by rewrite Permutation_middle.
Qed.

Lemma refused_tick c conn t n :
  rc_rpcClient c = Some conn → rc_ticking c = false → refuses t.2 → retries_ok (rc_unsentMessages c) →
  Forall (λ e, MaxRetries - um_Retries e ≤ n + 1) (rc_unsentMessages c) →
  ∃ c' ef, cl_run c (tick_events t) = Ok (c', ef) ∧ rc_rpcClient c' = Some conn ∧ rc_ticking c' = false ∧
    retries_ok (rc_unsentMessages c') ∧ Forall (λ e, MaxRetries - um_Retries e ≤ n) (rc_unsentMessages c') ∧
    ef_delivered ef = [] ∧ um_Message <$> rc_unsentMessages c ≡ₚ ef_dropped ef ++ (um_Message <$> rc_unsentMessages c').
Proof.
  intros Hc Ht Hr Hq Hn. unfold tick_events. simpl. rewrite Ht. unfold onTick_initialize, InitializeClientIfNotExist.
  rewrite Hc. cbn [res_bind].
  destruct (decide (rc_unsentMessages c = [])) as [Hempty|Hne].
  - rewrite bool_decide_true by done. cbn [res_bind fst snd negb set_ticking rc_ticking].
    do 2 eexists. split; [reflexivity|]. simpl. rewrite Hempty.
    split_and!; [done|done|constructor|constructor|done|done].
  - rewrite bool_decide_false by done. cbn [res_bind fst snd negb set_ticking rc_ticking]. unfold onTick_resend.
    destruct (tryResend_lemma t.2 (set_ticking c true) conn Hc) as (ef & Heq & Hd & Hdrop). simpl in Heq, Hd, Hdrop.
    rewrite Heq. cbn [res_bind fst snd]. destruct (refused_resend t.2 _ n Hr Hq Hn 0) as (H1 & H2 & H3).
    do 2 eexists. split; [reflexivity|]. simpl. rewrite Hd, Hdrop, H2, !app_nil_r.
    split_and!; [done|done|by apply resend_spec_retries|done|done|done].
Qed.

Lemma cl_run_app c evs evs' c1 ef1 c2 ef2 :
  cl_run c evs = Ok (c1, ef1) → cl_run c1 evs' = Ok (c2, ef2) →
  cl_run c (evs ++ evs') = Ok (c2, mkEffect (ef_delivered ef1 ++ ef_delivered ef2)
    (ef_dropped ef1 ++ ef_dropped ef2) (ef_events ef1 ++ ef_events ef2)).
Proof.
  revert c c1 ef1. induction evs as [|ev evs IH]; intros c c1 ef1; cbn [app RpcClient.cl_run].
  { intros [= <- <-] ->. by destruct ef2. }
  intros ([c3 ef3] & Hs & ([c4 ef4] & Hr & [= <- <-])%res_bind_ok)%res_bind_ok H2. rewrite Hs. cbn [res_bind fst snd] in *.
  rewrite (IH _ _ _ Hr H2). cbn [res_bind fst snd ef_delivered ef_dropped ef_events]. by rewrite <- !(assoc_L (++)).
Qed.

Lemma refused_ticks conn ticks : ∀ c,
  rc_rpcClient c = Some conn → rc_ticking c = false → Forall (λ t, refuses t.2) ticks →
  retries_ok (rc_unsentMessages c) →
  Forall (λ e, MaxRetries - um_Retries e ≤ Z.of_nat (length ticks)) (rc_unsentMessages c) →
  ∃ c' ef, cl_run c (ticks ≫= tick_events) = Ok (c', ef) ∧ rc_unsentMessages c' = [] ∧
    ef_delivered ef = [] ∧ ef_dropped ef ≡ₚ um_Message <$> rc_unsentMessages c.
Proof.
  induction ticks as [|t ticks IH]; intros c Hc Ht Hr Hq Hn.
  { assert (rc_unsentMessages c = []) as Hempty.
    { destruct (rc_unsentMessages c); [done|]. apply Forall_cons in Hq as [? _], Hn as [? _]. simpl in *. lia. }
    do 2 eexists. split; [reflexivity|]. by rewrite Hempty. }
  apply Forall_cons in Hr as [Hr1 Hr].
  destruct (refused_tick c conn t (Z.of_nat (length ticks))) as (c1 & ef1 & Hrun & Hc1 & Ht1 & Hq1 & Hn1 & Hd1 & Hp1); [done..| |].
  { eapply Forall_impl; [exact Hn|]. intros e. simpl. lia. }
  destruct (IH c1) as (c2 & ef2 & Hrun2 & Hempty & Hd2 & Hp2); [done..|].
  cbn [mbind list_bind]. rewrite (cl_run_app _ _ _ _ _ _ _ Hrun Hrun2). do 2 eexists. split; [reflexivity|].
  simpl. rewrite Hd1, Hd2. split_and!; [done..|]. by rewrite Hp1, Hp2.
Qed.

(** C26: refused messages leave the queue.  Along any run of a fresh client the retry
    counter of every queued message, which counts its refused resends but not the first
    send that put it in the queue, is below [MaxRetries]; if from then on the aggregator
    refuses every call with an application error, ten ticks of the connected client are
    enough to drop exactly the queued messages and leave the queue empty. *)
Theorem refused_messages_drain addr evs c ef conn (ticks : list (DialEnv * (nat → option GoError))) :
  cl_run (NewAggregatorRpcClient addr) evs = Ok (c, ef) → rc_rpcClient c = Some conn → rc_ticking c = false →
  Forall (λ t, refuses t.2) ticks → MaxRetries ≤ Z.of_nat (length ticks) →
  Forall (λ e, 0 ≤ um_Retries e < MaxRetries) (rc_unsentMessages c) ∧
  ∃ c' ef', cl_run c (ticks ≫= tick_events) = Ok (c', ef') ∧ rc_unsentMessages c' = [] ∧
    ef_delivered ef' = [] ∧ ef_dropped ef' ≡ₚ um_Message <$> rc_unsentMessages c.
Proof.
  intros Hrun Hc Ht Hr Hlen.
  assert (retries_ok (rc_unsentMessages c)) as Hq by (eapply cl_run_retries; [exact Hrun|constructor]).
  split; [done|]. apply (refused_ticks conn); [done..|].
  eapply Forall_impl; [exact Hq|]. intros e. simpl. lia.
Qed.

(** ** A dead connection *)

(** Ticks on which every RPC finds the connection shut down. *)
Definition dead_tick (ev : ClientEvent) : Prop :=
  match ev with
  | CTick _ => True
  | CResend calls => ∀ i, calls i = Some RpcErrShutdown
  | _ => False
  end.

Lemma dead_tick_step c ev conn :
  rc_rpcClient c = Some conn → dead_tick ev →
  ∃ c' ef, cl_step c ev = Ok (c', ef) ∧ rc_rpcClient c' = Some conn ∧
    rc_unsentMessages c' = rc_unsentMessages c ∧ ef_delivered ef = [].
Proof.
  intros Hc Hev. destruct ev as [|env|calls|]; try done; simpl.
  - destruct (rc_ticking c); [by do 2 eexists|].
    unfold onTick_initialize, InitializeClientIfNotExist. rewrite Hc. by do 2 eexists.
  - destruct (rc_ticking c); [|by do 2 eexists]. unfold onTick_resend.
    destruct (tryResend_lemma calls c conn Hc) as (ef & -> & Hd & _); simpl.
    do 2 eexists. split; [done|]. simpl in *. rewrite Hd.
    destruct (rc_unsentMessages c) as [|e q]; simpl; [done|]. by rewrite (Hev 0%nat).
Qed.

(** Resending does not notice that its connection is dead.  If every RPC fails
    with [rpc.ErrShutdown], any number of ticks leaves the client with the same dead
    connection and the same queue: [tryResendFromDeque] does not call
    [handleRpcError], so nothing reconnects until a new message is sent. *)
Theorem dead_connection_kept c conn evs :
  rc_rpcClient c = Some conn → Forall dead_tick evs →
  ∃ c' ef, cl_run c evs = Ok (c', ef) ∧ rc_rpcClient c' = Some conn ∧
    rc_unsentMessages c' = rc_unsentMessages c ∧ ef_delivered ef = [].
Proof.
  intros Hc Hevs. revert c Hc. induction Hevs as [|ev evs Hev _ IH]; intros c Hc; simpl.
  { by do 2 eexists. }
  destruct (dead_tick_step c ev conn Hc Hev) as (c1 & ef1 & -> & Hc1 & Hq1 & Hd1); simpl.
  destruct (IH c1 Hc1) as (c2 & ef2 & -> & Hc2 & Hq2 & Hd2); simpl.
  do 2 eexists. split; [done|]. simpl. rewrite Hd1, Hd2, Hq2. done.
Qed.

(** A shutdown goroutine that runs between the two halves of a tick crashes the
    operator: the tick found a connection and a non-empty queue, the shutdown sets the
    client to nil, and the resend calls a method of a nil [*rpc.Client]. *)
Theorem shutdown_during_tick_panics c conn env calls :
  rc_rpcClient c = Some conn → rc_ticking c = false →
  rc_unsentMessages c ≠ [] → (0 < rc_pendingShutdown c)%nat →
  cl_run c [CTick env; CShutdown; CResend calls] = Panic.
Proof.
  intros Hc Ht Hq Hp. simpl. rewrite Ht. unfold onTick_initialize, InitializeClientIfNotExist.
  rewrite Hc; simpl. rewrite bool_decide_false by done; simpl.
  destruct (Nat.ltb_spec 0 (rc_pendingShutdown c)); [|lia]. simpl.
  unfold onTick_resend, tryResendFromDeque; simpl. by destruct (rc_unsentMessages c).
Qed.

End Theory.

(** ** Concrete runs *)
Module Examples.

#[local] Existing Instances ToyBls.ops.

Definition to_address (s : string) : Address := Z.of_nat (String.length s).
Definition msg (i : Z) : RpcMessage :=
  RpcCheckpointTaskResponse (mkSignedCheckpointTaskResponse
    (mkCheckpointTaskResponse i (replicate 32 0) (replicate 32 0)) None (replicate 32 1)).
Definition answers : DialEnv := mkDialEnv None (Ok "0xabcdef"%string) None.
Definition refuse (i : nat) : option GoError := Some (ExternalError "refused").
Definition second_dies (i : nat) : option GoError :=
  match i with O => refuse 0 | S O => Some NetOpError | _ => None end.

(** Two messages are sent before the connection exists; the first resend has one
    refusal and one network failure. *)
Definition evs : list ClientEvent :=
  [CSend (msg 1) None; CSend (msg 2) None; CTick answers; CResend second_dies].
Definition result := res_or (NewAggregatorRpcClient 8, no_effect)
  (cl_run to_address (NewAggregatorRpcClient 8) evs).

Lemma evs_run : cl_run to_address (NewAggregatorRpcClient 8) evs = Ok (result.1, result.2).
Proof. reflexivity. Qed.

Definition connected : Client :=
  mkClient (Some 0%nat) 8 true [mkUnsent (msg 1) 9; mkUnsent (msg 2) 0; mkUnsent (msg 3) 0] 1 false 1.

Lemma tryResend_refines_witness :
  resend_spec second_dies 0 (rc_unsentMessages connected) = [mkUnsent (msg 2) 0; mkUnsent (msg 3) 0] ∧
  ∃ c' ef, tryResendFromDeque second_dies connected = Ok (c', ef) ∧
    rc_unsentMessages c' = resend_spec second_dies 0 (rc_unsentMessages connected) ∧
    rc_rpcClient c' = Some 0%nat ∧
    ef_delivered ef = (resend_outcome second_dies 0 (rc_unsentMessages connected)).1 ∧
    ef_dropped ef = (resend_outcome second_dies 0 (rc_unsentMessages connected)).2 ∧
    um_Message <$> rc_unsentMessages c' `sublist_of` um_Message <$> rc_unsentMessages connected.
Proof. split; [reflexivity|]. apply (tryResend_refines second_dies connected 0%nat). reflexivity. Defined.

Lemma messages_conserved_witness :
  sent evs ≡ₚ ef_delivered result.2 ++ ef_dropped result.2 ++ (um_Message <$> rc_unsentMessages result.1).
Proof. apply (messages_conserved to_address 8 evs result.1 result.2). apply evs_run. Defined.

Lemma refused_messages_drain_witness :
  ∃ c' ef, cl_run to_address result.1 (replicate 10 (answers, refuse) ≫= tick_events) = Ok (c', ef) ∧
    rc_unsentMessages c' = [] ∧ ef_dropped ef ≡ₚ um_Message <$> rc_unsentMessages result.1.
Proof.
  destruct (refused_messages_drain to_address 8 evs result.1 result.2 0%nat (replicate 10 (answers, refuse)))
    as (_ & c' & ef & Hrun & Hempty & _ & Hdrop).
  - apply evs_run.
  - reflexivity.
  - reflexivity.
  - apply Forall_replicate. intros i. exists (ExternalError "refused"). split; reflexivity.
  - rewrite length_replicate. unfold MaxRetries. lia.
  - exists c', ef. split; [exact Hrun|]. split; [exact Hempty|exact Hdrop].
Defined.

Lemma dead_connection_kept_witness :
  ∃ c' ef, cl_run to_address connected
             [CTick answers; CResend (λ _, Some RpcErrShutdown); CTick answers] = Ok (c', ef) ∧
    rc_rpcClient c' = Some 0%nat ∧ rc_unsentMessages c' = rc_unsentMessages connected ∧
    ef_delivered ef = [].
Proof.
  apply (dead_connection_kept to_address connected 0%nat); [reflexivity|].
  repeat constructor.
Defined.

Lemma shutdown_during_tick_panics_witness :
  cl_run to_address connected [CTick answers; CShutdown; CResend refuse] = Panic.
Proof.
  apply (shutdown_during_tick_panics to_address connected 0%nat).
  - reflexivity.
  - reflexivity.
  - discriminate.
  - simpl. lia.
Defined.

End Examples.
