(* ===== verification/AvsReader.v ===== *)
(** * The AVS reader: core/chainio/avs_reader.go

    [GetOperatorSetUpdateDelta] computes, from the previous and the new operator set
    of an update, the operators whose weight changed.  The Go code collects them in
    a map keyed by the decimal coordinates ([operatorKey]), so the order of its result
    depends on Go's unspecified map iteration order; the final [sort.Slice] is meant
    to remove that dependence.  The iteration order is an argument of the model, and
    [sort.Slice] is modelled by the insertion sort the Go runtime uses for up to
    twelve elements. *)

From Stdlib Require Import Ascii.
From stdpp Require Import pretty.
From S2P Require Import Prelude CoreTypes Instances Messages.

(** [opsetupdatereg.RollupOperatorsOperator]; the ABI decoder always sets the weight. *)
Record RegistryOperator := mkRegistryOperator {
  rg_Pubkey : BN254G1Point;
  rg_Weight : Z }.

#[export] Instance RegistryOperator_eq_dec : EqDecision RegistryOperator.
Proof. solve_decision. Defined.

(** The answer of [OperatorSetUpdateRegistry.GetOperatorSetUpdate]. *)
Record OperatorSetUpdate := mkOperatorSetUpdateInfo {
  osui_PreviousOperatorSet : list RegistryOperator;
  osui_NewOperatorSet : list RegistryOperator }.

Record operatorUpdate := mkOperatorUpdate {
  ou_pubkey : BN254G1Point;
  ou_previousWeight : Z;
  ou_newWeight : Z }.

(** [fmt.Sprintf("%s_%s", X.String(), Y.String())]. *)
Definition operatorKey (p : BN254G1Point) : string :=
  pretty (bn_X p) +:+ "_" +:+ pretty (bn_Y p).

Definition addPrevious (operators : gmap string operatorUpdate) (op : RegistryOperator)
    : gmap string operatorUpdate :=
  <[operatorKey (rg_Pubkey op) := mkOperatorUpdate (rg_Pubkey op) (rg_Weight op) 0]> operators.

Definition addNew (operators : gmap string operatorUpdate) (op : RegistryOperator)
    : gmap string operatorUpdate :=
  let weights :=
    match operators !! operatorKey (rg_Pubkey op) with
    | Some w => mkOperatorUpdate (ou_pubkey w) (ou_previousWeight w) (rg_Weight op)
    | None => mkOperatorUpdate (rg_Pubkey op) 0 (rg_Weight op)
    end in
  <[operatorKey (rg_Pubkey op) := weights]> operators.

Definition collectUpdates (result : OperatorSetUpdate) : gmap string operatorUpdate :=
  foldl addNew (foldl addPrevious ∅ (osui_PreviousOperatorSet result)) (osui_NewOperatorSet result).

(** The loop over the map, in the order [us] the runtime iterates in. *)
Definition changedOperators (us : list (string * operatorUpdate)) : list RegistryOperator :=
  omap (λ ku, if bool_decide (ou_previousWeight ku.2 = ou_newWeight ku.2) then None
              else Some (mkRegistryOperator (ou_pubkey ku.2) (ou_newWeight ku.2))) us.

(** [bytes.Compare(a, b) == -1]. *)
Fixpoint bytes_less (a b : bytes) : bool :=
  match a, b with
  | [], [] => false
  | [], _ :: _ => true
  | _ :: _, [] => false
  | x :: a, y :: b => if x <? y then true else if y <? x then false else bytes_less a b
  end.

(** ** sort.Slice

    [less i j] is called with positions; [swap] exchanges two elements of the slice. *)
Section SortSlice.
Context {A : Type}.

Definition swap (l : list A) (i j : nat) : list A :=
  match l !! i, l !! j with
  | Some x, Some y => <[j := x]> (<[i := y]> l)
  | _, _ => l
  end.

(** [for ; j > 0 && less(j, j-1); j-- { swap(j, j-1) }]. *)
Fixpoint sink (less : nat → nat → bool) (j : nat) (l : list A) : list A :=
  match j with
  | O => l
  | S j' => if less j j' then sink less j' (swap l j j') else l
  end.

(** [insertionSort_func] of package sort. *)
Definition insertionSort (less : nat → nat → bool) (l : list A) : list A :=
  foldl (λ l i, sink less i l) l (seq 1 (length l - 1)).

Lemma swap_perm (l : list A) i j : swap l i j ≡ₚ l.
Proof.
  unfold swap. destruct (l !! i) as [x|] eqn:Hi, (l !! j) as [y|] eqn:Hj; [|done..].
  destruct (decide (i = j)) as [->|Hne].
  - simplify_eq. rewrite list_insert_insert_eq. by rewrite list_insert_id.
  - apply Permutation_inj. split; [by rewrite !length_insert|].
    apply lookup_lt_Some in Hi as Hli, Hj as Hlj.
    exists (λ k, if decide (k = i) then j else if decide (k = j) then i else k). split.
    + intros a b Heq. repeat case_decide; congruence.
    + intros k. repeat case_decide; subst.
      * rewrite list_lookup_insert_ne by done. by rewrite list_lookup_insert_eq.
      * by rewrite list_lookup_insert_eq by (by rewrite length_insert).
      * by rewrite !list_lookup_insert_ne by done.
Qed.

Lemma sink_perm less j : ∀ l, sink less j l ≡ₚ l.
Proof.
  induction j as [|j IH]; intros l; simpl; [done|].
  destruct (less _ _); [|done]. by rewrite IH, swap_perm.
Qed.

Lemma insertionSort_perm less l : insertionSort less l ≡ₚ l.
Proof.
  unfold insertionSort. generalize (seq 1 (length l - 1)). intros idxs. revert l.
  induction idxs as [|i idxs IH]; intros l; simpl; [done|]. by rewrite IH, sink_perm.
Qed.

End SortSlice.

Section AvsReader.
Context `{H : HashOps} `{A : AbiOps}.

(** Past twelve elements [sort.Slice] runs pdqsort, of which only is used that it
    permutes the slice. *)
Context (pdqsort : (nat → nat → bool) → list RegistryOperator → list RegistryOperator).

Definition sort_Slice (less : nat → nat → bool) (l : list RegistryOperator)
    : list RegistryOperator :=
  if (length l <=? 12)%nat then insertionSort less l else pdqsort less l.

(** The comparison closure of the source: it indexes the slice of hashes, which
    [sort.Slice] does not permute. *)
Definition lessByHash (hashes : list bytes) (i j : nat) : bool :=
  bytes_less (nth i hashes []) (nth j hashes []).

(** [order] is the order in which the runtime iterates over the map. *)
Definition GetOperatorSetUpdateDelta (order : gmap string operatorUpdate → list (string * operatorUpdate))
    (registry : go OperatorSetUpdate) : go (list RegistryOperator) :=
  let? result := registry in
  let delta := changedOperators (order (collectUpdates result)) in
  let? hashes := res_mapM (λ op, HashBNG1Point (rg_Pubkey op)) delta in
  Ok (sort_Slice (lessByHash hashes) delta).

Definition GetOperatorSetById (registry : go OperatorSetUpdate) : go (list RegistryOperator) :=
  let? result := registry in Ok (osui_NewOperatorSet result).

End AvsReader.

(** ** Operator keys identify operators *)

Lemma no_underscore_pretty (z : Z) : lacks "_"%char (pretty z).
Proof.
  assert (∀ n : N, lacks "_"%char (pretty n)) as HN.
  { intros n. apply lacks_pretty_N. intros d. unfold pretty_N_char. by repeat case_match. }
  destruct z as [|p|p]; [by split|apply (HN (Npos p))|]. split; [done|apply (HN (Npos p))].
Qed.

Lemma operatorKey_inj p q : operatorKey p = operatorKey q → p = q.
Proof.
  unfold operatorKey. intros [Hx Hy]%(split_separator "_"%char); [|apply no_underscore_pretty..].
  apply (inj pretty) in Hx, Hy. destruct p, q; simpl in *. by subst.
Qed.

(** ** The collected updates *)

(** The weight of an operator in a set: that of its last entry, or zero. *)
Definition weight_in (ops : list RegistryOperator) (p : BN254G1Point) : Z :=
  foldl (λ w op, if bool_decide (rg_Pubkey op = p) then rg_Weight op else w) 0 ops.

Lemma weight_in_snoc ops op p :
  weight_in (ops ++ [op]) p = if bool_decide (rg_Pubkey op = p) then rg_Weight op else weight_in ops p.
Proof. unfold weight_in. by rewrite foldl_app. Qed.

Lemma weight_in_absent ops p : p ∉ rg_Pubkey <$> ops → weight_in ops p = 0.
Proof.
  induction ops as [|op ops IH] using rev_ind; [done|].
  rewrite fmap_app, not_elem_of_app, weight_in_snoc. intros [Hn Hop].
  rewrite bool_decide_false; [by apply IH|]. intros <-. apply Hop. by left.
Qed.

Lemma weight_in_elem ops op : NoDup (rg_Pubkey <$> ops) → op ∈ ops → weight_in ops (rg_Pubkey op) = rg_Weight op.
Proof.
  induction ops as [|op' ops IH] using rev_ind; intros Hnd Hop; [by apply elem_of_nil in Hop|].
  rewrite fmap_app in Hnd. apply NoDup_app in Hnd as (Hnd & Hdis & _). rewrite weight_in_snoc.
  apply elem_of_app in Hop as [Hop|Hop%list_elem_of_singleton]; [|subst; by rewrite bool_decide_true].
  rewrite bool_decide_false; [by apply IH|]. intros Heq. apply (Hdis (rg_Pubkey op)).
  - by apply list_elem_of_fmap_2.
  - rewrite <- Heq. by left.
Qed.

Lemma lookup_insert_key {V} (m : gmap string V) p q v :
  <[operatorKey q := v]> m !! operatorKey p =
  if bool_decide (q = p) then Some v else m !! operatorKey p.
Proof.
  case_bool_decide as Hq; [subst; by rewrite lookup_insert_eq|].
  rewrite lookup_insert_ne; [done|]. intros Heq%operatorKey_inj. done.
Qed.

Lemma addPrevious_lookup m op p :
  addPrevious m op !! operatorKey p =
  if bool_decide (rg_Pubkey op = p) then Some (mkOperatorUpdate p (rg_Weight op) 0)
  else m !! operatorKey p.
Proof.
  unfold addPrevious. rewrite lookup_insert_key. case_bool_decide as Hp; [|done]. by subst p.
Qed.

Lemma previous_lookup ops p :
  foldl addPrevious ∅ ops !! operatorKey p =
  if bool_decide (p ∈ rg_Pubkey <$> ops) then Some (mkOperatorUpdate p (weight_in ops p) 0) else None.
Proof.
  induction ops as [|op ops IH] using rev_ind; [done|].
  rewrite foldl_app; simpl. rewrite addPrevious_lookup, weight_in_snoc, IH.
  rewrite (bool_decide_ext (p ∈ rg_Pubkey <$> ops ++ [op])
    (p ∈ rg_Pubkey <$> ops ∨ rg_Pubkey op = p)) by (rewrite fmap_app; set_solver).
  repeat case_bool_decide; naive_solver.
Qed.

Lemma addNew_lookup m op p :
  addNew m op !! operatorKey p =
  if bool_decide (rg_Pubkey op = p)
  then Some match m !! operatorKey p with
            | Some u => mkOperatorUpdate (ou_pubkey u) (ou_previousWeight u) (rg_Weight op)
            | None => mkOperatorUpdate p 0 (rg_Weight op)
            end
  else m !! operatorKey p.
Proof.
  unfold addNew. rewrite lookup_insert_key. case_bool_decide as Hp; [|done]. by subst p.
Qed.

Lemma collect_lookup prev new p :
  collectUpdates (mkOperatorSetUpdateInfo prev new) !! operatorKey p =
  if bool_decide (p ∈ rg_Pubkey <$> prev ∨ p ∈ rg_Pubkey <$> new)
  then Some (mkOperatorUpdate p (weight_in prev p) (weight_in new p)) else None.
Proof.
  unfold collectUpdates; simpl. induction new as [|op new IH] using rev_ind; simpl.
  { rewrite previous_lookup. by rewrite (bool_decide_ext (_ ∨ _) (p ∈ rg_Pubkey <$> prev)) by set_solver. }
  rewrite foldl_app; simpl. rewrite addNew_lookup, IH, weight_in_snoc.
  rewrite (bool_decide_ext (p ∈ rg_Pubkey <$> prev ∨ p ∈ rg_Pubkey <$> new ++ [op])
    ((p ∈ rg_Pubkey <$> prev ∨ p ∈ rg_Pubkey <$> new) ∨ rg_Pubkey op = p))
    by (rewrite fmap_app; set_solver).
  destruct (decide (rg_Pubkey op = p)) as [Hp|Hp].
  - rewrite !(bool_decide_true (rg_Pubkey op = p)) by done.
    rewrite (bool_decide_true (_ ∨ rg_Pubkey op = p)) by auto.
    case_bool_decide as Hin; [done|]. rewrite (weight_in_absent prev); [done|]. tauto.
  - rewrite !(bool_decide_false (rg_Pubkey op = p)) by done.
    by rewrite (bool_decide_ext (_ ∨ rg_Pubkey op = p)
      (p ∈ rg_Pubkey <$> prev ∨ p ∈ rg_Pubkey <$> new)) by tauto.
Qed.

(** Every entry is stored under the key of its public key. *)
Definition keys_match (m : gmap string operatorUpdate) : Prop :=
  ∀ k u, m !! k = Some u → k = operatorKey (ou_pubkey u).

Lemma collect_keys result : keys_match (collectUpdates result).
Proof.
  unfold collectUpdates.
  assert (∀ ops m, keys_match m → keys_match (foldl addPrevious m ops)) as Hprev.
  { induction ops as [|op ops IH]; intros m Hm; simpl; [done|]. apply IH.
    intros k u. unfold addPrevious. rewrite lookup_insert_Some. intros [[<- <-]|[_ ?]]; [done|by apply Hm]. }
  assert (∀ ops m, keys_match m → keys_match (foldl addNew m ops)) as Hnew.
  { induction ops as [|op ops IH]; intros m Hm; simpl; [done|]. apply IH.
    intros k u. unfold addNew. rewrite lookup_insert_Some. intros [[<- <-]|[_ ?]]; [|by apply Hm].
    destruct (m !! operatorKey (rg_Pubkey op)) as [w|] eqn:Hw; simpl; [by apply Hm|done]. }
  apply Hnew, Hprev. intros k u. by rewrite lookup_empty.
Qed.

(** ** The changed operators *)

Lemma changedOperators_elem prev new us op :
  us ≡ₚ map_to_list (collectUpdates (mkOperatorSetUpdateInfo prev new)) →
  op ∈ changedOperators us ↔
  weight_in new (rg_Pubkey op) = rg_Weight op ∧ weight_in prev (rg_Pubkey op) ≠ rg_Weight op.
Proof.
  intros Hus. unfold changedOperators. rewrite list_elem_of_omap. setoid_rewrite Hus. split.
  - intros ([k u] & Hin%elem_of_map_to_list & Heq); simpl in Heq.
    pose proof (collect_keys _ _ _ Hin) as ->. rewrite collect_lookup in Hin.
    destruct (decide (ou_previousWeight u = ou_newWeight u)) as [He|Hne];
      [by rewrite bool_decide_true in Heq|rewrite bool_decide_false in Heq by done].
    destruct (bool_decide (_ ∨ _)); [|done]. destruct u as [pk pw nw]; simpl in *.
    injection Hin as Hp Hn. injection Heq as <-. simpl. split; congruence.
  - intros [Hnew Hprev]. destruct op as [p w]; simpl in *.
    exists (operatorKey p, mkOperatorUpdate p (weight_in prev p) (weight_in new p)). split.
    + apply elem_of_map_to_list. rewrite collect_lookup, bool_decide_true; [done|].
      destruct (decide (p ∈ rg_Pubkey <$> new)); [by right|]. left.
      destruct (decide (p ∈ rg_Pubkey <$> prev)) as [|Hp]; [done|]. exfalso.
      rewrite weight_in_absent in Hnew, Hprev by done. congruence.
    + simpl. rewrite bool_decide_false by congruence. by rewrite Hnew.
Qed.

Lemma changedOperators_NoDup us :
  NoDup us.*1 → (∀ k u, (k, u) ∈ us → k = operatorKey (ou_pubkey u)) →
  NoDup (rg_Pubkey <$> changedOperators us).
Proof.
  assert (∀ us p, p ∈ rg_Pubkey <$> changedOperators us → ∃ k u, (k, u) ∈ us ∧ ou_pubkey u = p) as Hsub.
  { intros l p (op & -> & ([k u] & Hin & Heq)%list_elem_of_omap)%list_elem_of_fmap.
    exists k, u. split; [done|]. simpl in Heq. case_bool_decide; [done|]. by injection Heq as <-. }
  induction us as [|[k u] us IH]; simpl; intros Hnd Hkeys; [constructor|].
  apply NoDup_cons in Hnd as [Hk Hnd].
  assert (NoDup (rg_Pubkey <$> changedOperators us)) as Hrest.
  { apply IH; [done|]. intros k' u' ?. apply Hkeys. by right. }
  unfold changedOperators; simpl. fold (changedOperators us). case_bool_decide; [done|]. simpl.
  constructor; [|done]. intros (k' & u' & Hin & Heq)%Hsub. apply Hk.
  rewrite (Hkeys k u) by (by left). rewrite <- Heq, <- (Hkeys k' u') by (by right).
  apply list_elem_of_fmap. by exists (k', u').
Qed.

Section DeltaCorrect.
Context `{H : HashOps} `{A : AbiOps} {AL : AbiLaws A}.
Context (pdqsort : (nat → nat → bool) → list RegistryOperator → list RegistryOperator)
  (pdqsort_perm : ∀ less l, pdqsort less l ≡ₚ l)
  (order : gmap string operatorUpdate → list (string * operatorUpdate))
  (order_perm : ∀ m, order m ≡ₚ map_to_list m).

Lemma sort_Slice_perm less l : sort_Slice pdqsort less l ≡ₚ l.
Proof. unfold sort_Slice. case_match; [apply insertionSort_perm|apply pdqsort_perm]. Qed.

Definition coordinates_ok (p : BN254G1Point) : Prop := 0 ≤ bn_X p < 2 ^ 256 ∧ 0 ≤ bn_Y p < 2 ^ 256.

Lemma HashBNG1Point_total p : coordinates_ok p → ∃ h, HashBNG1Point p = Ok h.
Proof.
  intros [Hx Hy]. unfold HashBNG1Point.
  destruct (abi_pack_total [ATuple [AUint 256 (bn_X p); AUint 256 (bn_Y p)]]
    [TTuple [TUint 256; TUint 256]]) as [bs ->]; [|by eexists].
  repeat constructor; lia.
Qed.

Lemma hash_all_total l :
  Forall (λ op, coordinates_ok (rg_Pubkey op)) l →
  ∃ hs, res_mapM (λ op, HashBNG1Point (rg_Pubkey op)) l = Ok hs.
Proof.
  induction l as [|op l IH]; intros Hl; simpl; [by eexists|].
  apply Forall_cons in Hl as [Hop Hl].
  destruct (HashBNG1Point_total _ Hop) as [h ->]. destruct (IH Hl) as [hs ->]. by eexists.
Qed.

Lemma delta_correct_lemma prev new :
  Forall (λ op, coordinates_ok (rg_Pubkey op)) (prev ++ new) →
  ∃ delta, GetOperatorSetUpdateDelta pdqsort order (Ok (mkOperatorSetUpdateInfo prev new)) = Ok delta ∧
    NoDup (rg_Pubkey <$> delta) ∧
    ∀ p w, mkRegistryOperator p w ∈ delta ↔ weight_in new p = w ∧ weight_in prev p ≠ w.
Proof.
  intros Hco. unfold GetOperatorSetUpdateDelta; simpl.
  set (m := collectUpdates _). set (delta := changedOperators (order m)).
  assert (∀ p w, mkRegistryOperator p w ∈ delta ↔ weight_in new p = w ∧ weight_in prev p ≠ w) as Hmem.
  { intros p w. apply (changedOperators_elem prev new (order m) (mkRegistryOperator p w)), order_perm. }
  assert (∃ hs, res_mapM (λ op, HashBNG1Point (rg_Pubkey op)) delta = Ok hs) as [hs ->].
  { apply hash_all_total, Forall_forall. intros [p w] [Hnew Hprev]%Hmem; simpl.
    destruct (decide (p ∈ rg_Pubkey <$> prev ++ new)) as [Hin|Hout].
    - apply list_elem_of_fmap in Hin as (op & -> & Hop). by eapply Forall_forall in Hco.
    - rewrite fmap_app, not_elem_of_app in Hout. destruct Hout.
      rewrite weight_in_absent in Hnew, Hprev by done. congruence. }
  eexists. split; [done|]. split.
  - rewrite sort_Slice_perm. apply changedOperators_NoDup.
    + rewrite order_perm. apply NoDup_fst_map_to_list.
    + intros k u Hin. rewrite order_perm in Hin.
      by apply (collect_keys (mkOperatorSetUpdateInfo prev new)), elem_of_map_to_list.
  - intros p w. by rewrite sort_Slice_perm.
Qed.

(** The operator set delta is right as a set, for every iteration order of the
    map: it has one entry per operator, with the new weight, for exactly the
    operators whose weight in the new set differs from their weight in the previous
    one (an absent operator counts as weight zero); different operators are never
    merged by the decimal string keys. *)
Theorem delta_correct prev new :
  Forall (λ op, coordinates_ok (rg_Pubkey op)) (prev ++ new) →
  ∃ delta, GetOperatorSetUpdateDelta pdqsort order (Ok (mkOperatorSetUpdateInfo prev new)) = Ok delta ∧
    NoDup (rg_Pubkey <$> delta) ∧
    ∀ p w, mkRegistryOperator p w ∈ delta ↔ weight_in new p = w ∧ weight_in prev p ≠ w.
Proof. apply delta_correct_lemma. Qed.

End DeltaCorrect.

(** ** The order of the result *)

Section DeltaOrder.
Context `{H : HashOps} `{A : AbiOps}.
Context (pdqsort : (nat → nat → bool) → list RegistryOperator → list RegistryOperator).

Definition joined (op : RegistryOperator) : string * operatorUpdate :=
  (operatorKey (rg_Pubkey op), mkOperatorUpdate (rg_Pubkey op) 0 (rg_Weight op)).

Lemma bytes_less_asym a : ∀ b, bytes_less a b = true → bytes_less b a = false.
Proof.
  induction a as [|x a IH]; intros [|y b]; simpl; try done.
  destruct (Z.ltb_spec x y), (Z.ltb_spec y x); try done; try lia. apply IH.
Qed.

(** Three operators join; the runtime may iterate over them in any order. *)
Lemma three_join_orders a b c us :
  NoDup [rg_Pubkey a; rg_Pubkey b; rg_Pubkey c] → us ≡ₚ [joined a; joined b; joined c] →
  us ≡ₚ map_to_list (collectUpdates (mkOperatorSetUpdateInfo [] [a; b; c])).
Proof.
  intros Hnd ->. unfold collectUpdates; simpl.
  apply NoDup_cons in Hnd as [Ha Hnd]. apply NoDup_cons in Hnd as [Hb Hnd].
  assert (∀ p q, p ≠ q → operatorKey p ≠ operatorKey q) as Hk by (intros ?? ? ?%operatorKey_inj; done).
  assert (rg_Pubkey a ≠ rg_Pubkey b) by set_solver.
  assert (rg_Pubkey a ≠ rg_Pubkey c) by set_solver.
  assert (rg_Pubkey b ≠ rg_Pubkey c) by set_solver.
  unfold addNew at 3. rewrite lookup_empty.
  unfold addNew at 2. rewrite lookup_insert_ne, lookup_empty by auto.
  unfold addNew. rewrite !lookup_insert_ne, lookup_empty by auto.
  rewrite map_to_list_insert by (rewrite !lookup_insert_ne, lookup_empty by auto; done).
  rewrite map_to_list_insert by (rewrite lookup_insert_ne, lookup_empty by auto; done).
  rewrite map_to_list_insert by apply lookup_empty.
  rewrite map_to_list_empty. unfold joined. solve_Permutation.
Qed.

(** The final sort does not sort.  Its comparison looks hashes up by position in a
    slice that is not permuted along with the delta, so the result depends on the
    map iteration order: when three operators join whose public key hashes are in
    increasing order [a < b < c], iterating in that order yields [a; b; c], and the
    equally possible iteration order [c; a; b] yields [a; c; b], which is not sorted
    by hash.  Two operators that read the same registry data can therefore build,
    and sign, different operator set update messages. *)
Theorem delta_order_not_canonical a b c ha hb hc order1 order2 :
  NoDup [rg_Pubkey a; rg_Pubkey b; rg_Pubkey c] →
  rg_Weight a ≠ 0 → rg_Weight b ≠ 0 → rg_Weight c ≠ 0 →
  HashBNG1Point (rg_Pubkey a) = Ok ha → HashBNG1Point (rg_Pubkey b) = Ok hb →
  HashBNG1Point (rg_Pubkey c) = Ok hc →
  bytes_less ha hb = true → bytes_less hb hc = true → bytes_less ha hc = true →
  let result := mkOperatorSetUpdateInfo [] [a; b; c] in
  order1 (collectUpdates result) = [joined a; joined b; joined c] →
  order2 (collectUpdates result) = [joined c; joined a; joined b] →
  order1 (collectUpdates result) ≡ₚ map_to_list (collectUpdates result) ∧
  order2 (collectUpdates result) ≡ₚ map_to_list (collectUpdates result) ∧
  GetOperatorSetUpdateDelta pdqsort order1 (Ok result) = Ok [a; b; c] ∧
  GetOperatorSetUpdateDelta pdqsort order2 (Ok result) = Ok [a; c; b].
Proof.
  intros Hnd Hwa Hwb Hwc Ha Hb Hc Hab Hbc Hac result Ho1 Ho2.
  split_and!.
  - rewrite Ho1. by apply three_join_orders.
  - rewrite Ho2. apply three_join_orders; [done|]. solve_Permutation.
  - unfold GetOperatorSetUpdateDelta, changedOperators. cbn [res_bind]. rewrite Ho1; simpl.
    rewrite !bool_decide_false by done. simpl. rewrite Ha, Hb, Hc; simpl.
    unfold sort_Slice, insertionSort, lessByHash; simpl.
    rewrite (bytes_less_asym _ _ Hab); simpl. rewrite (bytes_less_asym _ _ Hbc). by destruct a, b, c.
  - unfold GetOperatorSetUpdateDelta, changedOperators. cbn [res_bind]. rewrite Ho2; simpl.
    rewrite !bool_decide_false by done. simpl. rewrite Ha, Hb, Hc; simpl.
    unfold sort_Slice, insertionSort, lessByHash; simpl.
    rewrite Hac; simpl. rewrite (bytes_less_asym _ _ Hab). by destruct a, b, c.
Qed.

End DeltaOrder.

Module Examples.

#[local] Existing Instances ToyHash.ops ToyAbi.ops ToyAbi.abi_laws.

Definition op (i w : Z) : RegistryOperator := mkRegistryOperator (mkBN254G1Point i i) w.
Definition keep (less : nat → nat → bool) (l : list RegistryOperator) : list RegistryOperator := l.

(** Operator 1 leaves, operator 2 changes its weight, operator 3 stays, operator 4 joins. *)
Lemma delta_correct_witness :
  ∃ delta, GetOperatorSetUpdateDelta keep map_to_list
      (Ok (mkOperatorSetUpdateInfo [op 1 10; op 2 20; op 3 30] [op 2 25; op 3 30; op 4 40])) = Ok delta ∧
    NoDup (rg_Pubkey <$> delta) ∧
    ∀ p w, mkRegistryOperator p w ∈ delta ↔
      weight_in [op 2 25; op 3 30; op 4 40] p = w ∧ weight_in [op 1 10; op 2 20; op 3 30] p ≠ w.
Proof.
  apply (delta_correct keep).
  - reflexivity.
  - reflexivity.
  - repeat constructor; vm_compute; intuition congruence.
Defined.

Lemma delta_order_not_canonical_witness :
  let result := mkOperatorSetUpdateInfo [] [op 1 5; op 2 5; op 3 5] in
  GetOperatorSetUpdateDelta keep (λ _, [joined (op 1 5); joined (op 2 5); joined (op 3 5)]) (Ok result)
    = Ok [op 1 5; op 2 5; op 3 5] ∧
  GetOperatorSetUpdateDelta keep (λ _, [joined (op 3 5); joined (op 1 5); joined (op 2 5)]) (Ok result)
    = Ok [op 1 5; op 3 5; op 2 5].
Proof.
  apply (delta_order_not_canonical keep (op 1 5) (op 2 5) (op 3 5)
    (be_encode 32 1) (be_encode 32 2) (be_encode 32 3)
    (λ _, [joined (op 1 5); joined (op 2 5); joined (op 3 5)])
    (λ _, [joined (op 3 5); joined (op 1 5); joined (op 2 5)]));
    try (vm_compute; congruence).
  apply (bool_decide_unpack (NoDup _)). vm_compute. exact I.
Defined.

End Examples.
