(* ===== verification/RegistryContract.v ===== *)
(** * The rollup's registry contract

    [contracts/evm/src/rollup/SFFLRegistryRollup.sol] with the libraries
    [base/utils/RollupOperators.sol], [base/message/OperatorSetUpdate.sol],
    [base/message/StateRootUpdate.sol] and the state root store of
    [base/SFFLRegistryBase.sol]: the contract the rollup writers send their transactions
    to.  A transaction returns the new storage, reverts with a text ([Err]) or fails a
    checked uint128 or uint64 operation ([Panic]).

    [Bn254Ops] are the operations of eigenlayer-middleware's BN254 library, and
    [Bn254Laws] what the theorems use of them; the inherited [Ownable] and [Pausable]
    contracts answer [ih_owner] and [ih_paused].  The invariant [represents] says that the
    stored aggregate key, total weight and weights are those of one list of operators. *)

From stdpp Require Import relations.
From S2P Require Import Prelude CoreTypes Instances Messages AvsReader.

Notation evm A := (res string A).

#[export] Instance BN254G2Point_eq_dec : EqDecision BN254G2Point.
Proof. solve_decision. Defined.

(** ** The BN254 library *)

(** [g1_valid] is whether the precompiles accept a point; [safePairing] returns whether
    the precompile call succeeded and whether the product of the two pairings is one. *)
Class Bn254Ops : Type := {
  FR_MODULUS : Z;
  g1_valid : BN254G1Point → bool;
  g1_plus : BN254G1Point → BN254G1Point → BN254G1Point;
  g1_mul : BN254G1Point → Z → BN254G1Point;
  negate : BN254G1Point → BN254G1Point;
  hashG1Point : BN254G1Point → bytes;
  hashToG1 : bytes → BN254G1Point;
  generatorG1 : BN254G1Point;
  negGeneratorG2 : BN254G2Point;
  safePairing : BN254G1Point → BN254G2Point → BN254G1Point → BN254G2Point → Z → bool * bool;
}.

Definition g1_zero : BN254G1Point := mkBN254G1Point 0 0.

(** The valid points are an abelian group with [(0, 0)] as unit, and the pairing check is
    bilinear. *)
Class Bn254Laws (N : Bn254Ops) : Prop := {
  valid_zero : g1_valid g1_zero = true;
  valid_plus p q : g1_valid p = true → g1_valid q = true → g1_valid (g1_plus p q) = true;
  valid_mul p k : g1_valid p = true → g1_valid (g1_mul p k) = true;
  valid_negate p : g1_valid p = true → g1_valid (negate p) = true;
  valid_hashToG1 d : g1_valid (hashToG1 d) = true;
  valid_generator : g1_valid generatorG1 = true;
  plus_zero_l p : g1_valid p = true → g1_plus g1_zero p = p;
  plus_comm p q : g1_valid p = true → g1_valid q = true → g1_plus p q = g1_plus q p;
  plus_assoc p q r : g1_valid p = true → g1_valid q = true → g1_valid r = true →
    g1_plus p (g1_plus q r) = g1_plus (g1_plus p q) r;
  plus_negate p : g1_valid p = true → g1_plus p (negate p) = g1_zero;
  hashG1Point_bytes p : length (hashG1Point p) = 32%nat ∧ Forall is_u8 (hashG1Point p);
  pairing_plus p q r s x y g :
    g1_valid p = true → g1_valid q = true → g1_valid r = true → g1_valid s = true →
    safePairing p x q y g = (true, true) → safePairing r x s y g = (true, true) →
    safePairing (g1_plus p r) x (g1_plus q s) y g = (true, true);
  pairing_mul p q x y k g :
    g1_valid p = true → g1_valid q = true →
    safePairing p x q y g = (true, true) → safePairing (g1_mul p k) x (g1_mul q k) y g = (true, true);
}.

(** The gas the contract passes to the pairing check. *)
Definition PAIRING_EQUALITY_CHECK_GAS : Z := 120000.

(** The G1 and the G2 public key of one operator. *)
Definition key_matches `{B : BlsOps} {N : Bn254Ops} (p : BN254G1Point) (pk : G2Point) : Prop :=
  safePairing p negGeneratorG2 generatorG1 (ConvertToBN254G2Point pk) PAIRING_EQUALITY_CHECK_GAS = (true, true).

(** The operators' BLS library works on the same curve: it adds points of the curve as
    the precompile does, a signature is valid if the same pairing equation holds for the
    same hash of the message to the curve, and matching keys add up. *)
Class Bn254BlsLaws (B : BlsOps) (N : Bn254Ops) : Prop := {
  convert_add p q :
    g1_valid (ConvertToBN254G1Point p) = true → g1_valid (ConvertToBN254G1Point q) = true →
    ConvertToBN254G1Point (g1_add p q) = g1_plus (ConvertToBN254G1Point p) (ConvertToBN254G1Point q);
  convert_verify sig pk d :
    g1_valid (ConvertToBN254G1Point sig) = true → bls_verify sig pk d = Ok true →
    safePairing (ConvertToBN254G1Point sig) negGeneratorG2 (hashToG1 d) (ConvertToBN254G2Point pk)
      PAIRING_EQUALITY_CHECK_GAS = (true, true);
  matches_add p q pk qk :
    g1_valid p = true → g1_valid q = true → key_matches p pk → key_matches q qk →
    key_matches (g1_plus p q) (g2_add pk qk);
}.

Section Contract.
Context {N : Bn254Ops} `{H : HashOps} `{A : AbiOps}.

Definition require (b : bool) (text : string) : evm unit := if b then Ok tt else Err text.

(** Checked arithmetic on unsigned integers. *)
Definition checked (width z : Z) : evm Z := if bool_decide (0 ≤ z < 2 ^ width) then Ok z else Panic.

Definition plus (p q : BN254G1Point) : evm BN254G1Point :=
  if g1_valid p && g1_valid q then Ok (g1_plus p q) else Err "ec-add-failed".
Definition scalar_mul (p : BN254G1Point) (k : Z) : evm BN254G1Point :=
  if g1_valid p then Ok (g1_mul p k) else Err "ec-mul-failed".

(** ** RollupOperators *)

Definition THRESHOLD_DENOMINATOR : Z := 100.

Record OperatorSet := mkOperatorSet {
  os_pubkeyHashToWeight : gmap bytes Z;
  os_apk : BN254G1Point;
  os_totalWeight : Z;
  os_quorumThreshold : Z }.

Definition weight_at (weights : gmap bytes Z) (pubkeyHash : bytes) : Z := default 0 (weights !! pubkeyHash).

Definition getOperatorWeight (self : OperatorSet) (pubkeyHash : bytes) : Z :=
  weight_at (os_pubkeyHashToWeight self) pubkeyHash.

Definition os_setQuorumThreshold (self : OperatorSet) (quorumThreshold : Z) : evm OperatorSet :=
  let? _ := require (quorumThreshold <=? THRESHOLD_DENOMINATOR) "Quorum threshold greater than denominator" in
  Ok (mkOperatorSet (os_pubkeyHashToWeight self) (os_apk self) (os_totalWeight self) quorumThreshold).

(** The loop of [update], with the memory variables [newApk] and [newTotalWeight]. *)
Fixpoint update_loop (operators : list RegistryOperator) (weights : gmap bytes Z)
    (newApk : BN254G1Point) (newTotalWeight : Z) : evm (gmap bytes Z * BN254G1Point * Z) :=
  match operators with
  | [] => Ok (weights, newApk, newTotalWeight)
  | operator :: operators =>
      let pubkeyHash := hashG1Point (rg_Pubkey operator) in
      let currentWeight := weight_at weights pubkeyHash in
      let? _ := require (negb (bool_decide (rg_Weight operator = currentWeight))) "Operator is up to date" in
      let? rest := checked 128 (newTotalWeight - currentWeight) in
      let? newTotalWeight := checked 128 (rest + rg_Weight operator) in
      let weights := <[pubkeyHash := rg_Weight operator]> weights in
      let? newApk :=
        (if bool_decide (currentWeight = 0) then plus newApk (rg_Pubkey operator)
         else if bool_decide (rg_Weight operator = 0) then plus newApk (negate (rg_Pubkey operator))
         else Ok newApk) in
      update_loop operators weights newApk newTotalWeight
  end.

Definition os_update (self : OperatorSet) (operators : list RegistryOperator) : evm OperatorSet :=
  let? r := update_loop operators (os_pubkeyHashToWeight self) (os_apk self) (os_totalWeight self) in
  Ok (mkOperatorSet r.1.1 r.1.2 r.2 (os_quorumThreshold self)).

(** The loop of [verifyCalldata] over the non-signers; [prev] is the previous hash. *)
Fixpoint nonSigners_loop (self : OperatorSet) (prev : option bytes) (keys : list BN254G1Point)
    (apk : BN254G1Point) (weight : Z) : evm (BN254G1Point * Z) :=
  match keys with
  | [] => Ok (apk, weight)
  | key :: keys =>
      let pubkeyHash := hashG1Point key in
      let? _ := (match prev with
                 | Some p => require (be_decode p <? be_decode pubkeyHash) "Pubkeys not sorted"
                 | None => Ok tt
                 end) in
      let operatorWeight := getOperatorWeight self pubkeyHash in
      let? _ := require (negb (bool_decide (operatorWeight = 0))) "Operator has zero weight" in
      let? apk := plus apk key in
      let? weight := checked 256 (weight - operatorWeight) in
      nonSigners_loop self (Some pubkeyHash) keys apk weight
  end.

(** [uint256(keccak256(abi.encodePacked(...))) % BN254.FR_MODULUS]. *)
Definition gamma (msgHash : bytes) (apk : BN254G1Point) (apkG2 : BN254G2Point) (sigma : BN254G1Point) : Z :=
  be_decode (keccak256 (msgHash ++ mjoin (be_encode 32 <$>
    [bn_X apk; bn_Y apk; (bn2_X apkG2).1; (bn2_X apkG2).2; (bn2_Y apkG2).1; (bn2_Y apkG2).2;
     bn_X sigma; bn_Y sigma]))) mod FR_MODULUS.

Definition trySignatureAndApkVerification (msgHash : bytes) (apk : BN254G1Point) (apkG2 : BN254G2Point)
    (sigma : BN254G1Point) : evm (bool * bool) :=
  let g := gamma msgHash apk apkG2 sigma in
  let? apk' := scalar_mul apk g in
  let? lhs := plus sigma apk' in
  let? gen := scalar_mul generatorG1 g in
  let? rhs := plus (hashToG1 msgHash) gen in
  Ok (safePairing lhs negGeneratorG2 rhs apkG2 PAIRING_EQUALITY_CHECK_GAS).

Definition verifyCalldata (self : OperatorSet) (msgHash : bytes) (info : RollupOperatorsSignatureInfo)
    : evm bool :=
  let weight := os_totalWeight self in
  let? _ := require (negb (bool_decide (weight = 0))) "Operator set was not initialized" in
  let? r := nonSigners_loop self None (rsi_NonSignerPubkeys info) g1_zero weight in
  let? apk := plus (os_apk self) (negate r.1) in
  let? check := trySignatureAndApkVerification msgHash apk (rsi_ApkG2 info) (rsi_Sigma info) in
  let? _ := require check.1 "Pairing precompile call failed" in
  let? _ := require check.2 "Signature is invalid" in
  let? product := checked 128 (os_totalWeight self * os_quorumThreshold self) in
  Ok (product / THRESHOLD_DENOMINATOR <=? r.2).

(** ** Message hashes *)

(** [keccak256(abi.encode(PREFIX, keccak256(abi.encode(message))))]. *)
Definition hashWithPrefix (prefix : bytes) (message : AbiVal) : evm bytes :=
  match abi_pack [message] with
  | Ok data =>
      match abi_pack [ABytes32 (keccak256 prefix); ABytes32 (keccak256 data)] with
      | Ok bs => Ok (keccak256 bs)
      | _ => Err EmptyString
      end
  | _ => Err EmptyString
  end.

Definition OPERATOR_SET_UPDATE_HASH_PREFIX : bytes := string_bytes "SFFL::OperatorSetUpdateMessage".
Definition STATE_ROOT_UPDATE_HASH_PREFIX : bytes := string_bytes "SFFL::StateRootUpdateMessage".

(** What [abi.encode(message)] encodes: the members of the Solidity structs in the order
    and at the types of their declarations.  The Go code encodes its messages at types it
    declares itself ([sru_abi], [osu_binding_abi]); that the two agree is a theorem. *)
Definition BN254_G1Point_calldata (point : BN254G1Point) : AbiVal :=
  ATuple [AUint 256 (bn_X point); AUint 256 (bn_Y point)].

(** A weight that is missing is not calldata; it does not get past [decode_operator]. *)
Definition RollupOperators_Operator_calldata (operator : RollupOperatorsOperator) : AbiVal :=
  ATuple [BN254_G1Point_calldata (bo_Pubkey operator);
          match bo_Weight operator with Some weight => AUint 128 weight | None => ANil end].

Definition OperatorSetUpdate_Message_calldata (message : OperatorSetUpdateBinding) : AbiVal :=
  let id := AUint 64 (osb_Id message) in
  let timestamp := AUint 64 (osb_Timestamp message) in
  let operators := AArray (RollupOperators_Operator_calldata <$> osb_Operators message) in
  ATuple [id; timestamp; operators].

Definition StateRootUpdate_Message_calldata (message : StateRootUpdateMessage) : AbiVal :=
  let rollupId := AUint 32 (sru_RollupId message) in
  let blockHeight := AUint 64 (sru_BlockHeight message) in
  let timestamp := AUint 64 (sru_Timestamp message) in
  let nearDaTransactionId := ABytes32 (sru_NearDaTransactionId message) in
  let nearDaCommitment := ABytes32 (sru_NearDaCommitment message) in
  let stateRoot := ABytes32 (sru_StateRoot message) in
  ATuple [rollupId; blockHeight; timestamp; nearDaTransactionId; nearDaCommitment; stateRoot].

Definition osu_hashCalldata (message : OperatorSetUpdateBinding) : evm bytes :=
  hashWithPrefix OPERATOR_SET_UPDATE_HASH_PREFIX (OperatorSetUpdate_Message_calldata message).
Definition sru_hashCalldata (message : StateRootUpdateMessage) : evm bytes :=
  hashWithPrefix STATE_ROOT_UPDATE_HASH_PREFIX (StateRootUpdate_Message_calldata message).

(** [indexCalldata], as a number. *)
Definition osu_indexCalldata (message : OperatorSetUpdateBinding) : Z := osb_Id message.
Definition sru_indexCalldata (message : StateRootUpdateMessage) : Z :=
  Z.lor (sru_BlockHeight message) (Z.shiftl (sru_RollupId message) 64).

(** ** SFFLRegistryRollup *)

Definition PAUSED_UPDATE_OPERATOR_SET : Z := 0.
Definition PAUSED_UPDATE_STATE_ROOT : Z := 1.

Record Registry := mkRegistry {
  reg_operatorSet : OperatorSet;
  reg_nextOperatorUpdateId : Z;
  reg_aggregator : Address;
  reg_stateRootBuffers : gmap (Z * Z) bytes }.

(** What the inherited contracts answer during a transaction. *)
Record Inherited := mkInherited {
  ih_owner : Address;
  ih_paused : Z → bool }.

(** The external functions that change the storage.  The proof of
    [updateAndGetStorageValue] is checked by a library: [proof root] is its answer. *)
Inductive RegistryTx : Type :=
| TxSetInitialOperatorSet (operators : list RollupOperatorsOperator) (nextOperatorUpdateId : Z)
| TxUpdateOperatorSet (message : OperatorSetUpdateBinding) (info : RollupOperatorsSignatureInfo)
| TxUpdateStateRoot (message : StateRootUpdateMessage) (info : RollupOperatorsSignatureInfo)
| TxUpdateAndGetStorageValue (message : StateRootUpdateMessage) (proof : bytes → evm bytes)
    (agreement : option RollupOperatorsSignatureInfo)
| TxForceOperatorSetUpdate (message : OperatorSetUpdateBinding)
| TxSetAggregator (aggregator : Address)
| TxSetQuorumThreshold (newQuorumThreshold : Z).

Definition set_operatorSet (r : Registry) (os : OperatorSet) (next : Z) : Registry :=
  mkRegistry os next (reg_aggregator r) (reg_stateRootBuffers r).

(** The storage after [initialize]. *)
Definition initialize (quorumThreshold : Z) (aggregator : Address) : evm Registry :=
  let? os := os_setQuorumThreshold (mkOperatorSet ∅ g1_zero 0 0) quorumThreshold in
  Ok (mkRegistry os 0 aggregator ∅).

(** Decoding the operators of the calldata, whose weights are of type uint128. *)
Definition decode_operator (op : RollupOperatorsOperator) : evm RegistryOperator :=
  match bo_Weight op with
  | Some w =>
      if bool_decide (0 ≤ w < 2 ^ 128) then Ok (mkRegistryOperator (bo_Pubkey op) w) else Err EmptyString
  | None => Err EmptyString
  end.
Definition decode_operators : list RollupOperatorsOperator → evm (list RegistryOperator) :=
  res_mapM decode_operator.

Definition setInitialOperatorSet (sender : Address) (r : Registry) (operators : list RollupOperatorsOperator)
    (_nextOperatorUpdateId : Z) : evm Registry :=
  let? operators := decode_operators operators in
  let? _ := require (bool_decide (sender = reg_aggregator r)) "Sender is not aggregator" in
  let? _ := require (bool_decide (os_totalWeight (reg_operatorSet r) = 0)) "Operator set already initialized" in
  let? os := os_update (reg_operatorSet r) operators in
  Ok (set_operatorSet r os _nextOperatorUpdateId).

Definition updateOperatorSet (ih : Inherited) (r : Registry) (message : OperatorSetUpdateBinding)
    (info : RollupOperatorsSignatureInfo) : evm Registry :=
  let? operators := decode_operators (osb_Operators message) in
  let? _ := require (negb (ih_paused ih PAUSED_UPDATE_OPERATOR_SET)) "Pausable: index is paused" in
  let? _ := require (bool_decide (osb_Id message = reg_nextOperatorUpdateId r)) "Wrong message ID" in
  let? hash := osu_hashCalldata message in
  let? met := verifyCalldata (reg_operatorSet r) hash info in
  let? _ := require met "Quorum not met" in
  let? next := checked 64 (osb_Id message + 1) in
  let? os := os_update (reg_operatorSet r) operators in
  Ok (set_operatorSet r os next).

Definition _pushStateRoot (r : Registry) (rollupId : RollupId) (blockHeight : BlockNumber) (stateRoot : bytes)
    : Registry :=
  mkRegistry (reg_operatorSet r) (reg_nextOperatorUpdateId r) (reg_aggregator r)
    (<[(rollupId, blockHeight) := stateRoot]> (reg_stateRootBuffers r)).

Definition updateStateRoot (ih : Inherited) (r : Registry) (message : StateRootUpdateMessage)
    (info : RollupOperatorsSignatureInfo) : evm Registry :=
  let? _ := require (negb (ih_paused ih PAUSED_UPDATE_STATE_ROOT)) "Pausable: index is paused" in
  let? hash := sru_hashCalldata message in
  let? met := verifyCalldata (reg_operatorSet r) hash info in
  let? _ := require met "Quorum not met" in
  Ok (_pushStateRoot r (sru_RollupId message) (sru_BlockHeight message) (sru_StateRoot message)).

Definition getStateRoot (r : Registry) (rollupId : RollupId) (blockHeight : BlockNumber) : bytes :=
  default (replicate 32 0) (reg_stateRootBuffers r !! (rollupId, blockHeight)).

Definition getStorageValue (r : Registry) (message : StateRootUpdateMessage) (proof : bytes → evm bytes)
    : evm bytes :=
  let stateRoot := getStateRoot r (sru_RollupId message) (sru_BlockHeight message) in
  let? _ := require (bool_decide (stateRoot = sru_StateRoot message)) "Mismatching state roots" in
  proof stateRoot.

Definition updateAndGetStorageValue (ih : Inherited) (r : Registry) (message : StateRootUpdateMessage)
    (proof : bytes → evm bytes) (agreement : option RollupOperatorsSignatureInfo) : evm (Registry * bytes) :=
  let? _ := require (HasNearDaCommitment message) "Empty NEAR DA commitment" in
  let? r :=
    (if bool_decide (getStateRoot r (sru_RollupId message) (sru_BlockHeight message) = replicate 32 0)
     then match agreement with
          | None => Err "Empty agreement"%string
          | Some info => updateStateRoot ih r message info
          end
     else Ok r) in
  let? value := getStorageValue r message proof in
  Ok (r, value).

Definition forceOperatorSetUpdate (ih : Inherited) (sender : Address) (r : Registry)
    (message : OperatorSetUpdateBinding) : evm Registry :=
  let? operators := decode_operators (osb_Operators message) in
  let? _ := require (bool_decide (sender = ih_owner ih)) "Ownable: caller is not the owner" in
  let? _ := require (bool_decide (osb_Id message = reg_nextOperatorUpdateId r)) "Wrong message ID" in
  let? next := checked 64 (osb_Id message + 1) in
  let? os := os_update (reg_operatorSet r) operators in
  Ok (set_operatorSet r os next).

Definition setAggregator (ih : Inherited) (sender : Address) (r : Registry) (aggregator : Address) : evm Registry :=
  let? _ := require (bool_decide (sender = ih_owner ih)) "Ownable: caller is not the owner" in
  Ok (mkRegistry (reg_operatorSet r) (reg_nextOperatorUpdateId r) aggregator (reg_stateRootBuffers r)).

Definition setQuorumThreshold (ih : Inherited) (sender : Address) (r : Registry) (newQuorumThreshold : Z)
    : evm Registry :=
  let? _ := require (bool_decide (sender = ih_owner ih)) "Ownable: caller is not the owner" in
  let? os := os_setQuorumThreshold (reg_operatorSet r) newQuorumThreshold in
  Ok (set_operatorSet r os (reg_nextOperatorUpdateId r)).

Definition accept_tx (ih : Inherited) (sender : Address) (r : Registry) (tx : RegistryTx) : evm Registry :=
  match tx with
  | TxSetInitialOperatorSet operators next => setInitialOperatorSet sender r operators next
  | TxUpdateOperatorSet message info => updateOperatorSet ih r message info
  | TxUpdateStateRoot message info => updateStateRoot ih r message info
  | TxUpdateAndGetStorageValue message proof agreement =>
      let? r := updateAndGetStorageValue ih r message proof agreement in Ok r.1
  | TxForceOperatorSetUpdate message => forceOperatorSetUpdate ih sender r message
  | TxSetAggregator aggregator => setAggregator ih sender r aggregator
  | TxSetQuorumThreshold newQuorumThreshold => setQuorumThreshold ih sender r newQuorumThreshold
  end.

(** A transaction that reverts leaves the storage as it is. *)
Definition execute_tx (ih : Inherited) (sender : Address) (r : Registry) (tx : RegistryTx) : Registry :=
  res_or r (accept_tx ih sender r tx).

End Contract.
