(* ===== verification/RegistryContractTheory.v ===== *)
(** * Properties of the registry contract

    - [represents]: the stored weights, aggregate key and total weight are those of one
      list of operators.  Every transaction keeps this ([registry_invariant]), whoever
      sends it, as long as no two of the keys involved have the same hash.
    - what an accepted signature means ([accepted_by_quorum]): the key the pairing check
      was made for is the sum of the keys of the operators not listed as non-signers, and
      these hold the threshold's share of the weight;
    - when a signature is accepted ([verifyCalldata_accepts]);
    - the hashes and indices the contract computes of its structs are the digests and keys
      the Go code computes with its own declarations ([contract_hashes_match]). *)

From stdpp Require Import relations.
From S2P Require Import Prelude CoreTypes Instances Messages MessagesTheory AvsReader RegistryContract.

(** ** Sums of points *)

Section Points.
Context {N : Bn254Ops} {NL : Bn254Laws N}.

Definition g1_sum (l : list BN254G1Point) : BN254G1Point := foldr g1_plus g1_zero l.

Notation valid p := (g1_valid p = true).

Lemma g1_sum_valid l : Forall (λ p, valid p) l → valid (g1_sum l).
Proof. induction 1; simpl; [apply valid_zero|by apply valid_plus]. Qed.

Lemma g1_sum_cons p l : g1_sum (p :: l) = g1_plus p (g1_sum l).
Proof. done. Qed.

Lemma plus_zero_r p : valid p → g1_plus p g1_zero = p.
Proof. intros Hp. rewrite plus_comm by auto using valid_zero. by apply plus_zero_l. Qed.

Lemma g1_sum_perm l1 l2 : l1 ≡ₚ l2 → Forall (λ p, valid p) l1 → g1_sum l1 = g1_sum l2.
Proof.
  induction 1 as [|x l1 l2 _ IH|x y l|l1 l2 l3 H12 IH1 _ IH2]; intros Hv; simpl; [done|..].
  - apply Forall_cons in Hv as [_ Hv]. by rewrite IH.
  - apply Forall_cons in Hv as [Hy [Hx Hv]%Forall_cons]. pose proof (g1_sum_valid _ Hv).
    by rewrite !plus_assoc, (plus_comm y x) by done.
  - rewrite IH1, IH2; [done| |done]. by rewrite <- H12.
Qed.

Lemma g1_sum_app l1 l2 :
  Forall (λ p, valid p) l1 → Forall (λ p, valid p) l2 → g1_sum (l1 ++ l2) = g1_plus (g1_sum l1) (g1_sum l2).
Proof.
  intros H1 H2. pose proof (g1_sum_valid _ H2) as Hs2.
  induction H1 as [|p l1 Hp Hl1 IH]; simpl; [by rewrite plus_zero_l|].
  pose proof (g1_sum_valid _ Hl1). by rewrite IH, plus_assoc.
Qed.

Lemma plus_cancel p q : valid p → valid q → g1_plus (g1_plus p q) (negate p) = q.
Proof.
  intros Hp Hq. pose proof (valid_negate _ Hp).
  by rewrite (plus_comm p q), <- plus_assoc, plus_negate, plus_zero_r by done.
Qed.

Lemma plus_ok p q : valid p → valid q → plus p q = Ok (g1_plus p q).
Proof. intros Hp Hq. unfold plus. by rewrite Hp, Hq. Qed.

Lemma scalar_mul_ok p k : valid p → scalar_mul p k = Ok (g1_mul p k).
Proof. intros Hp. unfold scalar_mul. by rewrite Hp. Qed.

End Points.

Lemma require_ok b text u : require b text = Ok u ↔ b = true.
Proof. destruct b, u; simpl; by split. Qed.

Lemma checked_ok w z x : checked w z = Ok x ↔ x = z ∧ 0 ≤ z < 2 ^ w.
Proof. unfold checked. case_bool_decide; naive_solver. Qed.

(** Inversion of one guard of a transaction. *)
Ltac inv_require Hyp :=
  apply res_bind_ok in Hyp as ([] & ?%require_ok & Hyp).
Ltac inv_bind Hyp x Hx := apply res_bind_ok in Hyp as (x & Hx & Hyp).

(** ** The operators a set represents *)

Definition op_hash {N : Bn254Ops} (op : RegistryOperator) : bytes := hashG1Point (rg_Pubkey op).

(** The list after an entry of [update]. *)
Definition set_operator {N : Bn254Ops} (S : list RegistryOperator) (op : RegistryOperator) : list RegistryOperator :=
  (if bool_decide (rg_Weight op = 0) then [] else [op]) ++ filter (λ o, op_hash o ≠ op_hash op) S.

Section Operators.
Context {N : Bn254Ops} {NL : Bn254Laws N}.

(** The keys that may occur: points of the curve, no two of which have the same hash. *)
Context (K : BN254G1Point → Prop)
  (K_valid : ∀ p, K p → g1_valid p = true)
  (K_inj : ∀ p q, K p → K q → hashG1Point p = hashG1Point q → p = q).

Record represents (weights : gmap bytes Z) (apk : BN254G1Point) (total : Z) (S : list RegistryOperator) : Prop := {
  rep_nodup : NoDup (op_hash <$> S);
  rep_in op : op ∈ S → weight_at weights (op_hash op) = rg_Weight op;
  rep_out h : h ∉ op_hash <$> S → weight_at weights h = 0;
  rep_positive op : op ∈ S → 0 < rg_Weight op;
  rep_known op : op ∈ S → K (rg_Pubkey op);
  rep_apk : apk = g1_sum (rg_Pubkey <$> S);
  rep_total : total = zsum (rg_Weight <$> S);
}.

Lemma known_valid S : (∀ op, op ∈ S → K (rg_Pubkey op)) → Forall (λ p, g1_valid p = true) (rg_Pubkey <$> S).
Proof. intros HK. apply Forall_forall. intros p (op & -> & Hop)%list_elem_of_fmap. auto. Qed.

Lemma represents_perm w apk t S S' : S ≡ₚ S' → represents w apk t S → represents w apk t S'.
Proof.
  intros HS [Hnd Hin Hout Hpos HK Hapk Ht]. split.
  - by rewrite <- HS.
  - intros op. rewrite <- HS. apply Hin.
  - intros h. rewrite <- HS. apply Hout.
  - intros op. rewrite <- HS. apply Hpos.
  - intros op. rewrite <- HS. apply HK.
  - rewrite Hapk. apply g1_sum_perm; [by rewrite HS|by apply known_valid].
  - by rewrite Ht, HS.
Qed.

#[export] Instance represents_proper w apk t : Proper ((≡ₚ) ==> iff) (represents w apk t).
Proof. intros S S' HS. split; [|symmetry in HS]; by apply represents_perm. Qed.

Lemma represents_empty : represents ∅ g1_zero 0 [].
Proof.
  split; [constructor|..|done|done]; intros x Hx; try (by apply elem_of_nil in Hx).
  unfold weight_at. by rewrite lookup_empty.
Qed.

Lemma weight_at_insert (w : gmap bytes Z) h x h' :
  weight_at (<[h := x]> w) h' = if bool_decide (h = h') then x else weight_at w h'.
Proof.
  unfold weight_at. case_bool_decide; [subst; by rewrite lookup_insert_eq|by rewrite lookup_insert_ne].
Qed.

(** An operator that is known is the one of its hash. *)
Lemma represents_split w apk t S op :
  represents w apk t S → K (rg_Pubkey op) → weight_at w (op_hash op) ≠ 0 →
  ∃ rest, S ≡ₚ mkRegistryOperator (rg_Pubkey op) (weight_at w (op_hash op)) :: rest ∧
    filter (λ o, op_hash o ≠ op_hash op) S ≡ₚ rest ∧ op_hash op ∉ op_hash <$> rest.
Proof.
  intros HR HK Hw. destruct (decide (op_hash op ∈ op_hash <$> S)) as [Hin|Hout].
  2:{ by rewrite (rep_out _ _ _ _ HR) in Hw. }
  apply list_elem_of_fmap in Hin as (op0 & Hh & Hop0).
  assert (rg_Pubkey op0 = rg_Pubkey op) as Hpk.
  { apply K_inj; [by apply (rep_known _ _ _ _ HR)|done|done]. }
  pose proof (rep_in _ _ _ _ HR _ Hop0) as Hw0. rewrite <- Hh in Hw0.
  destruct (elem_of_Permutation S op0) as [Hperm _]. destruct (Hperm Hop0) as [rest Hrest].
  assert (mkRegistryOperator (rg_Pubkey op) (weight_at w (op_hash op)) = op0) as ->.
  { destruct op0; simpl in *. congruence. }
  pose proof (rep_nodup _ _ _ _ HR) as Hnd. rewrite Hrest, fmap_cons in Hnd. apply NoDup_cons in Hnd as [Hn _].
  rewrite <- Hh in Hn. exists rest. split_and!; [done| |done].
  rewrite Hrest, filter_cons_False by naive_solver. rewrite filter_id; [done|].
  apply Forall_forall. intros o Ho Heq. apply Hn. rewrite <- Heq. by apply list_elem_of_fmap_2.
Qed.

Lemma represents_absent w apk t S op :
  represents w apk t S → weight_at w (op_hash op) = 0 →
  filter (λ o, op_hash o ≠ op_hash op) S = S ∧ op_hash op ∉ op_hash <$> S.
Proof.
  intros HR Hw. assert (op_hash op ∉ op_hash <$> S) as Hn.
  { intros (o & Hh & Ho)%list_elem_of_fmap. rewrite Hh, (rep_in _ _ _ _ HR) in Hw by done.
    pose proof (rep_positive _ _ _ _ HR _ Ho). lia. }
  split; [|done]. apply filter_id, Forall_forall. intros o Ho Heq. apply Hn. rewrite <- Heq.
  by apply list_elem_of_fmap_2.
Qed.

(** Adding an operator, or changing the weight of one, given the rest. *)
Lemma represents_cons w t rest op x :
  represents w (g1_sum (rg_Pubkey <$> rest)) t rest → op_hash op ∉ op_hash <$> rest → K (rg_Pubkey op) →
  0 < rg_Weight op → x = rg_Weight op →
  represents (<[op_hash op := x]> w) (g1_sum (rg_Pubkey <$> op :: rest)) (t + rg_Weight op) (op :: rest).
Proof.
  intros HR Hn HK Hpos ->. split.
  - rewrite fmap_cons. apply NoDup_cons. split; [done|apply HR].
  - intros o [->|Ho]%elem_of_cons; rewrite weight_at_insert; [by rewrite bool_decide_true|].
    rewrite bool_decide_false; [by apply HR|]. intros Heq. apply Hn. rewrite Heq. by apply list_elem_of_fmap_2.
  - intros h [Hne Hh]%not_elem_of_cons. rewrite weight_at_insert, bool_decide_false by done. by apply HR.
  - intros o [->|Ho]%elem_of_cons; [done|by apply HR].
  - intros o [->|Ho]%elem_of_cons; [done|by apply HR].
  - done.
  - rewrite (rep_total _ _ _ _ HR), fmap_cons, zsum_cons. lia.
Qed.

(** Removing the operator of a hash. *)
Lemma represents_delete w apk t rest op :
  represents w apk t (op :: rest) →
  represents (<[op_hash op := 0]> w) (g1_sum (rg_Pubkey <$> rest)) (t - rg_Weight op) rest.
Proof.
  intros HR. pose proof (rep_nodup _ _ _ _ HR) as Hnd. rewrite fmap_cons in Hnd. apply NoDup_cons in Hnd as [Hn Hnd].
  split; [done|..|done|].
  - intros o Ho. rewrite weight_at_insert, bool_decide_false; [apply HR; by right|].
    intros Heq. apply Hn. rewrite Heq. by apply list_elem_of_fmap_2.
  - intros h Hh. rewrite weight_at_insert. case_bool_decide; [done|]. apply HR. rewrite fmap_cons.
    apply not_elem_of_cons. by split.
  - intros o Ho. apply HR. by right.
  - intros o Ho. apply HR. by right.
  - rewrite (rep_total _ _ _ _ HR), fmap_cons, zsum_cons. lia.
Qed.

(** One entry of [update]. *)
Lemma update_entry w apk t S op :
  represents w apk t S → K (rg_Pubkey op) → 0 ≤ rg_Weight op → rg_Weight op ≠ weight_at w (op_hash op) →
  ∃ apk', (if bool_decide (weight_at w (op_hash op) = 0) then plus apk (rg_Pubkey op)
           else if bool_decide (rg_Weight op = 0) then plus apk (negate (rg_Pubkey op)) else Ok apk) = Ok apk' ∧
    represents (<[op_hash op := rg_Weight op]> w) apk' (t - weight_at w (op_hash op) + rg_Weight op) (set_operator S op) ∧
    0 ≤ weight_at w (op_hash op) ≤ t.
Proof.
  intros HR HK Hpos Hne. pose proof (K_valid _ HK) as Hv. unfold set_operator.
  assert (0 ≤ t) as Ht.
  { rewrite (rep_total _ _ _ _ HR). apply zsum_nonneg, Forall_forall.
    intros z (o & -> & Ho)%list_elem_of_fmap. pose proof (rep_positive _ _ _ _ HR _ Ho). lia. }
  destruct (decide (weight_at w (op_hash op) = 0)) as [H0|H0].
  - rewrite bool_decide_true by done. destruct (represents_absent _ _ _ _ _ HR H0) as [-> Hn].
    rewrite (bool_decide_false (rg_Weight op = 0)) by lia. pose proof (rep_apk _ _ _ _ HR) as Hapk.
    pose proof (g1_sum_valid _ (known_valid _ (rep_known _ _ _ _ HR))) as Hs. rewrite <- Hapk in Hs.
    exists (g1_plus apk (rg_Pubkey op)). split_and!; [by apply plus_ok| |lia|lia].
    rewrite plus_comm by done. rewrite Hapk in HR |- *. rewrite H0, Z.sub_0_r. simpl app.
    apply (represents_cons w t S op); [done..|lia|done].
  - rewrite bool_decide_false by done. destruct (represents_split _ _ _ _ _ HR HK H0) as (rest & HS & Hrest & Hn).
    pose proof (represents_perm _ _ _ _ _ HS HR) as HR'. pose proof (represents_delete _ _ _ _ _ HR') as HD.
    pose proof (rep_apk _ _ _ _ HR') as Hapk. cbn [fmap list_fmap rg_Pubkey rg_Weight] in HD, Hapk.
    pose proof (rep_positive _ _ _ _ HR' _ ltac:(by left)) as Hw. simpl in Hw.
    pose proof (g1_sum_valid _ (known_valid _ (rep_known _ _ _ _ HD))) as Hs.
    assert (weight_at w (op_hash op) ≤ t) as Hle.
    { rewrite (rep_total _ _ _ _ HR'), fmap_cons, zsum_cons. cbn [rg_Weight]. enough (0 ≤ zsum (rg_Weight <$> rest)) by lia.
      apply zsum_nonneg, Forall_forall. intros z (o & -> & Ho)%list_elem_of_fmap.
      pose proof (rep_positive _ _ _ _ HD _ Ho). lia. }
    destruct (decide (rg_Weight op = 0)) as [Hz|Hz].
    + rewrite !bool_decide_true by done. exists (g1_sum (rg_Pubkey <$> rest)). split_and!; [|rewrite Hz, Z.add_0_r, Hrest; exact HD|lia|lia].
      rewrite Hapk. simpl g1_sum. rewrite plus_ok by auto using valid_plus, valid_negate. by rewrite plus_cancel.
    + rewrite !bool_decide_false by done. exists apk. split_and!; [done| |lia|lia].
      rewrite Hrest, Hapk, <- (insert_insert_eq w (op_hash op) (rg_Weight op) 0).
      apply (represents_cons _ _ rest op); [done..|lia|done].
Qed.

(** ** [update] *)

(** Operators as the calldata can hold them. *)
Definition entries_ok (ops : list RegistryOperator) : Prop :=
  Forall (λ op, K (rg_Pubkey op) ∧ 0 ≤ rg_Weight op) ops.

Lemma update_loop_represents ops : ∀ w apk t S w' apk' t',
  represents w apk t S → entries_ok ops → update_loop ops w apk t = Ok (w', apk', t') →
  represents w' apk' t' (foldl set_operator S ops).
Proof.
  induction ops as [|op ops IH]; intros w apk t S w' apk' t' HR Hops Hup; cbn [update_loop] in Hup.
  { by injection Hup as <- <- <-. }
  apply Forall_cons in Hops as [[HK Hpos] Hops]. inv_bind Hup u Hu. apply require_ok, negb_true_iff, bool_decide_eq_false in Hu.
  inv_bind Hup z Hz. apply checked_ok in Hz as [-> _]. inv_bind Hup z Hz. apply checked_ok in Hz as [-> _].
  inv_bind Hup p Hp. destruct (update_entry w apk t S op HR HK Hpos Hu) as (p' & Hp' & HR' & _).
  change (hashG1Point (rg_Pubkey op)) with (op_hash op) in *. rewrite Hp' in Hp. injection Hp as <-.
  by eapply IH.
Qed.

(** The entries are accepted if their operators are distinct, none has its new weight
    already, and the weights fit. *)
Lemma update_loop_ok ops : ∀ w apk t S,
  represents w apk t S → entries_ok ops → NoDup (op_hash <$> ops) →
  (∀ op, op ∈ ops → rg_Weight op ≠ weight_at w (op_hash op)) → t + zsum (rg_Weight <$> ops) < 2 ^ 128 →
  ∃ w' apk' t', update_loop ops w apk t = Ok (w', apk', t') ∧
    represents w' apk' t' (foldl set_operator S ops).
Proof.
  induction ops as [|op ops IH]; intros w apk t S HR Hops Hnd Hne Hmax; cbn [update_loop].
  { do 3 eexists. split; [done|exact HR]. }
  apply Forall_cons in Hops as [[HK Hpos] Hops]. rewrite fmap_cons in Hnd. apply NoDup_cons in Hnd as [Hn Hnd].
  assert (rg_Weight op ≠ weight_at w (op_hash op)) as Hw by (apply Hne; by left).
  destruct (update_entry w apk t S op HR HK Hpos Hw) as (p' & Hp' & HR' & Hc).
  assert (0 ≤ zsum (rg_Weight <$> ops)) as Hz.
  { apply zsum_nonneg, Forall_fmap. eapply Forall_impl; [exact Hops|]. by intros ? [_ ?]. }
  rewrite fmap_cons, zsum_cons in Hmax.
  change (hashG1Point (rg_Pubkey op)) with (op_hash op). rewrite bool_decide_false by done. cbn [negb require res_bind].
  unfold checked at 1. rewrite bool_decide_true by lia. cbn [res_bind].
  unfold checked at 1. rewrite bool_decide_true by lia. cbn [res_bind]. rewrite Hp'. cbn [res_bind foldl].
  apply IH; [done..| |lia]. intros o Ho. rewrite weight_at_insert, bool_decide_false.
  - apply Hne. by right.
  - intros Heq. apply Hn. rewrite Heq. by apply list_elem_of_fmap_2.
Qed.

(** The weights of the updated list. *)
Lemma represents_weight w apk t S p :
  represents w apk t S → K p → weight_at w (hashG1Point p) = weight_in S p.
Proof.
  intros HR HK. destruct (decide (p ∈ rg_Pubkey <$> S)) as [Hin|Hout].
  - apply list_elem_of_fmap in Hin as (op & -> & Hop).
    change (hashG1Point (rg_Pubkey op)) with (op_hash op). rewrite (rep_in _ _ _ _ HR _ Hop). symmetry.
    apply weight_in_elem; [|done]. eapply (NoDup_fmap_1 hashG1Point). rewrite <- list_fmap_compose.
    exact (rep_nodup _ _ _ _ HR).
  - rewrite weight_in_absent by done. apply (rep_out _ _ _ _ HR).
    intros (op & Hh & Hop)%list_elem_of_fmap. apply Hout. apply list_elem_of_fmap. exists op. split; [|done].
    apply K_inj; [done|by apply (rep_known _ _ _ _ HR)|done].
Qed.

(** Two lists of operators with positive weights and distinct keys are the same set if
    every operator has the same weight in both. *)
Lemma same_weights_perm S S' :
  NoDup (rg_Pubkey <$> S) → NoDup (rg_Pubkey <$> S') →
  (∀ op, op ∈ S → 0 < rg_Weight op) → (∀ op, op ∈ S' → 0 < rg_Weight op) →
  (∀ op, op ∈ S ++ S' → weight_in S (rg_Pubkey op) = weight_in S' (rg_Pubkey op)) → S ≡ₚ S'.
Proof.
  intros Hnd Hnd' Hpos Hpos' Hw. apply NoDup_Permutation; [by eapply NoDup_fmap_1..|].
  assert (∀ T T' : list RegistryOperator, NoDup (rg_Pubkey <$> T) → NoDup (rg_Pubkey <$> T') →
    (∀ op, op ∈ T → 0 < rg_Weight op) →
    (∀ op, op ∈ T → weight_in T (rg_Pubkey op) = weight_in T' (rg_Pubkey op)) →
    ∀ op, op ∈ T → op ∈ T') as Hsub.
  { intros T T' HT HT' Hp Hweq op Hop. pose proof (weight_in_elem T op HT Hop) as He.
    rewrite Hweq in He by done. pose proof (Hp op Hop).
    destruct (decide (rg_Pubkey op ∈ rg_Pubkey <$> T')) as [Hin|Hout].
    2:{ rewrite weight_in_absent in He by done. lia. }
    apply list_elem_of_fmap in Hin as (op' & Hk & Hop'). rewrite Hk, weight_in_elem in He by done.
    by replace op with op' by (destruct op, op'; simpl in *; congruence). }
  intros op. split; apply Hsub; try done.
  - intros o Ho. apply Hw, elem_of_app. by left.
  - intros o Ho. symmetry. apply Hw, elem_of_app. by right.
Qed.

(** ** From one operator set to another *)

(** An operator set as mainnet has it: distinct known keys, positive weights that fit. *)
Record set_ok (S : list RegistryOperator) : Prop := {
  so_keys : NoDup (rg_Pubkey <$> S);
  so_known op : op ∈ S → K (rg_Pubkey op);
  so_positive op : op ∈ S → 0 < rg_Weight op;
  so_total : zsum (rg_Weight <$> S) < 2 ^ 127;
}.

Definition os_represents (os : OperatorSet) (S : list RegistryOperator) : Prop :=
  represents (os_pubkeyHashToWeight os) (os_apk os) (os_totalWeight os) S.

Lemma update_loop_weights ops : ∀ w apk t w' apk' t',
  NoDup (op_hash <$> ops) → update_loop ops w apk t = Ok (w', apk', t') →
  (∀ op, op ∈ ops → weight_at w' (op_hash op) = rg_Weight op) ∧
  (∀ h, h ∉ op_hash <$> ops → weight_at w' h = weight_at w h).
Proof.
  induction ops as [|op ops IH]; intros w apk t w' apk' t' Hnd Hup; cbn [update_loop] in Hup.
  { injection Hup as <- <- <-. split; [|done]. intros op Hop. by apply elem_of_nil in Hop. }
  rewrite fmap_cons in Hnd |- *. apply NoDup_cons in Hnd as [Hn Hnd]. inv_require Hup. inv_bind Hup x Hx.
  inv_bind Hup y Hy. inv_bind Hup q Hq. destruct (IH _ _ _ _ _ _ Hnd Hup) as [Hin Hout]. split.
  - intros o [->|Ho]%elem_of_cons; [|by apply Hin]. rewrite Hout by done.
    change (hashG1Point (rg_Pubkey op)) with (op_hash op). by rewrite weight_at_insert, bool_decide_true.
  - intros h [Hne Hh]%not_elem_of_cons. rewrite Hout by done. rewrite weight_at_insert, bool_decide_false; [done|].
    intros <-. by apply Hne.
Qed.

Lemma NoDup_hashes ops : NoDup (rg_Pubkey <$> ops) → (∀ op, op ∈ ops → K (rg_Pubkey op)) → NoDup (op_hash <$> ops).
Proof.
  intros Hnd HK. assert (op_hash <$> ops = hashG1Point <$> (rg_Pubkey <$> ops)) as ->
    by (by rewrite <- list_fmap_compose).
  apply NoDup_fmap_2_strong; [|done]. intros p q (o & -> & Ho)%list_elem_of_fmap (o' & -> & Ho')%list_elem_of_fmap.
  apply K_inj; auto.
Qed.

(** Entries that give each operator whose weight differs its new weight take the set
    from [prev] to [new]. *)
Lemma os_update_reaches os prev ops new :
  os_represents os prev → set_ok new → entries_ok ops → NoDup (rg_Pubkey <$> ops) →
  (∀ op, op ∈ ops → rg_Weight op ≠ weight_in prev (rg_Pubkey op) ∧ rg_Weight op = weight_in new (rg_Pubkey op)) →
  (∀ p, K p → p ∉ rg_Pubkey <$> ops → weight_in prev p = weight_in new p) →
  os_totalWeight os + zsum (rg_Weight <$> ops) < 2 ^ 128 →
  ∃ os', os_update os ops = Ok os' ∧ os_represents os' new ∧ os_quorumThreshold os' = os_quorumThreshold os.
Proof.
  intros HR Hnew Hops Hnd Hin Hout Hmax.
  assert (∀ op, op ∈ ops → K (rg_Pubkey op)) as HK.
  { intros op Hop. eapply Forall_forall in Hops as [? _]; done. }
  pose proof (NoDup_hashes _ Hnd HK) as Hndh.
  destruct (update_loop_ok ops _ _ _ _ HR Hops Hndh) as (w' & apk' & t' & Hup & HR'); [|done|].
  { intros op Hop. unfold op_hash. rewrite (represents_weight _ _ _ _ _ HR) by auto. by apply Hin. }
  destruct (update_loop_weights _ _ _ _ _ _ _ Hndh Hup) as [Hw Hw'].
  exists (mkOperatorSet w' apk' t' (os_quorumThreshold os)). split; [unfold os_update; by rewrite Hup|]. split; [|done].
  unfold os_represents. cbn [os_pubkeyHashToWeight os_apk os_totalWeight].
  assert (∀ p, K p → weight_in (foldl set_operator prev ops) p = weight_in new p) as Hweq.
  { intros p Hp. rewrite <- (represents_weight _ _ _ _ _ HR' Hp).
    destruct (decide (p ∈ rg_Pubkey <$> ops)) as [Hi|Ho].
    - apply list_elem_of_fmap in Hi as (op & -> & Hop). change (hashG1Point (rg_Pubkey op)) with (op_hash op).
      rewrite Hw by done. by apply Hin.
    - rewrite <- Hout, <- (represents_weight _ _ _ _ _ HR Hp) by done. apply Hw'.
      intros (op & Hh & Hop)%list_elem_of_fmap. apply Ho, list_elem_of_fmap. exists op. split; [|done].
      apply K_inj; auto. }
  eapply represents_perm; [|exact HR'].
  apply same_weights_perm; [|apply Hnew|apply HR'|apply Hnew|].
  - apply (NoDup_fmap_1 hashG1Point). rewrite <- list_fmap_compose. exact (rep_nodup _ _ _ _ HR').
  - intros op [Hop|Hop]%elem_of_app; apply Hweq; [by apply (rep_known _ _ _ _ HR')|by apply (so_known _ Hnew)].
Qed.

(** The first operators of a new set. *)
Lemma os_update_first os ops :
  os_represents os [] → set_ok ops →
  ∃ os', os_update os ops = Ok os' ∧ os_represents os' ops ∧ os_quorumThreshold os' = os_quorumThreshold os.
Proof.
  intros HR Hok. apply (os_update_reaches os [] ops ops); [done|done| |apply Hok|..].
  - apply Forall_forall. intros op Hop. pose proof (so_positive _ Hok _ Hop). split; [by apply (so_known _ Hok)|lia].
  - intros op Hop. rewrite (weight_in_elem ops op) by (done || apply Hok). split; [|done].
    pose proof (so_positive _ Hok _ Hop). unfold weight_in. simpl. lia.
  - intros p _ Hp. by rewrite (weight_in_absent ops).
  - rewrite (rep_total _ _ _ _ HR). pose proof (so_total _ Hok). unfold zsum at 1. simpl. lia.
Qed.

(** ** Signatures *)

(** What the loop over the non-signers computes: each key is that of another operator. *)
Lemma nonSigners_loop_inv os S keys : os_represents os S → Forall K keys →
  ∀ prev used rest apk w apk' w',
  S ≡ₚ used ++ rest → (∀ op, op ∈ used → ∃ p, prev = Some p ∧ be_decode (op_hash op) ≤ be_decode p) →
  g1_valid apk = true → nonSigners_loop os prev keys apk w = Ok (apk', w') →
  ∃ nons rest', rest ≡ₚ nons ++ rest' ∧ rg_Pubkey <$> nons = keys ∧
    apk' = g1_plus apk (g1_sum keys) ∧ w' = w - zsum (rg_Weight <$> nons).
Proof.
  intros HR Hkeys. induction Hkeys as [|k keys HK Hkeys IH]; intros prev used rest apk w apk' w' HS Hused Hv Hloop;
    cbn [nonSigners_loop] in Hloop.
  { injection Hloop as <- <-. exists [], rest. split_and!; [done..|by rewrite plus_zero_r|unfold zsum; simpl; lia]. }
  inv_bind Hloop u Hprev. inv_bind Hloop u' Hw. apply require_ok, negb_true_iff, bool_decide_eq_false in Hw.
  pose proof (K_valid _ HK) as Hvk. rewrite plus_ok in Hloop by done. cbn [res_bind] in Hloop.
  inv_bind Hloop z Hz. apply checked_ok in Hz as [-> _].
  destruct (represents_split _ _ _ _ (mkRegistryOperator k 1) HR HK Hw) as (others & HSk & _ & _).
  set (op := mkRegistryOperator k (weight_at (os_pubkeyHashToWeight os) (hashG1Point k))).
  assert (op ∈ rest) as Hop.
  { assert (op ∈ used ++ rest) as Hop by (rewrite <- HS, HSk; by left).
    apply elem_of_app in Hop as [Hop|Hop]; [|done]. exfalso. destruct (Hused op Hop) as (p & -> & Hle).
    apply require_ok, Z.ltb_lt in Hprev. unfold op_hash in Hle. simpl in Hle. lia. }
  apply elem_of_Permutation in Hop as [rest1 Hrest1].
  destruct (IH (Some (hashG1Point k)) (op :: used) rest1 (g1_plus apk k)
    (w - getOperatorWeight os (hashG1Point k)) apk' w') as (nons & rest' & Hp & Hnk & -> & ->); [..|exact Hloop|].
  - rewrite HS, Hrest1. symmetry. apply Permutation_middle.
  - intros o [->|Ho]%elem_of_cons; [by eexists|]. destruct (Hused o Ho) as (p & -> & Hle).
    apply require_ok, Z.ltb_lt in Hprev. eexists. split; [done|]. lia.
  - by apply valid_plus.
  - exists (op :: nons), rest'. pose proof (g1_sum_valid keys ltac:(by eapply Forall_impl)) as Hs. split_and!.
    + by rewrite Hrest1, Hp.
    + rewrite fmap_cons, Hnk. done.
    + simpl. by rewrite plus_assoc.
    + rewrite fmap_cons, zsum_cons. unfold getOperatorWeight. simpl. lia.
Qed.

(** The loop succeeds on operators of the set in increasing order of their hashes. *)
Lemma nonSigners_loop_ok os S nons : os_represents os S →
  ∀ prev apk w,
  (∀ op, op ∈ nons → op ∈ S) → StronglySorted (λ o1 o2, be_decode (op_hash o1) < be_decode (op_hash o2)) nons →
  (∀ p op, prev = Some p → op ∈ nons → be_decode p < be_decode (op_hash op)) →
  g1_valid apk = true → zsum (rg_Weight <$> nons) ≤ w < 2 ^ 256 →
  nonSigners_loop os prev (rg_Pubkey <$> nons) apk w =
    Ok (g1_plus apk (g1_sum (rg_Pubkey <$> nons)), w - zsum (rg_Weight <$> nons)).
Proof.
  intros HR. induction nons as [|op nons IH]; intros prev apk w Hin Hsort Hprev Hv Hw; rewrite ?fmap_nil, ?fmap_cons; cbn [nonSigners_loop].
  { cbn [g1_sum foldr]. rewrite plus_zero_r by done. f_equal. f_equal. unfold zsum. simpl. lia. }
  inversion Hsort as [|? ? Hsort' Hlt]; subst. assert (op ∈ S) as Hop by (apply Hin; by left).
  pose proof (rep_positive _ _ _ _ HR _ Hop) as Hpos. pose proof (rep_known _ _ _ _ HR _ Hop) as HK.
  assert (match prev with Some p => require (be_decode p <? be_decode (hashG1Point (rg_Pubkey op))) "Pubkeys not sorted"
          | None => Ok tt end = Ok tt) as ->.
  { destruct prev as [p|]; [|done]. apply require_ok, Z.ltb_lt. apply (Hprev p op); [done|by left]. }
  cbn [res_bind]. change (getOperatorWeight os (hashG1Point (rg_Pubkey op))) with
    (weight_at (os_pubkeyHashToWeight os) (op_hash op)). rewrite (rep_in _ _ _ _ HR _ Hop).
  rewrite bool_decide_false by lia. cbn [negb require res_bind]. rewrite plus_ok by auto. cbn [res_bind].
  assert (0 ≤ zsum (rg_Weight <$> nons)) as Hz.
  { apply zsum_nonneg, Forall_forall. intros z (o & -> & Ho)%list_elem_of_fmap.
    pose proof (rep_positive _ _ _ _ HR o ltac:(apply Hin; by right)). lia. }
  rewrite fmap_cons, zsum_cons in Hw. rewrite zsum_cons.
  unfold checked. rewrite bool_decide_true by lia. cbn [res_bind]. rewrite IH; [|..|lia].
  - assert (Forall (λ p, g1_valid p = true) (rg_Pubkey <$> nons)) as Hvs.
    { apply known_valid. intros o Ho. apply (rep_known _ _ _ _ HR), Hin. by right. }
    rewrite g1_sum_cons, plus_assoc by auto using g1_sum_valid. f_equal. f_equal. lia.
  - intros o Ho. apply Hin. by right.
  - done.
  - intros p o [= <-] Ho. rewrite Forall_forall in Hlt. by apply Hlt.
  - auto using valid_plus.
Qed.

Context `{H : HashOps} `{A : AbiOps}.

Lemma represents_app_sums os signers nons :
  os_represents os (signers ++ nons) →
  g1_plus (os_apk os) (negate (g1_sum (rg_Pubkey <$> nons))) = g1_sum (rg_Pubkey <$> signers) ∧
  g1_valid (g1_sum (rg_Pubkey <$> nons)) = true ∧ g1_valid (g1_sum (rg_Pubkey <$> signers)) = true ∧
  os_totalWeight os - zsum (rg_Weight <$> nons) = zsum (rg_Weight <$> signers).
Proof.
  intros HR. pose proof (known_valid _ (rep_known _ _ _ _ HR)) as Hv. rewrite fmap_app in Hv.
  apply Forall_app in Hv as [Hs Hn]. pose proof (g1_sum_valid _ Hs). pose proof (g1_sum_valid _ Hn).
  rewrite (rep_apk _ _ _ _ HR), (rep_total _ _ _ _ HR), !fmap_app, g1_sum_app, zsum_app by done.
  split_and!; [|done..|lia]. rewrite (plus_comm (g1_sum _)) by done. by apply plus_cancel.
Qed.

(** C12: what the contract's answer means.  Let the operator set represent the operators
    [S].  If checking a signature does not revert, the listed non-signers are distinct
    operators of the set, the pairing check held for the sum of the keys of all the
    others, and the answer is whether these others hold the threshold's share of the
    total weight. *)
Theorem accepted_by_quorum os S msgHash info b :
  os_represents os S → Forall K (rsi_NonSignerPubkeys info) → verifyCalldata os msgHash info = Ok b →
  ∃ signers nons, S ≡ₚ signers ++ nons ∧ rsi_NonSignerPubkeys info = rg_Pubkey <$> nons ∧
    trySignatureAndApkVerification msgHash (g1_sum (rg_Pubkey <$> signers)) (rsi_ApkG2 info) (rsi_Sigma info)
      = Ok (true, true) ∧
    (b = true ↔ os_totalWeight os * os_quorumThreshold os / 100 ≤ zsum (rg_Weight <$> signers)).
Proof.
  intros HR HK Hver. unfold verifyCalldata in Hver. inv_require Hver. inv_bind Hver r Hloop. destruct r as [apk w].
  destruct (nonSigners_loop_inv os S _ HR HK None [] S g1_zero (os_totalWeight os) apk w) as (nons & signers & HS & Hk & -> & ->);
    [done|by intros ? ?%elem_of_nil|apply valid_zero|done|].
  rewrite Permutation_app_comm in HS. exists signers, nons. split; [done|]. split; [done|].
  destruct (represents_app_sums os signers nons) as (Hapk & Hv1 & Hv2 & Hsum).
  { unfold os_represents. by rewrite <- HS. }
  cbn [fst snd] in Hver. rewrite <- Hk, plus_zero_l in Hver by done. inv_bind Hver p Hp.
  unfold plus in Hp. destruct (_ && _); [|done]. injection Hp as <-. rewrite Hapk in Hver.
  inv_bind Hver c Hc. destruct c as [c1 c2]. inv_require Hver. inv_require Hver. inv_bind Hver z Hz.
  apply checked_ok in Hz as [-> _]. simpl in *. subst c1 c2. split; [done|].
  injection Hver as <-. unfold THRESHOLD_DENOMINATOR. rewrite Z.leb_le. by rewrite <- Hsum.
Qed.

(** When a signature is accepted: the signers' G2 key matches the sum of their keys and
    verifies the signature, and the non-signers are listed in the order of their hashes. *)
Lemma verifyCalldata_accepts os signers nons msgHash info :
  os_represents os (signers ++ nons) → rsi_NonSignerPubkeys info = rg_Pubkey <$> nons →
  StronglySorted (λ o1 o2, be_decode (op_hash o1) < be_decode (op_hash o2)) nons →
  0 < os_totalWeight os < 2 ^ 128 → 0 ≤ os_totalWeight os * os_quorumThreshold os < 2 ^ 128 →
  g1_valid (rsi_Sigma info) = true →
  safePairing (rsi_Sigma info) negGeneratorG2 (hashToG1 msgHash) (rsi_ApkG2 info) PAIRING_EQUALITY_CHECK_GAS = (true, true) →
  safePairing (g1_sum (rg_Pubkey <$> signers)) negGeneratorG2 generatorG1 (rsi_ApkG2 info) PAIRING_EQUALITY_CHECK_GAS
    = (true, true) →
  verifyCalldata os msgHash info =
    Ok (bool_decide (os_totalWeight os * os_quorumThreshold os / 100 ≤ zsum (rg_Weight <$> signers))).
Proof.
  intros HR Hkeys Hsort Ht Hq Hv Hsig Hkey. destruct (represents_app_sums os signers nons HR) as (Hapk & Hv1 & Hv2 & Hsum).
  unfold verifyCalldata. rewrite bool_decide_false by lia. cbn [negb require res_bind].
  assert (0 ≤ zsum (rg_Weight <$> signers)) as Hz.
  { apply zsum_nonneg, Forall_forall. intros z (o & -> & Ho)%list_elem_of_fmap.
    pose proof (rep_positive _ _ _ _ HR o ltac:(apply elem_of_app; by left)). lia. }
  rewrite Hkeys, (nonSigners_loop_ok os (signers ++ nons)); [|done|..|done|done|apply valid_zero|].
  2:{ intros o Ho. apply elem_of_app. by right. }
  2:{ change (2 ^ 256) with (2 ^ 128 * 2 ^ 128). lia. }
  cbn [res_bind fst snd]. rewrite plus_zero_l by done. rewrite plus_ok; [|..|by apply valid_negate].
  2:{ rewrite (rep_apk _ _ _ _ HR). apply g1_sum_valid, known_valid. intros. by apply (rep_known _ _ _ _ HR). }
  cbn [res_bind]. rewrite Hapk. unfold trySignatureAndApkVerification. set (g := gamma _ _ _ _).
  pose proof (valid_hashToG1 msgHash) as Hvh. pose proof valid_generator as Hvg.
  rewrite scalar_mul_ok by done. cbn [res_bind]. rewrite plus_ok by auto using valid_mul. cbn [res_bind].
  rewrite scalar_mul_ok by done. cbn [res_bind]. rewrite plus_ok by auto using valid_mul. cbn [res_bind].
  rewrite pairing_plus by auto using valid_mul, pairing_mul. cbn [fst snd require res_bind].
  unfold checked. rewrite bool_decide_true by done. cbn [res_bind]. f_equal. rewrite Hsum.
  apply eq_true_iff_eq. by rewrite Z.leb_le, bool_decide_eq_true.
Qed.

(** ** Transactions *)

(** The operators a transaction sets, as the contract decodes them. *)
Definition tx_entries (tx : RegistryTx) : list RegistryOperator :=
  match tx with
  | TxSetInitialOperatorSet operators _ => res_or [] (decode_operators operators)
  | TxUpdateOperatorSet message _ | TxForceOperatorSetUpdate message =>
      res_or [] (decode_operators (osb_Operators message))
  | _ => []
  end.

Lemma os_setQuorumThreshold_inv os q os' :
  os_setQuorumThreshold os q = Ok os' →
  q ≤ 100 ∧ os' = mkOperatorSet (os_pubkeyHashToWeight os) (os_apk os) (os_totalWeight os) q.
Proof.
  intros Hq. unfold os_setQuorumThreshold in Hq. inv_bind Hq u Hu. apply require_ok, Z.leb_le in Hu.
  by injection Hq as <-.
Qed.

Lemma updateStateRoot_set ih r m info r' :
  updateStateRoot ih r m info = Ok r' → reg_operatorSet r' = reg_operatorSet r.
Proof. intros Hu. unfold updateStateRoot in Hu. inv_require Hu. inv_bind Hu h Hh. inv_bind Hu b Hb. inv_require Hu. by injection Hu as <-. Qed.

(** A transaction leaves the operator set alone, applies its entries, or sets the
    threshold. *)
Lemma accept_tx_set ih sender r tx r' :
  accept_tx ih sender r tx = Ok r' →
  reg_operatorSet r' = reg_operatorSet r ∨
  os_update (reg_operatorSet r) (tx_entries tx) = Ok (reg_operatorSet r') ∨
  ∃ q, os_setQuorumThreshold (reg_operatorSet r) q = Ok (reg_operatorSet r').
Proof.
  destruct tx as [ops next|m info|m info|m proof ag|m|a|q]; cbn [accept_tx tx_entries]; intros Ha.
  - right; left. unfold setInitialOperatorSet in Ha. apply res_bind_ok in Ha as (ops' & -> & Ha). inv_require Ha. inv_require Ha.
    cbn [res_or]. apply res_bind_ok in Ha as (os & -> & Ha). by injection Ha as <-.
  - right; left. unfold updateOperatorSet in Ha. apply res_bind_ok in Ha as (ops' & -> & Ha). inv_require Ha. inv_require Ha.
    inv_bind Ha h Hh. inv_bind Ha b Hb. inv_require Ha. inv_bind Ha n Hn. cbn [res_or]. apply res_bind_ok in Ha as (os & -> & Ha). by injection Ha as <-.
  - left. by eapply updateStateRoot_set.
  - left. inv_bind Ha rv Hrv. unfold updateAndGetStorageValue in Hrv. inv_require Hrv. inv_bind Hrv r1 Hr1.
    inv_bind Hrv v Hv. injection Hrv as <-. injection Ha as <-.
    destruct (bool_decide _); [destruct ag; [|done]; by eapply updateStateRoot_set|by injection Hr1 as <-].
  - right; left. unfold forceOperatorSetUpdate in Ha. apply res_bind_ok in Ha as (ops' & -> & Ha). inv_require Ha. inv_require Ha.
    inv_bind Ha n Hn. cbn [res_or]. apply res_bind_ok in Ha as (os & -> & Ha). by injection Ha as <-.
  - left. unfold setAggregator in Ha. inv_require Ha. by injection Ha as <-.
  - right; right. unfold setQuorumThreshold in Ha. inv_require Ha. inv_bind Ha os Hos. exists q. by injection Ha as <-.
Qed.

(** The registry's operator set is that of some list of operators, its weights fit, and
    the threshold is a percentage. *)
Definition reg_ok (r : Registry) : Prop :=
  os_quorumThreshold (reg_operatorSet r) ≤ 100 ∧ os_totalWeight (reg_operatorSet r) < 2 ^ 128 ∧
  ∃ S, os_represents (reg_operatorSet r) S.

Lemma update_loop_total ops : ∀ w apk t w' apk' t',
  update_loop ops w apk t = Ok (w', apk', t') → t < 2 ^ 128 → t' < 2 ^ 128.
Proof.
  induction ops as [|op ops IH]; intros w apk t w' apk' t' Hup Ht; cbn [update_loop] in Hup.
  { by injection Hup as _ _ <-. }
  inv_require Hup. inv_bind Hup x Hx. inv_bind Hup y Hy. apply checked_ok in Hy as [-> Hy]. inv_bind Hup p Hp.
  eapply IH; [exact Hup|lia].
Qed.

Lemma os_update_inv os ops os' :
  os_update os ops = Ok os' → os_quorumThreshold os' = os_quorumThreshold os ∧
  update_loop ops (os_pubkeyHashToWeight os) (os_apk os) (os_totalWeight os) =
    Ok (os_pubkeyHashToWeight os', os_apk os', os_totalWeight os').
Proof. intros Hu. unfold os_update in Hu. inv_bind Hu r Hr. destruct r as [[w apk] t]. by injection Hu as <-. Qed.

Lemma accept_tx_ok ih sender r tx r' :
  reg_ok r → entries_ok (tx_entries tx) → accept_tx ih sender r tx = Ok r' → reg_ok r'.
Proof.
  intros (Hq & Ht & S & HS) He Ha. unfold reg_ok. destruct (accept_tx_set _ _ _ _ _ Ha) as [->|[Hu|[q Hu]]].
  - by split_and!; [..|exists S].
  - apply os_update_inv in Hu as [Hq' Hu]. split_and!; [lia|by eapply update_loop_total|].
    exists (foldl set_operator S (tx_entries tx)). by eapply update_loop_represents.
  - apply os_setQuorumThreshold_inv in Hu as [Hq' ->]. by split_and!; [..|exists S].
Qed.

(** C27: the registry's storage is always consistent.  After [initialize] and any sequence
    of transactions, of any accounts and accepted or reverted, the stored weights are
    those of some list of operators with distinct keys and positive weights, the stored
    aggregate key is the sum of their keys, the total weight the sum of their weights,
    and the threshold a percentage; the keys that are set being points of the curve
    without hash collisions. *)
Theorem registry_invariant quorumThreshold aggregator r0 (txs : list (Inherited * Address * RegistryTx)) :
  initialize quorumThreshold aggregator = Ok r0 →
  Forall (λ t, entries_ok (tx_entries t.2)) txs →
  reg_ok (foldl (λ r t, execute_tx t.1.1 t.1.2 r t.2) r0 txs).
Proof.
  intros Hinit Htxs.
  assert (reg_ok r0) as H0.
  { unfold initialize in Hinit. inv_bind Hinit os Hos. apply os_setQuorumThreshold_inv in Hos as [Hq ->].
    injection Hinit as <-. split_and!; [done..|]. exists []. apply represents_empty. }
  clear Hinit. revert r0 H0. induction Htxs as [|[[ih sender] tx] txs He _ IH]; intros r H0; simpl; [done|].
  apply IH. unfold execute_tx. destruct (accept_tx ih sender r tx) as [r'| |] eqn:Ha; simpl; [|done..].
  by eapply accept_tx_ok.
Qed.

End Operators.

(** ** Hashes and indices *)

Lemma lor_shiftl a b n : 0 ≤ n → 0 ≤ a < 2 ^ n → Z.lor a (Z.shiftl b n) = a + b * 2 ^ n.
Proof.
  intros Hn Ha. rewrite <- Z.shiftl_mul_pow2, <- Z.add_lor_land by lia.
  enough (Z.land a (Z.shiftl b n) = 0) by lia. apply Z.bits_inj'. intros i Hi.
  rewrite Z.land_spec, Z.bits_0, Z.shiftl_spec by lia. destruct (decide (i < n)).
  - by rewrite (Z.testbit_neg_r b), andb_false_r by lia.
  - assert (Z.testbit a i = false) as ->; [|done]. apply Z.testbit_false; [lia|]. rewrite Z.div_small; [done|].
    split; [lia|]. apply Z.lt_le_trans with (2 ^ n); [lia|]. apply Z.pow_le_mono_r; lia.
Qed.

Section Hashes.
Context `{B : BlsOps} `{H : HashOps} {HL : HashLaws H} `{A : AbiOps}.

Lemma hashWithPrefix_digest prefix v d :
  (let? data := abi_pack [v] in HashMessageWithPrefix prefix data) = Ok d ↔ hashWithPrefix prefix v = Ok d.
Proof.
  unfold HashMessageWithPrefix, hashWithPrefix, Keccak256. destruct (abi_pack [v]) as [data| |]; simpl; [|done..].
  rewrite !(take_ge (keccak256 _)) by (rewrite keccak256_length; lia).
  destruct (abi_pack _); simpl; [|done..]. rewrite take_ge by (rewrite keccak256_length; lia). naive_solver.
Qed.

(** [bytes32(uint256(id))] and [bytes32(blockHeight | rollupId << 64)] are the keys. *)
Lemma osu_index_key (m : OperatorSetUpdateMessage) (b : OperatorSetUpdateBinding) :
  osu_ToBinding m = Ok b → is_u64 (osu_Id m) → be_decode (osu_Key m) = osu_indexCalldata b.
Proof.
  unfold is_u64. intros Hb Hid. apply res_bind_ok in Hb as (ops & _ & [= <-]).
  rewrite osu_Key_layout, be_decode_app, be_decode_zeros, be_decode_encode, length_be_encode. unfold osu_indexCalldata.
  rewrite Z.mod_small; simpl; lia.
Qed.

Lemma sru_index_key (s : StateRootUpdateMessage) :
  is_u32 (sru_RollupId s) → is_u64 (sru_BlockHeight s) → be_decode (sru_Key s) = sru_indexCalldata s.
Proof.
  unfold is_u32, is_u64. intros Hr Hh.
  rewrite sru_Key_layout, !be_decode_app, be_decode_zeros, !be_decode_encode, length_app, !length_be_encode.
  unfold sru_indexCalldata. rewrite lor_shiftl, !Z.mod_small by (simpl; lia). simpl. lia.
Qed.

(** The structs of the contract and the tuples the Go code declares have one layout. *)
Lemma osu_layout (b : OperatorSetUpdateBinding) : OperatorSetUpdate_Message_calldata b = osu_binding_abi b.
Proof. unfold OperatorSetUpdate_Message_calldata, osu_binding_abi. do 4 f_equal. Qed.

Lemma sru_layout (s : StateRootUpdateMessage) : StateRootUpdate_Message_calldata s = sru_abi s.
Proof. done. Qed.

Lemma osu_hash_digest (m : OperatorSetUpdateMessage) (b : OperatorSetUpdateBinding) d :
  osu_ToBinding m = Ok b → osu_Digest m = Ok d ↔ osu_hashCalldata b = Ok d.
Proof. intros Hb. unfold osu_Digest, osu_AbiEncode. rewrite Hb. unfold osu_hashCalldata. rewrite osu_layout. apply hashWithPrefix_digest. Qed.

Lemma sru_hash_digest (s : StateRootUpdateMessage) d : sru_Digest s = Ok d ↔ sru_hashCalldata s = Ok d.
Proof. unfold sru_hashCalldata. rewrite sru_layout. apply hashWithPrefix_digest. Qed.

(** C28: the contract hashes and indexes messages as the operators do.  The contract
    encodes the members of its structs in their declared order and types, the Go code the
    tuples it declares for the encoder: the hash the contract checks signatures against is
    the digest the Go code signs, for operator set updates and for state root updates, and
    its indices are the Go message keys as numbers. *)
Theorem contract_hashes_match (m : OperatorSetUpdateMessage) (b : OperatorSetUpdateBinding)
    (s : StateRootUpdateMessage) :
  osu_ToBinding m = Ok b → is_u64 (osu_Id m) → is_u32 (sru_RollupId s) → is_u64 (sru_BlockHeight s) →
  (∀ d, osu_Digest m = Ok d ↔ osu_hashCalldata b = Ok d) ∧
  (∀ d, sru_Digest s = Ok d ↔ sru_hashCalldata s = Ok d) ∧
  be_decode (osu_Key m) = osu_indexCalldata b ∧ be_decode (sru_Key s) = sru_indexCalldata s.
Proof.
  intros Hb Hid Hr Hh. split_and!; [|apply sru_hash_digest|by apply osu_index_key|by apply sru_index_key].
  intros d. by apply osu_hash_digest.
Qed.

End Hashes.

(** ** A concrete instance: the integers, with the pairing of two scalars their product *)
Module ToyBn254.

Definition scalar (q : BN254G2Point) : Z := (bn2_X q).2.

Definition ops : Bn254Ops := {|
  FR_MODULUS := 21888242871839275222246405745257275088548364400416034343698204186575808495617;
  g1_valid _ := true;
  g1_plus p q := mkBN254G1Point (bn_X p + bn_X q) (bn_Y p + bn_Y q);
  g1_mul p k := mkBN254G1Point (bn_X p * k) (bn_Y p * k);
  negate p := mkBN254G1Point (- bn_X p) (- bn_Y p);
  hashG1Point p := be_encode 32 (bn_X p);
  hashToG1 d := mkBN254G1Point (ToyBls.hash_to_scalar d) 0;
  generatorG1 := mkBN254G1Point 1 0;
  negGeneratorG2 := mkBN254G2Point (0, -1) (0, 0);
  safePairing p x q y _ := (true, bool_decide (bn_X p * scalar x + bn_X q * scalar y = 0)) |}.

Lemma laws : Bn254Laws ops.
Proof.
  split; simpl; try done.
  - intros [x y] _. simpl. f_equal; lia.
  - intros [] [] _ _. simpl. f_equal; lia.
  - intros [] [] [] _ _ _. simpl. f_equal; lia.
  - intros [] _. unfold g1_zero. simpl. f_equal; lia.
  - intros p. split; [done|apply be_encode_bytes].
  - intros p q r s x y g _ _ _ _ [= H1] [= H2]. apply bool_decide_eq_true in H1, H2.
    f_equal. apply bool_decide_eq_true. lia.
  - intros p q x y k g _ _ [= H1]. apply bool_decide_eq_true in H1. f_equal. apply bool_decide_eq_true.
    transitivity (k * (bn_X p * scalar x + bn_X q * scalar y)); [lia|]. rewrite H1. lia.
Qed.

#[local] Existing Instances ToyBls.ops ops.

Lemma pairing_laws : Bn254BlsLaws ToyBls.ops ops.
Proof.
  split; simpl.
  - by intros [] [] _ _.
  - intros [s s'] [[[a b] c] d'] d _ Hv. unfold ToyBls.verify in Hv. simpl in Hv.
    destruct (ToyBls.affine_nil _); [done|]. injection Hv as Hv%bool_decide_eq_true.
    f_equal. apply bool_decide_eq_true. unfold scalar. simpl. lia.
  - intros p q [[[a b] c] d] [[[a' b'] c'] d'] _ _. unfold key_matches. simpl. intros [= H1] [= H2].
    apply bool_decide_eq_true in H1, H2. unfold scalar in *. simpl in *. f_equal. apply bool_decide_eq_true. lia.
Qed.

End ToyBn254.

Module Examples.

#[local] Existing Instances ToyBls.ops ToyHash.ops ToyAbi.ops ToyBn254.ops.
#[local] Existing Instances ToyHash.hash_laws ToyBn254.laws.

(** Key [i] is the point [(i, 0)]; the keys of the examples are small. *)
Definition key (i : Z) : BN254G1Point := mkBN254G1Point i 0.
Definition small_key (p : BN254G1Point) : Prop := 0 ≤ bn_X p < 1000 ∧ bn_Y p = 0.

Lemma small_valid p : small_key p → g1_valid p = true.
Proof. done. Qed.

Lemma small_inj p q : small_key p → small_key q → hashG1Point p = hashG1Point q → p = q.
Proof.
  intros [Hp Hy] [Hq Hy'] Heq. simpl in Heq. apply be_encode_inj in Heq; [|simpl; lia..].
  destruct p, q; simpl in *; congruence.
Qed.

Definition operator (i w : Z) : RegistryOperator := mkRegistryOperator (key i) w.
Definition entry (op : RegistryOperator) : RollupOperatorsOperator := mkBindingOperator (rg_Pubkey op) (Some (rg_Weight op)).
Definition nobody_paused (owner : Address) : Inherited := mkInherited owner (λ _, false).

(** The aggregator (address 7) initializes three operators, somebody else tries to, and
    the owner (address 1) removes operator 2 and changes the weight of operator 1. *)
Definition ex_txs : list (Inherited * Address * RegistryTx) :=
  [(nobody_paused 1, 8, TxSetInitialOperatorSet [entry (operator 9 1)] 1);
   (nobody_paused 1, 7, TxSetInitialOperatorSet (entry <$> [operator 1 10; operator 2 10; operator 3 10]) 4);
   (nobody_paused 1, 1, TxForceOperatorSetUpdate (mkOsuBinding 4 1700000000 (entry <$> [operator 2 0; operator 1 25])));
   (nobody_paused 1, 1, TxSetQuorumThreshold 101)].

Definition registry0 : Registry := res_or (mkRegistry (mkOperatorSet ∅ g1_zero 0 0) 0 0 ∅) (initialize 66 7).

Definition ex_after : Registry := foldl (λ r t, execute_tx t.1.1 t.1.2 r t.2) registry0 ex_txs.

Example ex_after_eq :
  (os_apk (reg_operatorSet ex_after), os_totalWeight (reg_operatorSet ex_after), reg_nextOperatorUpdateId ex_after)
  = (key 4, 35, 5).
Proof. vm_compute. reflexivity. Qed.

Lemma registry_invariant_witness : reg_ok small_key ex_after.
Proof.
  apply (registry_invariant small_key small_valid small_inj 66 7 registry0 ex_txs).
  - reflexivity.
  - repeat constructor; simpl; lia.
Defined.

(** Operators 1 and 3 sign, operator 2 does not. *)
Definition ex_set : OperatorSet :=
  mkOperatorSet (list_to_map ((λ i, (hashG1Point (key i), 10)) <$> [1; 2; 3])) (key 6) 30 66.
Definition ex_members : list RegistryOperator := [operator 1 10; operator 2 10; operator 3 10].
Definition ex_hash : bytes := [5].
Definition ex_sigma : BN254G1Point := mkBN254G1Point (4 * ToyBls.hash_to_scalar ex_hash) 0.
Definition ex_info : RollupOperatorsSignatureInfo :=
  mkSignatureInfo [key 2] (mkBN254G2Point (0, 4) (0, 0)) ex_sigma.

Lemma ex_represents : os_represents small_key ex_set ex_members.
Proof.
  split; [|..|done|done].
  - apply (bool_decide_unpack _). vm_compute. exact I.
  - intros op Hop. repeat (apply elem_of_cons in Hop as [->|Hop]; [vm_compute; reflexivity|]). by apply elem_of_nil in Hop.
  - intros h Hh. unfold weight_at, ex_set. cbn [os_pubkeyHashToWeight]. rewrite not_elem_of_list_to_map_1; [done|exact Hh].
  - intros op Hop. repeat (apply elem_of_cons in Hop as [->|Hop]; [done|]). by apply elem_of_nil in Hop.
  - intros op Hop. repeat (apply elem_of_cons in Hop as [->|Hop]; [split; simpl; lia|]). by apply elem_of_nil in Hop.
Qed.

Lemma accepted_by_quorum_witness :
  ∃ signers nons, ex_members ≡ₚ signers ++ nons ∧ rsi_NonSignerPubkeys ex_info = rg_Pubkey <$> nons ∧
    trySignatureAndApkVerification ex_hash (g1_sum (rg_Pubkey <$> signers)) (rsi_ApkG2 ex_info) (rsi_Sigma ex_info)
      = Ok (true, true) ∧
    (true = true ↔ os_totalWeight ex_set * os_quorumThreshold ex_set / 100 ≤ zsum (rg_Weight <$> signers)).
Proof.
  apply (accepted_by_quorum small_key small_valid small_inj ex_set ex_members ex_hash ex_info true).
  - exact ex_represents.
  - repeat constructor; simpl; lia.
  - vm_compute. reflexivity.
Defined.

Definition ex_update : OperatorSetUpdateMessage :=
  mkOperatorSetUpdate 4 1700000000 [mkRollupOperator (Some (NewG1Point 1 0)) (Some 25)].
Definition ex_root : StateRootUpdateMessage :=
  mkStateRootUpdate 3 7 1700000000 (replicate 32 0) (replicate 32 0) (replicate 32 9).

Lemma contract_hashes_match_witness :
  (∀ d, osu_Digest ex_update = Ok d ↔ osu_hashCalldata (mkOsuBinding 4 1700000000 [entry (operator 1 25)]) = Ok d) ∧
  (∀ d, sru_Digest ex_root = Ok d ↔ sru_hashCalldata ex_root = Ok d) ∧
  be_decode (osu_Key ex_update) = 4 ∧ be_decode (sru_Key ex_root) = 3 * 2 ^ 64 + 7.
Proof.
  apply (contract_hashes_match ex_update (mkOsuBinding 4 1700000000 [entry (operator 1 25)]) ex_root).
  - reflexivity.
  - unfold is_u64; simpl; lia.
  - unfold is_u32; simpl; lia.
  - unfold is_u64; simpl; lia.
Defined.

End Examples.
