(* ===== verification/SparseMerkle.v ===== *)
(** * The on-chain verifier of checkpoint proofs

    [contracts/evm/src/eth/utils/SparseMerkleTree.sol]: the check of a compact
    (non-)inclusion proof against a root, with the memory buffer the node hashes share and
    the reverts of the library.  [tree] is the kind of trie its comment describes, as the
    reference the verifier is measured against:

    - [verifyProof_ok]: what the verifier computes, as a path from the root down;
    - [accepted_values_agree]: two proofs of one key accepted against one root prove the
      same value, unless two of the strings hashed on the way collide;
    - [tree_proof_verifies]: the siblings along a key's path in a trie are a proof that is
      accepted against the root of the trie.

    A collision is never assumed away in general: [collision_free] speaks of the strings
    that one verification, or one trie, hashes. *)

From S2P Require Import Prelude CoreTypes Instances Messages Smt AvsReader RegistryContract.

(** ** The library *)
Section Verifier.
Context `{H : HashOps}.

Definition MAX_DEPTH : Z := 256.
Definition DEFAULT_VALUE : bytes := replicate 32 0.
Definition LEAF_NODE_PREFIX : Z := 0.
Definition INNER_NODE_PREFIX : Z := 1.

(** The EVM's stores of one byte and of a word, at an offset into the buffer. *)
Definition mstore8 (mem : bytes) (offset : nat) (b : Z) : bytes :=
  take offset mem ++ b :: drop (offset + 1) mem.
Definition mstore (mem : bytes) (offset : nat) (word : bytes) : bytes :=
  take offset mem ++ word ++ drop (offset + 32) mem.

(** The buffer after the call, and the hash of its first 65 bytes. *)
Definition _hashNode (hashBuffer : bytes) (prefix : Z) (left right : bytes) : bytes * bytes :=
  let hashBuffer := mstore8 hashBuffer 0 prefix in
  let hashBuffer := mstore hashBuffer 1 left in
  let hashBuffer := mstore hashBuffer 33 right in
  (hashBuffer, keccak256 (take 65 hashBuffer)).

Definition _computeProofLeaf (hashBuffer path : bytes) (proof : SMTVerifierCompactProof) : evm (bytes * bytes) :=
  if bool_decide (vp_Value proof = DEFAULT_VALUE) then
    if bool_decide (vp_NonMembershipLeafPath proof = replicate 32 0) then Ok (hashBuffer, DEFAULT_VALUE)
    else
      let? _ := require (negb (bool_decide (vp_NonMembershipLeafPath proof = path)))
                  "nonMembershipLeaf not unrelated" in
      Ok (_hashNode hashBuffer LEAF_NODE_PREFIX (vp_NonMembershipLeafPath proof) (vp_NonMembershipLeafValue proof))
  else Ok (_hashNode hashBuffer LEAF_NODE_PREFIX path (vp_Value proof)).

(** The loop of [_computeProofRoot], with [rem] iterations left: a side node is skipped
    where the bit mask says so, and otherwise the next element of the array, a read out of
    whose bounds reverts with a panic code. *)
Fixpoint root_loop (rem : nat) (i : Z) (proof : SMTVerifierCompactProof) (index : Z)
    (hashBuffer : bytes) (sideNodeIndex : nat) (currentHash : bytes) : evm bytes :=
  match rem with
  | O => Ok currentHash
  | S rem =>
      let? side :=
        (if negb (Z.land (vp_BitMask proof) (Z.shiftl 1 i) =? 0) then Ok (DEFAULT_VALUE, sideNodeIndex)
         else match vp_SideNodes proof !! sideNodeIndex with
              | Some sideNode => Ok (sideNode, S sideNodeIndex)
              | None => Panic
              end) in
      let r :=
        (if Z.land index (Z.shiftl 1 i) =? 0
         then _hashNode hashBuffer INNER_NODE_PREFIX currentHash side.1
         else _hashNode hashBuffer INNER_NODE_PREFIX side.1 currentHash) in
      root_loop rem (i + 1) proof index r.1 side.2 r.2
  end.

Definition _computeProofRoot (proof : SMTVerifierCompactProof) : evm bytes :=
  let hashBuffer := replicate 96 0 in
  let path := keccak256 (vp_Key proof) in
  let? leaf := _computeProofLeaf hashBuffer path proof in
  let? shift := checked 256 (256 - vp_NumSideNodes proof) in
  let index := Z.shiftr (be_decode path) shift in
  root_loop (Z.to_nat (vp_NumSideNodes proof)) 0 proof index leaf.1 0 leaf.2.

Definition verifyProof (root : bytes) (proof : SMTVerifierCompactProof) : evm bool :=
  let? _ := require ((Z.of_nat (length (vp_SideNodes proof)) <=? MAX_DEPTH) &&
                     (vp_NumSideNodes proof <=? MAX_DEPTH)) "Side nodes exceed depth" in
  let? r := _computeProofRoot proof in
  Ok (bool_decide (root = r)).

(** A proof as the calldata decoder delivers it: words of 32 bytes, unsigned numbers. *)
Record proof_wf (p : SMTVerifierCompactProof) : Prop := {
  wf_value : length (vp_Value p) = 32%nat;
  wf_sides : Forall (λ s, length s = 32%nat) (vp_SideNodes p);
  wf_num : 0 ≤ vp_NumSideNodes p;
  wf_leaf_path : length (vp_NonMembershipLeafPath p) = 32%nat;
  wf_leaf_value : length (vp_NonMembershipLeafValue p) = 32%nat }.

(** ** What the verifier hashes *)

(** The bit of a path that decides the direction at depth [d]. *)
Definition path_bit (path : bytes) (d : nat) : bool := Z.testbit (be_decode path) (255 - Z.of_nat d).

Definition node_input (right : bool) (child side : bytes) : bytes :=
  INNER_NODE_PREFIX :: (if right then side ++ child else child ++ side).

(** The hash at depth [d], given the siblings below it, the topmost first. *)
Fixpoint descend (path : bytes) (d : nat) (sides : list bytes) (leaf : bytes) : bytes :=
  match sides with
  | [] => leaf
  | s :: sides => keccak256 (node_input (path_bit path d) (descend path (S d) sides leaf) s)
  end.

(** The strings hashed for it. *)
Fixpoint descend_inputs (path : bytes) (d : nat) (sides : list bytes) (leaf : bytes) : list bytes :=
  match sides with
  | [] => []
  | s :: sides =>
      node_input (path_bit path d) (descend path (S d) sides leaf) s :: descend_inputs path (S d) sides leaf
  end.

(** The siblings a proof stands for, from the leaf up: with the skipped ones put back. *)
Fixpoint resolve (bitMask : Z) (nodes : list bytes) (i : Z) (n : nat) : list bytes :=
  match n with
  | O => []
  | S n =>
      if Z.testbit bitMask i then DEFAULT_VALUE :: resolve bitMask nodes (i + 1) n
      else match nodes with
           | [] => []
           | s :: nodes => s :: resolve bitMask nodes (i + 1) n
           end
  end.

Definition proof_sides (p : SMTVerifierCompactProof) : list bytes :=
  reverse (resolve (vp_BitMask p) (vp_SideNodes p) 0 (Z.to_nat (vp_NumSideNodes p))).

Definition leaf_node (path value : bytes) : bytes := LEAF_NODE_PREFIX :: path ++ value.

(** The string hashed for the leaf; there is none at an empty position. *)
Definition leaf_input (p : SMTVerifierCompactProof) : option bytes :=
  if decide (vp_Value p = DEFAULT_VALUE) then
    if decide (vp_NonMembershipLeafPath p = DEFAULT_VALUE) then None
    else Some (leaf_node (vp_NonMembershipLeafPath p) (vp_NonMembershipLeafValue p))
  else Some (leaf_node (keccak256 (vp_Key p)) (vp_Value p)).

Definition leaf_hash (input : option bytes) : bytes := from_option keccak256 DEFAULT_VALUE input.

Definition proof_inputs (p : SMTVerifierCompactProof) : list bytes :=
  option_list (leaf_input p) ++
  descend_inputs (keccak256 (vp_Key p)) 0 (proof_sides p) (leaf_hash (leaf_input p)).

(** No two of the strings have one hash, and none hashes to the value of an empty node. *)
Definition collision_free (inputs : list bytes) : Prop :=
  Forall (λ x, keccak256 x ≠ DEFAULT_VALUE ∧ Forall (λ y, keccak256 x = keccak256 y → x = y) inputs) inputs.

#[export] Instance collision_free_dec inputs : Decision (collision_free inputs).
Proof. unfold collision_free. apply _. Defined.

Lemma collision_free_inj inputs x y :
  collision_free inputs → x ∈ inputs → y ∈ inputs → keccak256 x = keccak256 y → x = y.
Proof.
  unfold collision_free. rewrite Forall_forall. intros Hcf Hx Hy. destruct (Hcf x Hx) as [_ Hall].
  rewrite Forall_forall in Hall. by apply Hall.
Qed.

Lemma collision_free_nonzero inputs x : collision_free inputs → x ∈ inputs → keccak256 x ≠ DEFAULT_VALUE.
Proof. unfold collision_free. rewrite Forall_forall. intros Hcf Hx. by destruct (Hcf x Hx). Qed.

Lemma collision_free_mono l k : l ⊆ k → collision_free k → collision_free l.
Proof.
  unfold collision_free. rewrite !Forall_forall. intros Hs Hcf x Hx. destruct (Hcf x (Hs x Hx)) as [Hz Hi].
  split; [done|]. rewrite Forall_forall in *. intros y Hy. by apply Hi, Hs.
Qed.

End Verifier.

(** ** What the verifier computes *)
Section Theory.
Context `{H : HashOps} {HL : HashLaws H}.

Lemma length_DEFAULT_VALUE : length DEFAULT_VALUE = 32%nat.
Proof. done. Qed.

Lemma land_shiftl_testbit a i : 0 ≤ i → (Z.land a (Z.shiftl 1 i) =? 0) = negb (Z.testbit a i).
Proof.
  intros Hi. destruct (Z.testbit a i) eqn:Hb; simpl.
  - apply Z.eqb_neq. intros Heq. apply (f_equal (λ z, Z.testbit z i)) in Heq.
    rewrite Z.land_spec, Hb, Z.shiftl_spec, Z.sub_diag, Z.testbit_0_l in Heq by done. done.
  - apply Z.eqb_eq, Z.bits_inj'. intros n Hn. rewrite Z.land_spec, Z.testbit_0_l, Z.shiftl_spec by done.
    destruct (decide (n = i)) as [->|Hne]; [by rewrite Hb|].
    change 1 with (2 ^ 0). rewrite Z.pow2_bits_false by lia. apply andb_false_r.
Qed.

(** The buffer does not matter: a call overwrites all it hashes. *)
Lemma hashNode_spec buf prefix l r :
  length buf = 96%nat → length l = 32%nat → length r = 32%nat →
  length (_hashNode buf prefix l r).1 = 96%nat ∧
  (_hashNode buf prefix l r).2 = keccak256 (prefix :: l ++ r).
Proof.
  intros Hb Hl Hr. unfold _hashNode, mstore, mstore8. destruct buf as [|b buf]; [done|].
  injection Hb as Hb. cbn [take drop app Nat.add fst snd]. rewrite take_0, drop_0. cbn [app take].
  rewrite (take_app_length' l) by done. rewrite drop_app_ge, drop_drop by lia.
  split.
  - cbn [length]. rewrite !length_app, length_drop. lia.
  - rewrite take_app_ge by lia. rewrite take_app_length' by lia. done.
Qed.

(** The hash above a sibling, on the side the path goes. *)
Lemma inner_spec buf (b : bool) cur s :
  length buf = 96%nat → length cur = 32%nat → length s = 32%nat →
  let r := (if negb b then _hashNode buf INNER_NODE_PREFIX cur s else _hashNode buf INNER_NODE_PREFIX s cur) in
  length r.1 = 96%nat ∧ r.2 = keccak256 (node_input b cur s).
Proof. intros Hb Hc Hs. destruct b; by apply hashNode_spec. Qed.

(** From the leaf up. *)
Fixpoint climb (path : bytes) (sides : list bytes) (cur : bytes) : bytes :=
  match sides with
  | [] => cur
  | s :: sides => climb path sides (keccak256 (node_input (path_bit path (length sides)) cur s))
  end.

Lemma descend_snoc path sides s leaf : ∀ d,
  descend path d (sides ++ [s]) leaf =
  descend path d sides (keccak256 (node_input (path_bit path (d + length sides)) leaf s)).
Proof.
  induction sides as [|s' sides IH]; intros d; simpl; [by rewrite Nat.add_0_r|].
  rewrite IH. by rewrite Nat.add_succ_comm.
Qed.

Lemma climb_descend path sides : ∀ cur, climb path sides cur = descend path 0 (reverse sides) cur.
Proof.
  induction sides as [|s sides IH]; intros cur; simpl; [done|].
  rewrite reverse_cons, descend_snoc, IH, length_reverse. done.
Qed.

Lemma length_resolve bm nodes i n : (length (resolve bm nodes i n) ≤ n)%nat.
Proof.
  revert nodes i. induction n as [|n IH]; intros nodes i; simpl; [done|].
  destruct (Z.testbit bm i); simpl; [specialize (IH nodes (i + 1)); lia|].
  destruct nodes as [|s nodes]; simpl; [lia|]. specialize (IH nodes (i + 1)). lia.
Qed.

Lemma resolve_words bm nodes i n :
  Forall (λ s, length s = 32%nat) nodes → Forall (λ s, length s = 32%nat) (resolve bm nodes i n).
Proof.
  revert nodes i. induction n as [|n IH]; intros nodes i Hn; simpl; [constructor|].
  destruct (Z.testbit bm i); [constructor; [done|by apply IH]|].
  destruct Hn; [constructor|]. constructor; [done|by apply IH].
Qed.

(** Bit [i] of the index is the direction above the [i]-th node. *)
Lemma index_bit path n rem i :
  0 ≤ i → i + Z.of_nat (S rem) = n → n ≤ 256 →
  Z.testbit (Z.shiftr (be_decode path) (256 - n)) i = path_bit path rem.
Proof. intros Hi Hr Hn. rewrite Z.shiftr_spec by done. unfold path_bit. f_equal. lia. Qed.

(** The loop succeeds iff there are enough side nodes, and then climbs along the path. *)
Lemma root_loop_spec p path n rem : ∀ i buf idx cur,
  Forall (λ s, length s = 32%nat) (vp_SideNodes p) →
  length buf = 96%nat → length cur = 32%nat → 0 ≤ i → i + Z.of_nat rem = n → n ≤ 256 →
  let sides := resolve (vp_BitMask p) (drop idx (vp_SideNodes p)) i rem in
  root_loop rem i p (Z.shiftr (be_decode path) (256 - n)) buf idx cur =
  if decide (length sides = rem) then Ok (climb path sides cur) else Panic.
Proof.
  induction rem as [|rem IH]; intros i buf idx cur Hw Hb Hc Hi Hr Hn sides; subst sides; [done|].
  cbn [root_loop resolve]. rewrite !land_shiftl_testbit, negb_involutive by done.
  rewrite (index_bit path n rem i) by lia.
  destruct (Z.testbit (vp_BitMask p) i) eqn:Hbit.
  { destruct (inner_spec buf (path_bit path rem) cur DEFAULT_VALUE) as [Hl Hh]; [done..|].
    cbn [res_bind fst snd]. rewrite IH by (rewrite ?Hh, ?keccak256_length; done || lia).
    cbn [length]. repeat case_decide; try lia; [|done]. cbn [climb]. rewrite Hh. do 5 f_equal. lia. }
  destruct (vp_SideNodes p !! idx) as [s|] eqn:Hs.
  - rewrite (drop_S _ s) by done. pose proof (proj1 (Forall_lookup _ _) Hw _ _ Hs) as Hlen.
    destruct (inner_spec buf (path_bit path rem) cur s) as [Hl Hh]; [done..|].
    cbn [res_bind fst snd]. rewrite IH by (rewrite ?Hh, ?keccak256_length; done || lia).
    cbn [length]. repeat case_decide; try lia; [|done]. cbn [climb]. rewrite Hh. do 5 f_equal. lia.
  - rewrite drop_ge by (by apply lookup_ge_None). done.
Qed.

Lemma leaf_hash_length input : length (leaf_hash input) = 32%nat.
Proof. destruct input; [apply keccak256_length|done]. Qed.

(** The leaf of the proof: refused only if the unrelated leaf is at the key's own path. *)
Definition unrelated (p : SMTVerifierCompactProof) : Prop :=
  vp_Value p = DEFAULT_VALUE → vp_NonMembershipLeafPath p ≠ DEFAULT_VALUE →
  vp_NonMembershipLeafPath p ≠ keccak256 (vp_Key p).

#[export] Instance unrelated_dec p : Decision (unrelated p).
Proof. unfold unrelated. apply _. Defined.

Lemma computeProofLeaf_spec buf p :
  length buf = 96%nat → proof_wf p →
  if decide (unrelated p)
  then ∃ buf', length buf' = 96%nat ∧
    _computeProofLeaf buf (keccak256 (vp_Key p)) p = Ok (buf', leaf_hash (leaf_input p))
  else _computeProofLeaf buf (keccak256 (vp_Key p)) p = Err "nonMembershipLeaf not unrelated"%string.
Proof.
  intros Hb [Hv _ _ Hlp Hlv]. unfold _computeProofLeaf, leaf_input, unrelated.
  change (replicate 32 0) with DEFAULT_VALUE.
  destruct (decide (vp_Value p = DEFAULT_VALUE)) as [Hz|Hz].
  - rewrite bool_decide_true by done.
    destruct (decide (vp_NonMembershipLeafPath p = DEFAULT_VALUE)) as [Hp|Hp].
    { rewrite bool_decide_true, decide_True by (done || by intros). by exists buf. }
    rewrite (bool_decide_false (_ = DEFAULT_VALUE)) by done.
    destruct (decide (vp_NonMembershipLeafPath p = keccak256 (vp_Key p))) as [He|He].
    + rewrite decide_False by (intros Hn; by apply Hn). rewrite bool_decide_true by done. done.
    + rewrite decide_True by done. rewrite bool_decide_false by done. cbn [negb require res_bind].
      destruct (hashNode_spec buf LEAF_NODE_PREFIX _ _ Hb Hlp Hlv) as [Hl Hh].
      eexists. split; [exact Hl|]. rewrite (surjective_pairing (_hashNode _ _ _ _)). do 2 f_equal. exact Hh.
  - rewrite bool_decide_false, decide_True by (done || by intros).
    destruct (hashNode_spec buf LEAF_NODE_PREFIX (keccak256 (vp_Key p)) _ Hb (keccak256_length _) Hv) as [Hl Hh].
    eexists. split; [exact Hl|]. rewrite (surjective_pairing (_hashNode _ _ _ _)). do 2 f_equal. exact Hh.
Qed.

(** The conditions under which a proof is accepted. *)
Record proves (root : bytes) (p : SMTVerifierCompactProof) : Prop := {
  pr_given : Z.of_nat (length (vp_SideNodes p)) ≤ 256;
  pr_depth : vp_NumSideNodes p ≤ 256;
  pr_unrelated : unrelated p;
  pr_sides : Z.of_nat (length (proof_sides p)) = vp_NumSideNodes p;
  pr_root : root = descend (keccak256 (vp_Key p)) 0 (proof_sides p) (leaf_hash (leaf_input p)) }.

Lemma computeProofRoot_spec p :
  proof_wf p → vp_NumSideNodes p ≤ 256 → unrelated p →
  _computeProofRoot p =
  if decide (Z.of_nat (length (proof_sides p)) = vp_NumSideNodes p)
  then Ok (descend (keccak256 (vp_Key p)) 0 (proof_sides p) (leaf_hash (leaf_input p))) else Panic.
Proof.
  intros Hwf Hn Hu. pose proof (wf_num _ Hwf) as Hnum. unfold _computeProofRoot.
  pose proof (computeProofLeaf_spec (replicate 96 0) p (length_replicate _ _) Hwf) as Hleaf.
  rewrite decide_True in Hleaf by done. destruct Hleaf as (buf & Hb & ->). cbn [res_bind fst snd].
  unfold checked. rewrite bool_decide_true by lia. cbn [res_bind].
  rewrite (root_loop_spec p (keccak256 (vp_Key p)) (vp_NumSideNodes p))
    by (apply leaf_hash_length || apply (wf_sides _ Hwf) || done || lia).
  rewrite drop_0. unfold proof_sides. rewrite length_reverse, climb_descend.
  repeat case_decide; try done; lia.
Qed.

Lemma verifyProof_ok root p : proof_wf p → verifyProof root p = Ok true ↔ proves root p.
Proof.
  intros Hwf. unfold verifyProof, require, MAX_DEPTH. split.
  - destruct (_ && _) eqn:Hc; [|done]. apply andb_true_iff in Hc as [Hg%Z.leb_le Hn%Z.leb_le]. cbn [res_bind].
    destruct (decide (unrelated p)) as [Hu|Hu].
    + rewrite computeProofRoot_spec by done. case_decide as Hs; [|done].
      cbn [res_bind]. intros [= Hr%bool_decide_eq_true]. by split.
    + unfold _computeProofRoot.
      pose proof (computeProofLeaf_spec (replicate 96 0) p (length_replicate _ _) Hwf) as Hleaf.
      rewrite decide_False in Hleaf by done. rewrite Hleaf. done.
  - intros [Hg Hn Hu Hs Hr]. rewrite (proj2 (Z.leb_le _ _) Hg), (proj2 (Z.leb_le _ _) Hn). cbn [andb res_bind].
    rewrite computeProofRoot_spec, decide_True by done. cbn [res_bind]. by rewrite bool_decide_true.
Qed.

(** ** One value per key and root *)

Lemma descend_length path d sides leaf : length leaf = 32%nat → length (descend path d sides leaf) = 32%nat.
Proof. destruct sides; [done|]. intros _. apply keccak256_length. Qed.

Lemma cons_subseteq {X} (x : X) l k : x :: l ⊆ k → x ∈ k ∧ l ⊆ k.
Proof. intros Hs. split; [apply Hs; constructor|]. intros y Hy. apply Hs. by constructor. Qed.

Lemma node_input_inj b c s c' s' :
  length c = length c' → length s = length s' → node_input b c s = node_input b c' s' → c = c' ∧ s = s'.
Proof.
  unfold node_input. intros Hc Hs Heq. injection Heq as Heq.
  destruct b; apply app_inj_1 in Heq as [-> ->]; done.
Qed.

(** Two paths with one hash at their top are the same as far as the shorter goes. *)
Lemma descend_agree path inputs s1 : ∀ s2 d l1 l2,
  collision_free inputs → descend_inputs path d s1 l1 ⊆ inputs → descend_inputs path d s2 l2 ⊆ inputs →
  length l1 = 32%nat → length l2 = 32%nat →
  Forall (λ s, length s = 32%nat) s1 → Forall (λ s, length s = 32%nat) s2 →
  descend path d s1 l1 = descend path d s2 l2 →
  ∃ d' s, (l1 = descend path d' s l2 ∧ descend_inputs path d' s l2 ⊆ inputs) ∨
          (l2 = descend path d' s l1 ∧ descend_inputs path d' s l1 ⊆ inputs).
Proof.
  induction s1 as [|x s1 IH]; intros s2 d l1 l2 Hcf Hi1 Hi2 Hl1 Hl2 Hs1 Hs2 Heq.
  { exists d, s2. by left. }
  destruct s2 as [|y s2]; [exists d, (x :: s1); by right|].
  apply Forall_cons in Hs1 as [Hx Hs1], Hs2 as [Hy Hs2]. cbn [descend descend_inputs] in *.
  apply cons_subseteq in Hi1 as [Hin1 Hi1], Hi2 as [Hin2 Hi2].
  apply (collision_free_inj inputs) in Heq; [|done..].
  apply node_input_inj in Heq as [Heq _]; [|by rewrite !descend_length|by rewrite Hx, Hy].
  by apply (IH s2 (S d)).
Qed.

(** A leaf is not an inner node. *)
Lemma leaf_not_inner path inputs d s l input :
  collision_free inputs → option_list input ⊆ inputs → descend_inputs path d s l ⊆ inputs →
  (∀ x, input = Some x → ∃ p v, x = leaf_node p v) → leaf_hash input = descend path d s l → s = [].
Proof.
  intros Hcf Hin Hi Hleaf Heq. destruct s as [|x s]; [done|]. exfalso. cbn [descend descend_inputs] in *.
  apply cons_subseteq in Hi as [Hi _].
  destruct input as [z|]; cbn [leaf_hash from_option option_list] in *.
  - destruct (Hleaf z) as (p & v & ->); [done|].
    apply (collision_free_inj inputs) in Heq; [done|done|apply Hin; constructor|done].
  - symmetry in Heq. by apply (collision_free_nonzero inputs) in Heq.
Qed.

Lemma leaf_hash_inj inputs i1 i2 :
  collision_free inputs → option_list i1 ⊆ inputs → option_list i2 ⊆ inputs →
  leaf_hash i1 = leaf_hash i2 → i1 = i2.
Proof.
  intros Hcf H1 H2 Heq. destruct i1 as [x|], i2 as [y|]; cbn [leaf_hash from_option option_list] in *; [| | |done].
  - f_equal. apply (collision_free_inj inputs); [done|apply H1; constructor|apply H2; constructor|done].
  - apply (collision_free_nonzero inputs) in Heq; [done|done|apply H1; constructor].
  - symmetry in Heq. apply (collision_free_nonzero inputs) in Heq; [done|done|apply H2; constructor].
Qed.

Lemma leaf_input_shape p x : leaf_input p = Some x → ∃ q v, x = leaf_node q v.
Proof. unfold leaf_input. repeat case_decide; intros [= <-]; eauto. Qed.

Lemma leaf_node_inj p v p' v' : length p = length p' → leaf_node p v = leaf_node p' v' → p = p' ∧ v = v'.
Proof. unfold leaf_node. intros Hl [= Heq]. by apply app_inj_1 in Heq. Qed.

(** The leaf determines the value. *)
Lemma leaf_input_value p1 p2 :
  proof_wf p1 → proof_wf p2 → unrelated p1 → unrelated p2 → vp_Key p1 = vp_Key p2 →
  leaf_input p1 = leaf_input p2 → vp_Value p1 = vp_Value p2.
Proof.
  intros [? _ _ ? _] [? _ _ ? _] Hu1 Hu2 Hk. unfold leaf_input, unrelated in *. rewrite Hk in *.
  assert (length (keccak256 (vp_Key p2)) = 32%nat) by apply keccak256_length.
  repeat case_decide; try congruence; intros [= Heq]; apply app_inj_1 in Heq as [Hp Hv]; try congruence;
    exfalso; naive_solver.
Qed.

Lemma proof_sides_words p : proof_wf p → Forall (λ s, length s = 32%nat) (proof_sides p).
Proof. intros Hwf. apply Forall_reverse, resolve_words, (wf_sides _ Hwf). Qed.

(** The root fixes the leaf a key's path ends at. *)
Lemma descend_leaf path inputs s1 s2 i1 i2 :
  collision_free inputs →
  option_list i1 ⊆ inputs → option_list i2 ⊆ inputs →
  descend_inputs path 0 s1 (leaf_hash i1) ⊆ inputs → descend_inputs path 0 s2 (leaf_hash i2) ⊆ inputs →
  (∀ x, i1 = Some x → ∃ p v, x = leaf_node p v) → (∀ x, i2 = Some x → ∃ p v, x = leaf_node p v) →
  Forall (λ s, length s = 32%nat) s1 → Forall (λ s, length s = 32%nat) s2 →
  descend path 0 s1 (leaf_hash i1) = descend path 0 s2 (leaf_hash i2) → i1 = i2.
Proof.
  intros Hcf Ho1 Ho2 Hi1 Hi2 Hsh1 Hsh2 Hs1 Hs2 Heq. apply (leaf_hash_inj inputs); [done..|].
  destruct (descend_agree path inputs s1 s2 0 (leaf_hash i1) (leaf_hash i2))
    as (d & s & [[Hd Hin]|[Hd Hin]]); [done|done|done|apply leaf_hash_length..|done|done|done| |].
  - by rewrite (leaf_not_inner path inputs d s (leaf_hash i2) i1) in Hd.
  - by rewrite (leaf_not_inner path inputs d s (leaf_hash i1) i2) in Hd.
Qed.

Lemma accepted_values_agree root p1 p2 :
  proof_wf p1 → proof_wf p2 → vp_Key p1 = vp_Key p2 → collision_free (proof_inputs p1 ++ proof_inputs p2) →
  proves root p1 → proves root p2 → vp_Value p1 = vp_Value p2.
Proof.
  intros Hw1 Hw2 Hk Hcf [_ _ Hu1 _ Hr1] [_ _ Hu2 _ Hr2].
  apply leaf_input_value; [done..|]. unfold proof_inputs in Hcf. rewrite Hk in *. rewrite Hr2 in Hr1.
  symmetry in Hr1. eapply (descend_leaf (keccak256 (vp_Key p2)) _ (proof_sides p1) (proof_sides p2));
    [exact Hcf|set_solver..| | | | |exact Hr1]; first [apply leaf_input_shape|by apply proof_sides_words].
Qed.

End Theory.

(** ** The reference: tries with leaves at any depth *)

Inductive tree : Type :=
| TNil
| TLeaf (path value : bytes)
| TInner (left right : tree).

Section Tree.
Context `{H : HashOps} {HL : HashLaws H}.

Fixpoint tree_root (t : tree) : bytes :=
  match t with
  | TNil => DEFAULT_VALUE
  | TLeaf path value => keccak256 (leaf_node path value)
  | TInner l r => keccak256 (node_input false (tree_root l) (tree_root r))
  end.

Fixpoint tree_inputs (t : tree) : list bytes :=
  match t with
  | TNil => []
  | TLeaf path value => [leaf_node path value]
  | TInner l r => node_input false (tree_root l) (tree_root r) :: tree_inputs l ++ tree_inputs r
  end.

Fixpoint tree_leaves (t : tree) : list (bytes * bytes) :=
  match t with
  | TNil => []
  | TLeaf path value => [(path, value)]
  | TInner l r => tree_leaves l ++ tree_leaves r
  end.

(** The siblings along a path, the topmost first, and the leaf or empty node at its end. *)
Fixpoint tree_sides (path : bytes) (d : nat) (t : tree) : list bytes :=
  match t with
  | TInner l r =>
      if path_bit path d then tree_root l :: tree_sides path (S d) r else tree_root r :: tree_sides path (S d) l
  | _ => []
  end.

Fixpoint tree_end (path : bytes) (d : nat) (t : tree) : option (bytes * bytes) :=
  match t with
  | TNil => None
  | TLeaf p v => Some (p, v)
  | TInner l r => if path_bit path d then tree_end path (S d) r else tree_end path (S d) l
  end.

Definition end_input (e : option (bytes * bytes)) : option bytes := (λ pv, leaf_node pv.1 pv.2) <$> e.

(** The value of a path, and the leaf of another path in its place. *)
Definition tree_lookup (path : bytes) (t : tree) : option bytes :=
  match tree_end path 0 t with
  | Some (p, v) => if decide (p = path) then Some v else None
  | None => None
  end.
Definition other_leaf (path : bytes) (t : tree) : option (bytes * bytes) :=
  match tree_end path 0 t with
  | Some (p, v) => if decide (p = path) then None else Some (p, v)
  | None => None
  end.

Definition word_leaves (t : tree) : Prop :=
  Forall (λ pv, length pv.1 = 32%nat ∧ length pv.2 = 32%nat) (tree_leaves t).

Lemma tree_root_length t : length (tree_root t) = 32%nat.
Proof. destruct t; [done|apply keccak256_length..]. Qed.

Lemma tree_sides_words path d t : Forall (λ s, length s = 32%nat) (tree_sides path d t).
Proof.
  revert d. induction t as [| |l IHl r IHr]; intros d; simpl; [constructor..|].
  destruct (path_bit path d); constructor; auto using tree_root_length.
Qed.

Lemma tree_end_leaf path d t pv : tree_end path d t = Some pv → pv ∈ tree_leaves t.
Proof.
  revert d. induction t as [|p v|l IHl r IHr]; intros d; simpl; [done|intros [= <-]; constructor|].
  destruct (path_bit path d); intros Hd; apply elem_of_app; eauto.
Qed.

Lemma tree_end_input path d t : option_list (end_input (tree_end path d t)) ⊆ tree_inputs t.
Proof.
  revert d. induction t as [|p v|l IHl r IHr]; intros d; simpl; [done..|].
  destruct (path_bit path d); [specialize (IHr (S d))|specialize (IHl (S d))]; set_solver.
Qed.

(** The hashes along a path are those of the trie. *)
Lemma tree_descend path d t :
  descend path d (tree_sides path d t) (leaf_hash (end_input (tree_end path d t))) = tree_root t.
Proof.
  revert d. induction t as [|p v|l IHl r IHr]; intros d; simpl; [done..|].
  destruct (path_bit path d) eqn:Hb; simpl; rewrite Hb; [by rewrite IHr|by rewrite IHl].
Qed.

Lemma tree_descend_inputs path d t :
  descend_inputs path d (tree_sides path d t) (leaf_hash (end_input (tree_end path d t))) ⊆ tree_inputs t.
Proof.
  revert d. induction t as [|p v|l IHl r IHr]; intros d; simpl; [apply list_subseteq_nil..|].
  destruct (path_bit path d) eqn:Hb; simpl; rewrite Hb, tree_descend;
    [specialize (IHr (S d))|specialize (IHl (S d))]; set_solver.
Qed.

Lemma end_input_shape e x : end_input e = Some x → ∃ p v, x = leaf_node p v.
Proof. destruct e as [[p v]|]; intros [= <-]; eauto. Qed.

(** *** Soundness: an accepted proof shows the value of the trie *)
Lemma accepted_value_in_tree t p :
  proof_wf p → word_leaves t → collision_free (proof_inputs p ++ tree_inputs t) → proves (tree_root t) p →
  vp_Value p = default DEFAULT_VALUE (tree_lookup (keccak256 (vp_Key p)) t).
Proof.
  intros Hwf Ht Hcf [_ _ Hu _ Hr]. set (path := keccak256 (vp_Key p)) in *.
  assert (leaf_input p = end_input (tree_end path 0 t)) as Heq.
  { pose proof (tree_end_input path 0 t) as He. pose proof (tree_descend_inputs path 0 t) as Hd.
    unfold proof_inputs in Hcf. fold path in Hcf. rewrite <- (tree_descend path 0 t) in Hr.
    symmetry in Hr. eapply (descend_leaf path _ (proof_sides p) (tree_sides path 0 t));
      [exact Hcf|set_solver..|apply leaf_input_shape|apply end_input_shape|by apply proof_sides_words
      |apply tree_sides_words|exact Hr]. }
  unfold tree_lookup. destruct (tree_end path 0 t) as [[q v]|] eqn:He; simpl in Heq.
  - apply tree_end_leaf in He. unfold word_leaves in Ht. rewrite Forall_forall in Ht.
    destruct (Ht _ He) as [Hq Hv]; simpl in Hq, Hv.
    destruct Hwf as [_ _ _ Hlp _]. unfold leaf_input, unrelated in *. fold path in Heq, Hu.
    assert (length path = 32%nat) by apply keccak256_length.
    repeat case_decide; try done; injection Heq as Heq; apply app_inj_1 in Heq as [Hp Hval];
      simpl; try congruence; exfalso; naive_solver.
  - unfold leaf_input in Heq. by repeat case_decide.
Qed.

(** *** Completeness: the siblings along the path are a proof *)

(** Whether the verifier can tell the trie's entries from empty ones. *)
Definition nonzero_leaves (t : tree) : Prop :=
  Forall (λ pv, pv.1 ≠ DEFAULT_VALUE ∧ pv.2 ≠ DEFAULT_VALUE) (tree_leaves t).

Lemma tree_proof_verifies t p :
  proof_wf p → nonzero_leaves t →
  let path := keccak256 (vp_Key p) in
  proof_sides p = tree_sides path 0 t →
  vp_NumSideNodes p = Z.of_nat (length (tree_sides path 0 t)) → vp_NumSideNodes p ≤ 256 →
  Z.of_nat (length (vp_SideNodes p)) ≤ 256 →
  vp_Value p = default DEFAULT_VALUE (tree_lookup path t) →
  (vp_NonMembershipLeafPath p, vp_NonMembershipLeafValue p) =
    default (DEFAULT_VALUE, DEFAULT_VALUE) (other_leaf path t) →
  proves (tree_root t) p.
Proof.
  intros Hwf Hnz path Hs Hn Hn256 Hg Hv Hm.
  assert (unrelated p ∧ leaf_input p = end_input (tree_end path 0 t)) as [Hu Hleaf].
  { unfold tree_lookup, other_leaf in *. unfold unrelated, leaf_input. fold path.
    destruct (tree_end path 0 t) as [[q v]|] eqn:He; simpl.
    - apply tree_end_leaf in He. unfold nonzero_leaves in Hnz. rewrite Forall_forall in Hnz.
      destruct (Hnz _ He) as [Hq Hv0]; simpl in *.
      destruct (decide (q = path)) as [->|Hne]; simpl in *; injection Hm as -> ->.
      + rewrite Hv. rewrite decide_False by done. by split.
      + rewrite Hv. rewrite decide_True, decide_False by done. by split.
    - injection Hm as -> ->. simpl in Hv. rewrite Hv. rewrite !decide_True by done. by split. }
  split; [done|done|done|by rewrite Hs, Hn|].
  fold path. rewrite Hs, Hleaf. symmetry. apply tree_descend.
Qed.

End Tree.
