(* ===== verification/Inclusion.v ===== *)
(** * Inclusion of messages in checkpoints

    [verifyMessageInclusionState] of [contracts/evm/src/eth/SFFLTaskManager.sol], for the
    two message types, and the proofs [core/smt/smt.go] makes for it ([ProveCompact],
    [NewSMTVerifierProof]).  [SmtProofLaws] says what the Go code takes from the trie
    library: its root and its proofs are those of a trie as the contract's comment
    describes it, holding what was added.

    - [included_message_proved]: from a checkpoint's messages, the Go code makes a proof
      that the contract accepts, for a message in the checkpoint and for one that is not;
    - [inclusion_verdict_sound]: whatever proof the contract accepts, its verdict on a
      message is whether the message was in the checkpoint. *)

From S2P Require Import Prelude CoreTypes Instances Messages MessagesTheory Smt AvsReader.
From S2P Require Import RegistryContract RegistryContractTheory SparseMerkle.

(** ** Proofs of the trie library *)

(** [smt.SparseMerkleProof], with the fields that matter. *)
Record SparseMerkleProof := mkSparseMerkleProof {
  sp_SideNodes : list bytes;
  sp_NonMembershipLeafData : option bytes }.

Class SmtProofOps {T : SmtOps} : Type := {
  smt_Prove : Trie → bytes → go SparseMerkleProof;
  smt_CompactProof : SparseMerkleProof → go SparseCompactMerkleProof;
}.
Arguments SmtProofOps : clear implicits.

(** A key's path is its hash, the hasher [NewSMT] passes.  The trie is a [tree] with the
    contents as its leaves, at most 256 deep; a proof lists the siblings from the leaf up and
    the unrelated leaf in the key's place; the compact form leaves out empty siblings and
    marks them in the bit mask. *)
Class SmtProofLaws {H : HashOps} {T : SmtOps} (TL : SmtLaws T) (P : SmtProofOps T) : Type := {
  smt_tree : Trie → tree;
  smt_path_keccak k : smt_path k = keccak256 k;
  smt_tree_root t : smt_Root t = tree_root (smt_tree t);
  smt_tree_lookup t k : tree_lookup (keccak256 k) (smt_tree t) = smt_contents t !! keccak256 k;
  smt_tree_leaves t p v : (p, v) ∈ tree_leaves (smt_tree t) → smt_contents t !! p = Some v;
  smt_tree_depth t k : (length (tree_sides (keccak256 k) 0 (smt_tree t)) ≤ 256)%nat;
  smt_Prove_spec t k :
    smt_Prove t k = Ok (mkSparseMerkleProof (reverse (tree_sides (keccak256 k) 0 (smt_tree t)))
                          ((λ pv, leaf_node pv.1 pv.2) <$> other_leaf (keccak256 k) (smt_tree t)));
  smt_CompactProof_spec sides leaf :
    (length sides ≤ 256)%nat →
    ∃ bitMask,
      smt_CompactProof (mkSparseMerkleProof sides leaf) =
        Ok (mkCompactProof (filter (.≠ DEFAULT_VALUE) sides) leaf bitMask (Z.of_nat (length sides))) ∧
      ∀ i s, sides !! i = Some s → getPathBit bitMask i = bool_decide (s = DEFAULT_VALUE);
}.

Section Proofs.
Context `{B : BlsOps} `{H : HashOps} `{A : AbiOps} `{T : SmtOps} {P : SmtProofOps T}.

Definition ProveCompact (s : Trie) (key : bytes) : go SparseCompactMerkleProof :=
  let? proof := smt_Prove s key in smt_CompactProof proof.

(** ** The task manager's check *)

(** The overload for state root updates, and the one for operator set updates.  The message
    index is compared as a [bytes32]. *)
Definition sru_verifyMessageInclusionState (message : StateRootUpdateMessage)
    (taskResponse : CheckpointTaskResponse) (proof : SMTVerifierCompactProof) : evm bool :=
  let? _ := require (bool_decide (vp_Key proof = be_encode 32 (sru_indexCalldata message)))
              "Wrong message index" in
  let? valid := verifyProof (ctr_StateRootUpdatesRoot taskResponse) proof in
  let? _ := require valid "Invalid SMT proof" in
  let? hash := sru_hashCalldata message in
  Ok (bool_decide (vp_Value proof = hash)).

Definition osu_verifyMessageInclusionState (message : OperatorSetUpdateBinding)
    (taskResponse : CheckpointTaskResponse) (proof : SMTVerifierCompactProof) : evm bool :=
  let? _ := require (bool_decide (vp_Key proof = be_encode 32 (osu_indexCalldata message)))
              "Wrong message index" in
  let? valid := verifyProof (ctr_OperatorSetUpdatesRoot taskResponse) proof in
  let? _ := require valid "Invalid SMT proof" in
  let? hash := osu_hashCalldata message in
  Ok (bool_decide (vp_Value proof = hash)).

(** The trie whose root a checkpoint response has. *)
Definition message_trie {M} `{AggMessage M} (msgs : list M) : go Trie :=
  let? s := AddMessages smt_new msgs in smt_Commit s.

End Proofs.

(** ** The compact form *)

Lemma resolve_compact bm (sides : list bytes) : ∀ i,
  (∀ (j : nat) s, sides !! j = Some s → Z.testbit bm (i + Z.of_nat j) = bool_decide (s = DEFAULT_VALUE)) →
  resolve bm (filter (.≠ DEFAULT_VALUE) sides) i (length sides) = sides.
Proof.
  induction sides as [|s sides IH]; intros i Hb; [done|]. cbn [length resolve].
  pose proof (Hb 0%nat s eq_refl) as Hs. rewrite Z.add_0_r in Hs.
  assert (resolve bm (filter (.≠ DEFAULT_VALUE) sides) (i + 1) (length sides) = sides) as Hrest.
  { apply IH. intros j s' Hj. rewrite <- (Hb (S j) s' Hj). f_equal. lia. }
  rewrite Hs. case_bool_decide as Hd.
  - rewrite filter_cons_False by (by intros ?). rewrite Hrest. by f_equal.
  - rewrite filter_cons_True by done. by rewrite Hrest.
Qed.

Section Theory.
Context `{B : BlsOps} `{H : HashOps} {HL : HashLaws H} `{A : AbiOps}.
Context `{T : SmtOps} {TL : SmtLaws T} {P : SmtProofOps T} {PL : SmtProofLaws TL P}.

(** The verifier's proof of a key, in terms of the trie. *)
Record proof_of (t : tree) (key value : bytes) (p : SMTVerifierCompactProof) : Prop := {
  po_key : vp_Key p = key;
  po_value : vp_Value p = value;
  po_sides : proof_sides p = tree_sides (keccak256 key) 0 t;
  po_num : vp_NumSideNodes p = Z.of_nat (length (tree_sides (keccak256 key) 0 t));
  po_given : (length (vp_SideNodes p) ≤ length (tree_sides (keccak256 key) 0 t))%nat;
  po_words : Forall (λ s, length s = 32%nat) (vp_SideNodes p);
  po_leaf : (vp_NonMembershipLeafPath p, vp_NonMembershipLeafValue p) =
              default (DEFAULT_VALUE, DEFAULT_VALUE) (other_leaf (keccak256 key) t) }.

Lemma other_leaf_leaf path t pv : other_leaf path t = Some pv → pv ∈ tree_leaves t.
Proof.
  unfold other_leaf. destruct (tree_end path 0 t) as [[p v]|] eqn:He; [|done].
  case_decide; intros [= <-]. by eapply tree_end_leaf.
Qed.

Lemma slice_leaf {E} (p v : bytes) : length p = 32%nat → length v = 32%nat →
  go_slice (E := E) (leaf_node p v) 1 33 = Ok p ∧ go_slice (E := E) (leaf_node p v) 33 65 = Ok v.
Proof.
  intros Hp Hv. unfold go_slice, leaf_node. cbn [length]. rewrite !length_app, Hp, Hv. cbn [Nat.add Nat.sub Nat.leb andb].
  split; f_equal.
  - cbn [drop]. rewrite drop_0. by rewrite take_app_length' by done.
  - cbn [drop]. rewrite drop_app_length' by done. by rewrite take_ge by lia.
Qed.

Lemma res_mapM_words {E} (l : list bytes) :
  Forall (λ s, length s = 32%nat) l → res_mapM (E := E) to_bytes32 l = Ok l.
Proof. induction 1 as [|s l Hs _ IH]; simpl; [done|]. by rewrite to_bytes32_id, IH by done. Qed.

(** [ProveCompact] and [NewSMTVerifierProof] give the path of the trie. *)
Lemma verifier_proof_of (t : Trie) (key value : bytes) :
  word_leaves (smt_tree t) →
  ∃ cp p, ProveCompact t key = Ok cp ∧ NewSMTVerifierProof key value cp = Ok p ∧ proof_of (smt_tree t) key value p.
Proof.
  intros Hw. unfold ProveCompact. rewrite smt_Prove_spec. cbn [res_bind].
  set (path := keccak256 key). set (sides := tree_sides path 0 (smt_tree t)).
  assert (length (reverse sides) ≤ 256)%nat as Hlen by (rewrite length_reverse; apply smt_tree_depth).
  set (leaf := _ <$> _). destruct (smt_CompactProof_spec (reverse sides) leaf Hlen) as (bm & -> & Hbits).
  assert (Forall (λ s, length s = 32%nat) (filter (.≠ DEFAULT_VALUE) (reverse sides))) as Hwords.
  { apply Forall_forall. intros s [_ Hs]%list_elem_of_filter.
    revert s Hs. apply Forall_forall, Forall_reverse, tree_sides_words. }
  assert (∃ lp lv, (match leaf with
            | None => Ok (replicate 32 0, replicate 32 0)
            | Some data =>
                let? path := (let? s := go_slice data 1 33 in to_bytes32 s) in
                let? value := (let? s := go_slice data 33 65 in to_bytes32 s) in
                Ok (path, value)
            end : go (bytes * bytes)) = Ok (lp, lv) ∧
          (lp, lv) = default (DEFAULT_VALUE, DEFAULT_VALUE) (other_leaf path (smt_tree t))) as (lp & lv & Hl & Hdef).
  { subst leaf. destruct (other_leaf _ _) as [[q v]|] eqn:Ho; [|by eexists _, _]. apply other_leaf_leaf in Ho.
    unfold word_leaves in Hw. rewrite Forall_forall in Hw. destruct (Hw _ Ho) as [Hq Hv]; simpl in Hq, Hv.
    destruct (slice_leaf (E := GoError) q v Hq Hv) as [Hs1 Hs2]. exists q, v. split; [|done].
    cbn [fmap option_fmap option_map fst snd]. rewrite Hs1. cbn [res_bind]. rewrite to_bytes32_id by done.
    cbn [res_bind]. rewrite Hs2. cbn [res_bind]. rewrite to_bytes32_id by done. done. }
  eexists _, _. split; [done|]. unfold NewSMTVerifierProof.
  cbn [cp_SideNodes cp_NonMembershipLeafData cp_BitMask cp_NumSideNodes].
  rewrite res_mapM_words by done. cbn [res_bind]. rewrite Hl. cbn [res_bind fst snd]. split; [done|].
  split; simpl; [done|done| |by rewrite length_reverse| |done|done].
  - unfold proof_sides; simpl. rewrite Nat2Z.id, resolve_compact; [apply reverse_involutive|].
    intros j s Hj. rewrite Z.add_0_l, formatBitMask_bits. by apply Hbits.
  - etrans; [apply length_filter|]. by rewrite length_reverse.
Qed.

(** ** The contents of a checkpoint's trie *)
Section Messages.
Context {M : Type} `{AM : AggMessage M} (digest_length : ∀ (m : M) d, msg_Digest m = Ok d → length d = 32%nat).

(** The verifier can tell the message from an empty entry. *)
Definition digest_nonzero (m : M) : Prop := msg_Digest m ≠ Ok DEFAULT_VALUE.

Lemma message_trie_contents (msgs : list M) t :
  message_trie msgs = Ok t →
  Forall (λ m, is_ok (msg_Digest m) = true) msgs ∧
  smt_contents t = list_to_map (reverse (smt_entry <$> msgs)).
Proof.
  intros (s & Hs & Hc)%res_bind_ok. apply AddMessages_ok in Hs as [Hok Hs]. split; [done|].
  rewrite (smt_contents_commit _ _ Hc), Hs, smt_contents_new. apply (right_id_L ∅ (∪)).
Qed.

Lemma contents_message (msgs : list M) t p v :
  message_trie msgs = Ok t → smt_contents t !! p = Some v →
  ∃ m, m ∈ msgs ∧ keccak256 (msg_Key m) = p ∧ msg_Digest m = Ok v.
Proof.
  intros (Hok & Hc)%message_trie_contents Hl. rewrite Hc in Hl.
  apply elem_of_list_to_map_2 in Hl. rewrite elem_of_reverse in Hl.
  apply list_elem_of_fmap in Hl as (m & Heq & Hm). injection Heq as -> ->. exists m. split; [done|].
  rewrite smt_path_keccak. split; [done|]. apply res_or_ok. rewrite Forall_forall in Hok. by apply Hok.
Qed.

Lemma contents_lookup (msgs : list M) t m v :
  NoDup (msg_Key <$> msgs) → collision_free (msg_Key <$> msgs) → message_trie msgs = Ok t →
  m ∈ msgs → msg_Digest m = Ok v → smt_contents t !! keccak256 (msg_Key m) = Some v.
Proof.
  intros Hnd Hcf (Hok & ->)%message_trie_contents Hm Hd. apply elem_of_list_to_map_1.
  - rewrite fmap_reverse. rewrite reverse_Permutation, <- list_fmap_compose.
    assert ((fst ∘ smt_entry <$> msgs) = keccak256 <$> (msg_Key <$> msgs)) as ->.
    { rewrite <- list_fmap_compose. apply list_fmap_ext. intros i x _. apply smt_path_keccak. }
    apply NoDup_fmap_2_strong; [|done]. intros x y Hx Hy. by apply (collision_free_inj (msg_Key <$> msgs)).
  - rewrite elem_of_reverse. apply list_elem_of_fmap. exists m. split; [|done].
    unfold smt_entry. by rewrite Hd, smt_path_keccak.
Qed.

Lemma trie_word_leaves (msgs : list M) t : message_trie msgs = Ok t → word_leaves (smt_tree t).
Proof.
  intros Ht. apply Forall_forall. intros [p v] Hl. apply smt_tree_leaves in Hl.
  destruct (contents_message msgs t p v Ht Hl) as (m & _ & <- & Hd). simpl.
  split; [apply keccak256_length|by eapply digest_length].
Qed.

Lemma trie_nonzero_leaves (msgs : list M) t :
  message_trie msgs = Ok t → collision_free (msg_Key <$> msgs) → Forall digest_nonzero msgs →
  nonzero_leaves (smt_tree t).
Proof.
  intros Ht Hcf Hnz. apply Forall_forall. intros [p v] Hl. apply smt_tree_leaves in Hl.
  destruct (contents_message msgs t p v Ht Hl) as (m & Hm & <- & Hd). simpl. split.
  - apply (collision_free_nonzero (msg_Key <$> msgs)); [done|]. by apply list_elem_of_fmap_2.
  - intros ->. rewrite Forall_forall in Hnz. by apply (Hnz m).
Qed.

(** The value the trie has for a key. *)
Definition stored (msgs : list M) (key v : bytes) : Prop :=
  (∃ m, m ∈ msgs ∧ msg_Key m = key ∧ msg_Digest m = Ok v) ∨ (key ∉ (msg_Key <$> msgs) ∧ v = DEFAULT_VALUE).

Lemma stored_lookup (msgs : list M) t key v :
  NoDup (msg_Key <$> msgs) → collision_free (key :: (msg_Key <$> msgs)) → message_trie msgs = Ok t →
  stored msgs key v ↔ v = default DEFAULT_VALUE (tree_lookup (keccak256 key) (smt_tree t)).
Proof.
  intros Hnd Hcf Ht. rewrite smt_tree_lookup.
  assert (collision_free (msg_Key <$> msgs)) as Hcf' by (eapply collision_free_mono; [|done]; set_solver).
  assert (∀ m, m ∈ msgs → keccak256 (msg_Key m) = keccak256 key → msg_Key m = key) as Hinj.
  { intros m Hm. apply (collision_free_inj (key :: (msg_Key <$> msgs))); [done|right; by apply list_elem_of_fmap_2|left]. }
  split.
  - intros [(m & Hm & <- & Hd)|[Hk ->]].
    + by rewrite (contents_lookup msgs t m v).
    + destruct (smt_contents t !! keccak256 key) as [w|] eqn:Hl; [|done].
      destruct (contents_message msgs t _ w Ht Hl) as (m & Hm & Heq & _). exfalso. apply Hk.
      rewrite <- (Hinj m Hm Heq). by apply list_elem_of_fmap_2.
  - destruct (smt_contents t !! keccak256 key) as [w|] eqn:Hl; simpl; intros ->.
    + destruct (contents_message msgs t _ w Ht Hl) as (m & Hm & Heq & Hd). left. exists m. auto.
    + right. split; [|done]. intros (m & -> & Hm)%list_elem_of_fmap.
      destruct (message_trie_contents msgs t Ht) as [Hok _]. rewrite Forall_forall in Hok.
      pose proof (res_or_ok [] _ (Hok m Hm)) as Hd. by rewrite (contents_lookup msgs t m _ Hnd Hcf' Ht Hm Hd) in Hl.
Qed.

(** *** Completeness and soundness of the proofs of a checkpoint's trie *)

Lemma stored_proof (msgs : list M) t key v :
  NoDup (msg_Key <$> msgs) → collision_free (key :: (msg_Key <$> msgs)) → Forall digest_nonzero msgs →
  message_trie msgs = Ok t → stored msgs key v →
  ∃ cp p, ProveCompact t key = Ok cp ∧ NewSMTVerifierProof key v cp = Ok p ∧
    vp_Key p = key ∧ vp_Value p = v ∧ verifyProof (smt_Root t) p = Ok true.
Proof.
  intros Hnd Hcf Hnz Ht Hst. pose proof (trie_word_leaves msgs t Ht) as Hw.
  assert (nonzero_leaves (smt_tree t)) as Hnl.
  { eapply trie_nonzero_leaves; [done| |done]. eapply collision_free_mono; [|done]. set_solver. }
  apply (stored_lookup msgs t) in Hst; [|done..].
  destruct (verifier_proof_of t key v Hw) as (cp & p & Hcp & Hp & [Hk Hv Hs Hn Hg Hwd Hl]).
  exists cp, p. split_and!; [done..|].
  pose proof (smt_tree_depth t key) as Hd.
  assert (length (vp_NonMembershipLeafPath p) = 32%nat ∧ length (vp_NonMembershipLeafValue p) = 32%nat) as [Hlp Hlv].
  { destruct (other_leaf _ _) as [[q w]|] eqn:Ho; simpl in Hl; injection Hl as -> ->; [|done].
    apply other_leaf_leaf in Ho. unfold word_leaves in Hw. rewrite Forall_forall in Hw. by destruct (Hw _ Ho). }
  assert (length v = 32%nat) as Hlen.
  { rewrite Hst. unfold tree_lookup. destruct (tree_end _ _ _) as [[q w]|] eqn:He; [|done].
    apply tree_end_leaf in He. unfold word_leaves in Hw. rewrite Forall_forall in Hw.
    destruct (Hw _ He) as [_ Hw']. by case_decide. }
  assert (proof_wf p) as Hwf by (split; [by rewrite Hv|done|lia|done|done]).
  apply verifyProof_ok; [done|]. rewrite smt_tree_root. apply tree_proof_verifies; rewrite ?Hk; [done..|lia|lia| |done].
  by rewrite Hv.
Qed.

Lemma accepted_stored (msgs : list M) t p :
  NoDup (msg_Key <$> msgs) → collision_free (vp_Key p :: (msg_Key <$> msgs)) →
  message_trie msgs = Ok t → proof_wf p → collision_free (proof_inputs p ++ tree_inputs (smt_tree t)) →
  verifyProof (smt_Root t) p = Ok true → stored msgs (vp_Key p) (vp_Value p).
Proof.
  intros Hnd Hk Ht Hwf Hcf Hv. apply (stored_lookup msgs t); [done..|].
  apply accepted_value_in_tree; [done|by eapply trie_word_leaves|done|].
  apply verifyProof_ok; [done|]. by rewrite <- smt_tree_root.
Qed.

End Messages.

(** ** Checkpoints *)

Context {BL : BlsLaws B} {AL : AbiLaws A}.

Lemma Root_word t : length (smt_Root t) = 32%nat.
Proof. rewrite smt_tree_root. apply tree_root_length. Qed.

Lemma checkpoint_roots i cm resp :
  NewCheckpointTaskResponseFromMessages i cm = Ok resp →
  (∃ t, message_trie (cm_StateRootUpdateMessages cm) = Ok t ∧ ctr_StateRootUpdatesRoot resp = smt_Root t) ∧
  (∃ t, message_trie (cm_OperatorSetUpdateMessages cm) = Ok t ∧ ctr_OperatorSetUpdatesRoot resp = smt_Root t).
Proof.
  unfold NewCheckpointTaskResponseFromMessages, message_trie.
  intros (s1 & Hs1 & (t1 & Ht1 & (s2 & Hs2 & (t2 & Ht2 & Hr)%res_bind_ok)%res_bind_ok)%res_bind_ok)%res_bind_ok.
  rewrite Hs1, Hs2. cbn [res_bind]. rewrite !to_bytes32_id in Hr by apply Root_word. injection Hr as <-.
  split; eexists; done.
Qed.

(** The key of a message, as the contract's index. *)
Lemma key_word (k : bytes) z : length k = 32%nat → Forall is_u8 k → be_decode k = z → be_encode 32 z = k.
Proof. intros Hl Hb <-. rewrite <- Hl. by apply be_encode_decode. Qed.

Lemma sru_index_word m :
  is_u32 (sru_RollupId m) → is_u64 (sru_BlockHeight m) → be_encode 32 (sru_indexCalldata m) = sru_Key m.
Proof.
  intros Hr Hh. apply key_word; [| |by apply sru_index_key]; rewrite sru_Key_layout; [solve_len|].
  rewrite !Forall_app. split_and!; auto using be_encode_bytes. apply Forall_replicate. unfold is_u8. lia.
Qed.

Lemma osu_index_word m b :
  osu_ToBinding m = Ok b → is_u64 (osu_Id m) → be_encode 32 (osu_indexCalldata b) = osu_Key m.
Proof.
  intros Hb Hi. apply key_word; [| |by apply osu_index_key]; rewrite osu_Key_layout; [solve_len|].
  rewrite !Forall_app. split_and!; auto using be_encode_bytes. apply Forall_replicate. unfold is_u8. lia.
Qed.

(** The check of one message, by its key and digest. *)
Lemma sru_verify_spec m resp p d :
  is_u32 (sru_RollupId m) → is_u64 (sru_BlockHeight m) → sru_Digest m = Ok d → ∀ b,
  sru_verifyMessageInclusionState m resp p = Ok b ↔
  vp_Key p = sru_Key m ∧ verifyProof (ctr_StateRootUpdatesRoot resp) p = Ok true ∧ b = bool_decide (vp_Value p = d).
Proof.
  intros Hr Hh Hd b. unfold sru_verifyMessageInclusionState, require. rewrite sru_index_word by done.
  rewrite (proj1 (sru_hash_digest m d) Hd). case_bool_decide as Hk; simpl; [|naive_solver].
  destruct (verifyProof _ p) as [[]| |]; simpl; naive_solver.
Qed.

Lemma osu_verify_spec m bd resp p d :
  osu_ToBinding m = Ok bd → is_u64 (osu_Id m) → osu_Digest m = Ok d → ∀ b,
  osu_verifyMessageInclusionState bd resp p = Ok b ↔
  vp_Key p = osu_Key m ∧ verifyProof (ctr_OperatorSetUpdatesRoot resp) p = Ok true ∧ b = bool_decide (vp_Value p = d).
Proof.
  intros Hb Hi Hd b. unfold osu_verifyMessageInclusionState, require. rewrite (osu_index_word m bd) by done.
  rewrite (proj1 (osu_hash_digest m bd d Hb) Hd). case_bool_decide as Hk; simpl; [|naive_solver].
  destruct (verifyProof _ p) as [[]| |]; simpl; naive_solver.
Qed.

(** A check that does not revert has hashed the message. *)
Lemma sru_verify_digest m resp p b : sru_verifyMessageInclusionState m resp p = Ok b → ∃ d, sru_Digest m = Ok d.
Proof.
  intros (_ & _ & (_ & _ & (_ & _ & (d & Hd & _)%res_bind_ok)%res_bind_ok)%res_bind_ok)%res_bind_ok.
  exists d. by apply sru_hash_digest.
Qed.

Lemma osu_verify_digest m bd resp p b :
  osu_ToBinding m = Ok bd → osu_verifyMessageInclusionState bd resp p = Ok b → ∃ d, osu_Digest m = Ok d.
Proof.
  intros Hb (_ & _ & (_ & _ & (_ & _ & (d & Hd & _)%res_bind_ok)%res_bind_ok)%res_bind_ok)%res_bind_ok.
  exists d. by apply (osu_hash_digest m bd).
Qed.

Lemma sru_digest_words (m : StateRootUpdateMessage) d : msg_Digest m = Ok d → length d = 32%nat.
Proof. apply (digest_words (MsgStateRootUpdate m)). Qed.
Lemma osu_digest_words (m : OperatorSetUpdateMessage) d : msg_Digest m = Ok d → length d = 32%nat.
Proof. apply (digest_words (MsgOperatorSetUpdate m)). Qed.

Lemma message_provable i (cm : CheckpointMessages) resp (m : StateRootUpdateMessage) d :
  let msgs := cm_StateRootUpdateMessages cm in
  NewCheckpointTaskResponseFromMessages i cm = Ok resp →
  is_u32 (sru_RollupId m) → is_u64 (sru_BlockHeight m) → sru_Digest m = Ok d →
  NoDup (sru_Key <$> msgs) → collision_free (sru_Key m :: (sru_Key <$> msgs)) →
  Forall digest_nonzero (m :: msgs) →
  ∃ t, message_trie msgs = Ok t ∧
  (m ∈ msgs → ∃ cp p,
    ProveCompact t (sru_Key m) = Ok cp ∧ NewSMTVerifierProof (sru_Key m) d cp = Ok p ∧
    sru_verifyMessageInclusionState m resp p = Ok true) ∧
  (sru_Key m ∉ (sru_Key <$> msgs) → ∃ cp p,
    ProveCompact t (sru_Key m) = Ok cp ∧ NewSMTVerifierProof (sru_Key m) DEFAULT_VALUE cp = Ok p ∧
    sru_verifyMessageInclusionState m resp p = Ok false).
Proof.
  intros msgs Hresp Hr Hh Hd Hnd Hcf [Hm Hnz]%Forall_cons.
  destruct (checkpoint_roots i cm resp Hresp) as [(t & Ht & Hroot) _]. exists t. split; [done|].
  split; intros Hin.
  - destruct (stored_proof sru_digest_words msgs t (sru_Key m) d Hnd Hcf Hnz Ht) as (cp & p & Hcp & Hp & Hk & Hv & Hok);
      [left; by exists m|]. exists cp, p. split_and!; [done..|].
    apply (sru_verify_spec m resp p d); [done..|]. rewrite Hroot. split_and!; [done..|]. by rewrite bool_decide_true.
  - destruct (stored_proof sru_digest_words msgs t (sru_Key m) DEFAULT_VALUE Hnd Hcf Hnz Ht)
      as (cp & p & Hcp & Hp & Hk & Hv & Hok); [by right|]. exists cp, p. split_and!; [done..|].
    apply (sru_verify_spec m resp p d); [done..|]. rewrite Hroot. split_and!; [done..|].
    rewrite bool_decide_false; [done|]. rewrite Hv. intros <-. by apply Hm.
Qed.

(** The messages of a checkpoint can be proved to the task manager.  Let a checkpoint
    response be computed from messages with distinct keys, no two of which collide.  For a
    message that is among them, the proof that [ProveCompact] and [NewSMTVerifierProof] make
    of its digest is accepted by [verifyMessageInclusionState] with the verdict true; for
    one whose key is not, the proof they make of the empty value is accepted with the
    verdict false.  The trie library's proofs are assumed to describe the trie, and no
    digest to be zero, which the contract takes for an empty entry. *)
Theorem included_message_proved i (cm : CheckpointMessages) resp (m : StateRootUpdateMessage) d :
  let msgs := cm_StateRootUpdateMessages cm in
  NewCheckpointTaskResponseFromMessages i cm = Ok resp →
  is_u32 (sru_RollupId m) → is_u64 (sru_BlockHeight m) → sru_Digest m = Ok d →
  NoDup (sru_Key <$> msgs) → collision_free (sru_Key m :: (sru_Key <$> msgs)) →
  Forall digest_nonzero (m :: msgs) →
  ∃ t, message_trie msgs = Ok t ∧
  (m ∈ msgs → ∃ cp p,
    ProveCompact t (sru_Key m) = Ok cp ∧ NewSMTVerifierProof (sru_Key m) d cp = Ok p ∧
    sru_verifyMessageInclusionState m resp p = Ok true) ∧
  (sru_Key m ∉ (sru_Key <$> msgs) → ∃ cp p,
    ProveCompact t (sru_Key m) = Ok cp ∧ NewSMTVerifierProof (sru_Key m) DEFAULT_VALUE cp = Ok p ∧
    sru_verifyMessageInclusionState m resp p = Ok false).
Proof. apply message_provable. Qed.

(** What an accepted proof of a stored value says of a message. *)
Lemma stored_included {M} `{AM : AggMessage M} (msgs : list M) m d v :
  msg_Digest m = Ok d → digest_nonzero m →
  (∀ m', m' ∈ msgs → msg_Digest m' = Ok d → m' = m) →
  NoDup (msg_Key <$> msgs) → stored msgs (msg_Key m) v → v = d ↔ m ∈ msgs.
Proof.
  intros Hd Hnz Hinj Hnd [(m' & Hm' & Hk & Hd')|[Hk ->]]; split.
  - intros ->. by rewrite <- (Hinj m').
  - intros Hm. assert (m' = m) as ->; [|congruence].
    apply list_elem_of_lookup in Hm as [a Ha], Hm' as [b Hb].
    assert (a = b) as ->; [|congruence].
    apply (NoDup_lookup (msg_Key <$> msgs) a b (msg_Key m)); [done|rewrite list_lookup_fmap, Ha; done|].
    rewrite list_lookup_fmap, Hb. simpl. by rewrite Hk.
  - intros <-. by destruct Hnz.
  - intros Hm. destruct Hk. by apply list_elem_of_fmap_2.
Qed.

Lemma verdict_lemma i (cm : CheckpointMessages) resp t (m : StateRootUpdateMessage) p verdict :
  let msgs := cm_StateRootUpdateMessages cm in
  NewCheckpointTaskResponseFromMessages i cm = Ok resp → message_trie msgs = Ok t →
  Forall sru_wf (m :: msgs) → proof_wf p → NoDup (sru_Key <$> msgs) →
  collision_free (sru_Key m :: (sru_Key <$> msgs)) → collision_free (proof_inputs p ++ tree_inputs (smt_tree t)) →
  digest_nonzero m →
  Forall (λ m', ¬ Exists keccak_collision (hashed_pairs (MsgStateRootUpdate m') (MsgStateRootUpdate m))) msgs →
  sru_verifyMessageInclusionState m resp p = Ok verdict → verdict = true ↔ m ∈ msgs.
Proof.
  intros msgs Hresp Ht [Hm Hwf]%Forall_cons Hp Hnd Hck Hcp Hnz Hcol Hv.
  destruct (checkpoint_roots i cm resp Hresp) as [(t' & Ht' & Hroot) _]. assert (t' = t) as -> by (unfold msgs in *; congruence).
  assert (is_u32 (sru_RollupId m) ∧ is_u64 (sru_BlockHeight m)) as [Hr Hh] by (by destruct Hm as (? & ? & _)).
  destruct (sru_verify_digest m resp p verdict Hv) as [d Hd].
  apply (sru_verify_spec m resp p d) in Hv as (Hk & Hok & ->); [|done..]. rewrite bool_decide_eq_true.
  rewrite Hroot in Hok. rewrite Forall_forall in Hwf, Hcol.
  apply (stored_included msgs m d); [done|done| |done|].
  - intros m' Hm' Hd'. destruct (digest_determines (MsgStateRootUpdate m') (MsgStateRootUpdate m) d) as [Heq|Hc];
      [by apply Hwf|done|done|done|by injection Heq|by destruct (Hcol m' Hm')].
  - change (stored msgs (sru_Key m) (vp_Value p)). rewrite <- Hk.
    apply (accepted_stored sru_digest_words msgs t p); [done| |done..]. by rewrite Hk.
Qed.

(** The task manager's verdict on a state root update is whether the update was in the
    checkpoint.  Whatever well-formed proof [verifyMessageInclusionState] accepts for a
    message, against the response computed from a checkpoint's messages (of distinct keys),
    the answer is true exactly if the message is one of them: unless a Keccak collision
    shows among the strings the proof, the checkpoint's trie, the keys and the digests
    hash, or one of these hashes is zero. *)
Theorem inclusion_verdict_sound i (cm : CheckpointMessages) resp t (m : StateRootUpdateMessage) p verdict :
  let msgs := cm_StateRootUpdateMessages cm in
  NewCheckpointTaskResponseFromMessages i cm = Ok resp → message_trie msgs = Ok t →
  Forall sru_wf (m :: msgs) → proof_wf p → NoDup (sru_Key <$> msgs) →
  collision_free (sru_Key m :: (sru_Key <$> msgs)) → collision_free (proof_inputs p ++ tree_inputs (smt_tree t)) →
  digest_nonzero m →
  Forall (λ m', ¬ Exists keccak_collision (hashed_pairs (MsgStateRootUpdate m') (MsgStateRootUpdate m))) msgs →
  sru_verifyMessageInclusionState m resp p = Ok verdict → verdict = true ↔ m ∈ msgs.
Proof. apply verdict_lemma. Qed.

(** The same of operator set updates, which the contract checks against the other root. *)
Theorem operator_set_verdict_sound i (cm : CheckpointMessages) resp t (m : OperatorSetUpdateMessage) b p verdict :
  let msgs := cm_OperatorSetUpdateMessages cm in
  NewCheckpointTaskResponseFromMessages i cm = Ok resp → message_trie msgs = Ok t →
  osu_ToBinding m = Ok b → Forall osu_wf (m :: msgs) → proof_wf p → NoDup (osu_Key <$> msgs) →
  collision_free (osu_Key m :: (osu_Key <$> msgs)) → collision_free (proof_inputs p ++ tree_inputs (smt_tree t)) →
  digest_nonzero m →
  Forall (λ m', ¬ Exists keccak_collision (hashed_pairs (MsgOperatorSetUpdate m') (MsgOperatorSetUpdate m))) msgs →
  osu_verifyMessageInclusionState b resp p = Ok verdict → verdict = true ↔ m ∈ msgs.
Proof.
  intros msgs Hresp Ht Hb [Hm Hwf]%Forall_cons Hp Hnd Hck Hcp Hnz Hcol Hv.
  destruct (checkpoint_roots i cm resp Hresp) as [_ (t' & Ht' & Hroot)]. assert (t' = t) as -> by (unfold msgs in *; congruence).
  destruct (osu_verify_digest m b resp p verdict Hb Hv) as [d Hd]. assert (is_u64 (osu_Id m)) as Hi by apply Hm.
  apply (osu_verify_spec m b resp p d) in Hv as (Hk & Hok & ->); [|done..]. rewrite bool_decide_eq_true.
  rewrite Hroot in Hok. rewrite Forall_forall in Hwf, Hcol.
  apply (stored_included msgs m d); [done|done| |done|].
  - intros m' Hm' Hd'. destruct (digest_determines (MsgOperatorSetUpdate m') (MsgOperatorSetUpdate m) d) as [Heq|Hc];
      [by apply Hwf|done|done|done|by injection Heq|by destruct (Hcol m' Hm')].
  - change (stored msgs (osu_Key m) (vp_Value p)). rewrite <- Hk.
    apply (accepted_stored osu_digest_words msgs t p); [done| |done..]. by rewrite Hk.
Qed.

End Theory.

(** ** A trie that satisfies the laws

    The trie of a map of paths: split by the bits of the path until a leaf stands alone. *)
Module ToyTrie.
Section Trie.
Context `{H : HashOps} {HL : HashLaws H}.

#[local] Notation entries := (list (bytes * bytes)).

Fixpoint build (fuel d : nat) (l : entries) : tree :=
  match l with
  | [] => TNil
  | [(p, v)] => TLeaf p v
  | _ =>
      match fuel with
      | O => TNil
      | S fuel => TInner (build fuel (S d) (filter (λ e, path_bit e.1 d = false) l))
                         (build fuel (S d) (filter (λ e, path_bit e.1 d = true) l))
      end
  end.

(** Only paths, words of bytes, count. *)
Definition is_path (p : bytes) : Prop := length p = 32%nat ∧ Forall is_u8 p.
#[local] Instance is_path_dec p : Decision (is_path p).
Proof. unfold is_path, is_u8. apply _. Defined.

Definition contents (t : gmap bytes bytes) : gmap bytes bytes := filter (λ e, is_path e.1) t.
Definition trie_tree (t : gmap bytes bytes) : tree := build 256 0 (map_to_list (contents t)).

Definition trie_ops : SmtOps := {|
  Trie := gmap bytes bytes;
  smt_new := ∅;
  smt_Update t k v := Ok (<[keccak256 k := v]> t);
  smt_Commit t := Ok t;
  smt_Root t := tree_root (trie_tree t) |}.

Lemma keccak_is_path k : is_path (keccak256 k).
Proof. split; [apply keccak256_length|apply keccak256_bytes]. Qed.

Definition trie_laws : SmtLaws trie_ops.
Proof.
  refine {| smt_path k := keccak256 k; smt_contents (t : @Trie trie_ops) := contents t |}; simpl.
  - apply map_filter_empty.
  - intros t k v t' [= <-]. apply map_filter_insert_True, keccak_is_path.
  - by intros t t' [= <-].
  - intros t1 t2 Heq. unfold trie_tree. by rewrite Heq.
  - by eexists.
  - by eexists.
Defined.

(** The mask of the compact form: bit [i] is the [7 - i mod 8]-th of byte [i / 8]. *)
Definition mask_number (f : nat → bool) (l : list nat) : Z :=
  foldr (λ i acc, if f i then Z.setbit acc (Z.of_nat i) else acc) 0 l.
Definition mask (f : nat → bool) : bytes :=
  (λ j, Reverse8 (Z.shiftr (mask_number f (seq 0 256)) (8 * Z.of_nat j))) <$> seq 0 32.

Lemma mask_number_testbit f l i : i ∈ l → Z.testbit (mask_number f l) (Z.of_nat i) = f i.
Proof.
  intros Hi. assert (Z.testbit (mask_number f l) (Z.of_nat i) = f i && bool_decide (i ∈ l)) as ->.
  2:{ rewrite bool_decide_true by done. apply andb_true_r. }
  clear Hi. induction l as [|j l IH]; cbn [mask_number foldr];
    [by rewrite Z.testbit_0_l, bool_decide_false, andb_false_r by set_solver|].
  fold (mask_number f l).
  destruct (decide (j = i)) as [->|Hne].
  - rewrite (bool_decide_true (_ ∈ _)), andb_true_r by constructor. destruct (f i); [|by rewrite IH].
    by rewrite Z.setbit_eqb, Z.eqb_refl by lia.
  - rewrite (bool_decide_ext (i ∈ j :: l) (i ∈ l)) by set_solver. rewrite <- IH. destruct (f j); [|done].
    by rewrite Z.setbit_eqb, (proj2 (Z.eqb_neq _ _)) by lia.
Qed.

Lemma mask_bit f i : (i < 256)%nat → getPathBit (mask f) i = f i.
Proof.
  intros Hi. unfold getPathBit, mask. pose proof (Nat.div_mod_eq i 8). pose proof (Nat.mod_upper_bound i 8).
  assert (i / 8 < 32)%nat by (apply Nat.Div0.div_lt_upper_bound; lia).
  rewrite nth_lookup, list_lookup_fmap, lookup_seq_lt by done. cbn [fmap option_fmap option_map from_option id Nat.add].
  rewrite Reverse8_testbit, Z.shiftr_spec by lia.
  rewrite <- (mask_number_testbit f (seq 0 256) i) by (apply elem_of_seq; lia). f_equal. lia.
Qed.

Definition empty_at (sides : list bytes) (i : nat) : bool := bool_decide (sides !! i = Some DEFAULT_VALUE).

Definition proof_ops : SmtProofOps trie_ops :=
  @Build_SmtProofOps trie_ops
    (λ (t : @Trie trie_ops) k,
      Ok (mkSparseMerkleProof (reverse (tree_sides (keccak256 k) 0 (trie_tree t)))
            ((λ pv, leaf_node pv.1 pv.2) <$> other_leaf (keccak256 k) (trie_tree t))))
    (λ proof,
      Ok (mkCompactProof (filter (.≠ DEFAULT_VALUE) (sp_SideNodes proof)) (sp_NonMembershipLeafData proof)
            (mask (empty_at (sp_SideNodes proof))) (Z.of_nat (length (sp_SideNodes proof))))).

(** *** The laws *)

Lemma path_ext p q :
  is_path p → is_path q → (∀ j, (j < 256)%nat → path_bit p j = path_bit q j) → p = q.
Proof.
  intros [Hlp Hp] [Hlq Hq] Hb. apply be_decode_inj; [done..|congruence|].
  pose proof (be_decode_bound p Hp) as Bp. pose proof (be_decode_bound q Hq) as Bq.
  rewrite Hlp in Bp. rewrite Hlq in Bq. change (256 ^ Z.of_nat 32) with (2 ^ 256) in *.
  apply Z.bits_inj'. intros n Hn. destruct (decide (n < 256)) as [Hlt|Hge].
  - specialize (Hb (Z.to_nat (255 - n))). unfold path_bit in Hb.
    replace (255 - Z.of_nat (Z.to_nat (255 - n))) with n in Hb by lia. apply Hb. lia.
  - assert (2 ^ 256 ≤ 2 ^ n) by (apply Z.pow_le_mono_r; lia).
    rewrite (proj2 (Z.testbit_false (be_decode p) n Hn)), (proj2 (Z.testbit_false (be_decode q) n Hn));
      by rewrite ?Z.div_small by lia.
Qed.

(** The paths below a node at depth [d] have their first [d] bits in common. *)
Definition grouped (d : nat) (l : entries) : Prop :=
  ∀ x y, x ∈ l → y ∈ l → ∀ j, (j < d)%nat → path_bit x.1 j = path_bit y.1 j.

Lemma grouped_filter d b l : grouped d l → grouped (S d) (filter (λ e, path_bit e.1 d = b) l).
Proof.
  intros Hg x y [Hbx Hx]%list_elem_of_filter [Hby Hy]%list_elem_of_filter j Hj.
  destruct (decide (j = d)) as [->|Hne]; [congruence|]. apply Hg; [done..|lia].
Qed.

Lemma lookup_filter d b (l : entries) path :
  path_bit path d = b →
  (list_to_map (filter (λ e, path_bit e.1 d = b) l) : gmap bytes bytes) !! path =
  (list_to_map l : gmap bytes bytes) !! path.
Proof.
  intros Hb. induction l as [|[p v] l IH]; [done|]. destruct (decide (path_bit p d = b)) as [He|He].
  - rewrite filter_cons_True by done. simpl. destruct (decide (p = path)) as [->|Hne];
      [by rewrite !lookup_insert_eq|by rewrite !lookup_insert_ne].
  - rewrite filter_cons_False by done. rewrite IH. simpl. rewrite lookup_insert_ne; [done|]. congruence.
Qed.

Definition end_value (path : bytes) (e : option (bytes * bytes)) : option bytes :=
  match e with
  | Some (p, v) => if decide (p = path) then Some v else None
  | None => None
  end.

Lemma build_lookup path fuel : ∀ d l,
  (d + fuel = 256)%nat → NoDup l.*1 → Forall (λ e, is_path e.1) l → grouped d l →
  end_value path (tree_end path d (build fuel d l)) = (list_to_map l : gmap bytes bytes) !! path.
Proof.
  induction fuel as [|fuel IH]; intros d l Hd Hnd Hp Hg; destruct l as [|[p v] [|[q w] l]]; [done| | |done| |].
  1,3: simpl; case_decide as He; [by rewrite He, lookup_insert_eq|by rewrite lookup_insert_ne].
  - exfalso. apply NoDup_cons in Hnd as [Hn _]. apply Hn. apply Forall_cons in Hp as [Hp Hq].
    apply Forall_cons in Hq as [Hq _]. apply elem_of_cons. left. apply path_ext; [done..|].
    intros j Hj. apply (Hg (p, v) (q, w)); [left|right; left|lia].
  - set (k := (p, v) :: (q, w) :: l) in *. change (build (S fuel) d k) with
      (TInner (build fuel (S d) (filter (λ e, path_bit e.1 d = false) k))
              (build fuel (S d) (filter (λ e, path_bit e.1 d = true) k))).
    assert (∀ b, path_bit path d = b →
      end_value path (tree_end path (S d) (build fuel (S d) (filter (λ e, path_bit e.1 d = b) k))) =
      (list_to_map k : gmap bytes bytes) !! path) as Hside.
    { intros b Hb. rewrite <- (lookup_filter d b k path Hb). apply IH; [lia| | |by apply grouped_filter].
      - eapply sublist_NoDup; [exact Hnd|]. apply fmap_sublist, sublist_filter.
      - apply Forall_forall. intros x [_ Hx]%list_elem_of_filter. rewrite Forall_forall in Hp. by apply Hp. }
    cbn [tree_end]. destruct (path_bit path d) eqn:Hb; by apply Hside.
Qed.

Lemma build_leaves fuel : ∀ d l, tree_leaves (build fuel d l) ⊆ l.
Proof.
  induction fuel as [|fuel IH]; intros d l; destruct l as [|[p v] [|[q w] l]]; simpl; [set_solver..|].
  intros x [Hx%IH|Hx%IH]%elem_of_app; by apply list_elem_of_filter in Hx as [_ Hx].
Qed.

Lemma build_depth path fuel : ∀ d l, (length (tree_sides path d (build fuel d l)) ≤ fuel)%nat.
Proof.
  induction fuel as [|fuel IH]; intros d l; destruct l as [|[p v] [|[q w] l]]; simpl; [lia..|].
  destruct (path_bit path d); simpl; apply le_n_S, IH.
Qed.

Lemma contents_entries t :
  NoDup (map_to_list (contents t)).*1 ∧ Forall (λ e, is_path e.1) (map_to_list (contents t)).
Proof.
  split; [apply NoDup_fst_map_to_list|]. apply Forall_forall. intros [p v] Hx%elem_of_map_to_list.
  by apply map_lookup_filter_Some in Hx as [_ Hp].
Qed.

Lemma trie_lookup n t k : n = 256%nat →
  tree_lookup (keccak256 k) (build n 0 (map_to_list (contents t))) = contents t !! keccak256 k.
Proof.
  intros Hn. destruct (contents_entries t) as [Hnd Hp].
  etrans; [apply (build_lookup (keccak256 k) n 0); [done..|]; intros x y _ _ j Hj; lia|].
  by rewrite list_to_map_to_list.
Qed.

Lemma trie_leaves n t p v :
  (p, v) ∈ tree_leaves (build n 0 (map_to_list (contents t))) → contents t !! p = Some v.
Proof. intros Hl. apply build_leaves in Hl. by apply elem_of_map_to_list in Hl. Qed.

Lemma compact_mask (sides : list bytes) i s :
  (length sides ≤ 256)%nat → sides !! i = Some s →
  getPathBit (mask (empty_at sides)) i = bool_decide (s = DEFAULT_VALUE).
Proof.
  intros Hlen Hi. apply lookup_lt_Some in Hi as Hlt. rewrite mask_bit by lia. unfold empty_at.
  apply bool_decide_ext. rewrite Hi. split; [by intros [= ->]|by intros ->].
Qed.

Lemma toy_root (t : @Trie trie_ops) : @smt_Root trie_ops t = tree_root (trie_tree t).
Proof. unfold smt_Root, trie_ops. done. Qed.
Lemma toy_prove (t : @Trie trie_ops) k :
  @smt_Prove trie_ops proof_ops t k =
  Ok (mkSparseMerkleProof (reverse (tree_sides (keccak256 k) 0 (trie_tree t)))
        ((λ pv, leaf_node pv.1 pv.2) <$> other_leaf (keccak256 k) (trie_tree t))).
Proof. unfold smt_Prove, proof_ops. done. Qed.

Definition proof_laws : @SmtProofLaws H trie_ops trie_laws proof_ops :=
  @Build_SmtProofLaws H trie_ops trie_laws proof_ops trie_tree
    (λ k, eq_refl) toy_root (λ t k, trie_lookup 256 t k eq_refl) (λ t p v, trie_leaves 256 t p v)
    (λ t k, build_depth (keccak256 k) 256 0 (map_to_list (contents t))) toy_prove
    (λ sides leaf Hlen, ex_intro _ (mask (empty_at sides)) (conj eq_refl (λ i s, compact_mask sides i s Hlen))).

End Trie.
End ToyTrie.

(** ** A checkpoint of three updates *)
Module Examples.

(** A checksum that separates the strings of the example. *)
Module Mix.
Definition step (acc b : Z) : Z := Z.land (acc * 1000003 + b + 1) (Z.ones 64).
Definition ops : HashOps :=
  {| keccak256 bs := let z := foldl step 7 bs in be_encode 8 (z * 11400714819323198485) ++ be_encode 8 (z + 1) ++ be_encode 16 (z * z) |}.
Lemma mix_laws : HashLaws ops.
Proof.
  split; intros bs; unfold keccak256, ops; cbv zeta; [solve_len|].
  apply Forall_app_2; [|apply Forall_app_2]; apply be_encode_bytes.
Qed.
End Mix.

#[local] Existing Instances ToyBls.ops Mix.ops Mix.mix_laws ToyAbi.ops.
#[local] Existing Instances ToyBls.bls_laws ToyAbi.abi_laws.
#[local] Existing Instances ToyTrie.trie_ops ToyTrie.trie_laws ToyTrie.proof_ops ToyTrie.proof_laws.

Definition ex_update (h : Z) : StateRootUpdateMessage :=
  mkStateRootUpdate 3 h 1700000000 (replicate 32 0) (replicate 32 0) (replicate 32 h).
Definition ex_cm : CheckpointMessages := mkCheckpointMessages [ex_update 4; ex_update 1; ex_update 5] [] [] [].
Definition ex_resp : CheckpointTaskResponse :=
  res_or (mkCheckpointTaskResponse 0 [] []) (NewCheckpointTaskResponseFromMessages 7 ex_cm).
Definition ex_trie : Trie := res_or ∅ (message_trie (cm_StateRootUpdateMessages ex_cm)).
Definition ex_digest : bytes := res_or [] (sru_Digest (ex_update 1)).
Definition ex_proof (m : StateRootUpdateMessage) (v : bytes) : SMTVerifierCompactProof :=
  res_or (mkVerifierProof [] [] 0 [] 0 [] [])
    (let? cp := ProveCompact ex_trie (sru_Key m) in NewSMTVerifierProof (sru_Key m) v cp).

Example ex_run :
  sru_verifyMessageInclusionState (ex_update 1) ex_resp (ex_proof (ex_update 1) ex_digest) = Ok true.
Proof. vm_compute. reflexivity. Qed.
Example ex_sides :
  (vp_NumSideNodes (ex_proof (ex_update 1) ex_digest), vp_BitMask (ex_proof (ex_update 1) ex_digest),
   length (vp_SideNodes (ex_proof (ex_update 1) ex_digest))) = (3, 2, 2%nat).
Proof. vm_compute. reflexivity. Qed.
(** An absent update whose place is empty, and one in whose place another leaf stands. *)
Example ex_absent :
  sru_verifyMessageInclusionState (ex_update 3) ex_resp (ex_proof (ex_update 3) DEFAULT_VALUE) = Ok false.
Proof. vm_compute. reflexivity. Qed.
Example ex_other_leaf :
  sru_verifyMessageInclusionState (ex_update 9) ex_resp (ex_proof (ex_update 9) DEFAULT_VALUE) = Ok false ∧
  vp_NonMembershipLeafPath (ex_proof (ex_update 9) DEFAULT_VALUE) = keccak256 (sru_Key (ex_update 1)).
Proof. split; vm_compute; reflexivity. Qed.
(** The empty value is refused for an update that is there. *)
Example ex_refused :
  sru_verifyMessageInclusionState (ex_update 1) ex_resp (ex_proof (ex_update 1) DEFAULT_VALUE) =
  Err "Invalid SMT proof"%string.
Proof. vm_compute. reflexivity. Qed.

#[local] Instance keccak_collision_dec p : Decision (keccak_collision p).
Proof. unfold keccak_collision. apply _. Defined.
#[local] Instance digest_nonzero_dec (m : StateRootUpdateMessage) : Decision (digest_nonzero m).
Proof. unfold digest_nonzero. apply _. Defined.

Lemma ex_update_wf h : 0 ≤ h < 256 → sru_wf (ex_update h).
Proof.
  intros Hh. unfold sru_wf, is_bytes32, is_u32, is_u64, ex_update; simpl.
  assert (Forall is_u8 (replicate 32 0) ∧ Forall is_u8 (replicate 32 h)) as [? ?]
    by (split; apply Forall_replicate; unfold is_u8; lia).
  split_and!; try done; lia.
Qed.

Lemma included_message_proved_witness : ∃ cp p,
  ProveCompact ex_trie (sru_Key (ex_update 1)) = Ok cp ∧
  NewSMTVerifierProof (sru_Key (ex_update 1)) ex_digest cp = Ok p ∧
  sru_verifyMessageInclusionState (ex_update 1) ex_resp p = Ok true.
Proof.
  destruct (included_message_proved 7 ex_cm ex_resp (ex_update 1) ex_digest) as (t & Ht & Hin & _).
  - apply res_or_ok. vm_compute. reflexivity.
  - unfold is_u32; simpl; lia.
  - unfold is_u64; simpl; lia.
  - apply res_or_ok. vm_compute. reflexivity.
  - apply (bool_decide_unpack (NoDup _)). vm_compute. exact I.
  - apply (bool_decide_unpack (collision_free _)). vm_compute. exact I.
  - apply (bool_decide_unpack (Forall _ _)). vm_compute. exact I.
  - assert (t = ex_trie) as -> by (unfold ex_trie; rewrite Ht; reflexivity).
    apply Hin. right. left.
Defined.

Lemma ex_proof_wf : proof_wf (ex_proof (ex_update 1) ex_digest).
Proof.
  assert (length (vp_Value (ex_proof (ex_update 1) ex_digest)) = 32%nat) as Hv by (vm_compute; reflexivity).
  assert (vp_NumSideNodes (ex_proof (ex_update 1) ex_digest) = 3) as Hn by (vm_compute; reflexivity).
  assert (length (vp_NonMembershipLeafPath (ex_proof (ex_update 1) ex_digest)) = 32%nat) as Hp
    by (vm_compute; reflexivity).
  assert (length (vp_NonMembershipLeafValue (ex_proof (ex_update 1) ex_digest)) = 32%nat) as Hl
    by (vm_compute; reflexivity).
  split; [exact Hv| |rewrite Hn; lia|exact Hp|exact Hl].
  apply (bool_decide_unpack (Forall _ _)). vm_compute. exact I.
Qed.

Lemma inclusion_verdict_sound_witness : true = true ↔ ex_update 1 ∈ [ex_update 4; ex_update 1; ex_update 5].
Proof.
  apply (inclusion_verdict_sound 7 ex_cm ex_resp ex_trie (ex_update 1) (ex_proof (ex_update 1) ex_digest) true).
  - apply res_or_ok. vm_compute. reflexivity.
  - apply res_or_ok. vm_compute. reflexivity.
  - repeat (apply Forall_cons_2; [apply ex_update_wf; lia|]). constructor.
  - apply ex_proof_wf.
  - apply (bool_decide_unpack (NoDup _)). vm_compute. exact I.
  - apply (bool_decide_unpack (collision_free _)). vm_compute. exact I.
  - apply (bool_decide_unpack (collision_free _)). vm_compute. exact I.
  - apply (bool_decide_unpack (digest_nonzero _)). vm_compute. exact I.
  - apply (bool_decide_unpack (Forall _ _)). vm_compute. exact I.
  - vm_compute. reflexivity.
Defined.

End Examples.
