(* ===== verification/OperatorSetRegistry.v ===== *)
(** * Mainnet's operator set updates

    [contracts/evm/src/eth/SFFLOperatorSetUpdateRegistry.sol], and the calls of
    [contracts/evm/src/eth/SFFLRegistryCoordinator.sol] that record an update before they
    change the operator set.  The registries of the middleware are a parameter: [Registries]
    are the answers the contract reads, and [history_kept] what is documented of them, that a
    call only changes the answers from its own block on.

    A step ([osr_step]) is a call of the coordinator in some block, with whatever it does to
    the registries, or a call of the whitelist's setter.  In every reachable state the ids of
    the events are consecutive, and the sets [getOperatorSetUpdate] answers are those the AVS
    had: [updates_chain]. *)

From S2P Require Import Prelude CoreTypes Instances Messages AvsReader RegistryContract.

(** What [_getOperatorSetAtBlock] reads, for quorum 0. *)
Record Registries := mkRegistries {
  rs_getOperatorListAtBlockNumber : Z → list bytes;
  rs_getOperatorFromPubkeyHash : bytes → Address;
  rs_getRegisteredPubkey : Address → BN254G1Point;
  rs_getStakeAtBlockNumber : bytes → Z → Z }.

Record UpdateRegistry := mkUpdateRegistry {
  ur_operatorSetUpdateIdToBlockNumber : list Z;
  ur_isOperatorWhitelisted : gmap Address bool }.

Inductive OsrLog : Type :=
| OperatorSetUpdatedAtBlock (id timestamp : Z)
| OperatorWhitelistingUpdated (operator : Address) (isWhitelisted : bool).

Definition getOperatorSetUpdateCount (r : UpdateRegistry) : Z :=
  u64 (Z.of_nat (length (ur_operatorSetUpdateIdToBlockNumber r))).

(** [operatorSetUpdateIdToBlockNumber[id]]: an index out of bounds panics. *)
Definition block_of (r : UpdateRegistry) (id : Z) : evm Z :=
  if bool_decide (id < 0) then Panic
  else match ur_operatorSetUpdateIdToBlockNumber r !! Z.to_nat id with Some b => Ok b | None => Panic end.

Definition recordOperatorSetUpdate (coordinator sender : Address) (number timestamp : Z) (r : UpdateRegistry)
    : evm (UpdateRegistry * list OsrLog) :=
  let? _ := require (bool_decide (sender = coordinator))
    "SFFLOperatorSetUpdateRegistry.onlyRegistryCoordinator: caller is not the registry coordinator" in
  let id := u64 (Z.of_nat (length (ur_operatorSetUpdateIdToBlockNumber r))) in
  let? again := (if 0 <? id then let? last := block_of r (id - 1) in Ok (bool_decide (last = number)) else Ok false) in
  if again : bool then Ok (r, [])
  else Ok (mkUpdateRegistry (ur_operatorSetUpdateIdToBlockNumber r ++ [u32 number]) (ur_isOperatorWhitelisted r),
           [OperatorSetUpdatedAtBlock id (u64 timestamp)]).

Definition setOperatorWhitelisting (owner sender operator : Address) (isWhitelisted : bool) (r : UpdateRegistry)
    : evm (UpdateRegistry * list OsrLog) :=
  let? _ := require (bool_decide (sender = owner))
    "SFFLOperatorSetUpdateRegistry.onlyCoordinatorOwner: caller is not the owner of the registryCoordinator" in
  Ok (mkUpdateRegistry (ur_operatorSetUpdateIdToBlockNumber r)
        (<[operator := isWhitelisted]> (ur_isOperatorWhitelisted r)),
      [OperatorWhitelistingUpdated operator isWhitelisted]).

Definition _getOperatorSetAtBlock (rs : Registries) (blockNumber : Z) : list RegistryOperator :=
  (λ operatorId,
    let operator := rs_getOperatorFromPubkeyHash rs operatorId in
    let pubkey := rs_getRegisteredPubkey rs operator in
    let stake := rs_getStakeAtBlockNumber rs operatorId blockNumber in
    mkRegistryOperator pubkey stake) <$> rs_getOperatorListAtBlockNumber rs blockNumber.

Definition getOperatorSetUpdate (rs : Registries) (operatorSetUpdateId : Z) (r : UpdateRegistry)
    : evm OperatorSetUpdate :=
  let? previousOperatorSet :=
    (if 0 <? operatorSetUpdateId then
       let? b := block_of r (operatorSetUpdateId - 1) in Ok (_getOperatorSetAtBlock rs b)
     else Ok []) in
  let? b := block_of r operatorSetUpdateId in
  Ok (mkOperatorSetUpdateInfo previousOperatorSet (_getOperatorSetAtBlock rs b)).

(** ** The chain *)

(** The registries after a call in block [n]: the sets of earlier blocks are as before, and
    from [n] on the set is the new one. *)
Definition history_kept (n : Z) (rs rs' : Registries) : Prop :=
  (∀ b, b < n → _getOperatorSetAtBlock rs' b = _getOperatorSetAtBlock rs b) ∧
  (∀ b, n ≤ b → _getOperatorSetAtBlock rs' b = _getOperatorSetAtBlock rs' n).

(** Mainnet: the latest block with a call, the two states, and the events so far. *)
Record Mainnet := mkMainnet {
  mn_block : Z;
  mn_registries : Registries;
  mn_updates : UpdateRegistry;
  mn_logs : list OsrLog }.

Section Chain.
Context (coordinator owner : Address).

(** The six functions of the coordinator that record an update and then call the
    middleware: registration, with churn or without, deregistration, the two stake updates
    and ejection; a call that reverts is no step.  Blocks are numbered within 32 bits. *)
Inductive osr_step : Mainnet → Mainnet → Prop :=
| OsrCoordinatorCall mn n timestamp rs' r' logs :
    mn_block mn ≤ n < 2 ^ 32 →
    recordOperatorSetUpdate coordinator coordinator n timestamp (mn_updates mn) = Ok (r', logs) →
    history_kept n (mn_registries mn) rs' →
    osr_step mn (mkMainnet n rs' r' (mn_logs mn ++ logs))
| OsrSetWhitelisting mn n sender operator isWhitelisted r' logs :
    mn_block mn ≤ n < 2 ^ 32 →
    setOperatorWhitelisting owner sender operator isWhitelisted (mn_updates mn) = Ok (r', logs) →
    osr_step mn (mkMainnet n (mn_registries mn) r' (mn_logs mn ++ logs)).

(** A new deployment: no operators, no updates. *)
Definition osr_init (mn : Mainnet) : Prop :=
  0 ≤ mn_block mn < 2 ^ 32 ∧ (∀ b, _getOperatorSetAtBlock (mn_registries mn) b = []) ∧
  ur_operatorSetUpdateIdToBlockNumber (mn_updates mn) = [] ∧ mn_logs mn = [].

Definition osr_reachable (mn : Mainnet) : Prop := ∃ mn0, osr_init mn0 ∧ rtc osr_step mn0 mn.

(** The ids of the updates announced. *)
Definition update_ids (logs : list OsrLog) : list Z :=
  omap (λ l, match l with OperatorSetUpdatedAtBlock id _ => Some id | _ => None end) logs.

(** The set after [i] updates. *)
Definition set_after (mn : Mainnet) (i : nat) : list RegistryOperator :=
  match i with
  | O => []
  | S i => match ur_operatorSetUpdateIdToBlockNumber (mn_updates mn) !! i with
           | Some b => _getOperatorSetAtBlock (mn_registries mn) b
           | None => []
           end
  end.

(** How many updates were recorded up to a block. *)
Definition updates_until (mn : Mainnet) (b : Z) : nat :=
  length (filter (λ n, n ≤ b) (ur_operatorSetUpdateIdToBlockNumber (mn_updates mn))).

(** ** Increasing lists of blocks *)

Lemma filter_snoc_le (l : list Z) n b :
  filter (λ x, x ≤ b) (l ++ [n]) = if decide (n ≤ b) then filter (λ x, x ≤ b) l ++ [n] else filter (λ x, x ≤ b) l.
Proof.
  rewrite filter_app. case_decide as Hn; [by rewrite filter_cons_True, filter_nil by done|].
  by rewrite filter_cons_False, filter_nil, app_nil_r by done.
Qed.

Lemma filter_all (l : list Z) b : Forall (λ x, x ≤ b) l → filter (λ x, x ≤ b) l = l.
Proof. apply filter_id. Qed.

(** The last of the blocks up to [b] is not after [b]. *)
Lemma last_until (l : list Z) b i x :
  StronglySorted Z.lt l → length (filter (λ x, x ≤ b) l) = S i → l !! i = Some x → x ≤ b.
Proof.
  revert i. induction l as [|y l IH]; intros i Hs Hl Hx; [done|]. apply StronglySorted_inv in Hs as [Hs Hy].
  destruct (decide (y ≤ b)) as [Hyb|Hyb].
  - rewrite filter_cons_True in Hl by done. destruct i as [|i]; [by injection Hx as <-|].
    apply (IH i); [done|simpl in Hl; lia|done].
  - rewrite filter_cons_False in Hl by done. exfalso.
    assert (filter (λ x, x ≤ b) l = []) as Hnil; [|by rewrite Hnil in Hl].
    destruct (filter (λ x, x ≤ b) l) as [|z k] eqn:Hf; [done|].
    assert (z ∈ filter (λ x, x ≤ b) l) as [Hz Hzl]%list_elem_of_filter by (rewrite Hf; left).
    rewrite Forall_forall in Hy. specialize (Hy z Hzl). lia.
Qed.

Lemma sorted_snoc (l : list Z) n : StronglySorted Z.lt (l ++ [n]) ↔ StronglySorted Z.lt l ∧ Forall (λ x, x < n) l.
Proof.
  rewrite StronglySorted_app, Forall_forall. setoid_rewrite list_elem_of_singleton.
  assert (StronglySorted Z.lt [n]) by (constructor; constructor). naive_solver.
Qed.

Lemma sorted_next (l : list Z) i x y : StronglySorted Z.lt l → l !! i = Some x → l !! S i = Some y → x < y.
Proof.
  intros Hs. revert i. induction Hs as [|z l Hs IH Hz]; intros i Hx Hy; [done|].
  destruct i as [|i]; [|by apply (IH i)]. injection Hx as <-. by apply (Forall_lookup_1 _ _ _ _ Hz Hy).
Qed.

Lemma sorted_length (l : list Z) m :
  StronglySorted Z.lt l → Forall (λ x, 0 ≤ x < m) l → 0 ≤ m → Z.of_nat (length l) ≤ m.
Proof.
  intros Hs. revert m. induction l as [|y l IH] using rev_ind; intros m Hb Hm; [simpl; lia|].
  apply Forall_app in Hb as [Hb Hy]. rewrite Forall_singleton in Hy.
  apply sorted_snoc in Hs as [Hl Hlt].
  rewrite length_app. cbn [length]. enough (Z.of_nat (length l) ≤ y) by lia. apply (IH Hl y); [|lia].
  rewrite Forall_forall in *. intros x Hx. split; [by apply Hb|by apply Hlt].
Qed.

(** ** The invariant *)

#[local] Notation blocks mn := (ur_operatorSetUpdateIdToBlockNumber (mn_updates mn)).
#[local] Notation set_at mn b := (_getOperatorSetAtBlock (mn_registries mn) b).

Record osr_inv (mn : Mainnet) : Prop := {
  oi_sorted : StronglySorted Z.lt (blocks mn);
  oi_bounds : Forall (λ b, 0 ≤ b ≤ mn_block mn) (blocks mn);
  oi_block : 0 ≤ mn_block mn < 2 ^ 32;
  oi_ids : update_ids (mn_logs mn) = Z.of_nat <$> seq 0 (length (blocks mn));
  oi_sets b : set_at mn b = set_after mn (updates_until mn b) }.

Lemma osr_inv_length mn : osr_inv mn → Z.of_nat (length (blocks mn)) < 2 ^ 64.
Proof.
  intros [Hs Hb Hm _ _]. apply Z.le_lt_trans with (mn_block mn + 1); [|lia]. apply sorted_length; [done| |lia].
  eapply Forall_impl; [exact Hb|]. simpl. lia.
Qed.

Lemma osr_inv_init mn : osr_init mn → osr_inv mn.
Proof.
  intros (Hb & Hs & Hn & Hl). split; rewrite ?Hn, ?Hl; [constructor|constructor|done|done|].
  intros b. rewrite Hs. unfold updates_until. by rewrite Hn.
Qed.

(** The sets after a call in block [n], the last of [pre ++ [n]]. *)
Lemma osr_sets_call mn pre n rs' r' logs :
  osr_inv mn → StronglySorted Z.lt (pre ++ [n]) → Forall (λ x, x < n) pre →
  blocks mn = pre ∨ blocks mn = pre ++ [n] →
  ur_operatorSetUpdateIdToBlockNumber r' = pre ++ [n] → history_kept n (mn_registries mn) rs' →
  let mn' := mkMainnet n rs' r' logs in
  ∀ b, set_at mn' b = set_after mn' (updates_until mn' b).
Proof.
  intros Hinv Hs Hpre Hold Hnew [Hpast Hnow] mn' b. unfold updates_until; simpl. rewrite Hnew, filter_snoc_le.
  case_decide as Hnb.
  - rewrite filter_all by (eapply Forall_impl; [exact Hpre|]; simpl; lia).
    rewrite length_app, Nat.add_1_r. simpl. rewrite Hnew, lookup_app_r, Nat.sub_diag by lia. simpl. by apply Hnow.
  - rewrite Hpast, (oi_sets mn Hinv) by lia.
    assert (updates_until mn b = length (filter (λ x, x ≤ b) pre)) as ->.
    { unfold updates_until. destruct Hold as [->| ->]; [done|]. by rewrite filter_snoc_le, decide_False. }
    destruct (length (filter _ pre)) as [|i] eqn:Hi; [done|]. simpl. rewrite Hnew.
    assert (i < length pre)%nat as Hlt by (pose proof (length_filter (λ x, x ≤ b) pre); lia).
    apply lookup_lt_is_Some in Hlt as [x Hx]. rewrite (lookup_app_l_Some _ _ _ _ Hx).
    assert (blocks mn !! i = Some x) as ->.
    { destruct Hold as [->| ->]; [done|by apply lookup_app_l_Some]. }
    symmetry. apply Hpast. apply (Forall_lookup_1 _ _ _ _ Hpre Hx).
Qed.

Lemma update_ids_app l k : update_ids (l ++ k) = update_ids l ++ update_ids k.
Proof. apply omap_app. Qed.

(** What recording does: nothing if the block is already recorded, else it is appended. *)
Lemma record_spec mn n timestamp r' logs :
  osr_inv mn → mn_block mn ≤ n < 2 ^ 32 →
  recordOperatorSetUpdate coordinator coordinator n timestamp (mn_updates mn) = Ok (r', logs) →
  ∃ pre, Forall (λ x, 0 ≤ x < n) pre ∧ ur_operatorSetUpdateIdToBlockNumber r' = pre ++ [n] ∧
    ((blocks mn = pre ++ [n] ∧ logs = []) ∨
     (blocks mn = pre ∧ logs = [OperatorSetUpdatedAtBlock (Z.of_nat (length pre)) (u64 timestamp)])).
Proof.
  intros Hinv Hn Hr. pose proof (osr_inv_length mn Hinv) as Hlen. destruct Hinv as [Hs Hb Hm _ _].
  unfold recordOperatorSetUpdate, require in Hr. rewrite bool_decide_true in Hr by done. cbn [res_bind] in Hr.
  rewrite u64_small, u32_small in Hr by (unfold is_u64, is_u32; lia).
  destruct (blocks mn) as [|last pre _] eqn:Hbl using rev_ind.
  { injection Hr as <- <-. exists []. split_and!; [constructor|done|by right]. }
  rewrite length_app in Hr, Hlen. rewrite (proj2 (Z.ltb_lt 0 _)) in Hr by (simpl; lia).
  unfold block_of in Hr. rewrite bool_decide_false in Hr by (simpl; lia). rewrite Hbl in Hr.
  replace (Z.to_nat (Z.of_nat (length pre + length [last]) - 1)) with (length pre) in Hr by (simpl; lia).
  rewrite lookup_app_r, Nat.sub_diag in Hr by lia. cbn [res_bind lookup list_lookup] in Hr.
  apply Forall_app in Hb as [Hb Hl]. rewrite Forall_singleton in Hl.
  apply sorted_snoc in Hs as [_ Hlt].
  assert (Forall (λ x, 0 ≤ x < last) pre) as Hpre.
  { rewrite Forall_forall in *. intros x Hx. specialize (Hb x Hx). specialize (Hlt x Hx). lia. }
  case_bool_decide as Heq; injection Hr as <- <-.
  - exists pre. subst last. rewrite Hbl. split_and!; [done..|by left].
  - exists (pre ++ [last]). split_and!; [|done|right; split; [done|by rewrite length_app]].
    apply Forall_app. split; [|apply Forall_singleton; lia]. eapply Forall_impl; [exact Hpre|]. simpl. lia.
Qed.

Lemma osr_inv_step mn mn' : osr_inv mn → osr_step mn mn' → osr_inv mn'.
Proof.
  intros Hinv Hstep. destruct Hstep as [mn n timestamp rs' r' logs Hn Hr Hk|mn n sender operator w r' logs Hn Hr].
  - destruct (record_spec mn n timestamp r' logs Hinv Hn Hr) as (pre & Hpre & Hnew & Hcase).
    assert (StronglySorted Z.lt pre) as Hs.
    { destruct Hcase as [[Hold _]|[Hold _]]; pose proof (oi_sorted mn Hinv) as Hs; rewrite Hold in Hs; [|done].
      by apply sorted_snoc in Hs as [Hs _]. }
    assert (Forall (λ x, x < n) pre) as Hlt by (eapply Forall_impl; [exact Hpre|]; simpl; lia).
    assert (StronglySorted Z.lt (pre ++ [n])) as Hs' by by apply sorted_snoc.
    pose proof (oi_block mn Hinv) as Hm. split; simpl; rewrite ?Hnew; [done| |lia| |].
    + apply Forall_app. split; [|apply Forall_singleton; lia]. eapply Forall_impl; [exact Hpre|]. simpl. lia.
    + rewrite update_ids_app, (oi_ids mn Hinv), length_app, Nat.add_1_r, seq_S, fmap_app.
      destruct Hcase as [[-> ->]|[-> ->]]; simpl; [|done].
      by rewrite app_nil_r, length_app, Nat.add_1_r, seq_S, fmap_app.
    + eapply osr_sets_call; [exact Hinv|exact Hs'|exact Hlt| |exact Hnew|exact Hk]. naive_solver.
  - unfold setOperatorWhitelisting in Hr. apply res_bind_ok in Hr as (_ & _ & [= <- <-]).
    destruct Hinv as [Hs Hb Hm Hi Hset]. split; simpl; [done| |lia| |exact Hset].
    + eapply Forall_impl; [exact Hb|]. simpl. lia.
    + by rewrite update_ids_app, Hi, app_nil_r.
Qed.

Lemma osr_reachable_inv mn : osr_reachable mn → osr_inv mn.
Proof.
  intros (mn0 & Hinit & Hrun). apply osr_inv_init in Hinit.
  induction Hrun as [|mn0 mn1 mn2 Hstep _ IH]; [done|]. apply IH. by eapply osr_inv_step.
Qed.

Lemma block_of_lookup r i :
  block_of r (Z.of_nat i) =
  match ur_operatorSetUpdateIdToBlockNumber r !! i with Some b => Ok b | None => Panic end.
Proof. unfold block_of. rewrite bool_decide_false by lia. by rewrite Nat2Z.id. Qed.

Lemma getOperatorSetUpdate_ok mn i : (i < length (blocks mn))%nat →
  getOperatorSetUpdate (mn_registries mn) (Z.of_nat i) (mn_updates mn) =
  Ok (mkOperatorSetUpdateInfo (set_after mn i) (set_after mn (S i))).
Proof.
  intros Hi. unfold getOperatorSetUpdate. apply lookup_lt_is_Some in Hi as Hx. destruct Hx as [x Hx].
  destruct i as [|i]; [by rewrite block_of_lookup; simpl; rewrite Hx|].
  rewrite (proj2 (Z.ltb_lt 0 _)) by lia. replace (Z.of_nat (S i) - 1) with (Z.of_nat i) by lia.
  rewrite !block_of_lookup. assert (i < length (blocks mn))%nat as Hy by lia. apply lookup_lt_is_Some in Hy as [y Hy].
  cbn [set_after]. rewrite Hx, Hy. done.
Qed.

(** C30: the updates mainnet announces describe its operator sets.  Start the coordinator
    and its update registry without operators; after any sequence of registrations,
    deregistrations, ejections, stake updates and whitelist changes, in blocks numbered within
    32 bits: the announced ids are 0, 1, 2 and so on, each once; [getOperatorSetUpdate]
    answers for update [i] the set after [i] updates as the previous and the set after
    [i + 1] as the new one, so that the updates form a chain, and reverts for any other
    id; and at every block the AVS's set is the new set of the last update recorded until
    then, so that no change is missed. *)
Theorem updates_chain (mn : Mainnet) :
  osr_reachable mn →
  let count := length (ur_operatorSetUpdateIdToBlockNumber (mn_updates mn)) in
  update_ids (mn_logs mn) = Z.of_nat <$> seq 0 count ∧
  getOperatorSetUpdateCount (mn_updates mn) = Z.of_nat count ∧
  (∀ i, (i < count)%nat →
    getOperatorSetUpdate (mn_registries mn) (Z.of_nat i) (mn_updates mn) =
    Ok (mkOperatorSetUpdateInfo (set_after mn i) (set_after mn (S i)))) ∧
  (∀ i, (count ≤ i)%nat → getOperatorSetUpdate (mn_registries mn) (Z.of_nat i) (mn_updates mn) = Panic) ∧
  (∀ b, _getOperatorSetAtBlock (mn_registries mn) b = set_after mn (updates_until mn b)).
Proof.
  intros Hinv%osr_reachable_inv count. split_and!; [by apply oi_ids| | | |by apply oi_sets].
  - apply u64_small. pose proof (osr_inv_length mn Hinv). unfold is_u64. lia.
  - intros i Hi. by apply getOperatorSetUpdate_ok.
  - intros i Hi. unfold getOperatorSetUpdate. rewrite (block_of_lookup _ i), lookup_ge_None_2 by done.
    destruct (0 <? Z.of_nat i) eqn:Hz; [|done]. apply Z.ltb_lt in Hz. unfold block_of.
    rewrite bool_decide_false by lia. by destruct (_ !! _).
Qed.

(** ** Past updates *)

Lemma osr_step_past mn mn' :
  osr_inv mn → osr_step mn mn' →
  mn_block mn ≤ mn_block mn' ∧ blocks mn `prefix_of` blocks mn' ∧
  ∀ b, b < mn_block mn → set_at mn' b = set_at mn b.
Proof.
  intros Hinv Hstep. destruct Hstep as [mn n timestamp rs' r' logs Hn Hr [Hpast _]|mn n sender operator w r' logs Hn Hr]; simpl.
  - destruct (record_spec mn n timestamp r' logs Hinv Hn Hr) as (pre & _ & -> & Hcase).
    split_and!; [lia| |intros b Hb; apply Hpast; lia].
    destruct Hcase as [[-> _]|[-> _]]; [done|by apply prefix_app_r].
  - unfold setOperatorWhitelisting in Hr. apply res_bind_ok in Hr as (_ & _ & [= <- <-]). split_and!; [lia|done|done].
Qed.

Lemma osr_run_past mn mn' :
  osr_inv mn → rtc osr_step mn mn' →
  mn_block mn ≤ mn_block mn' ∧ blocks mn `prefix_of` blocks mn' ∧
  ∀ b, b < mn_block mn → set_at mn' b = set_at mn b.
Proof.
  intros Hinv Hrun. induction Hrun as [mn|mn0 mn1 mn2 Hstep _ IH]; [done|].
  destruct (osr_step_past mn0 mn1 Hinv Hstep) as (Hb & Hp & Hs).
  destruct IH as (Hb' & Hp' & Hs'); [by eapply osr_inv_step|]. split_and!; [lia|by etrans|].
  intros b Hlt. rewrite Hs' by lia. by apply Hs.
Qed.

(** The answer for an update of an earlier block never changes again, so that operators and
    aggregator read the same sets whenever they ask. *)
Theorem past_updates_fixed mn mn' i b :
  osr_reachable mn → rtc osr_step mn mn' → blocks mn !! i = Some b → b < mn_block mn →
  getOperatorSetUpdate (mn_registries mn') (Z.of_nat i) (mn_updates mn') =
  getOperatorSetUpdate (mn_registries mn) (Z.of_nat i) (mn_updates mn).
Proof.
  intros Hinv%osr_reachable_inv Hrun Hi Hb. destruct (osr_run_past mn mn' Hinv Hrun) as (_ & Hp & Hs).
  unfold getOperatorSetUpdate. rewrite !(block_of_lookup _ i), Hi, (prefix_lookup_Some _ _ _ _ Hi Hp).
  cbn [res_bind]. rewrite Hs by done.
  destruct i as [|i]; [done|]. rewrite (proj2 (Z.ltb_lt 0 _)) by lia.
  replace (Z.of_nat (S i) - 1) with (Z.of_nat i) by lia. rewrite !block_of_lookup.
  assert (i < length (blocks mn))%nat as Hy by (apply lookup_lt_Some in Hi; lia).
  apply lookup_lt_is_Some in Hy as [y Hy]. rewrite Hy, (prefix_lookup_Some _ _ _ _ Hy Hp). cbn [res_bind].
  rewrite Hs; [done|]. pose proof (oi_bounds mn Hinv) as Hall. pose proof (oi_sorted mn Hinv) as Hsort.
  apply Z.lt_trans with b; [|done]. by apply (sorted_next (blocks mn) i).
Qed.

End Chain.

(** ** Two updates *)
Module Examples.

Definition ex_pk (k : Z) : BN254G1Point := mkBN254G1Point k 0.
(** Operator 1 joins in block 10, operator 2 in block 12. *)
Definition ex_registries (upto : Z) : Registries := mkRegistries
  (λ b, (if bool_decide (10 ≤ b ∧ 10 ≤ upto) then [[1]] else []) ++ (if bool_decide (12 ≤ b ∧ 12 ≤ upto) then [[2]] else []))
  (λ id, be_decode id) ex_pk (λ id _, 100 * be_decode id).
Definition ex_mainnet (n : Z) (bs : list Z) (logs : list OsrLog) : Mainnet :=
  mkMainnet n (ex_registries n) (mkUpdateRegistry bs ∅) logs.

Lemma ex_history n m : n < m → (∀ k, n < k < m → k ≠ 10 ∧ k ≠ 12) → history_kept m (ex_registries n) (ex_registries m).
Proof.
  intros Hnm Hgap. assert (∀ k, n < k < m → k ≠ 10 ∧ k ≠ 12) as Hg by done.
  pose proof (Hg 10) as H10. pose proof (Hg 12) as H12. unfold history_kept, _getOperatorSetAtBlock.
  split; intros b Hb; f_equal; unfold rs_getOperatorListAtBlockNumber, ex_registries;
    repeat case_bool_decide; try done; exfalso; lia.
Qed.

Definition ex_logs : list OsrLog := [OperatorSetUpdatedAtBlock 0 1000; OperatorSetUpdatedAtBlock 1 1024].

Lemma ex_reachable : osr_reachable 7 8 (ex_mainnet 12 [10; 12] ex_logs).
Proof.
  exists (ex_mainnet 5 [] []). split.
  - split_and!; simpl; [lia|lia| |done|done]. intros b. unfold _getOperatorSetAtBlock; simpl.
    by rewrite !bool_decide_false by lia.
  - apply rtc_l with (ex_mainnet 10 [10] [OperatorSetUpdatedAtBlock 0 1000]).
    + apply (OsrCoordinatorCall 7 8 (ex_mainnet 5 [] []) 10 1000 (ex_registries 10) _ [OperatorSetUpdatedAtBlock 0 1000]);
        [simpl; lia|reflexivity|]. apply ex_history; lia.
    + apply rtc_once.
      apply (OsrCoordinatorCall 7 8 (ex_mainnet 10 [10] [OperatorSetUpdatedAtBlock 0 1000]) 12 1024 (ex_registries 12) _
        [OperatorSetUpdatedAtBlock 1 1024]); [simpl; lia|reflexivity|]. apply ex_history; lia.
Qed.

Lemma updates_chain_witness :
  update_ids ex_logs = [0; 1] ∧
  getOperatorSetUpdate (ex_registries 12) 1 (mkUpdateRegistry [10; 12] ∅) =
    Ok (mkOperatorSetUpdateInfo [mkRegistryOperator (ex_pk 1) 100]
          [mkRegistryOperator (ex_pk 1) 100; mkRegistryOperator (ex_pk 2) 200]).
Proof.
  destruct (updates_chain 7 8 (ex_mainnet 12 [10; 12] ex_logs) ex_reachable) as (Hids & _ & Hget & _).
  split; [exact Hids|]. exact (Hget 1%nat ltac:(simpl; lia)).
Defined.

(** A second call in the block of an update records nothing. *)
Example ex_same_block :
  recordOperatorSetUpdate 7 7 12 1024 (mkUpdateRegistry [10; 12] ∅) = Ok (mkUpdateRegistry [10; 12] ∅, []).
Proof. reflexivity. Qed.

(** Past 32 bits the recorded number is cut, so that every call of a block records an update. *)
Example ex_cut_block :
  ∃ r, recordOperatorSetUpdate 7 7 (2 ^ 32 + 5) 0 (mkUpdateRegistry [5] ∅) = Ok r ∧
       ur_operatorSetUpdateIdToBlockNumber r.1 = [5; 5].
Proof. eexists. split; reflexivity. Qed.

End Examples.
