(* ===== verification/OperatorRegistrations.v ===== *)
(** * Operator registrations: aggregator/operator_registrations_inmemory.go

    The service keeps four maps that one goroutine updates from chain events and reads
    to answer queries.  [ors_step] is one select of that goroutine; the state records
    whether it is running, has returned, or is waiting to hand a reply to a caller
    that no longer listens.

    [OperatorsInfo] is what the aggregator relies on when it verifies signatures:
    the keys it gets for an operator id hash to that id. *)

From S2P Require Import Prelude CoreTypes Instances.

Notation Socket := string (only parsing).

Section Registrations.
Context `{B : BlsOps}.

Record OperatorPubkeys := mkOperatorPubkeys {
  pk_G1 : G1Point;
  pk_G2 : G2Point }.

Record OperatorInfo := mkOperatorInfo {
  oi_Pubkeys : option OperatorPubkeys;
  oi_Socket : Socket }.

Inductive GoroutineStatus : Type :=
| OrsRunning
| OrsExited
| OrsStuck.

Record Ors := mkOrs {
  ors_idToAddr : gmap OperatorId Address;
  ors_addrToId : gmap Address OperatorId;
  ors_pubkeysById : gmap OperatorId OperatorPubkeys;
  ors_socketById : gmap OperatorId Socket;
  ors_status : GoroutineStatus }.

(** [ContractBLSApkRegistryNewPubkeyRegistration]. *)
Record NewPubkeyRegistration := mkNewPubkeyRegistration {
  npr_Operator : Address;
  npr_PubkeyG1 : Z * Z;
  npr_PubkeyG2 : (Z * Z) * (Z * Z) }.

Definition registerPubkeys (ors : Ors) (operatorAddr : Address) (pubkeys : OperatorPubkeys) : Ors :=
  let operatorId := OperatorIdFromG1Pubkey (pk_G1 pubkeys) in
  mkOrs (<[operatorId := operatorAddr]> (ors_idToAddr ors))
        (<[operatorAddr := operatorId]> (ors_addrToId ors))
        (<[operatorId := pubkeys]> (ors_pubkeysById ors))
        (ors_socketById ors) (ors_status ors).

Definition setSocket (ors : Ors) (operatorId : OperatorId) (socket : Socket) : Ors :=
  mkOrs (ors_idToAddr ors) (ors_addrToId ors) (ors_pubkeysById ors)
    (<[operatorId := socket]> (ors_socketById ors)) (ors_status ors).

(** ** Start-up *)

(** The loop over the registered addresses; an index past the public keys panics, and
    a socket that is missing in the answer reads as the empty string. *)
Fixpoint addPastOperators (ors : Ors) (addrs : list Address) (pubkeys : list OperatorPubkeys)
    (socketById : gmap OperatorId Socket) : go Ors :=
  match addrs, pubkeys with
  | [], _ => Ok ors
  | _ :: _, [] => Panic
  | addr :: addrs, pk :: pubkeys =>
      let operatorId := OperatorIdFromG1Pubkey (pk_G1 pk) in
      addPastOperators
        (setSocket (registerPubkeys ors addr pk) operatorId
           (default EmptyString (socketById !! operatorId)))
        addrs pubkeys socketById
  end.

Definition queryPastRegisteredOperators (pubkeysAnswer : go (list Address * list OperatorPubkeys))
    (socketsAnswer : go (gmap OperatorId Socket)) (ors : Ors) : go Ors :=
  let? registered := pubkeysAnswer in
  let? socketById := socketsAnswer in
  addPastOperators ors registered.1 registered.2 socketById.

(** [subPubkeys] and [subSockets] are the results of the two subscriptions. *)
Definition NewOperatorRegistrationsServiceInMemory (subPubkeys subSockets : go unit)
    (pubkeysAnswer : go (list Address * list OperatorPubkeys))
    (socketsAnswer : go (gmap OperatorId Socket)) : go Ors :=
  let? _ := subPubkeys in
  let? _ := subSockets in
  queryPastRegisteredOperators pubkeysAnswer socketsAnswer (mkOrs ∅ ∅ ∅ ∅ OrsRunning).

(** ** The goroutine *)

(** What the select receives.  [abandoned] says that the caller has left its own select
    by [ctx.Done()] before the reply is sent. *)
Inductive OrsEvent : Type :=
| OrsCtxDone
| OrsPubkeySubErr
| OrsSocketSubErr
| OrsNewPubkey (ev : NewPubkeyRegistration)
| OrsNewSocket (operatorId : OperatorId) (socket : Socket)
| OrsQueryByAddr (addr : Address) (abandoned : bool)
| OrsQueryById (operatorId : OperatorId) (abandoned : bool).

Definition infoById (ors : Ors) (operatorId : OperatorId) : OperatorInfo * bool :=
  (mkOperatorInfo (ors_pubkeysById ors !! operatorId)
     (default EmptyString (ors_socketById ors !! operatorId)),
   bool_decide (is_Some (ors_pubkeysById ors !! operatorId))
   && bool_decide (is_Some (ors_socketById ors !! operatorId))).

(** A missing address leaves [operatorId] the zero id, whose entries are then read. *)
Definition infoByAddr (ors : Ors) (addr : Address) : OperatorInfo * bool :=
  let operatorId := default (replicate 32 0) (ors_addrToId ors !! addr) in
  let r := infoById ors operatorId in
  (r.1, bool_decide (is_Some (ors_addrToId ors !! addr)) && r.2).

Definition set_status (ors : Ors) (s : GoroutineStatus) : Ors :=
  mkOrs (ors_idToAddr ors) (ors_addrToId ors) (ors_pubkeysById ors) (ors_socketById ors) s.

(** The reply is sent on an unbuffered channel: without a receiver the goroutine waits
    for ever. *)
Definition reply (ors : Ors) (abandoned : bool) (r : OperatorInfo * bool)
    : Ors * option (OperatorInfo * bool) :=
  if abandoned then (set_status ors OrsStuck, None) else (ors, Some r).

Definition ors_step (ors : Ors) (ev : OrsEvent) : Ors * option (OperatorInfo * bool) :=
  match ors_status ors with
  | OrsRunning =>
      match ev with
      | OrsCtxDone => (set_status ors OrsExited, None)
      | OrsPubkeySubErr | OrsSocketSubErr => (ors, None)
      | OrsNewPubkey ev =>
          let pubkeys := mkOperatorPubkeys
            (NewG1Point (npr_PubkeyG1 ev).1 (npr_PubkeyG1 ev).2)
            (NewG2Point (npr_PubkeyG2 ev).1 (npr_PubkeyG2 ev).2) in
          (registerPubkeys ors (npr_Operator ev) pubkeys, None)
      | OrsNewSocket operatorId socket => (setSocket ors operatorId socket, None)
      | OrsQueryByAddr addr abandoned => reply ors abandoned (infoByAddr ors addr)
      | OrsQueryById operatorId abandoned => reply ors abandoned (infoById ors operatorId)
      end
  | OrsExited | OrsStuck => (ors, None)
  end.

Definition ors_run (ors : Ors) (evs : list OrsEvent) : Ors :=
  foldl (λ ors ev, (ors_step ors ev).1) ors evs.

(** The outcome of a call of [GetOperatorInfoById] or [GetOperatorInfo]: the send of the
    query is not part of the caller's select, so with no goroutine to receive it the
    call never returns, not even when its context is cancelled. *)
Inductive CallResult : Type :=
| Returned (r : OperatorInfo * bool)
| NeverReturns.

Definition GetOperatorInfoById (ors : Ors) (ctxDone : bool) (operatorId : OperatorId)
    : Ors * CallResult :=
  match ors_status ors with
  | OrsRunning =>
      match ors_step ors (OrsQueryById operatorId ctxDone) with
      | (ors, Some r) => (ors, Returned r)
      | (ors, None) => (ors, Returned (mkOperatorInfo None EmptyString, false))
      end
  | _ => (ors, NeverReturns)
  end.

Definition GetOperatorInfo (ors : Ors) (ctxDone : bool) (addr : Address) : Ors * CallResult :=
  match ors_status ors with
  | OrsRunning =>
      match ors_step ors (OrsQueryByAddr addr ctxDone) with
      | (ors, Some r) => (ors, Returned r)
      | (ors, None) => (ors, Returned (mkOperatorInfo None EmptyString, false))
      end
  | _ => (ors, NeverReturns)
  end.

(** ** What clients rely on *)

Class OperatorsInfo (S : Type) : Type := {
  operator_info : S → OperatorId → option OperatorInfo;
  operator_valid : S → Prop;
  operator_info_id s o info :
    operator_valid s → operator_info s o = Some info →
    ∃ pk, oi_Pubkeys info = Some pk ∧ OperatorIdFromG1Pubkey (pk_G1 pk) = o;
}.

(** ** Invariant *)

(** Public keys are stored under the id they hash to, and both directions of the
    address maps lead to ids with stored public keys. *)
Record ors_wf (ors : Ors) : Prop := {
  wf_pubkeys o pk : ors_pubkeysById ors !! o = Some pk → OperatorIdFromG1Pubkey (pk_G1 pk) = o;
  wf_addr a o : ors_addrToId ors !! a = Some o → is_Some (ors_pubkeysById ors !! o);
  wf_id o a : ors_idToAddr ors !! o = Some a → is_Some (ors_pubkeysById ors !! o);
}.

Lemma ors_wf_empty : ors_wf (mkOrs ∅ ∅ ∅ ∅ OrsRunning).
Proof. split; simpl; intros *; by rewrite lookup_empty. Qed.

Lemma ors_wf_register ors addr pk : ors_wf ors → ors_wf (registerPubkeys ors addr pk).
Proof.
  intros Hwf. split; simpl.
  - intros o pk'. rewrite lookup_insert_Some. intros [[<- <-]|[_ ?]]; [done|]. by apply Hwf.
  - intros a o. rewrite lookup_insert_Some. intros [[_ <-]|[_ Ha]].
    + by rewrite lookup_insert_eq.
    + apply lookup_insert_is_Some'. right. by eapply wf_addr.
  - intros o a. rewrite lookup_insert_Some. intros [[<- _]|[_ Ha]].
    + by rewrite lookup_insert_eq.
    + apply lookup_insert_is_Some'. right. by eapply wf_id.
Qed.

Lemma ors_wf_socket ors o s : ors_wf ors → ors_wf (setSocket ors o s).
Proof. intros [? ? ?]. by split. Qed.

Lemma ors_wf_status ors s : ors_wf ors → ors_wf (set_status ors s).
Proof. intros [? ? ?]. by split. Qed.

#[local] Hint Resolve ors_wf_empty ors_wf_register ors_wf_socket ors_wf_status : sffl.

Lemma ors_wf_past addrs : ∀ ors pubkeys sockets ors',
  ors_wf ors → addPastOperators ors addrs pubkeys sockets = Ok ors' → ors_wf ors'.
Proof.
  induction addrs as [|a addrs IH]; intros ors [|pk pubkeys] sockets ors' Hwf Hpast;
    simplify_eq/=; try done. eapply IH; [|done]. eauto with sffl.
Qed.

Lemma ors_wf_new s1 s2 pa sa ors :
  NewOperatorRegistrationsServiceInMemory s1 s2 pa sa = Ok ors → ors_wf ors.
Proof.
  unfold NewOperatorRegistrationsServiceInMemory, queryPastRegisteredOperators.
  intros (_ & _ & (_ & _ & (reg & _ & (socks & _ & Hpast)%res_bind_ok)%res_bind_ok)%res_bind_ok)%res_bind_ok.
  eapply ors_wf_past; [|done]. eauto with sffl.
Qed.

Lemma ors_wf_step ors ev : ors_wf ors → ors_wf (ors_step ors ev).1.
Proof.
  intros Hwf. unfold ors_step, reply. destruct (ors_status ors); [|done..].
  destruct ev as [| | |ev|o s|a [|]|o [|]]; simpl; eauto with sffl.
Qed.

Lemma ors_wf_run ors evs : ors_wf ors → ors_wf (ors_run ors evs).
Proof. revert ors. induction evs; intros ors Hwf; simpl; [done|]. auto using ors_wf_step. Qed.

(** [pk] is the pair of keys of one registration: in the answer to the query for past
    registrations, beside the address it belongs to, or in a registration event. *)
Definition registered (pubkeysAnswer : go (list Address * list OperatorPubkeys)) (evs : list OrsEvent)
    (pk : OperatorPubkeys) : Prop :=
  (∃ addrs pks addr, pubkeysAnswer = Ok (addrs, pks) ∧ (addr, pk) ∈ zip addrs pks) ∨
  (∃ ev, OrsNewPubkey ev ∈ evs ∧ pk_G1 pk = NewG1Point (npr_PubkeyG1 ev).1 (npr_PubkeyG1 ev).2 ∧
     pk_G2 pk = NewG2Point (npr_PubkeyG2 ev).1 (npr_PubkeyG2 ev).2).

Lemma past_operators_pubkeys addrs : ∀ ors pubkeys sockets ors' o pk,
  addPastOperators ors addrs pubkeys sockets = Ok ors' → ors_pubkeysById ors' !! o = Some pk →
  ors_pubkeysById ors !! o = Some pk ∨ ∃ addr, (addr, pk) ∈ zip addrs pubkeys.
Proof.
  induction addrs as [|a addrs IH]; intros ors [|pk' pubkeys] sockets ors' o pk Hpast Hpk; simplify_eq/=; auto.
  destruct (IH _ _ _ _ _ _ Hpast Hpk) as [Hold|[addr Hin]]; [|right; exists addr; by right].
  simpl in Hold. apply lookup_insert_Some in Hold as [[_ <-]|[_ ?]]; [right; exists a; by left|by left].
Qed.

Lemma ors_step_pubkeys ors ev o pk :
  ors_pubkeysById (ors_step ors ev).1 !! o = Some pk →
  ors_pubkeysById ors !! o = Some pk ∨ ∃ reg, ev = OrsNewPubkey reg ∧
    pk_G1 pk = NewG1Point (npr_PubkeyG1 reg).1 (npr_PubkeyG1 reg).2 ∧
    pk_G2 pk = NewG2Point (npr_PubkeyG2 reg).1 (npr_PubkeyG2 reg).2.
Proof.
  unfold ors_step, reply. destruct (ors_status ors); [|by left..].
  destruct ev as [| | |reg|o' s|a [|]|o' [|]]; simpl; try by left.
  intros [[_ <-]|[_ ?]]%lookup_insert_Some; [right; by exists reg|by left].
Qed.

(** Every key the service holds is one of a registration it has seen. *)
Lemma stored_keys_registered s1 s2 pa sa ors evs o pk :
  NewOperatorRegistrationsServiceInMemory s1 s2 pa sa = Ok ors →
  ors_pubkeysById (ors_run ors evs) !! o = Some pk → registered pa evs pk.
Proof.
  unfold NewOperatorRegistrationsServiceInMemory, queryPastRegisteredOperators.
  intros (_ & _ & (_ & _ & ([addrs pks] & -> & (socks & _ & Hpast)%res_bind_ok)%res_bind_ok)%res_bind_ok)%res_bind_ok.
  induction evs as [|ev evs IH] using rev_ind; intros Hpk; simpl in Hpk.
  - destruct (past_operators_pubkeys _ _ _ _ _ _ _ Hpast Hpk) as [Hnil|[addr Hin]].
    + simpl in Hnil. by rewrite lookup_empty in Hnil.
    + left. by exists addrs, pks, addr.
  - unfold ors_run in Hpk. rewrite foldl_app in Hpk. simpl in Hpk.
    apply ors_step_pubkeys in Hpk as [Hpk|(reg & -> & Hg)].
    + destruct (IH Hpk) as [?|(reg & Hin & Hg)]; [by left|]. right. exists reg. set_solver.
    + right. exists reg. set_solver.
Qed.

Lemma infoById_ok ors o info :
  ors_wf ors → infoById ors o = (info, true) →
  ∃ pk, oi_Pubkeys info = Some pk ∧ OperatorIdFromG1Pubkey (pk_G1 pk) = o.
Proof.
  intros Hwf. unfold infoById. intros [= <- Hb].
  apply andb_true_iff in Hb as [[pk Hpk]%bool_decide_eq_true _].
  exists pk. simpl. split; [done|]. by eapply wf_pubkeys.
Qed.

(** The service implements the interface. *)
#[export] Instance ors_OperatorsInfo : OperatorsInfo Ors.
Proof.
  refine {| operator_info ors o := let r := infoById ors o in if r.2 then Some r.1 else None;
            operator_valid := ors_wf |}.
  intros ors o info Hwf Hi. destruct (infoById ors o) as [i b] eqn:Hinfo.
  destruct b; simplify_eq/=. by eapply infoById_ok.
Defined.

(** Whatever the service has learnt, by the initial query and by any sequence of
    events, an operator that a query by id reports as existing comes with public
    keys whose G1 key hashes to exactly the queried id, and one that a query by
    address reports as existing comes with public keys that the service stores
    under their own id. *)
Theorem reported_keys_match_id s1 s2 pa sa ors evs o a ors1 ors2 info1 info2 :
  NewOperatorRegistrationsServiceInMemory s1 s2 pa sa = Ok ors →
  GetOperatorInfoById (ors_run ors evs) false o = (ors1, Returned (info1, true)) →
  GetOperatorInfo (ors_run ors evs) false a = (ors2, Returned (info2, true)) →
  (∃ pk, oi_Pubkeys info1 = Some pk ∧ OperatorIdFromG1Pubkey (pk_G1 pk) = o) ∧
  (∃ pk, oi_Pubkeys info2 = Some pk ∧
     ors_pubkeysById (ors_run ors evs) !! OperatorIdFromG1Pubkey (pk_G1 pk) = Some pk).
Proof.
  intros Hnew H1 H2. pose proof (ors_wf_run _ evs (ors_wf_new _ _ _ _ _ Hnew)) as Hwf.
  set (s := ors_run ors evs) in *. split.
  - eapply infoById_ok; [done|].
    unfold GetOperatorInfoById, ors_step, reply in H1. destruct (ors_status s); congruence.
  - assert (infoByAddr s a = (info2, true)) as Hi.
    { unfold GetOperatorInfo, ors_step, reply in H2. destruct (ors_status s); congruence. }
    unfold infoByAddr in Hi. set (o' := default _ _) in *.
    destruct (infoById s o') as [i b] eqn:Hinfo. injection Hi as -> Hb.
    apply andb_true_iff in Hb as [_ ->]. destruct (infoById_ok _ _ _ Hwf Hinfo) as (pk & Hpk & Hid).
    exists pk. split; [done|]. rewrite Hid. unfold infoById in Hinfo. by injection Hinfo as <- _.
Qed.

(** Registering public keys is not enough: an operator that registers after
    start-up is reported as existing only once a socket update for it has arrived,
    while an operator registered before start-up is reported at once, with an empty
    socket if the registry lists none. *)
Theorem existence_needs_socket ors ev o :
  ors_status ors = OrsRunning →
  o = OperatorIdFromG1Pubkey (NewG1Point (npr_PubkeyG1 ev).1 (npr_PubkeyG1 ev).2) →
  ors_socketById ors !! o = None →
  (infoById (ors_run ors [OrsNewPubkey ev]) o).2 = false ∧
  (∀ s, (infoById (ors_run ors [OrsNewPubkey ev; OrsNewSocket o s]) o).2 = true) ∧
  (∀ addr pk ors', OperatorIdFromG1Pubkey (pk_G1 pk) = o →
     addPastOperators ors [addr] [pk] ∅ = Ok ors' →
     (infoById ors' o).2 = true ∧ oi_Socket (infoById ors' o).1 = EmptyString).
Proof.
  intros Hrun -> Hs. unfold ors_run, ors_step; simpl. rewrite Hrun; simpl. split_and!.
  - unfold infoById; simpl. rewrite Hs. by rewrite andb_false_r.
  - intros s. rewrite Hrun. unfold infoById; simpl. by rewrite !lookup_insert_eq.
  - intros addr pk ors' Hid [= <-]. unfold infoById; simpl. rewrite Hid, !lookup_insert_eq. done.
Qed.

(** One query whose caller gives up (its context is done before the reply is
    taken) disables the service: the goroutine waits for ever to hand over the
    reply, no later event is processed, and every later query, by id or by address
    and whatever its context, never returns. *)
Theorem abandoned_query_wedges ors o evs :
  ors_status ors = OrsRunning →
  let wedged := ors_run (GetOperatorInfoById ors true o).1 evs in
  ors_pubkeysById wedged = ors_pubkeysById ors ∧
  ors_socketById wedged = ors_socketById ors ∧
  (∀ ctxDone o', GetOperatorInfoById wedged ctxDone o' = (wedged, NeverReturns)) ∧
  (∀ ctxDone a, GetOperatorInfo wedged ctxDone a = (wedged, NeverReturns)).
Proof.
  intros Hrun wedged.
  assert (wedged = set_status ors OrsStuck) as Heq.
  { subst wedged. unfold GetOperatorInfoById, ors_step at 1. rewrite Hrun; simpl.
    induction evs as [|ev evs IH]; [done|]. exact IH. }
  rewrite Heq. split_and!; done.
Qed.

End Registrations.

Module Examples.

#[local] Existing Instances ToyBls.ops.

Definition reg (k : Z) : NewPubkeyRegistration := mkNewPubkeyRegistration (100 + k) (k, 0) ((k, 0), (0, 0)).
Definition keys1 : OperatorPubkeys := mkOperatorPubkeys (NewG1Point 1 0) (NewG2Point (1, 0) (0, 0)).
Definition start : Ors := res_or (mkOrs ∅ ∅ ∅ ∅ OrsExited)
  (NewOperatorRegistrationsServiceInMemory (Ok tt) (Ok tt)
     (Ok ([101], [keys1])) (Ok ∅)).
Definition learnt : list OrsEvent :=
  [OrsNewPubkey (reg 2); OrsNewSocket (be_encode 32 2) "host:1"%string].
Definition later : Ors := ors_run start learnt.

Lemma reported_keys_match_id_witness :
  (∃ pk, oi_Pubkeys (infoById later (be_encode 32 2)).1 = Some pk ∧
     OperatorIdFromG1Pubkey (pk_G1 pk) = be_encode 32 2) ∧
  (∃ pk, oi_Pubkeys (infoByAddr later 101).1 = Some pk ∧
     ors_pubkeysById later !! OperatorIdFromG1Pubkey (pk_G1 pk) = Some pk).
Proof.
  apply (reported_keys_match_id (Ok tt) (Ok tt)
    (Ok ([101], [keys1])) (Ok ∅)
    start learnt (be_encode 32 2) 101 later later
    (infoById later (be_encode 32 2)).1 (infoByAddr later 101).1).
  - reflexivity.
  - reflexivity.
  - reflexivity.
Defined.

Lemma existence_needs_socket_witness :
  (infoById (ors_run start [OrsNewPubkey (reg 2)]) (be_encode 32 2)).2 = false.
Proof.
  refine (proj1 (existence_needs_socket start (reg 2) (be_encode 32 2) _ _ _)).
  - reflexivity.
  - reflexivity.
  - reflexivity.
Defined.

Lemma abandoned_query_wedges_witness :
  GetOperatorInfoById (ors_run (GetOperatorInfoById start true (be_encode 32 1)).1 learnt) true
    (be_encode 32 2)
  = (ors_run (GetOperatorInfoById start true (be_encode 32 1)).1 learnt, NeverReturns).
Proof.
  refine (proj1 (proj2 (proj2 (abandoned_query_wedges start (be_encode 32 1) learnt _))) true
    (be_encode 32 2)). reflexivity.
Defined.

End Examples.
