(* ===== verification/Database.v ===== *)
(** * The message database: aggregator/database

    The models of [aggregator/database/models] and the operations of [Database].  The
    tables are gorm's: [GormOps] names the queries the code builds, with a [Where]
    chain as a predicate on rows, and [GormLaws] says what they do to the rows of a
    table ([tbl_rows], in primary key order, with the association preloaded).
    Writes may fail (SQLite rejects some values); they then change nothing. *)

From S2P Require Import Prelude CoreTypes Instances Messages.

Section Database.
Context `{B : BlsOps}.

(** ** Models *)

Record AggregationModel := mkAggregationModel {
  am_EthBlockNumber : BlockNumber;
  am_MessageDigest : bytes;
  am_NonSignersPubkeysG1 : list G1Point;
  am_QuorumApksG1 : list (option G1Point);
  am_SignersApkG2 : option G2Point;
  am_SignersAggSigG1 : option G1Point;
  am_NonSignerQuorumBitmapIndices : list Z;
  am_QuorumApkIndices : list Z;
  am_TotalStakeIndices : list Z;
  am_NonSignerStakeIndices : list (list Z) }.

Definition NewMessageBlsAggregationModel (msg : MessageBlsAggregation) : AggregationModel :=
  mkAggregationModel (mba_EthBlockNumber msg) (mba_MessageDigest msg)
    (mba_NonSignersPubkeysG1 msg) (mba_QuorumApksG1 msg) (mba_SignersApkG2 msg)
    (mba_SignersAggSigG1 msg) (mba_NonSignerQuorumBitmapIndices msg)
    (mba_QuorumApkIndices msg) (mba_TotalStakeIndices msg) (mba_NonSignerStakeIndices msg).

Definition am_ToMessage (model : AggregationModel) : go MessageBlsAggregation :=
  let? digest := to_bytes32 (am_MessageDigest model) in
  Ok (mkMessageBlsAggregation (am_EthBlockNumber model) digest
        (am_NonSignersPubkeysG1 model) (am_QuorumApksG1 model) (am_SignersApkG2 model)
        (am_SignersAggSigG1 model) (am_NonSignerQuorumBitmapIndices model)
        (am_QuorumApkIndices model) (am_TotalStakeIndices model) (am_NonSignerStakeIndices model)).

(** The foreign key [AggregationId] is represented by the aggregation itself. *)
Record StateRootUpdateModel := mkStateRootUpdateModel {
  srm_ID : Z;
  srm_RollupId : RollupId;
  srm_BlockHeight : BlockNumber;
  srm_Timestamp : Timestamp;
  srm_NearDaTransactionId : bytes;
  srm_NearDaCommitment : bytes;
  srm_StateRoot : bytes;
  srm_Aggregation : option AggregationModel }.

Definition NewStateRootUpdateMessageModel (msg : StateRootUpdateMessage) : StateRootUpdateModel :=
  mkStateRootUpdateModel 0 (sru_RollupId msg) (sru_BlockHeight msg) (sru_Timestamp msg)
    (sru_NearDaTransactionId msg) (sru_NearDaCommitment msg) (sru_StateRoot msg) None.

Definition srm_ToMessage (model : StateRootUpdateModel) : go StateRootUpdateMessage :=
  let? txId := to_bytes32 (srm_NearDaTransactionId model) in
  let? commitment := to_bytes32 (srm_NearDaCommitment model) in
  let? stateRoot := to_bytes32 (srm_StateRoot model) in
  Ok (mkStateRootUpdate (srm_RollupId model) (srm_BlockHeight model) (srm_Timestamp model)
        txId commitment stateRoot).

Record OperatorSetUpdateModel := mkOperatorSetUpdateModel {
  osm_ID : Z;
  osm_UpdateId : OperatorSetUpdateId;
  osm_Timestamp : Timestamp;
  osm_Operators : list RollupOperator;
  osm_Aggregation : option AggregationModel }.

Definition NewOperatorSetUpdateMessageModel (msg : OperatorSetUpdateMessage) : OperatorSetUpdateModel :=
  mkOperatorSetUpdateModel 0 (osu_Id msg) (osu_Timestamp msg) (osu_Operators msg) None.

Definition osm_ToMessage (model : OperatorSetUpdateModel) : go OperatorSetUpdateMessage :=
  Ok (mkOperatorSetUpdate (osm_UpdateId model) (osm_Timestamp model) (osm_Operators model)).

(** ** The tables *)

(** The fields gorm maintains in a row. *)
Class GormModel (R : Type) : Type := {
  row_ID : R → Z;
  row_Aggregation : R → option AggregationModel;
  set_ID : R → Z → R;
  set_Aggregation : R → option AggregationModel → R;
}.

#[export] Instance StateRootUpdate_GormModel : GormModel StateRootUpdateModel := {|
  row_ID := srm_ID;
  row_Aggregation := srm_Aggregation;
  set_ID r i := mkStateRootUpdateModel i (srm_RollupId r) (srm_BlockHeight r) (srm_Timestamp r)
    (srm_NearDaTransactionId r) (srm_NearDaCommitment r) (srm_StateRoot r) (srm_Aggregation r);
  set_Aggregation r a := mkStateRootUpdateModel (srm_ID r) (srm_RollupId r) (srm_BlockHeight r)
    (srm_Timestamp r) (srm_NearDaTransactionId r) (srm_NearDaCommitment r) (srm_StateRoot r) a |}.

#[export] Instance OperatorSetUpdate_GormModel : GormModel OperatorSetUpdateModel := {|
  row_ID := osm_ID;
  row_Aggregation := osm_Aggregation;
  set_ID r i := mkOperatorSetUpdateModel i (osm_UpdateId r) (osm_Timestamp r) (osm_Operators r)
    (osm_Aggregation r);
  set_Aggregation r a := mkOperatorSetUpdateModel (osm_ID r) (osm_UpdateId r) (osm_Timestamp r)
    (osm_Operators r) a |}.

(** [Where(...).FirstOrCreate(&model)]; [Where(...).First(&model)] with or without
    [Preload("Aggregation")]; [Preload("Aggregation").Where(...).Find(&rows)]; and
    [Model(row).Association("Aggregation").Replace(&model)]. *)
Class GormOps (R : Type) : Type := {
  Tbl : Type;
  gorm_FirstOrCreate : Tbl → (R → bool) → R → Tbl * go R;
  gorm_First : bool → Tbl → (R → bool) → go R;
  gorm_Find : Tbl → (R → bool) → go (list R);
  gorm_ReplaceAggregation : Tbl → R → AggregationModel → Tbl * go unit;
}.

Definition ErrRecordNotFound : GoError := ExternalError "record not found".

(** The rows [Find] selects. *)
Definition select {R} (w : R → bool) (rows : list R) : list R := filter (λ r, w r = true) rows.

Definition unloaded {R} `{GormModel R} (preload : bool) (r : R) : R :=
  if preload then r else set_Aggregation r None.

Class GormLaws (R : Type) `{GM : GormModel R} (G : GormOps R) : Type := {
  tbl_rows : Tbl → list R;
  gorm_First_law p t w : gorm_First p t w =
    match List.find w (tbl_rows t) with
    | Some r => Ok (unloaded p r)
    | None => Err ErrRecordNotFound
    end;
  gorm_Find_law t w : gorm_Find t w = Ok (select w (tbl_rows t));
  gorm_FirstOrCreate_found t w r r0 : List.find w (tbl_rows t) = Some r0 →
    ∃ t', gorm_FirstOrCreate t w r = (t', Ok (unloaded false r0)) ∧ tbl_rows t' = tbl_rows t;
  gorm_FirstOrCreate_new t w r t' r' : List.find w (tbl_rows t) = None →
    gorm_FirstOrCreate t w r = (t', Ok r') →
    ∃ i, i ∉ row_ID <$> tbl_rows t ∧ r' = set_ID r i ∧ tbl_rows t' = tbl_rows t ++ [r'];
  gorm_FirstOrCreate_err t w r t' e :
    gorm_FirstOrCreate t w r = (t', Err e) → tbl_rows t' = tbl_rows t;
  gorm_FirstOrCreate_safe t w r t' : gorm_FirstOrCreate t w r ≠ (t', Panic);
  gorm_Replace_ok t r a t' : gorm_ReplaceAggregation t r a = (t', Ok tt) →
    tbl_rows t' = (λ r0, if bool_decide (row_ID r0 = row_ID r) then set_Aggregation r0 (Some a) else r0)
                    <$> tbl_rows t;
  gorm_Replace_err t r a t' e :
    gorm_ReplaceAggregation t r a = (t', Err e) → tbl_rows t' = tbl_rows t;
  gorm_Replace_safe t r a t' : gorm_ReplaceAggregation t r a ≠ (t', Panic);
}.

(** ** Operations *)

Context {G1 : GormOps StateRootUpdateModel} {G2 : GormOps OperatorSetUpdateModel}.

Record Database := mkDatabase {
  db_sru : Tbl (R := StateRootUpdateModel);
  db_osu : Tbl (R := OperatorSetUpdateModel) }.

Definition where_key (rollupId : RollupId) (blockHeight : BlockNumber) (r : StateRootUpdateModel) : bool :=
  bool_decide (srm_RollupId r = rollupId) && bool_decide (srm_BlockHeight r = blockHeight).

Definition where_id (id : OperatorSetUpdateId) (r : OperatorSetUpdateModel) : bool :=
  bool_decide (osm_UpdateId r = id).

Definition StoreStateRootUpdate (d : Database) (msg : StateRootUpdateMessage)
    : Database * go StateRootUpdateModel :=
  let model := NewStateRootUpdateMessageModel msg in
  let '(t, r) := gorm_FirstOrCreate (db_sru d) (where_key (sru_RollupId msg) (sru_BlockHeight msg)) model in
  (mkDatabase t (db_osu d), r).

Definition FetchStateRootUpdate (d : Database) (rollupId : RollupId) (blockHeight : BlockNumber)
    : go StateRootUpdateMessage :=
  let? model := gorm_First false (db_sru d) (where_key rollupId blockHeight) in
  srm_ToMessage model.

Definition StoreStateRootUpdateAggregation (d : Database) (row : StateRootUpdateModel)
    (aggregation : MessageBlsAggregation) : Database * go unit :=
  let '(t, r) := gorm_ReplaceAggregation (db_sru d) row (NewMessageBlsAggregationModel aggregation) in
  (mkDatabase t (db_osu d), r).

Definition FetchStateRootUpdateAggregation (d : Database) (rollupId : RollupId)
    (blockHeight : BlockNumber) : go MessageBlsAggregation :=
  let? model := gorm_First true (db_sru d) (where_key rollupId blockHeight) in
  match srm_Aggregation model with
  | None => Err (NewError "aggregation not found")
  | Some a => am_ToMessage a
  end.

Definition StoreOperatorSetUpdate (d : Database) (msg : OperatorSetUpdateMessage)
    : Database * go OperatorSetUpdateModel :=
  let model := NewOperatorSetUpdateMessageModel msg in
  let '(t, r) := gorm_FirstOrCreate (db_osu d) (where_id (osu_Id msg)) model in
  (mkDatabase (db_sru d) t, r).

Definition FetchOperatorSetUpdate (d : Database) (id : OperatorSetUpdateId)
    : go OperatorSetUpdateMessage :=
  let? model := gorm_First false (db_osu d) (where_id id) in
  osm_ToMessage model.

Definition StoreOperatorSetUpdateAggregation (d : Database) (row : OperatorSetUpdateModel)
    (aggregation : MessageBlsAggregation) : Database * go unit :=
  let '(t, r) := gorm_ReplaceAggregation (db_osu d) row (NewMessageBlsAggregationModel aggregation) in
  (mkDatabase (db_sru d) t, r).

Definition FetchOperatorSetUpdateAggregation (d : Database) (id : OperatorSetUpdateId)
    : go MessageBlsAggregation :=
  let? model := gorm_First true (db_osu d) (where_id id) in
  match osm_Aggregation model with
  | None => Err (NewError "aggregation not found")
  | Some a => am_ToMessage a
  end.

(** The loop that pairs the messages with their aggregations, skipping rows that have
    none. *)
Fixpoint collect {R Msg} `{GormModel R} (toMessage : R → go Msg) (rows : list R)
    : go (list Msg * list MessageBlsAggregation) :=
  match rows with
  | [] => Ok ([], [])
  | r :: rows =>
      match row_Aggregation r with
      | None => collect toMessage rows
      | Some a =>
          let? m := toMessage r in
          let? g := am_ToMessage a in
          let? rest := collect toMessage rows in
          Ok (m :: rest.1, g :: rest.2)
      end
  end.

Definition FetchCheckpointMessages (d : Database) (fromTimestamp toTimestamp : Timestamp)
    : go CheckpointMessages :=
  if (max_i64 <? fromTimestamp) || (max_i64 <? toTimestamp)
  then Err (NewError "timestamp does not fit in int64")
  else if toTimestamp <? fromTimestamp
  then Err (NewError "toTimestamp is less than fromTimestamp")
  else
    let? stateRootUpdates := gorm_Find (db_sru d)
      (λ r, (fromTimestamp <=? srm_Timestamp r) && (srm_Timestamp r <=? toTimestamp)) in
    let? operatorSetUpdates := gorm_Find (db_osu d)
      (λ r, (fromTimestamp <=? osm_Timestamp r) && (osm_Timestamp r <=? toTimestamp)) in
    let? sru := collect srm_ToMessage stateRootUpdates in
    let? osu := collect osm_ToMessage operatorSetUpdates in
    Ok (mkCheckpointMessages sru.1 sru.2 osu.1 osu.2).

End Database.
