(* ===== verification/DatabaseTheory.v ===== *)
(** * Properties of the message database

    First write wins per key, aggregations replace each other, the tables keep one row
    per key, and a checkpoint query returns exactly the aggregated messages of its
    time range, each with its own aggregation.  [ListTable] is an executable table
    that satisfies the laws. *)

From S2P Require Import Prelude CoreTypes Instances Messages Database.

Lemma find_spec {A} (w : A → bool) l :
  match List.find w l with
  | Some r => r ∈ l ∧ w r = true
  | None => ∀ r, r ∈ l → w r = false
  end.
Proof.
  destruct (List.find w l) eqn:Hf.
  - apply List.find_some in Hf as [Hin Hw]. by rewrite <- list_elem_of_In in Hin.
  - intros r Hin. eapply List.find_none; [done|]. by apply list_elem_of_In.
Qed.

Section Table.
Context `{B : BlsOps} {R K : Type} `{EqDecision K} {GM : GormModel R} {G : GormOps R}.
Context {L : GormLaws R G} (key : R → K) (P : R → Prop).

(** [key] and [P] do not look at the fields gorm maintains, except that [P] may
    constrain the aggregation. *)
Class RowSpec : Prop := {
  key_set_ID r i : key (set_ID r i) = key r;
  key_set_Aggregation r a : key (set_Aggregation r a) = key r;
  row_ID_set_ID r i : row_ID (set_ID r i) = i;
  row_ID_set_Aggregation r a : row_ID (set_Aggregation r a) = row_ID r;
  row_Aggregation_set r a : row_Aggregation (set_Aggregation r a) = a;
  row_Aggregation_set_ID r i : row_Aggregation (set_ID r i) = row_Aggregation r;
  row_P_set_ID r i : P r → P (set_ID r i);
}.
Context {RS : RowSpec}.

Definition selects_key (w : R → bool) (k : K) : Prop := ∀ r, w r = true ↔ key r = k.

(** One row per primary key and one per message key, every row satisfying [P]. *)
Record tbl_ok (t : Tbl) : Prop := {
  tbl_ids : NoDup (row_ID <$> tbl_rows t);
  tbl_keys : NoDup (key <$> tbl_rows t);
  tbl_P : Forall P (tbl_rows t);
}.

Lemma keys_unique t r1 r2 :
  tbl_ok t → r1 ∈ tbl_rows t → r2 ∈ tbl_rows t → key r1 = key r2 → r1 = r2.
Proof.
  intros [_ Hk _] H1 H2 Heq. apply list_elem_of_lookup in H1 as [i Hi], H2 as [j Hj].
  assert (i = j) as ->; [|congruence]. eapply NoDup_lookup; [exact Hk|..]; rewrite list_lookup_fmap.
  - by rewrite Hi.
  - by rewrite Hj; simpl; rewrite Heq.
Qed.

(** Under one row per key, a lookup by key finds the row that has it. *)
Lemma find_key t w k r :
  tbl_ok t → selects_key w k →
  List.find w (tbl_rows t) = Some r ↔ r ∈ tbl_rows t ∧ key r = k.
Proof.
  intros Hok Hw. pose proof (find_spec w (tbl_rows t)) as Hf. split.
  - intros Heq. rewrite Heq in Hf. by rewrite (Hw r) in Hf.
  - intros [Hin Hk]. destruct (List.find w (tbl_rows t)) as [r'|].
    + destruct Hf as [Hin' Hk'%Hw]. f_equal. eapply keys_unique; [done..|]. congruence.
    + specialize (Hf r Hin). apply Hw in Hk. congruence.
Qed.

Lemma store_ok t w r t' res :
  tbl_ok t → selects_key w (key r) → P r → gorm_FirstOrCreate t w r = (t', res) → tbl_ok t'.
Proof.
  intros Hok Hw HP Hst. destruct res as [r'|e|].
  - destruct (List.find w (tbl_rows t)) as [r0|] eqn:Hf.
    + destruct (gorm_FirstOrCreate_found t w r r0 Hf) as (t2 & Heq & Hrows).
      rewrite Heq in Hst. injection Hst as <- _. destruct Hok. by split; rewrite Hrows.
    + destruct (gorm_FirstOrCreate_new _ _ _ _ _ Hf Hst) as (i & Hi & -> & Hrows).
      pose proof (find_spec w (tbl_rows t)) as Hnone. rewrite Hf in Hnone.
      destruct Hok as [Hids Hkeys HPs]. split; rewrite Hrows, ?fmap_app; simpl.
      * rewrite row_ID_set_ID. apply NoDup_app. split_and!; [done|set_solver|apply NoDup_singleton].
      * apply NoDup_app. split_and!; [done| |apply NoDup_singleton].
        intros k (r0 & -> & Hr0)%list_elem_of_fmap Hk%list_elem_of_singleton.
        rewrite key_set_ID in Hk. apply Hw in Hk. rewrite Hnone in Hk; done.
      * apply Forall_app. split; [done|]. rewrite Forall_singleton. by apply row_P_set_ID.
  - destruct Hok. pose proof (gorm_FirstOrCreate_err _ _ _ _ _ Hst) as Hrows.
    by split; rewrite Hrows.
  - by apply gorm_FirstOrCreate_safe in Hst.
Qed.

(** What the row of a key is after a successful store. *)
Lemma store_row t w r t' r' :
  tbl_ok t → selects_key w (key r) → P r → gorm_FirstOrCreate t w r = (t', Ok r') →
  (∃ r0, List.find w (tbl_rows t) = Some r0 ∧ tbl_rows t' = tbl_rows t ∧ r' = unloaded false r0) ∨
  (∃ i, List.find w (tbl_rows t) = None ∧ r' = set_ID r i ∧ List.find w (tbl_rows t') = Some r' ∧
     ∀ w' k', selects_key w' k' → k' ≠ key r → List.find w' (tbl_rows t') = List.find w' (tbl_rows t)).
Proof.
  intros Hok Hw HP Hst. pose proof (store_ok _ _ _ _ _ Hok Hw HP Hst) as Hok'.
  destruct (List.find w (tbl_rows t)) as [r0|] eqn:Hf.
  - left. destruct (gorm_FirstOrCreate_found t w r r0 Hf) as (t2 & Heq & Hrows).
    rewrite Heq in Hst. injection Hst as <- <-. eauto.
  - right. destruct (gorm_FirstOrCreate_new _ _ _ _ _ Hf Hst) as (i & Hi & -> & Hrows).
    exists i. split_and!; [done..| |].
    + apply (find_key t' w (key r)); [done..|]. rewrite Hrows, key_set_ID. set_solver.
    + intros w' k' Hw' Hne.
      assert (w' (set_ID r i) = false) as Hfalse.
      { apply not_true_iff_false. intros Ht%Hw'. rewrite key_set_ID in Ht. congruence. }
      rewrite Hrows. clear -Hfalse. induction (tbl_rows t) as [|x l IH]; simpl.
      * by rewrite Hfalse.
      * by destruct (w' x).
Qed.

Definition replaced (r : R) (a : AggregationModel) (r0 : R) : R :=
  if bool_decide (row_ID r0 = row_ID r) then set_Aggregation r0 (Some a) else r0.

Lemma key_replaced r a r0 : key (replaced r a r0) = key r0.
Proof. unfold replaced. case_bool_decide; [apply key_set_Aggregation|done]. Qed.

Lemma row_ID_replaced r a r0 : row_ID (replaced r a r0) = row_ID r0.
Proof. unfold replaced. case_bool_decide; [apply row_ID_set_Aggregation|done]. Qed.

Lemma replace_ok t r a t' res :
  tbl_ok t → (∀ r0, P r0 → P (set_Aggregation r0 (Some a))) →
  gorm_ReplaceAggregation t r a = (t', res) → tbl_ok t'.
Proof.
  intros [Hids Hkeys HPs] HP Hst. destruct res as [[]|e|].
  - apply gorm_Replace_ok in Hst. fold (replaced r a) in Hst. split; rewrite Hst.
    + rewrite <- list_fmap_compose. erewrite list_fmap_ext; [done|].
      intros i r0 _. apply row_ID_replaced.
    + rewrite <- list_fmap_compose. erewrite list_fmap_ext; [done|].
      intros i r0 _. apply key_replaced.
    + apply Forall_fmap. eapply Forall_impl; [done|]. intros r0 Hr0.
      unfold replaced; simpl. case_bool_decide; [by apply HP|done].
  - apply gorm_Replace_err in Hst. by split; rewrite Hst.
  - by apply gorm_Replace_safe in Hst.
Qed.

(** Replacing changes the aggregation of one row and no lookup by key otherwise. *)
Lemma replace_row t r a t' r0 w k :
  tbl_ok t → (∀ r0, P r0 → P (set_Aggregation r0 (Some a))) →
  gorm_ReplaceAggregation t r a = (t', Ok tt) → selects_key w k →
  List.find w (tbl_rows t) = Some r0 →
  List.find w (tbl_rows t') = Some (replaced r a r0).
Proof.
  intros Hok HP Hst Hw Hf. pose proof (replace_ok _ _ _ _ _ Hok HP Hst) as Hok'.
  apply gorm_Replace_ok in Hst. apply (find_key t w k) in Hf as [Hin Hk]; [|done..].
  apply (find_key t' w k); [done..|]. rewrite key_replaced. split; [|done].
  rewrite Hst. apply list_elem_of_fmap. by exists r0.
Qed.

(** The rows a checkpoint query returns, as messages with their aggregations. *)
Lemma collect_spec {Msg} (toMessage : R → go Msg) rows :
  Forall (λ r, is_ok (toMessage r) = true ∧
               match row_Aggregation r with Some a => is_ok (am_ToMessage a) = true | None => True end) rows →
  ∃ ms gs, collect toMessage rows = Ok (ms, gs) ∧
    Forall2 (λ r mg, ∃ a, row_Aggregation r = Some a ∧ toMessage r = Ok mg.1 ∧ am_ToMessage a = Ok mg.2)
      (select (λ r, bool_decide (is_Some (row_Aggregation r))) rows) (zip ms gs) ∧
    length ms = length gs.
Proof.
  unfold select. induction 1 as [|r rows [Hm Ha] _ (ms & gs & Heq & HF & Hlen)]; simpl.
  { exists [], []. split_and!; [done|constructor|done]. }
  destruct (row_Aggregation r) as [a|] eqn:Hagg.
  - destruct (toMessage r) as [m| |] eqn:Hmsg; [|done..].
    destruct (am_ToMessage a) as [g| |] eqn:Hg; [|done..]. rewrite Heq; simpl.
    exists (m :: ms), (g :: gs). split_and!; [done| |simpl; lia].
    rewrite filter_cons, decide_True by (by rewrite Hagg). simpl. constructor; [|done]. by exists a.
  - exists ms, gs. split_and!; [done| |done].
    rewrite filter_cons, decide_False; [done|]. by rewrite Hagg.
Qed.

(** The row a store hands back is, up to its aggregation, the row of the key. *)
Lemma store_row_id t w r t' r' :
  tbl_ok t → selects_key w (key r) → P r → gorm_FirstOrCreate t w r = (t', Ok r') →
  ∃ r1, List.find w (tbl_rows t') = Some r1 ∧ row_ID r1 = row_ID r'.
Proof.
  intros Hok Hw HP Hst. destruct (store_row _ _ _ _ _ Hok Hw HP Hst) as
    [(r0 & Hf & Hrows & ->)|(i & _ & _ & Hf & _)]; [|eauto].
  exists r0. rewrite Hrows. split; [done|]. unfold unloaded. by rewrite row_ID_set_Aggregation.
Qed.

Lemma ids_unique t r1 r2 :
  tbl_ok t → r1 ∈ tbl_rows t → r2 ∈ tbl_rows t → row_ID r1 = row_ID r2 → r1 = r2.
Proof.
  intros [Hi _ _] H1 H2 Heq. apply list_elem_of_lookup in H1 as [i Hi1], H2 as [j Hj].
  assert (i = j) as ->; [|congruence]. eapply NoDup_lookup; [exact Hi|..]; rewrite list_lookup_fmap.
  - by rewrite Hi1.
  - by rewrite Hj; simpl; rewrite Heq.
Qed.

(** Replacing the aggregation of the row of key [k], seen through lookups by key. *)
Lemma replace_lookup t r r1 a t' w k w' k' :
  tbl_ok t → (∀ r0, P r0 → P (set_Aggregation r0 (Some a))) →
  gorm_ReplaceAggregation t r a = (t', Ok tt) → selects_key w k → selects_key w' k' →
  List.find w (tbl_rows t) = Some r1 → row_ID r1 = row_ID r →
  List.find w' (tbl_rows t') =
    if bool_decide (k' = k) then Some (set_Aggregation r1 (Some a)) else List.find w' (tbl_rows t).
Proof.
  intros Hok HP Hst Hw Hw' Hf Hid. pose proof (replace_ok _ _ _ _ _ Hok HP Hst) as Hok'.
  case_bool_decide as Hk.
  - subst k'. assert (List.find w' (tbl_rows t) = Some r1) as Hf'.
    { apply (find_key t w' k r1 Hok Hw'), (find_key t w k r1 Hok Hw), Hf. }
    rewrite (replace_row _ _ _ _ r1 w' k Hok HP Hst Hw' Hf').
    unfold replaced. by rewrite bool_decide_true.
  - destruct (List.find w' (tbl_rows t)) as [r2|] eqn:Hf2.
    + rewrite (replace_row _ _ _ _ r2 w' k' Hok HP Hst Hw' Hf2). unfold replaced.
      rewrite bool_decide_false; [done|]. intros Heq. apply Hk.
      apply (find_key t w k) in Hf as [Hin1 <-]; [|done..].
      apply (find_key t w' k') in Hf2 as [Hin2 <-]; [|done..].
      rewrite (ids_unique t r2 r1 Hok Hin2 Hin1); [done|congruence].
    + destruct (List.find w' (tbl_rows t')) as [r2|] eqn:Hf2'; [|done].
      apply (find_key t' w' k') in Hf2' as [Hin2 Hk2]; [|done..].
      apply gorm_Replace_ok in Hst. rewrite Hst in Hin2.
      apply list_elem_of_fmap in Hin2 as (r0 & -> & Hin0).
      fold (replaced r a r0) in Hk2. rewrite key_replaced in Hk2.
      enough (List.find w' (tbl_rows t) = Some r0) by congruence. by apply (find_key t w' k' r0 Hok Hw').
Qed.

End Table.

Section DatabaseSpec.
Context `{B : BlsOps} {G1 : GormOps StateRootUpdateModel} {G2 : GormOps OperatorSetUpdateModel}.
Context {L1 : GormLaws StateRootUpdateModel G1} {L2 : GormLaws OperatorSetUpdateModel G2}.

Definition aggregation_ok (a : option AggregationModel) : Prop :=
  match a with Some a => length (am_MessageDigest a) = 32%nat | None => True end.

Definition srm_key (r : StateRootUpdateModel) : RollupId * BlockNumber :=
  (srm_RollupId r, srm_BlockHeight r).
Definition srm_ok (r : StateRootUpdateModel) : Prop :=
  length (srm_NearDaTransactionId r) = 32%nat ∧ length (srm_NearDaCommitment r) = 32%nat ∧
  length (srm_StateRoot r) = 32%nat ∧ aggregation_ok (srm_Aggregation r).
Definition osm_ok (r : OperatorSetUpdateModel) : Prop := aggregation_ok (osm_Aggregation r).

#[local] Instance srm_spec : RowSpec srm_key srm_ok.
Proof. split; done. Qed.
#[local] Instance osm_spec : RowSpec osm_UpdateId osm_ok.
Proof. split; done. Qed.

(** Both tables are in order. *)
Definition db_wf (d : Database) : Prop :=
  tbl_ok srm_key srm_ok (db_sru d) ∧ tbl_ok osm_UpdateId osm_ok (db_osu d).

Definition msg_bytes32 (m : StateRootUpdateMessage) : Prop :=
  length (sru_NearDaTransactionId m) = 32%nat ∧ length (sru_NearDaCommitment m) = 32%nat ∧
  length (sru_StateRoot m) = 32%nat.

Lemma where_key_selects r h : selects_key srm_key (where_key r h) (r, h).
Proof.
  intros x. unfold where_key, srm_key. rewrite andb_true_iff, !bool_decide_eq_true. naive_solver.
Qed.
Lemma where_id_selects i : selects_key osm_UpdateId (where_id i) i.
Proof. intros x. unfold where_id. apply bool_decide_eq_true. Qed.

Lemma srm_ToMessage_new m i : msg_bytes32 m →
  srm_ToMessage (set_ID (NewStateRootUpdateMessageModel m) i) = Ok m.
Proof.
  intros (H1 & H2 & H3). unfold srm_ToMessage; simpl. rewrite !to_bytes32_id by done. by destruct m.
Qed.

Lemma srm_ToMessage_unloaded p r : srm_ToMessage (unloaded p r) = srm_ToMessage r.
Proof. by destruct p. Qed.

Lemma srm_ToMessage_ok r : srm_ok r → is_ok (srm_ToMessage r) = true.
Proof. intros (H1 & H2 & H3 & _). unfold srm_ToMessage. by rewrite !to_bytes32_id by done. Qed.

Lemma am_roundtrip a : length (mba_MessageDigest a) = 32%nat →
  am_ToMessage (NewMessageBlsAggregationModel a) = Ok a.
Proof. intros Hl. unfold am_ToMessage; simpl. rewrite to_bytes32_id by done. by destruct a. Qed.

Lemma am_ToMessage_ok a : length (am_MessageDigest a) = 32%nat → is_ok (am_ToMessage a) = true.
Proof. intros Hl. unfold am_ToMessage. by rewrite to_bytes32_id. Qed.

Lemma first_write_wins_lemma d m d' row :
  db_wf d → msg_bytes32 m → StoreStateRootUpdate d m = (d', Ok row) →
  let fetch d := FetchStateRootUpdate d (sru_RollupId m) (sru_BlockHeight m) in
  db_wf d' ∧
  ((fetch d = Err ErrRecordNotFound ∧ fetch d' = Ok m) ∨ (∃ m0, fetch d = Ok m0 ∧ fetch d' = Ok m0)) ∧
  (∀ r h, (r, h) ≠ (sru_RollupId m, sru_BlockHeight m) →
     FetchStateRootUpdate d' r h = FetchStateRootUpdate d r h).
Proof.
  intros [Hwf1 Hwf2] Hm. unfold StoreStateRootUpdate.
  destruct (gorm_FirstOrCreate _ _ _) as [t res] eqn:Hst. intros [= <- ->].
  assert (selects_key srm_key (where_key (sru_RollupId m) (sru_BlockHeight m))
    (srm_key (NewStateRootUpdateMessageModel m))) as Hw by apply where_key_selects.
  assert (srm_ok (NewStateRootUpdateMessageModel m)) as Hmok by (destruct Hm as (?&?&?); by split_and!).
  split; [split; [exact (store_ok srm_key srm_ok _ _ _ _ _ Hwf1 Hw Hmok Hst)|done]|].
  unfold FetchStateRootUpdate. setoid_rewrite gorm_First_law. cbn [db_sru].
  destruct (store_row srm_key srm_ok _ _ _ _ _ Hwf1 Hw Hmok Hst) as
    [(r0 & Hf & Hrows & _)|(i & Hf & -> & Hf' & Hother)].
  - rewrite Hrows, Hf. cbn [res_bind]. rewrite srm_ToMessage_unloaded. split; [|done]. right.
    pose proof (find_spec (where_key (sru_RollupId m) (sru_BlockHeight m)) (tbl_rows (db_sru d))) as Hin.
    rewrite Hf in Hin. destruct Hin as [Hin _]. destruct Hwf1 as [_ _ HP].
    rewrite Forall_forall in HP. specialize (HP _ Hin). apply srm_ToMessage_ok in HP.
    destruct (srm_ToMessage r0) as [m0| |]; [|done..]. by exists m0.
  - rewrite Hf, Hf'. cbn [res_bind]. split.
    + left. split; [done|]. rewrite srm_ToMessage_unloaded. by apply srm_ToMessage_new.
    + intros r h Hne. by rewrite (Hother _ (r, h) (where_key_selects r h) Hne).
Qed.

Lemma aggregation_roundtrip_lemma d m d1 row a d2 :
  db_wf d → msg_bytes32 m → length (mba_MessageDigest a) = 32%nat →
  StoreStateRootUpdate d m = (d1, Ok row) →
  StoreStateRootUpdateAggregation d1 row a = (d2, Ok tt) →
  db_wf d2 ∧
  FetchStateRootUpdateAggregation d2 (sru_RollupId m) (sru_BlockHeight m) = Ok a ∧
  (∀ r h, FetchStateRootUpdate d2 r h = FetchStateRootUpdate d1 r h) ∧
  (∀ r h, (r, h) ≠ (sru_RollupId m, sru_BlockHeight m) →
     FetchStateRootUpdateAggregation d2 r h = FetchStateRootUpdateAggregation d1 r h).
Proof.
  intros [Hwf1 Hwf2] Hm Ha. unfold StoreStateRootUpdate, StoreStateRootUpdateAggregation.
  destruct (gorm_FirstOrCreate _ _ _) as [t res] eqn:Hst. intros [= <- ->]; simpl.
  destruct (gorm_ReplaceAggregation _ _ _) as [t2 res] eqn:Hrep. intros [= <- ->].
  assert (selects_key srm_key (where_key (sru_RollupId m) (sru_BlockHeight m))
    (srm_key (NewStateRootUpdateMessageModel m))) as Hw by apply where_key_selects.
  assert (srm_ok (NewStateRootUpdateMessageModel m)) as Hmok by (destruct Hm as (?&?&?); by split_and!).
  assert (∀ r0, srm_ok r0 → srm_ok (set_Aggregation r0 (Some (NewMessageBlsAggregationModel a)))) as Hagg.
  { intros r0 (?&?&?&_). by split_and!. }
  pose proof (store_ok srm_key srm_ok _ _ _ _ _ Hwf1 Hw Hmok Hst) as Hok1.
  destruct (store_row_id srm_key srm_ok _ _ _ _ _ Hwf1 Hw Hmok Hst) as (r1 & Hf1 & Hid1).
  assert (∀ r h, List.find (where_key r h) (tbl_rows t2) =
    if bool_decide ((r, h) = (sru_RollupId m, sru_BlockHeight m))
    then Some (set_Aggregation r1 (Some (NewMessageBlsAggregationModel a)))
    else List.find (where_key r h) (tbl_rows t)) as Hlook.
  { intros r h. eapply (replace_lookup srm_key srm_ok); eauto using where_key_selects. }
  split; [split; [exact (replace_ok srm_key srm_ok _ _ _ _ _ Hok1 Hagg Hrep)|done]|].
  unfold FetchStateRootUpdateAggregation, FetchStateRootUpdate. setoid_rewrite gorm_First_law. simpl.
  split_and!.
  - rewrite Hlook, bool_decide_true by done. simpl. by apply am_roundtrip.
  - intros r h. rewrite Hlook. case_bool_decide as Hk; [|done]. injection Hk as -> ->. by rewrite Hf1.
  - intros r h Hne. by rewrite Hlook, bool_decide_false.
Qed.

(** Storing a state root update keeps the first message of its key.  After a
    successful store, a fetch of the key returns the message just stored if the key
    was unknown, and otherwise the message that was stored before, whatever its
    contents; fetches of other keys are unchanged; and the tables keep one row per
    key. *)
Theorem first_write_wins d m d' row :
  db_wf d → msg_bytes32 m → StoreStateRootUpdate d m = (d', Ok row) →
  let fetch d := FetchStateRootUpdate d (sru_RollupId m) (sru_BlockHeight m) in
  db_wf d' ∧
  ((fetch d = Err ErrRecordNotFound ∧ fetch d' = Ok m) ∨ (∃ m0, fetch d = Ok m0 ∧ fetch d' = Ok m0)) ∧
  (∀ r h, (r, h) ≠ (sru_RollupId m, sru_BlockHeight m) →
     FetchStateRootUpdate d' r h = FetchStateRootUpdate d r h).
Proof. apply first_write_wins_lemma. Qed.

(** C36: the aggregation stored for a key is the one fetched for it.  After a message
    and then an aggregation for its row are stored, fetching the aggregation of the
    key returns exactly that aggregation, the message of the key is untouched, and
    messages and aggregations of other keys are unchanged. *)
Theorem aggregation_roundtrip d m d1 row a d2 :
  db_wf d → msg_bytes32 m → length (mba_MessageDigest a) = 32%nat →
  StoreStateRootUpdate d m = (d1, Ok row) →
  StoreStateRootUpdateAggregation d1 row a = (d2, Ok tt) →
  db_wf d2 ∧
  FetchStateRootUpdateAggregation d2 (sru_RollupId m) (sru_BlockHeight m) = Ok a ∧
  (∀ r h, FetchStateRootUpdate d2 r h = FetchStateRootUpdate d1 r h) ∧
  (∀ r h, (r, h) ≠ (sru_RollupId m, sru_BlockHeight m) →
     FetchStateRootUpdateAggregation d2 r h = FetchStateRootUpdateAggregation d1 r h).
Proof. apply aggregation_roundtrip_lemma. Qed.

(** ** Checkpoint queries *)

(** The rows a checkpoint lists: in the time range, and aggregated. *)
Definition listed {R} `{GormModel R} (ts : R → Timestamp) (fromTs toTs : Timestamp) (rows : list R) : list R :=
  select (λ r, bool_decide (is_Some (row_Aggregation r)))
    (select (λ r, (fromTs <=? ts r) && (ts r <=? toTs)) rows).

(** Message [mg.1] and aggregation [mg.2] are those of row [r]. *)
Definition row_pair {R Msg} `{GormModel R} (toMessage : R → go Msg) (r : R)
    (mg : Msg * MessageBlsAggregation) : Prop :=
  ∃ a, row_Aggregation r = Some a ∧ toMessage r = Ok mg.1 ∧ am_ToMessage a = Ok mg.2.

Lemma select_NoDup {R K} (f : R → K) w (rows : list R) :
  NoDup (f <$> rows) → NoDup (f <$> select w rows).
Proof.
  unfold select. induction rows as [|r rows IH]; simpl; [done|]. intros [Hr Hnd]%NoDup_cons.
  rewrite filter_cons. case_decide; [|by apply IH]. simpl. constructor; [|by apply IH].
  intros (r0 & Heq & Hin)%list_elem_of_fmap. apply Hr. apply list_elem_of_fmap.
  exists r0. split; [done|]. by apply list_elem_of_filter in Hin as [_ ?].
Qed.

Lemma row_pairs_keys {R Msg K} `{GormModel R} (toMessage : R → go Msg) (fr : R → K) (fm : Msg → K)
    rows ms gs :
  (∀ r m, toMessage r = Ok m → fm m = fr r) → length ms = length gs →
  Forall2 (row_pair toMessage) rows (zip ms gs) → fm <$> ms = fr <$> rows.
Proof.
  intros Hkey Hlen HF.
  assert (∀ l, Forall2 (row_pair toMessage) rows l → fm <$> l.*1 = fr <$> rows) as Hfst.
  { clear HF. intros l. induction 1 as [|r mg rows' l' (a & _ & Hm & _) _ IH]; [done|].
    rewrite !fmap_cons, IH. by rewrite (Hkey _ _ Hm). }
  rewrite <- (Hfst _ HF). by rewrite fst_zip by lia.
Qed.

Lemma srm_ToMessage_key r m :
  srm_ToMessage r = Ok m → (sru_RollupId m, sru_BlockHeight m) = srm_key r.
Proof.
  unfold srm_ToMessage. by intros (x & _ & (y & _ & (z & _ & [= <-])%res_bind_ok)%res_bind_ok)%res_bind_ok.
Qed.

Lemma Forall_select {R} (Q : R → Prop) w rows : Forall Q rows → Forall Q (select w rows).
Proof.
  rewrite !Forall_forall. intros HQ r Hr. unfold select in Hr.
  apply list_elem_of_filter in Hr as [_ Hr]. by apply HQ.
Qed.

(** A checkpoint query over a valid time range succeeds and returns exactly the
    messages of that range that have an aggregation, each paired at the same index
    with its own aggregation, and never two messages with the same key (the
    condition under which the checkpoint roots do not depend on the order).  A range
    whose end precedes its start, or that does not fit in an int64, is an error. *)
Theorem checkpoint_messages_spec d fromTs toTs :
  db_wf d → fromTs ≤ toTs → toTs ≤ max_i64 →
  ∃ cm, FetchCheckpointMessages d fromTs toTs = Ok cm ∧
    Forall2 (row_pair srm_ToMessage) (listed srm_Timestamp fromTs toTs (tbl_rows (db_sru d)))
      (zip (cm_StateRootUpdateMessages cm) (cm_StateRootUpdateMessageAggregations cm)) ∧
    length (cm_StateRootUpdateMessages cm) = length (cm_StateRootUpdateMessageAggregations cm) ∧
    Forall2 (row_pair osm_ToMessage) (listed osm_Timestamp fromTs toTs (tbl_rows (db_osu d)))
      (zip (cm_OperatorSetUpdateMessages cm) (cm_OperatorSetUpdateMessageAggregations cm)) ∧
    length (cm_OperatorSetUpdateMessages cm) = length (cm_OperatorSetUpdateMessageAggregations cm) ∧
    NoDup ((λ m, (sru_RollupId m, sru_BlockHeight m)) <$> cm_StateRootUpdateMessages cm) ∧
    NoDup (osu_Id <$> cm_OperatorSetUpdateMessages cm) ∧
    (∀ f t, t < f ∨ max_i64 < f ∨ max_i64 < t → ∃ e, FetchCheckpointMessages d f t = Err e).
Proof.
  intros [[_ Hk1 HP1] [_ Hk2 HP2]] Hft Ht.
  assert (∀ f t, t < f ∨ max_i64 < f ∨ max_i64 < t → ∃ e, FetchCheckpointMessages d f t = Err e) as Herr.
  { intros f t Hbad. unfold FetchCheckpointMessages.
    destruct (Z.ltb_spec max_i64 f), (Z.ltb_spec max_i64 t), (Z.ltb_spec t f); simpl; eauto; lia. }
  unfold FetchCheckpointMessages at 1. rewrite !(proj2 (Z.ltb_ge _ _)) by lia. simpl.
  rewrite !gorm_Find_law; simpl.
  destruct (collect_spec srm_ToMessage (select (λ r, (fromTs <=? srm_Timestamp r) && (srm_Timestamp r <=? toTs))
    (tbl_rows (db_sru d)))) as (ms & gs & -> & HF1 & Hl1).
  { apply Forall_select. eapply Forall_impl; [exact HP1|]. intros r Hr. split; [by apply srm_ToMessage_ok|].
    destruct Hr as (_ & _ & _ & Ha). simpl. destruct (srm_Aggregation r); [|done]. by apply am_ToMessage_ok. }
  destruct (collect_spec osm_ToMessage (select (λ r, (fromTs <=? osm_Timestamp r) && (osm_Timestamp r <=? toTs))
    (tbl_rows (db_osu d)))) as (ms2 & gs2 & -> & HF2 & Hl2).
  { apply Forall_select. eapply Forall_impl; [exact HP2|]. intros r Hr. split; [done|].
    simpl. unfold osm_ok in Hr. destruct (osm_Aggregation r); [|done]. by apply am_ToMessage_ok. }
  simpl. eexists. split; [done|]. simpl. split_and!; try done.
  - rewrite (row_pairs_keys srm_ToMessage srm_key _ _ _ _ srm_ToMessage_key Hl1 HF1).
    by apply select_NoDup, select_NoDup.
  - rewrite (row_pairs_keys osm_ToMessage osm_UpdateId osu_Id _ _ _ ltac:(by intros r m [= <-]) Hl2 HF2).
    by apply select_NoDup, select_NoDup.
Qed.

End DatabaseSpec.

(** ** A table held in a list *)
Module ListTable.

Section Ops.
Context `{B : BlsOps} {R : Type} {GM : GormModel R}.

(** Fresh primary keys are one more than the largest. *)
Definition next_id (rows : list R) : Z := 1 + foldr Z.max 0 (row_ID <$> rows).

Definition ops : GormOps R := {|
  Tbl := list R;
  gorm_FirstOrCreate t w r :=
    match List.find w t with
    | Some r0 => (t, Ok (unloaded false r0))
    | None => let r' := set_ID r (next_id t) in (t ++ [r'], Ok r')
    end;
  gorm_First p t w :=
    match List.find w t with Some r => Ok (unloaded p r) | None => Err ErrRecordNotFound end;
  gorm_Find t w := Ok (select w t);
  gorm_ReplaceAggregation t r a :=
    ((λ r0, if bool_decide (row_ID r0 = row_ID r) then set_Aggregation r0 (Some a) else r0) <$> t, Ok tt) |}.

Lemma next_id_fresh rows : next_id rows ∉ row_ID <$> rows.
Proof.
  unfold next_id. intros Hin.
  assert (∀ (l : list Z) x, x ∈ l → x ≤ foldr Z.max 0 l) as Hmax.
  { induction l as [|y l IH]; intros x [->|Hx]%elem_of_cons || intros x Hx; simpl;
      [by apply not_elem_of_nil in Hx|lia|]. specialize (IH x Hx). lia. }
  apply Hmax in Hin. lia.
Qed.

Definition list_laws : GormLaws R ops.
Proof.
  refine {| tbl_rows (t : @Tbl _ _ ops) := t |}; simpl.
  - done.
  - done.
  - intros t w r r0 ->. by eexists.
  - intros t w r t' r' -> [= <- <-]. exists (next_id t). split_and!; [apply next_id_fresh|done..].
  - intros t w r t' e. case_match; by intros [=].
  - intros t w r t'. case_match; by intros [=].
  - by intros t r a t' [= <-].
  - done.
  - done.
Defined.

End Ops.
End ListTable.

Module Examples.

#[local] Existing Instances ToyBls.ops.
#[local] Instance G1 : GormOps StateRootUpdateModel := ListTable.ops.
#[local] Instance G2 : GormOps OperatorSetUpdateModel := ListTable.ops.
#[local] Instance L1 : GormLaws StateRootUpdateModel G1 := ListTable.list_laws.
#[local] Instance L2 : GormLaws OperatorSetUpdateModel G2 := ListTable.list_laws.

Definition empty_db : Database := mkDatabase [] [].
Definition update (h ts : Z) : StateRootUpdateMessage :=
  mkStateRootUpdate 3 h ts (replicate 32 0) (replicate 32 0) (replicate 32 9).
Definition agg (x : Z) : MessageBlsAggregation :=
  mkMessageBlsAggregation 100 (replicate 32 x) [] [] None None [] [] [] [].

Definition stored : Database := (StoreStateRootUpdate empty_db (update 7 1700000000)).1.
Definition row : StateRootUpdateModel :=
  mkStateRootUpdateModel 1 3 7 1700000000 (replicate 32 0) (replicate 32 0) (replicate 32 9) None.
Definition aggregated : Database := (StoreStateRootUpdateAggregation stored row (agg 1)).1.

Lemma empty_db_wf : db_wf empty_db.
Proof. split; split; constructor. Qed.

Lemma first_write_wins_witness :
  db_wf stored ∧ FetchStateRootUpdate stored 3 7 = Ok (update 7 1700000000) ∧
  FetchStateRootUpdate stored 3 8 = Err ErrRecordNotFound.
Proof.
  destruct (first_write_wins empty_db (update 7 1700000000) stored row) as (Hwf & Hcase & Hother).
  - apply empty_db_wf.
  - split_and!; reflexivity.
  - reflexivity.
  - split; [exact Hwf|]. split.
    + destruct Hcase as [[_ Hf]|(m0 & Hbad & _)]; [exact Hf|discriminate Hbad].
    + rewrite (Hother 3 8); [reflexivity|discriminate].
Defined.

Lemma aggregation_roundtrip_witness :
  FetchStateRootUpdateAggregation aggregated 3 7 = Ok (agg 1).
Proof.
  destruct (aggregation_roundtrip empty_db (update 7 1700000000) stored row (agg 1) aggregated)
    as (_ & Hf & _).
  - apply empty_db_wf.
  - split_and!; reflexivity.
  - reflexivity.
  - reflexivity.
  - reflexivity.
  - exact Hf.
Defined.

Lemma aggregated_wf : db_wf aggregated.
Proof.
  assert (tbl_rows (db_sru aggregated) =
    [mkStateRootUpdateModel 1 3 7 1700000000 (replicate 32 0) (replicate 32 0) (replicate 32 9)
       (Some (NewMessageBlsAggregationModel (agg 1)))]) as Hrows by reflexivity.
  split; [|apply empty_db_wf]. split; rewrite Hrows; repeat constructor; set_solver.
Qed.

Lemma checkpoint_messages_spec_witness :
  ∃ cm, FetchCheckpointMessages aggregated 1600000000 1800000000 = Ok cm ∧
    length (cm_StateRootUpdateMessages cm) = 1%nat ∧
    NoDup ((λ m, (sru_RollupId m, sru_BlockHeight m)) <$> cm_StateRootUpdateMessages cm).
Proof.
  destruct (checkpoint_messages_spec aggregated 1600000000 1800000000) as
    (cm & Hcm & _ & _ & _ & _ & Hnd & _).
  - apply aggregated_wf.
  - lia.
  - vm_compute. discriminate.
  - exists cm. split; [exact Hcm|]. split; [|exact Hnd]. injection Hcm as <-. reflexivity.
Defined.

End Examples.
