(* ===== verification/Aggregator.v ===== *)
(** * The aggregator: aggregator/aggregator.go

    The aggregator owns three message BLS aggregation services (checkpoint tasks, state
    root updates, operator set updates), the message database and the map of open
    tasks.  Modelled here are the RPC handlers ([ProcessSigned...]), the handlers of the
    services' responses, the checkpoint ticker ([sendNewCheckpointTask]), the REST
    queries, and the select loop of [Start] as [agg_deliver].

    What the aggregator learns from outside during a call (clock, registry, chain) is
    the record [AggEnv]; what it does to the outside is the list of [AggEffect]s of a
    call. *)

From S2P Require Import Prelude CoreTypes Instances Messages BlsAgg OperatorRegistrations Database.

(** [taskmanager.CheckpointTask]. *)
Record CheckpointTask := mkCheckpointTask {
  ct_TaskCreatedBlock : Z;
  ct_FromTimestamp : Timestamp;
  ct_ToTimestamp : Timestamp;
  ct_QuorumThreshold : Z;
  ct_QuorumNumbers : bytes }.

Definition zeroTask : CheckpointTask := mkCheckpointTask 0 0 0 0 [].

Definition taskChallengeWindowBlock : Z := 100.
Definition taskResponseSubmissionBufferBlock : Z := 15.
Definition taskAggregationTimeout : Z := 60.
Definition blockTime : Z := 12.

(** The time after which a task's aggregation expires, in seconds; timers are events of
    the model, so the value itself is not used. *)
Definition taskTimeToExpiry : Z :=
  (taskChallengeWindowBlock - taskResponseSubmissionBufferBlock) * blockTime - taskAggregationTimeout.

(** [strings.Contains(err.Error(), "expired")]; the texts of the other errors of the
    service do not contain the word. *)
Definition mentions_expired (e : GoError) : bool :=
  let contains s := match String.index 0 "expired" s with Some _ => true | None => false end in
  match e with
  | MessageExpiredError => true
  | NewError text | ExternalError text => contains text
  | _ => false
  end.

Section Aggregator.
Context `{B : BlsOps} `{H : HashOps} `{A : AbiOps}.
Context {G1 : GormOps StateRootUpdateModel} {G2 : GormOps OperatorSetUpdateModel}.
Context {S : Type} `{OI : !OperatorsInfo S}.

(** ** State and environment *)

#[local] Notation BlsService := (Service (M := ServiceMessage)).
#[local] Notation BlsResponse := (MessageBlsAggregationServiceResponse (M := ServiceMessage)).

Record Aggregator := mkAggregator {
  ag_checkpointInterval : Z;
  ag_taskBlsAggregationService : BlsService;
  ag_stateRootUpdateBlsAggregationService : BlsService;
  ag_operatorSetUpdateBlsAggregationService : BlsService;
  ag_tasks : gmap TaskIndex CheckpointTask;
  ag_msgDb : Database }.

(** [ae_now] is [clock.Now().Unix()], an int64; block times and the other chain data
    come from the Ethereum clients, the reader and the writer. *)
Record AggEnv := mkAggEnv {
  ae_avs : AvsEnv;
  ae_now : Z;
  ae_operatorRegistrationsService : S;
  ae_GetOperatorSetUpdateBlock : OperatorSetUpdateId → go Z;
  ae_BlockNumber : go Z;
  ae_BlockTime : Z → go Z;
  ae_GetLastCheckpointToTimestamp : go Timestamp;
  ae_SendNewCheckpointTask :
    Timestamp → Timestamp → Z → list QuorumNum → go (CheckpointTask * TaskIndex) }.

Inductive AggEffect : Type :=
| IncErroredSubmissions
| IncExpiredMessages
| IncExpiredTasks
| ObserveLastStateRootUpdateReceived (rollupId : RollupId) (blockHeight : BlockNumber)
| ObserveLastStateRootUpdateAggregated (rollupId : RollupId) (blockHeight : BlockNumber)
| ObserveLastOperatorSetUpdateReceived (id : OperatorSetUpdateId)
| ObserveLastOperatorSetUpdateAggregated (id : OperatorSetUpdateId)
| ObserveLastCheckpointReferenceSent (taskIndex : TaskIndex)
| ObserveLastCheckpointTaskReferenceReceived (taskIndex : TaskIndex)
| ObserveLastCheckpointTaskReferenceAggregated (taskIndex : TaskIndex)
| BroadcastOperatorSetUpdate (msg : OperatorSetUpdateMessage) (info : RollupOperatorsSignatureInfo)
| SendAggregatedResponse (task : CheckpointTask) (resp : CheckpointTaskResponse)
    (aggregation : MessageBlsAggregation).

(** What an RPC handler yields: the aggregator, what the caller gets, the responses
    the service sent, and the effects. *)
Record Outcome := mkOutcome {
  oc_agg : Aggregator;
  oc_result : SendResult;
  oc_responses : list BlsResponse;
  oc_effects : list AggEffect }.

Definition set_taskBls (agg : Aggregator) (sv : BlsService) : Aggregator :=
  mkAggregator (ag_checkpointInterval agg) sv (ag_stateRootUpdateBlsAggregationService agg)
    (ag_operatorSetUpdateBlsAggregationService agg) (ag_tasks agg) (ag_msgDb agg).
Definition set_stateRootBls (agg : Aggregator) (sv : BlsService) : Aggregator :=
  mkAggregator (ag_checkpointInterval agg) (ag_taskBlsAggregationService agg) sv
    (ag_operatorSetUpdateBlsAggregationService agg) (ag_tasks agg) (ag_msgDb agg).
Definition set_operatorSetBls (agg : Aggregator) (sv : BlsService) : Aggregator :=
  mkAggregator (ag_checkpointInterval agg) (ag_taskBlsAggregationService agg)
    (ag_stateRootUpdateBlsAggregationService agg) sv (ag_tasks agg) (ag_msgDb agg).
Definition set_tasks (agg : Aggregator) (tasks : gmap TaskIndex CheckpointTask) : Aggregator :=
  mkAggregator (ag_checkpointInterval agg) (ag_taskBlsAggregationService agg)
    (ag_stateRootUpdateBlsAggregationService agg) (ag_operatorSetUpdateBlsAggregationService agg)
    tasks (ag_msgDb agg).
Definition set_msgDb (agg : Aggregator) (db : Database) : Aggregator :=
  mkAggregator (ag_checkpointInterval agg) (ag_taskBlsAggregationService agg)
    (ag_stateRootUpdateBlsAggregationService agg) (ag_operatorSetUpdateBlsAggregationService agg)
    (ag_tasks agg) db.

(** ** Checks *)

(** The conversions of [now] and of the timeout to uint64 are written out; the
    subtraction is on uint64. *)
Definition validateMessageTimestamp (env : AggEnv) (messageTimestamp : Timestamp) : go unit :=
  let now := u64 (ae_now env) in
  let timeoutInSeconds := u64 MESSAGE_SUBMISSION_TIMEOUT in
  if (timeoutInSeconds <? now) && (messageTimestamp <? u64 (now - timeoutInSeconds))
  then Err MessageTimeoutError else Ok tt.

(** The dynamic types the type switch of [verifySignature] distinguishes. *)
Inductive SignedAny : Type :=
| AnyCheckpointTaskResponse (m : SignedCheckpointTaskResponse)
| AnyStateRootUpdate (m : SignedStateRootUpdateMessage)
| AnyOperatorSetUpdate (m : SignedOperatorSetUpdateMessage)
| AnyOther.

Definition any_OperatorId (m : SignedAny) : OperatorId :=
  match m with
  | AnyCheckpointTaskResponse m => sctr_OperatorId m
  | AnyStateRootUpdate m => ssru_OperatorId m
  | AnyOperatorSetUpdate m => sosu_OperatorId m
  | AnyOther => []
  end.

Definition any_BlsSignature (m : SignedAny) : option G1Point :=
  match m with
  | AnyCheckpointTaskResponse m => sctr_BlsSignature m
  | AnyStateRootUpdate m => ssru_BlsSignature m
  | AnyOperatorSetUpdate m => sosu_BlsSignature m
  | AnyOther => None
  end.

(** The digest, with the error the switch returns when it cannot be computed. *)
Definition any_Digest (m : SignedAny) : go MessageDigest :=
  let relabel (r : go MessageDigest) (e : GoError) : go MessageDigest :=
    match r with Err _ => Err e | r => r end in
  match m with
  | AnyCheckpointTaskResponse m => relabel (ctr_Digest (sctr_TaskResponse m)) TaskResponseDigestError
  | AnyStateRootUpdate m => relabel (sru_Digest (ssru_Message m)) DigestError
  | AnyOperatorSetUpdate m => relabel (osu_Digest (sosu_Message m)) DigestError
  | AnyOther => Err UnsupportedMessageTypeError
  end.

(** A nil signature point or public key makes [Verify] panic. *)
Definition verifySignature (env : AggEnv) (m : SignedAny) : go unit :=
  let? digest := any_Digest m in
  match operator_info (ae_operatorRegistrationsService env) (any_OperatorId m) with
  | None => Err OperatorNotFoundError
  | Some info =>
      match any_BlsSignature m, oi_Pubkeys info with
      | Some sig, Some pk =>
          match bls_verify sig (pk_G2 pk) digest with
          | Ok true => Ok tt
          | Ok false | Err _ => Err InvalidSignatureError
          | Panic => Panic
          end
      | _, _ => Panic
      end
  end.

(** ** RPC handlers *)

Definition rejected (agg : Aggregator) (e : GoError) : go Outcome :=
  Ok (mkOutcome agg (Replied (Err e)) [] []).

(** [&signed.BlsSignature] is handed to the service; the point inside was checked. *)
Definition forward (env : AggEnv) (sv : BlsService) (set : BlsService → Aggregator)
    (msg : ServiceMessage) (sig : option G1Point) (operatorId : OperatorId)
    (effects : list AggEffect) : go Outcome :=
  match sig with
  | None => Panic
  | Some sig =>
      let? r := ProcessNewSignature (ae_avs env) sv None msg sig operatorId in
      Ok (mkOutcome (set r.1.1) r.1.2 r.2 effects)
  end.

Definition ProcessSignedCheckpointTaskResponse (env : AggEnv) (agg : Aggregator)
    (m : SignedCheckpointTaskResponse) : go Outcome :=
  match verifySignature env (AnyCheckpointTaskResponse m) with
  | Panic => Panic
  | Err e => rejected agg e
  | Ok _ =>
      forward env (ag_taskBlsAggregationService agg) (set_taskBls agg)
        (MsgCheckpointTaskResponse (sctr_TaskResponse m)) (sctr_BlsSignature m) (sctr_OperatorId m)
        [ObserveLastCheckpointTaskReferenceReceived (ctr_ReferenceTaskIndex (sctr_TaskResponse m))]
  end.

Definition ProcessSignedStateRootUpdateMessage (env : AggEnv) (agg : Aggregator)
    (m : SignedStateRootUpdateMessage) : go Outcome :=
  match validateMessageTimestamp env (sru_Timestamp (ssru_Message m)) with
  | Panic => Panic
  | Err e => rejected agg e
  | Ok _ =>
  match verifySignature env (AnyStateRootUpdate m) with
  | Panic => Panic
  | Err e => rejected agg e
  | Ok _ =>
      let msg := ssru_Message m in
      let effects := [ObserveLastStateRootUpdateReceived (sru_RollupId msg) (sru_BlockHeight msg)] in
      let '(sv, r) := InitializeMessageIfNotExists (ae_avs env)
        (ag_stateRootUpdateBlsAggregationService agg) (sru_Key msg) QUORUM_NUMBERS
        [MESSAGE_AGGREGATION_QUORUM_THRESHOLD] 0 in
      match r with
      | Panic => Panic
      | Err e => Ok (mkOutcome (set_stateRootBls agg sv) (Replied (Err e)) [] effects)
      | Ok _ => forward env sv (set_stateRootBls agg) (MsgStateRootUpdate msg)
                  (ssru_BlsSignature m) (ssru_OperatorId m) effects
      end
  end
  end.

(** [uint64(blockNumber)-1] wraps for block 0. *)
Definition ProcessSignedOperatorSetUpdateMessage (env : AggEnv) (agg : Aggregator)
    (m : SignedOperatorSetUpdateMessage) : go Outcome :=
  match validateMessageTimestamp env (osu_Timestamp (sosu_Message m)) with
  | Panic => Panic
  | Err e => rejected agg e
  | Ok _ =>
  match verifySignature env (AnyOperatorSetUpdate m) with
  | Panic => Panic
  | Err e => rejected agg e
  | Ok _ =>
      let msg := sosu_Message m in
      match ae_GetOperatorSetUpdateBlock env (osu_Id msg) with
      | Panic => Panic
      | Err _ => rejected agg GetOperatorSetUpdateBlockError
      | Ok blockNumber =>
          let effects := [ObserveLastOperatorSetUpdateReceived (osu_Id msg)] in
          let '(sv, r) := InitializeMessageIfNotExists (ae_avs env)
            (ag_operatorSetUpdateBlsAggregationService agg) (osu_Key msg) QUORUM_NUMBERS
            [MESSAGE_AGGREGATION_QUORUM_THRESHOLD] (u64 (blockNumber - 1)) in
          match r with
          | Panic => Panic
          | Err e => Ok (mkOutcome (set_operatorSetBls agg sv) (Replied (Err e)) [] effects)
          | Ok _ => forward env sv (set_operatorSetBls agg) (MsgOperatorSetUpdate msg)
                      (sosu_BlsSignature m) (sosu_OperatorId m) effects
          end
      end
  end
  end.

(** ** Handlers of aggregation responses *)

Definition response_error_effects (e : GoError) : list AggEffect :=
  IncErroredSubmissions :: (if bool_decide (e = MessageExpiredError) then [IncExpiredMessages] else []).

Definition handleStateRootUpdateReachedQuorum (agg : Aggregator) (resp : BlsResponse)
    : go (Aggregator * list AggEffect) :=
  match resp_Err resp with
  | Some e => Ok (agg, response_error_effects e)
  | None =>
      match resp_Message resp with
      | Some (MsgStateRootUpdate msg) =>
          let effects := [ObserveLastStateRootUpdateAggregated (sru_RollupId msg) (sru_BlockHeight msg)] in
          let '(db, r) := StoreStateRootUpdate (ag_msgDb agg) msg in
          match r with
          | Panic => Panic
          | Err _ => Ok (set_msgDb agg db, effects)
          | Ok msgModel =>
              let '(db, r) := StoreStateRootUpdateAggregation db msgModel (resp_Aggregation resp) in
              match r with
              | Panic => Panic
              | _ => Ok (set_msgDb agg db, effects)
              end
          end
      | _ => Panic
      end
  end.

(** The deferred broadcast of a finished response runs whether or not the database
    stored the message. *)
Definition handleOperatorSetUpdateReachedQuorum (agg : Aggregator) (resp : BlsResponse)
    : go (Aggregator * list AggEffect) :=
  match resp_Err resp with
  | Some e => Ok (agg, response_error_effects e)
  | None =>
      match resp_Message resp with
      | Some (MsgOperatorSetUpdate msg) =>
          let finish (db : Database) : go (Aggregator * list AggEffect) :=
            let? broadcast :=
              (if resp_Finished resp
               then let? info := ExtractBindingRollup (resp_Aggregation resp) in
                    Ok [BroadcastOperatorSetUpdate msg info]
               else Ok []) in
            Ok (set_msgDb agg db, ObserveLastOperatorSetUpdateAggregated (osu_Id msg) :: broadcast) in
          let '(db, r) := StoreOperatorSetUpdate (ag_msgDb agg) msg in
          match r with
          | Panic => Panic
          | Err _ => finish db
          | Ok msgModel =>
              let '(db, r) := StoreOperatorSetUpdateAggregation db msgModel (resp_Aggregation resp) in
              match r with
              | Panic => Panic
              | _ => finish db
              end
          end
      | _ => Panic
      end
  end.

(** The task is removed from the map on every path; the wait of about a block before
    sending is not modelled. *)
Definition sendAggregatedResponseToContract (env : AggEnv) (agg : Aggregator) (resp : BlsResponse)
    : go (Aggregator * list AggEffect) :=
  let closed := set_tasks agg
    (delete (CheckpointTaskResponseKeyToTaskIndex (resp_MessageKey resp)) (ag_tasks agg)) in
  match resp_Err resp with
  | Some e =>
      Ok (closed, IncErroredSubmissions :: (if mentions_expired e then [IncExpiredTasks] else []))
  | None =>
      match resp_Message resp with
      | Some (MsgCheckpointTaskResponse taskResponse) =>
          let task := default zeroTask (ag_tasks agg !! ctr_ReferenceTaskIndex taskResponse) in
          let observe := ObserveLastCheckpointTaskReferenceAggregated (ctr_ReferenceTaskIndex taskResponse) in
          match ae_BlockNumber env with
          | Panic => Panic
          | Err _ => Ok (closed, [observe])
          | Ok _ => Ok (closed, [observe; SendAggregatedResponse task taskResponse (resp_Aggregation resp)])
          end
      | _ => Panic
      end
  end.

(** ** New checkpoint tasks *)

(** The time window of a new task, on uint64. *)
Definition checkpoint_window (blockTimestamp lastCheckpointToTimestamp interval : Z) : Z * Z :=
  let toTimestamp := u64 (u64 (blockTimestamp - MESSAGE_SUBMISSION_TIMEOUT)
                          - MESSAGE_BLS_AGGREGATION_TIMEOUT) in
  let fromTimestamp :=
    if bool_decide (lastCheckpointToTimestamp = 0) then u64 (toTimestamp - interval)
    else u64 (lastCheckpointToTimestamp + 1) in
  (fromTimestamp, toTimestamp).

Definition sendNewCheckpointTask (env : AggEnv) (agg : Aggregator)
    : go (Aggregator * list AggEffect) :=
  match (let? blockNumber := ae_BlockNumber env in
         let? blockTimestamp := ae_BlockTime env blockNumber in
         let? last := ae_GetLastCheckpointToTimestamp env in
         let w := checkpoint_window blockTimestamp last (ag_checkpointInterval agg) in
         ae_SendNewCheckpointTask env w.1 w.2 TASK_QUORUM_THRESHOLD QUORUM_NUMBERS) with
  | Panic => Panic
  | Err _ => Ok (agg, [])
  | Ok (newTask, taskIndex) =>
      let agg := set_tasks agg (<[taskIndex := newTask]> (ag_tasks agg)) in
      let thresholds := (λ _, TASK_AGGREGATION_QUORUM_THRESHOLD) <$> ct_QuorumNumbers newTask in
      let '(sv, r) := InitializeMessageIfNotExists (ae_avs env) (ag_taskBlsAggregationService agg)
        (ctr_Key (mkCheckpointTaskResponse taskIndex (replicate 32 0) (replicate 32 0)))
        (ConvertBytesToQuorumNumbers (ct_QuorumNumbers newTask)) thresholds
        (ct_TaskCreatedBlock newTask) in
      match r with
      | Panic => Panic
      | _ => Ok (set_taskBls agg sv, [ObserveLastCheckpointReferenceSent taskIndex])
      end
  end.

(** ** The select loop of Start *)

Inductive AggEvent : Type :=
| TaskResponseC (resp : BlsResponse)
| StateRootResponseC (resp : BlsResponse)
| OperatorSetResponseC (resp : BlsResponse)
| TickerC
| BroadcasterErrorC (e : GoError).

(** The goroutines the loop starts are run to their end. *)
Definition agg_deliver (env : AggEnv) (agg : Aggregator) (ev : AggEvent)
    : go (Aggregator * list AggEffect) :=
  match ev with
  | TaskResponseC resp =>
      if resp_Finished resp then sendAggregatedResponseToContract env agg resp else Ok (agg, [])
  | StateRootResponseC resp => handleStateRootUpdateReachedQuorum agg resp
  | OperatorSetResponseC resp => handleOperatorSetUpdateReachedQuorum agg resp
  | TickerC => sendNewCheckpointTask env agg
  | BroadcasterErrorC _ => Ok (agg, [])
  end.

(** ** Queries *)

Definition GetAggregatedCheckpointMessages (agg : Aggregator) (fromTimestamp toTimestamp : Timestamp)
    : go CheckpointMessages :=
  FetchCheckpointMessages (ag_msgDb agg) fromTimestamp toTimestamp.

Definition GetStateRootUpdateAggregation (agg : Aggregator) (rollupId : RollupId)
    (blockHeight : BlockNumber) : go (StateRootUpdateMessage * MessageBlsAggregation) :=
  match FetchStateRootUpdate (ag_msgDb agg) rollupId blockHeight with
  | Panic => Panic
  | Err _ => Err StateRootUpdateNotFoundError
  | Ok message =>
      match FetchStateRootUpdateAggregation (ag_msgDb agg) rollupId blockHeight with
      | Panic => Panic
      | Err _ => Err StateRootAggNotFoundError
      | Ok aggregation => Ok (message, aggregation)
      end
  end.

Definition GetOperatorSetUpdateAggregation (agg : Aggregator) (id : OperatorSetUpdateId)
    : go (OperatorSetUpdateMessage * MessageBlsAggregation) :=
  match FetchOperatorSetUpdate (ag_msgDb agg) id with
  | Panic => Panic
  | Err _ => Err OperatorSetNotFoundError
  | Ok message =>
      match FetchOperatorSetUpdateAggregation (ag_msgDb agg) id with
      | Panic => Panic
      | Err _ => Err OperatorAggNotFoundError
      | Ok aggregation => Ok (message, aggregation)
      end
  end.

Definition GetCheckpointMessages (agg : Aggregator) (fromTimestamp toTimestamp : Timestamp)
    : go CheckpointMessages :=
  match FetchCheckpointMessages (ag_msgDb agg) fromTimestamp toTimestamp with
  | Panic => Panic
  | Err _ => Err CheckpointNotFoundError
  | Ok cm => Ok cm
  end.

End Aggregator.
