(* ===== verification/AggregatorTheory.v ===== *)
(** * Properties of the aggregator

    - only messages with a fresh enough timestamp and a signature that verifies under
      the G2 key of a registration whose G1 key has their operator id reach the BLS services;
    - the time windows of checkpoint tasks follow each other without gap or overlap;
    - what the database and the REST query hold after an aggregation response,
      including when two different messages reach quorum for one key;
    - when operator set updates are broadcast and checkpoint responses submitted. *)

From S2P Require Import Prelude CoreTypes Instances Messages MessagesTheory BlsAgg.
From S2P Require Import OperatorRegistrations Database DatabaseTheory Aggregator.

Section Theory.
Context `{B : BlsOps} `{H : HashOps} `{A : AbiOps}.
Context {G1 : GormOps StateRootUpdateModel} {G2 : GormOps OperatorSetUpdateModel}.
Context {L1 : GormLaws StateRootUpdateModel G1} {L2 : GormLaws OperatorSetUpdateModel G2}.
Context {S : Type} `{OI : !OperatorsInfo S}.

#[local] Notation AggEnv := (AggEnv (S := S)).
#[local] Notation BlsResponse := (MessageBlsAggregationServiceResponse (M := ServiceMessage)).

(** With a clock after 1970, a message is accepted exactly when it is at most
    [MESSAGE_SUBMISSION_TIMEOUT] seconds old (or the clock reads less than that), and
    otherwise refused with [MessageTimeoutError]; the uint64 subtraction never wraps,
    and nothing bounds a timestamp in the future. *)
Theorem validateMessageTimestamp_spec (env : AggEnv) ts :
  0 ≤ ae_now env < 2 ^ 63 →
  (validateMessageTimestamp env ts = Ok tt ↔ ae_now env ≤ 60 ∨ ae_now env - 60 ≤ ts) ∧
  (validateMessageTimestamp env ts = Ok tt ∨ validateMessageTimestamp env ts = Err MessageTimeoutError) ∧
  (∀ future, ae_now env ≤ future → validateMessageTimestamp env future = Ok tt).
Proof.
  intros Hnow. unfold validateMessageTimestamp, MESSAGE_SUBMISSION_TIMEOUT.
  rewrite !(u64_small (ae_now env)) by (unfold is_u64; lia). change (u64 60) with 60.
  assert (∀ ts, (60 <? ae_now env) && (ts <? u64 (ae_now env - 60)) = true ↔
    ¬ (ae_now env ≤ 60 ∨ ae_now env - 60 ≤ ts)) as Hcase.
  { intros t. destruct (Z.ltb_spec 60 (ae_now env)); simpl; [|split; [done|lia]].
    rewrite u64_small by (unfold is_u64; lia). rewrite Z.ltb_lt. lia. }
  split_and!.
  - specialize (Hcase ts). destruct (_ && _); [|split; [intros _|done]].
    + split; [done|]. intros Hok. by destruct (proj1 Hcase eq_refl).
    + destruct (decide (ae_now env ≤ 60 ∨ ae_now env - 60 ≤ ts)) as [|Hn]; [done|].
      apply Hcase in Hn. done.
  - destruct (_ && _); auto.
  - intros future Hf. specialize (Hcase future). destruct (_ && _); [|done].
    exfalso. apply (proj1 Hcase eq_refl). lia.
Qed.

(** ** Signatures *)

Lemma verifySignature_ok (env : AggEnv) m :
  operator_valid (ae_operatorRegistrationsService env) → verifySignature env m = Ok tt →
  ∃ info pk sig d, operator_info (ae_operatorRegistrationsService env) (any_OperatorId m) = Some info ∧
    oi_Pubkeys info = Some pk ∧ any_Digest m = Ok d ∧ any_BlsSignature m = Some sig ∧
    OperatorIdFromG1Pubkey (pk_G1 pk) = any_OperatorId m ∧ bls_verify sig (pk_G2 pk) d = Ok true.
Proof.
  intros Hvalid. unfold verifySignature. intros (d & Hd & Hv)%res_bind_ok.
  destruct (operator_info _ _) as [info|] eqn:Hinfo; [|done].
  destruct (operator_info_id _ _ _ Hvalid Hinfo) as (pk & Hpk & Hid). rewrite Hpk in Hv.
  destruct (any_BlsSignature m) as [sig|]; [|done].
  destruct (bls_verify sig (pk_G2 pk) d) as [[]| |] eqn:Hb; [|done..].
  by exists info, pk, sig, d.
Qed.

(** The handler of each kind of message. *)
Definition process (env : AggEnv) (agg : Aggregator) (m : SignedAny) : go Outcome :=
  match m with
  | AnyCheckpointTaskResponse m => ProcessSignedCheckpointTaskResponse env agg m
  | AnyStateRootUpdate m => ProcessSignedStateRootUpdateMessage env agg m
  | AnyOperatorSetUpdate m => ProcessSignedOperatorSetUpdateMessage env agg m
  | AnyOther => rejected agg UnsupportedMessageTypeError
  end.

(** Every handler checks the signature before it does anything else. *)
Lemma process_verified (env : AggEnv) agg m oc :
  process env agg m = Ok oc →
  (∃ e, oc = mkOutcome agg (Replied (Err e)) [] []) ∨ verifySignature env m = Ok tt.
Proof.
  intros Hp. unfold process, rejected in Hp. destruct m as [m|m|m|].
  - unfold ProcessSignedCheckpointTaskResponse, rejected in Hp.
    destruct (verifySignature env _) as [[]|e|]; simplify_eq/=; eauto.
  - unfold ProcessSignedStateRootUpdateMessage, rejected in Hp.
    destruct (validateMessageTimestamp _ _) as [[]|e|]; simplify_eq/=; eauto.
    destruct (verifySignature env _) as [[]|e|]; simplify_eq/=; eauto.
  - unfold ProcessSignedOperatorSetUpdateMessage, rejected in Hp.
    destruct (validateMessageTimestamp _ _) as [[]|e|]; simplify_eq/=; eauto.
    destruct (verifySignature env _) as [[]|e|]; simplify_eq/=; eauto.
  - simplify_eq/=; eauto.
Qed.

(** ** Checkpoint windows *)

Lemma checkpoint_window_eq b last i :
  0 < last → last < 2 ^ 64 - 1 → 90 ≤ b < 2 ^ 64 → checkpoint_window b last i = (last + 1, b - 90).
Proof.
  intros Hl Hl' Hb. unfold checkpoint_window, MESSAGE_SUBMISSION_TIMEOUT, MESSAGE_BLS_AGGREGATION_TIMEOUT.
  rewrite bool_decide_false by lia.
  rewrite (u64_small (b - 60)), (u64_small (last + 1)) by (unfold is_u64; lia).
  rewrite u64_small by (unfold is_u64; lia). f_equal. lia.
Qed.

(** Successive checkpoint tasks cover time without gap or overlap.  When a task is
    created from a block at time [b1] after a checkpoint that ended at [last], and
    the next one from a block at time [b2], the first window is [last + 1 .. b1 - 90],
    the second starts right after it, and both are non-empty if 90 seconds plus one
    have passed since the previous window's end.  If they have not, the window is
    empty, which the message database refuses. *)
Theorem checkpoint_windows_adjacent b1 b2 last i d :
  0 < last → last + 91 ≤ b1 → b1 < b2 → b2 < 2 ^ 63 →
  let w1 := checkpoint_window b1 last i in
  let w2 := checkpoint_window b2 w1.2 i in
  w1 = (last + 1, b1 - 90) ∧ w1.1 ≤ w1.2 ∧ w2.1 = w1.2 + 1 ∧ w2.1 ≤ w2.2 ∧
  (∀ b, 90 ≤ b → b - 90 ≤ last → ∃ e,
     FetchCheckpointMessages d (checkpoint_window b last i).1 (checkpoint_window b last i).2 = Err e).
Proof.
  intros Hl Hb1 Hb2 Hmax w1 w2.
  assert (w1 = (last + 1, b1 - 90)) as Hw1 by (apply checkpoint_window_eq; lia).
  assert (w2 = (b1 - 90 + 1, b2 - 90)) as Hw2.
  { subst w2. rewrite Hw1. apply checkpoint_window_eq; simpl; lia. }
  rewrite Hw1, Hw2. cbn [fst snd]. split_and!; try done; try lia.
  intros b Hb Hle. rewrite checkpoint_window_eq by lia. simpl. unfold FetchCheckpointMessages.
  destruct (_ || _); [eauto|]. rewrite (proj2 (Z.ltb_lt _ _)) by lia. eauto.
Qed.

(** ** Aggregation responses *)

Lemma store_response_lemma (agg : Aggregator) (resp : BlsResponse) m d1 row d2 :
  db_wf (ag_msgDb agg) → msg_bytes32 m →
  length (mba_MessageDigest (resp_Aggregation resp)) = 32%nat →
  resp_Err resp = None → resp_Message resp = Some (MsgStateRootUpdate m) →
  StoreStateRootUpdate (ag_msgDb agg) m = (d1, Ok row) →
  StoreStateRootUpdateAggregation d1 row (resp_Aggregation resp) = (d2, Ok tt) →
  handleStateRootUpdateReachedQuorum agg resp =
    Ok (set_msgDb agg d2,
        [ObserveLastStateRootUpdateAggregated (sru_RollupId m) (sru_BlockHeight m)]) ∧
  db_wf d2 ∧
  ∃ m0, GetStateRootUpdateAggregation (set_msgDb agg d2) (sru_RollupId m) (sru_BlockHeight m)
          = Ok (m0, resp_Aggregation resp) ∧
    (FetchStateRootUpdate (ag_msgDb agg) (sru_RollupId m) (sru_BlockHeight m) = Ok m0 ∨
     (FetchStateRootUpdate (ag_msgDb agg) (sru_RollupId m) (sru_BlockHeight m) = Err ErrRecordNotFound
      ∧ m0 = m)).
Proof.
  intros Hwf Hm Hd He Hmsg Hst1 Hst2.
  destruct (first_write_wins_lemma _ _ _ _ Hwf Hm Hst1) as (Hwf1 & Hcase & _).
  destruct (aggregation_roundtrip_lemma _ _ _ _ _ _ Hwf Hm Hd Hst1 Hst2) as (Hwf2 & Hagg & Hsame & _).
  split_and!; [|done|].
  - unfold handleStateRootUpdateReachedQuorum. by rewrite He, Hmsg, Hst1, Hst2.
  - unfold GetStateRootUpdateAggregation; simpl. rewrite Hagg, Hsame.
    destruct Hcase as [[Hnone Hnew]|(m0 & Hold & Hnew)].
    + exists m. rewrite Hnew. auto.
    + exists m0. rewrite Hnew. auto.
Qed.

(** When the aggregation service reports a state root update and the database
    accepts the writes, the REST query for its rollup and height returns the
    reported aggregation, together with the reported message if the key was new. *)
Theorem response_is_queryable (agg : Aggregator) (resp : BlsResponse) m d1 row d2 :
  db_wf (ag_msgDb agg) → msg_bytes32 m →
  length (mba_MessageDigest (resp_Aggregation resp)) = 32%nat →
  resp_Err resp = None → resp_Message resp = Some (MsgStateRootUpdate m) →
  StoreStateRootUpdate (ag_msgDb agg) m = (d1, Ok row) →
  StoreStateRootUpdateAggregation d1 row (resp_Aggregation resp) = (d2, Ok tt) →
  FetchStateRootUpdate (ag_msgDb agg) (sru_RollupId m) (sru_BlockHeight m) = Err ErrRecordNotFound →
  ∃ agg' effects, handleStateRootUpdateReachedQuorum agg resp = Ok (agg', effects) ∧
    GetStateRootUpdateAggregation agg' (sru_RollupId m) (sru_BlockHeight m)
      = Ok (m, resp_Aggregation resp).
Proof.
  intros Hwf Hm Hd He Hmsg Hst1 Hst2 Hnew.
  destruct (store_response_lemma _ _ _ _ _ _ Hwf Hm Hd He Hmsg Hst1 Hst2) as (Hh & _ & m0 & Hq & Hcase).
  do 2 eexists. split; [exact Hh|]. rewrite Hq. destruct Hcase as [Hold|[_ ->]]; [congruence|done].
Qed.

(** When a second, different message reaches quorum for a key that is already
    stored (its aggregation can be restarted once the first goroutine has returned),
    the database keeps the first message but replaces the aggregation: the REST
    query then answers with the first message and an aggregation for another digest,
    which does not verify that message. *)
Theorem conflicting_quorum_mixes_rows (agg : Aggregator) (resp1 resp2 : BlsResponse)
    m1 m2 d1 row1 d2 d3 row2 d4 dg1 :
  db_wf (ag_msgDb agg) → msg_bytes32 m1 → msg_bytes32 m2 →
  length (mba_MessageDigest (resp_Aggregation resp1)) = 32%nat →
  length (mba_MessageDigest (resp_Aggregation resp2)) = 32%nat →
  sru_RollupId m2 = sru_RollupId m1 → sru_BlockHeight m2 = sru_BlockHeight m1 →
  resp_Err resp1 = None → resp_Message resp1 = Some (MsgStateRootUpdate m1) →
  resp_Err resp2 = None → resp_Message resp2 = Some (MsgStateRootUpdate m2) →
  sru_Digest m1 = Ok dg1 → mba_MessageDigest (resp_Aggregation resp2) ≠ dg1 →
  StoreStateRootUpdate (ag_msgDb agg) m1 = (d1, Ok row1) →
  StoreStateRootUpdateAggregation d1 row1 (resp_Aggregation resp1) = (d2, Ok tt) →
  StoreStateRootUpdate d2 m2 = (d3, Ok row2) →
  StoreStateRootUpdateAggregation d3 row2 (resp_Aggregation resp2) = (d4, Ok tt) →
  FetchStateRootUpdate (ag_msgDb agg) (sru_RollupId m1) (sru_BlockHeight m1) = Err ErrRecordNotFound →
  ∃ agg1 e1 agg2 e2,
    handleStateRootUpdateReachedQuorum agg resp1 = Ok (agg1, e1) ∧
    handleStateRootUpdateReachedQuorum agg1 resp2 = Ok (agg2, e2) ∧
    GetStateRootUpdateAggregation agg2 (sru_RollupId m1) (sru_BlockHeight m1)
      = Ok (m1, resp_Aggregation resp2) ∧
    sru_Digest m1 ≠ Ok (mba_MessageDigest (resp_Aggregation resp2)).
Proof.
  intros Hwf Hm1 Hm2 Hl1 Hl2 Hr Hh He1 Hmsg1 He2 Hmsg2 Hdg Hne Hs1 Hs2 Hs3 Hs4 Hnew.
  destruct (store_response_lemma agg resp1 _ _ _ _ Hwf Hm1 Hl1 He1 Hmsg1 Hs1 Hs2)
    as (Hh1 & Hwf2 & m0 & Hq1 & Hcase1).
  assert (m0 = m1) as -> by (destruct Hcase1 as [?|[_ ?]]; congruence).
  destruct (store_response_lemma (set_msgDb agg d2) resp2 m2 d3 row2 d4 Hwf2 Hm2 Hl2 He2 Hmsg2 Hs3 Hs4)
    as (Hh2 & _ & m0 & Hq2 & Hcase2).
  rewrite Hr, Hh in Hq2, Hcase2. simpl in Hcase2.
  assert (FetchStateRootUpdate d2 (sru_RollupId m1) (sru_BlockHeight m1) = Ok m1) as Hf1.
  { unfold GetStateRootUpdateAggregation in Hq1; simpl in Hq1.
    destruct (FetchStateRootUpdate d2 _ _) as [x| |]; [|done..].
    destruct (FetchStateRootUpdateAggregation d2 _ _); [|done..]. by injection Hq1 as -> _. }
  do 4 eexists. split_and!; [exact Hh1|exact Hh2| |congruence].
  destruct Hcase2 as [Hold|[Hbad _]]; [|congruence]. rewrite Hf1 in Hold. injection Hold as <-. exact Hq2.
Qed.

(** An operator set update is broadcast to the rollups exactly when its response is
    final and carries no error, with the response's own message and signature, and
    regardless of whether the database accepted it. *)
Theorem broadcast_exactly_final (agg agg' : Aggregator) (resp : BlsResponse) effects msg info :
  handleOperatorSetUpdateReachedQuorum agg resp = Ok (agg', effects) →
  BroadcastOperatorSetUpdate msg info ∈ effects ↔
  resp_Err resp = None ∧ resp_Finished resp = true ∧
  resp_Message resp = Some (MsgOperatorSetUpdate msg) ∧
  ExtractBindingRollup (resp_Aggregation resp) = Ok info.
Proof.
  unfold handleOperatorSetUpdateReachedQuorum. intros Hh.
  destruct (resp_Err resp) as [e|].
  { injection Hh as <- <-. unfold response_error_effects. split; [|naive_solver].
    case_bool_decide; set_solver. }
  destruct (resp_Message resp) as [[m|m|m]|] eqn:Hm; [done| |done|done].
  assert (∃ db, (let? broadcast :=
      (if resp_Finished resp
       then let? info := ExtractBindingRollup (resp_Aggregation resp) in
            Ok [BroadcastOperatorSetUpdate m info] else Ok []) in
      Ok (set_msgDb agg db, ObserveLastOperatorSetUpdateAggregated (osu_Id m) :: broadcast))
      = Ok (agg', effects)) as [db Hfin].
  { destruct (StoreOperatorSetUpdate _ _) as [d1 [row|e|]]; [|by eexists|done].
    destruct (StoreOperatorSetUpdateAggregation _ _ _) as [d2 [[]|e|]]; [by eexists..|done]. }
  clear Hh. apply res_bind_ok in Hfin as (bc & Hbc & [= <- <-]). rewrite elem_of_cons.
  destruct (resp_Finished resp).
  - apply res_bind_ok in Hbc as (i & Hi & [= <-]). rewrite list_elem_of_singleton, Hi. naive_solver.
  - injection Hbc as <-. rewrite elem_of_nil. naive_solver.
Qed.

(** A final checkpoint response without error is submitted to the contract with the
    task it answers, found through the index in the response's key, and the task is
    then closed: exactly its entry leaves the task map. *)
Theorem final_response_submitted (env : AggEnv) agg (resp : BlsResponse) tr task blk :
  resp_Err resp = None → resp_Finished resp = true →
  resp_Message resp = Some (MsgCheckpointTaskResponse tr) → resp_MessageKey resp = ctr_Key tr →
  is_u32 (ctr_ReferenceTaskIndex tr) → ag_tasks agg !! ctr_ReferenceTaskIndex tr = Some task →
  ae_BlockNumber env = Ok blk →
  ∃ agg' effects, agg_deliver env agg (TaskResponseC resp) = Ok (agg', effects) ∧
    SendAggregatedResponse task tr (resp_Aggregation resp) ∈ effects ∧
    ag_tasks agg' = delete (ctr_ReferenceTaskIndex tr) (ag_tasks agg) ∧
    ag_msgDb agg' = ag_msgDb agg.
Proof.
  intros He Hf Hm Hk Hu Ht Hb. simpl. rewrite Hf. unfold sendAggregatedResponseToContract.
  rewrite He, Hm, Hb, Hk, Ht, ctr_Key_roundtrip_lemma by done.
  do 2 eexists. split; [done|]. simpl. split_and!; [|done..]. set_solver.
Qed.

End Theory.

(** ** The aggregator with its registrations service *)

Section Authentication.
Context `{B : BlsOps} `{H : HashOps} `{A : AbiOps}.
Context {G1 : GormOps StateRootUpdateModel} {G2 : GormOps OperatorSetUpdateModel}.

(** C5: only authenticated messages have any effect.  The aggregator asks the
    registrations service as it is after the query for past registrations [pa] and any
    events [evs].  A handler either answers with an error and leaves the aggregator, its
    services and its metrics untouched, or there is one registration, in [pa] or in
    [evs], whose G1 key hashes to the operator id the message claims and under whose G2
    key the message's signature verifies for the message's digest. *)
Theorem only_authenticated_messages s1 s2 pa sa (ors : Ors) evs (env : AggEnv (S := Ors)) agg m oc :
  NewOperatorRegistrationsServiceInMemory s1 s2 pa sa = Ok ors →
  ae_operatorRegistrationsService env = ors_run ors evs → process env agg m = Ok oc →
  (∃ e, oc = mkOutcome agg (Replied (Err e)) [] []) ∨
  (∃ pk sig d, registered pa evs pk ∧ OperatorIdFromG1Pubkey (pk_G1 pk) = any_OperatorId m ∧
    any_Digest m = Ok d ∧ any_BlsSignature m = Some sig ∧ bls_verify sig (pk_G2 pk) d = Ok true).
Proof.
  intros Hnew Henv [?|Hok]%process_verified; [by left|right].
  assert (operator_valid (ae_operatorRegistrationsService env)) as Hwf.
  { rewrite Henv. exact (ors_wf_run _ evs (ors_wf_new _ _ _ _ _ Hnew)). }
  destruct (verifySignature_ok env m Hwf Hok) as (info & pk & sig & d & Hinfo & Hpk & Hd & Hs & Hid & Hv).
  exists pk, sig, d. split_and!; [|done..]. eapply (stored_keys_registered _ _ _ _ _ evs (any_OperatorId m)); [done|].
  rewrite <- Henv. simpl in Hinfo. destruct (_ && _); [|done]. by injection Hinfo as <-.
Qed.

End Authentication.
