(* ===== verification/AggregatorExamples.v ===== *)
(** * Concrete runs of the aggregator

    The aggregator over the three-operator registry of [BlsAggExamples], a list-backed
    database, and the registrations service of [OperatorRegistrations]. *)

From S2P Require Import Prelude CoreTypes Instances Messages MessagesTheory BlsAgg BlsAggExamples.
From S2P Require Import OperatorRegistrations Database DatabaseTheory Aggregator AggregatorTheory.

#[local] Existing Instances ToyBls.ops ToyHash.ops ToyAbi.ops.
#[local] Existing Instances DatabaseTheory.Examples.G1 DatabaseTheory.Examples.G2.
#[local] Existing Instances DatabaseTheory.Examples.L1 DatabaseTheory.Examples.L2.

#[local] Notation start := OperatorRegistrations.Examples.start.
#[local] Notation keys1 := OperatorRegistrations.Examples.keys1.
#[local] Notation empty_db := DatabaseTheory.Examples.empty_db.

Definition task5 : CheckpointTask := mkCheckpointTask 90 1600000001 1699999910 66 [0].

Definition ex_agg_env (now : Z) : AggEnv (S := Ors) := {|
  ae_avs := ex_env false;
  ae_now := now;
  ae_operatorRegistrationsService := start;
  ae_GetOperatorSetUpdateBlock _ := Ok 100;
  ae_BlockNumber := Ok 1000;
  ae_BlockTime _ := Ok 1700000000;
  ae_GetLastCheckpointToTimestamp := Ok 1600000000;
  ae_SendNewCheckpointTask _ _ _ _ := Ok (task5, 5) |}.

Definition ex_aggregator (db : Database) : Aggregator :=
  mkAggregator 60 NewMessageBlsAggregatorService NewMessageBlsAggregatorService
    NewMessageBlsAggregatorService {[ 5 := task5 ]} db.

Lemma start_valid : operator_valid start.
Proof. exact (ors_wf_new (Ok tt) (Ok tt) (Ok ([101], [keys1])) (Ok ∅) start eq_refl). Qed.

Lemma validateMessageTimestamp_spec_witness :
  (validateMessageTimestamp (ex_agg_env 1700000000) 1699999940 = Ok tt ↔
     1700000000 ≤ 60 ∨ 1700000000 - 60 ≤ 1699999940).
Proof.
  refine (proj1 (validateMessageTimestamp_spec (ex_agg_env 1700000000) 1699999940 _)).
  simpl. lia.
Defined.

(** Operator 1 submits a state root update with its own signature. *)
Definition ex_update (root : Z) : StateRootUpdateMessage :=
  mkStateRootUpdate 3 7 1700000000 (replicate 32 0) (replicate 32 0) (replicate 32 root).
Definition ex_update_digest (root : Z) : MessageDigest := res_or [] (sru_Digest (ex_update root)).
Definition ex_signed : SignedAny :=
  AnyStateRootUpdate (mkSignedStateRootUpdate (ex_update 9)
    (Some (NewG1Point (1 * ToyBls.hash_to_scalar (ex_update_digest 9)) 0)) (op_id 1)).

Definition no_outcome : Outcome := mkOutcome (ex_aggregator empty_db) Blocked [] [].
Definition ex_outcome : Outcome :=
  res_or no_outcome (process (ex_agg_env 1700000000) (ex_aggregator empty_db) ex_signed).

(** The message passes all checks and is the first signature of its key. *)
Lemma ex_outcome_accepted : oc_result ex_outcome = Replied (Ok tt).
Proof. vm_compute. reflexivity. Qed.

Lemma only_authenticated_messages_witness :
  (∃ e, ex_outcome = mkOutcome (ex_aggregator empty_db) (Replied (Err e)) [] []) ∨
  (∃ pk sig d, registered (Ok ([101], [keys1])) [] pk ∧ OperatorIdFromG1Pubkey (pk_G1 pk) = any_OperatorId ex_signed ∧
    any_Digest ex_signed = Ok d ∧ any_BlsSignature ex_signed = Some sig ∧ bls_verify sig (pk_G2 pk) d = Ok true).
Proof.
  apply (only_authenticated_messages (Ok tt) (Ok tt) (Ok ([101], [keys1])) (Ok ∅) start []
    (ex_agg_env 1700000000) (ex_aggregator empty_db)).
  - reflexivity.
  - reflexivity.
  - unfold ex_outcome. apply (res_or_ok no_outcome). vm_compute. reflexivity.
Defined.

Lemma checkpoint_windows_adjacent_witness :
  checkpoint_window 1700000000 1600000000 60 = (1600000001, 1699999910).
Proof.
  refine (proj1 (checkpoint_windows_adjacent 1700000000 1700000060 1600000000 60 empty_db _ _ _ _)); lia.
Defined.

(** ** Responses *)

Definition ex_aggregation (root : Z) : MessageBlsAggregation :=
  mkMessageBlsAggregation 100 (ex_update_digest root) [] [] (Some (ex_pk 1)) (Some (ex_sig 1 1)) [] [] [] [].
Definition ex_response (root : Z) : MessageBlsAggregationServiceResponse :=
  mkResponse (ex_aggregation root) (sru_Key (ex_update root)) (Some (MsgStateRootUpdate (ex_update root)))
    MessageBlsAggregationStatusFullStakeThresholdMet true None.

Definition db1 : Database := (StoreStateRootUpdate empty_db (ex_update 9)).1.
Definition row1 : StateRootUpdateModel :=
  mkStateRootUpdateModel 1 3 7 1700000000 (replicate 32 0) (replicate 32 0) (replicate 32 9) None.
Definition db2 : Database := (StoreStateRootUpdateAggregation db1 row1 (ex_aggregation 9)).1.
Definition db3 : Database := (StoreStateRootUpdateAggregation db2 row1 (ex_aggregation 8)).1.

Lemma response_is_queryable_witness :
  ∃ agg' effects, handleStateRootUpdateReachedQuorum (ex_aggregator empty_db) (ex_response 9)
      = Ok (agg', effects) ∧
    GetStateRootUpdateAggregation agg' 3 7 = Ok (ex_update 9, ex_aggregation 9).
Proof.
  apply (response_is_queryable (ex_aggregator empty_db) (ex_response 9) (ex_update 9) db1 row1 db2).
  - apply DatabaseTheory.Examples.empty_db_wf.
  - split_and!; reflexivity.
  - vm_compute. reflexivity.
  - reflexivity.
  - reflexivity.
  - reflexivity.
  - reflexivity.
  - reflexivity.
Defined.

Lemma conflicting_quorum_mixes_rows_witness :
  ∃ agg1 e1 agg2 e2,
    handleStateRootUpdateReachedQuorum (ex_aggregator empty_db) (ex_response 9) = Ok (agg1, e1) ∧
    handleStateRootUpdateReachedQuorum agg1 (ex_response 8) = Ok (agg2, e2) ∧
    GetStateRootUpdateAggregation agg2 3 7 = Ok (ex_update 9, ex_aggregation 8) ∧
    sru_Digest (ex_update 9) ≠ Ok (mba_MessageDigest (ex_aggregation 8)).
Proof.
  apply (conflicting_quorum_mixes_rows (ex_aggregator empty_db) (ex_response 9) (ex_response 8)
    (ex_update 9) (ex_update 8) db1 row1 db2 db2 row1 db3 (ex_update_digest 9)).
  - apply DatabaseTheory.Examples.empty_db_wf.
  - split_and!; reflexivity.
  - split_and!; reflexivity.
  - vm_compute. reflexivity.
  - vm_compute. reflexivity.
  - reflexivity.
  - reflexivity.
  - reflexivity.
  - reflexivity.
  - reflexivity.
  - reflexivity.
  - vm_compute. reflexivity.
  - vm_compute. discriminate.
  - reflexivity.
  - reflexivity.
  - reflexivity.
  - reflexivity.
  - reflexivity.
Defined.

Definition ex_set_update : OperatorSetUpdateMessage := mkOperatorSetUpdate 4 1700000000 [].
Definition ex_set_response : MessageBlsAggregationServiceResponse :=
  mkResponse (ex_aggregation 9) (osu_Key ex_set_update) (Some (MsgOperatorSetUpdate ex_set_update))
    MessageBlsAggregationStatusFullStakeThresholdMet true None.
Definition ex_info : RollupOperatorsSignatureInfo :=
  mkSignatureInfo [] (ConvertToBN254G2Point (ex_pk 1)) (ConvertToBN254G1Point (ex_sig 1 1)).
Definition ex_set_stored : Database :=
  (StoreOperatorSetUpdateAggregation (StoreOperatorSetUpdate empty_db ex_set_update).1
     (mkOperatorSetUpdateModel 1 4 1700000000 [] None) (ex_aggregation 9)).1.

Lemma broadcast_exactly_final_witness :
  BroadcastOperatorSetUpdate ex_set_update ex_info ∈
    [ObserveLastOperatorSetUpdateAggregated 4; BroadcastOperatorSetUpdate ex_set_update ex_info].
Proof.
  apply (broadcast_exactly_final (ex_aggregator empty_db) (ex_aggregator ex_set_stored) ex_set_response).
  - reflexivity.
  - split_and!; reflexivity.
Defined.

Definition ex_task_response : MessageBlsAggregationServiceResponse :=
  mkResponse (ex_aggregation 9) (ctr_Key (ex_msg 1)) (Some (MsgCheckpointTaskResponse (ex_msg 1)))
    MessageBlsAggregationStatusFullStakeThresholdMet true None.

Lemma final_response_submitted_witness :
  ∃ agg' effects,
    agg_deliver (ex_agg_env 1700000000) (ex_aggregator empty_db) (TaskResponseC ex_task_response)
      = Ok (agg', effects) ∧
    SendAggregatedResponse task5 (ex_msg 1) (ex_aggregation 9) ∈ effects ∧
    ag_tasks agg' = delete 5 {[ 5 := task5 ]} ∧ ag_msgDb agg' = empty_db.
Proof.
  apply (final_response_submitted (ex_agg_env 1700000000) (ex_aggregator empty_db)
    ex_task_response (ex_msg 1) task5 1000); try reflexivity.
  unfold is_u32; simpl; lia.
Defined.
