(* ===== verification/Servers.v ===== *)
(** * The aggregator's servers: aggregator/rpc_server/server.go and rest_server/server.go

    [RpcServer] hands the operators' messages to the aggregator and translates its
    errors; [RestServer] answers queries over HTTP.  The request's URL parameters are
    a function from names to values ([url.Values.Get]), [json_encode] is the encoder's
    output; [strconv.ParseUint] and the header rules of [http.ResponseWriter] are
    written out.  [malformed_calls_refused] says which nil pointers of a call the checks
    of the RPC server catch, and that the others crash it. *)

From stdpp Require Import pretty.
From S2P Require Import Prelude CoreTypes Instances Messages MessagesTheory BlsAgg.
From S2P Require Import OperatorRegistrations Database DatabaseTheory Aggregator AggregatorTheory.

(** ** RPC server *)

Definition errorsMap (err : GoError) : option GoError :=
  match err with
  | DigestError => Some MessageDigestNotFoundError500
  | TaskResponseDigestError => Some TaskResponseDigestNotFoundError500
  | GetOperatorSetUpdateBlockError => Some OperatorSetUpdateBlockNotFoundError500
  | InvalidSignatureError => Some InvalidSignatureError400
  | OperatorNotFoundError => Some OperatorNotFoundError400
  | MessageExpiredError => Some MessageExpiredError500
  | _ => None
  end.

Definition mapErrors (err : GoError) : GoError :=
  match errorsMap err with
  | None => err
  | Some mappedErr => mappedErr
  end.

(** [strings.Contains(err.Error(), "not initialized")]. *)
Fixpoint mentions_not_initialized (e : GoError) : bool :=
  match e with
  | MessageNotFoundErrorFn _ => true
  | SignatureVerificationError e => mentions_not_initialized e
  | NewError text | ExternalError text =>
      match String.index 0 "not initialized" text with Some _ => true | None => false end
  | _ => false
  end.

Inductive RpcMetric : Type :=
| IncTotalSignedCheckpointTaskResponse
| IncTotalSignedStateRootUpdateMessage
| IncTotalSignedOperatorSetUpdateMessage
| ObserveLastMessageReceivedTime (operatorId : OperatorId) (label : string)
| IncSignedCheckpointTaskResponse (operatorId : OperatorId) (errored notFound : bool)
| IncSignedStateRootUpdateMessage (operatorId : OperatorId) (rollupId : RollupId) (errored hasNearDa : bool)
| IncSignedOperatorSetUpdateMessage (operatorId : OperatorId) (errored : bool)
| IncOperatorInitializations (operatorId : OperatorId).

Definition MaxCheckpointRange : Z := 60 * 60 * 2.

(** [GetAggregatedCheckpointMessagesArgs], a nil pointer being [None]. *)
Record CheckpointArgs := mkCheckpointArgs {
  ca_FromTimestamp : Timestamp;
  ca_ToTimestamp : Timestamp }.

Definition args_IsValid (args : option CheckpointArgs) : go unit :=
  match args with
  | None => Err (NewError "Args is nil")
  | Some args =>
      if ca_ToTimestamp args <? ca_FromTimestamp args
      then Err (NewError "FromTimestamp is greater than ToTimestamp")
      else if MaxCheckpointRange <? u64 (ca_ToTimestamp args - ca_FromTimestamp args)
      then Err (NewError "Checkpoint range exceeds 2 hours")
      else Ok tt
  end.

Section RpcServer.
Context `{B : BlsOps} `{H : HashOps} `{A : AbiOps}.
Context {G1 : GormOps StateRootUpdateModel} {G2 : GormOps OperatorSetUpdateModel}.
Context {S : Type} `{OI : !OperatorsInfo S}.

(** What a call leaves behind: the aggregator's outcome, with the error as the caller
    sees it, and the server's metrics. *)
Record RpcOutcome := mkRpcOutcome {
  ro_app : Outcome;
  ro_metrics : list RpcMetric }.

Definition refused (agg : Aggregator) (e : GoError) : go RpcOutcome :=
  Ok (mkRpcOutcome (mkOutcome agg (Replied (Err e)) [] []) []).

Definition set_result (oc : Outcome) (r : SendResult) : Outcome :=
  mkOutcome (oc_agg oc) r (oc_responses oc) (oc_effects oc).

(** The error of a call that returned; a call that never returns runs no more code. *)
Definition map_result (f : GoError → GoError) (r : SendResult) : SendResult :=
  match r with
  | Replied (Err e) => Replied (Err (f e))
  | r => r
  end.

Definition rpc_ProcessSignedCheckpointTaskResponse (env : AggEnv) (agg : Aggregator)
    (arg : option SignedCheckpointTaskResponse) : go RpcOutcome :=
  match ctr_IsValid arg, arg with
  | Err e, _ => refused agg e
  | Ok _, Some m =>
      let? oc := ProcessSignedCheckpointTaskResponse env agg m in
      let received := [IncTotalSignedCheckpointTaskResponse;
        ObserveLastMessageReceivedTime (sctr_OperatorId m) "checkpoint_task_response"] in
      Ok (mkRpcOutcome oc
            (received ++ match oc_result oc with
             | Replied (Err e) =>
                 [IncSignedCheckpointTaskResponse (sctr_OperatorId m) true (mentions_not_initialized e)]
             | Replied _ => [IncSignedCheckpointTaskResponse (sctr_OperatorId m) false false]
             | Blocked => []
             end))
  | _, _ => Panic
  end.

Definition rpc_ProcessSignedStateRootUpdateMessage (env : AggEnv) (agg : Aggregator)
    (arg : option SignedStateRootUpdateMessage) : go RpcOutcome :=
  match sru_IsValid arg, arg with
  | Err e, _ => refused agg e
  | Ok _, Some m =>
      let? oc := ProcessSignedStateRootUpdateMessage env agg m in
      let received := [IncTotalSignedCheckpointTaskResponse;
        ObserveLastMessageReceivedTime (ssru_OperatorId m) "state_root_update_message"] in
      let inc errored := IncSignedStateRootUpdateMessage (ssru_OperatorId m)
        (sru_RollupId (ssru_Message m)) errored (HasNearDaCommitment (ssru_Message m)) in
      Ok (mkRpcOutcome (set_result oc (map_result mapErrors (oc_result oc)))
            (received ++ match oc_result oc with
             | Replied (Err e) => [inc true]
             | Replied _ => [inc false]
             | Blocked => []
             end))
  | _, _ => Panic
  end.

Definition rpc_ProcessSignedOperatorSetUpdateMessage (env : AggEnv) (agg : Aggregator)
    (arg : option SignedOperatorSetUpdateMessage) : go RpcOutcome :=
  match osu_IsValid arg, arg with
  | Err e, _ => refused agg e
  | Ok _, Some m =>
      let? oc := ProcessSignedOperatorSetUpdateMessage env agg m in
      let received := [ObserveLastMessageReceivedTime (sosu_OperatorId m) "operator_set_update_message";
        IncTotalSignedOperatorSetUpdateMessage] in
      Ok (mkRpcOutcome (set_result oc (map_result mapErrors (oc_result oc)))
            (received ++ match oc_result oc with
             | Replied (Err e) => [IncSignedOperatorSetUpdateMessage (sosu_OperatorId m) true]
             | Replied _ => [IncSignedOperatorSetUpdateMessage (sosu_OperatorId m) false]
             | Blocked => []
             end))
  | _, _ => Panic
  end.

Definition rpc_GetAggregatedCheckpointMessages (agg : Aggregator) (args : option CheckpointArgs)
    : go CheckpointMessages :=
  let? _ := args_IsValid args in
  match args with
  | None => Panic
  | Some args =>
      match GetAggregatedCheckpointMessages agg (ca_FromTimestamp args) (ca_ToTimestamp args) with
      | Err e => Err (mapErrors e)
      | r => r
      end
  end.

Definition NotifyOperatorInitialization (operatorId : OperatorId) : go (list RpcMetric) :=
  Ok [IncOperatorInitializations operatorId].

End RpcServer.

(** ** REST server *)

(** [strconv.ParseUint(s, 10, bitSize)]: the loop over the characters, with the cutoff
    that keeps [n * 10] within uint64. *)
Definition ErrSyntax : GoError := ExternalError "invalid syntax".
Definition ErrRange : GoError := ExternalError "value out of range".

Fixpoint parse_loop (maxVal n : Z) (s : string) : go Z :=
  match s with
  | EmptyString => Ok n
  | String c s =>
      let d := Z.of_nat (Ascii.nat_of_ascii c) - 48 in
      if (0 <=? d) && (d <=? 9) then
        if max_u64 / 10 + 1 <=? n then Err ErrRange
        else
          let n1 := u64 (n * 10 + d) in
          if (n1 <? n * 10) || (maxVal <? n1) then Err ErrRange else parse_loop maxVal n1 s
      else Err ErrSyntax
  end.

Definition ParseUint (s : string) (bitSize : Z) : go Z :=
  match s with
  | EmptyString => Err ErrSyntax
  | _ => parse_loop (2 ^ bitSize - 1) 0 s
  end.

(** [http.ResponseWriter]: [WriteHeader] sends the status and the headers set so far;
    headers set later are not sent. *)
Inductive HttpBody (R : Type) : Type :=
| TextBody (text : string)
| ErrorBody (err : GoError)
| JsonBody (response : R).
Arguments TextBody {R} text.
Arguments ErrorBody {R} err.
Arguments JsonBody {R} response.

Record ResponseWriter (R : Type) := mkResponseWriter {
  rw_header : gmap string string;
  rw_sent : option (Z * gmap string string);
  rw_body : list (HttpBody R) }.
Arguments mkResponseWriter {R}.
Arguments rw_header {R}.
Arguments rw_sent {R}.
Arguments rw_body {R}.

Section ResponseWriter.
Context {R : Type}.

Definition new_writer : ResponseWriter R := mkResponseWriter ∅ None [].

Definition WriteHeader (w : ResponseWriter R) (status : Z) : ResponseWriter R :=
  match rw_sent w with
  | Some _ => w
  | None => mkResponseWriter (rw_header w) (Some (status, rw_header w)) (rw_body w)
  end.

Definition header_Set (w : ResponseWriter R) (k v : string) : ResponseWriter R :=
  mkResponseWriter (<[k := v]> (rw_header w)) (rw_sent w) (rw_body w).

Definition write (w : ResponseWriter R) (body : HttpBody R) : ResponseWriter R :=
  let w := WriteHeader w 200 in
  mkResponseWriter (rw_header w) (rw_sent w) (rw_body w ++ [body]).

(** [http.Error]. *)
Definition http_Error (w : ResponseWriter R) (body : HttpBody R) (code : Z) : ResponseWriter R :=
  let w := header_Set w "Content-Type" "text/plain; charset=utf-8" in
  let w := header_Set w "X-Content-Type-Options" "nosniff" in
  write (WriteHeader w code) body.

(** The end of every handler; [encode] is the result of the JSON encoder, which writes
    nothing if it fails. *)
Definition send_json (w : ResponseWriter R) (encode : R → go unit) (response : R)
    : ResponseWriter R * go unit :=
  let w := WriteHeader w 200 in
  let w := header_Set w "Content-Type" "application/json" in
  match encode response with
  | Ok _ => (write w (JsonBody response), Ok tt)
  | Err e => (w, Err e)
  | Panic => (w, Panic)
  end.
End ResponseWriter.

Definition StatusBadRequest : Z := 400.
Definition StatusNotFound : Z := 404.
Definition StatusInternalServerError : Z := 500.

Definition errorToCode (err : GoError) : option Z :=
  match err with
  | StateRootUpdateNotFoundError | StateRootAggNotFoundError
  | OperatorSetNotFoundError | OperatorAggNotFoundError => Some StatusNotFound
  | _ => None
  end.

Definition mapErrorToCode (err : GoError) : Z :=
  match errorToCode err with
  | None => StatusInternalServerError
  | Some status => status
  end.

(** The registered handler: the writer afterwards and how often [errorHandler] ran;
    without a handler the error is dropped. *)
Definition wrapRequest {R} (errorHandler : bool) (callback : ResponseWriter R → ResponseWriter R * go unit)
    (w : ResponseWriter R) : go (ResponseWriter R * nat) :=
  match callback w with
  | (_, Panic) => Panic
  | (w, Err _) => Ok (w, if errorHandler then 1%nat else 0%nat)
  | (w, Ok _) => Ok (w, 0%nat)
  end.

Section RestServer.
Context `{B : BlsOps} `{H : HashOps} `{A : AbiOps}.
Context {G1 : GormOps StateRootUpdateModel} {G2 : GormOps OperatorSetUpdateModel}.

(** The answer of the aggregator, as every handler ends. *)
Definition respond {R} (w : ResponseWriter R) (encode : R → go unit) (answer : go R)
    : ResponseWriter R * go unit :=
  match answer with
  | Panic => (w, Panic)
  | Err err => (http_Error w (ErrorBody err) (mapErrorToCode err), Err err)
  | Ok response => send_json w encode response
  end.

Definition handleGetStateRootUpdateAggregation (agg : Aggregator)
    (encode : StateRootUpdateMessage * MessageBlsAggregation → go unit) (params : string → string)
    (w : ResponseWriter (StateRootUpdateMessage * MessageBlsAggregation))
    : ResponseWriter (StateRootUpdateMessage * MessageBlsAggregation) * go unit :=
  match ParseUint (params "rollupId") 32 with
  | Panic => (w, Panic)
  | Err err => (http_Error w (TextBody "Invalid rollupId") StatusBadRequest, Err err)
  | Ok rollupId =>
  match ParseUint (params "blockHeight") 64 with
  | Panic => (w, Panic)
  | Err err => (http_Error w (TextBody "Invalid blockHeight") StatusBadRequest, Err err)
  | Ok blockHeight =>
      respond w encode (GetStateRootUpdateAggregation agg (u32 rollupId) blockHeight)
  end
  end.

Definition handleGetOperatorSetUpdateAggregation (agg : Aggregator)
    (encode : OperatorSetUpdateMessage * MessageBlsAggregation → go unit) (params : string → string)
    (w : ResponseWriter (OperatorSetUpdateMessage * MessageBlsAggregation))
    : ResponseWriter (OperatorSetUpdateMessage * MessageBlsAggregation) * go unit :=
  match ParseUint (params "id") 64 with
  | Panic => (w, Panic)
  | Err err => (http_Error w (TextBody "Invalid id") StatusBadRequest, Err err)
  | Ok id => respond w encode (GetOperatorSetUpdateAggregation agg id)
  end.

Definition handleGetCheckpointMessages (agg : Aggregator) (encode : CheckpointMessages → go unit)
    (params : string → string) (w : ResponseWriter CheckpointMessages)
    : ResponseWriter CheckpointMessages * go unit :=
  match ParseUint (params "fromTimestamp") 64 with
  | Panic => (w, Panic)
  | Err err => (http_Error w (TextBody "Invalid fromTimestamp") StatusBadRequest, Err err)
  | Ok fromTimestamp =>
  match ParseUint (params "toTimestamp") 64 with
  | Panic => (w, Panic)
  | Err err => (http_Error w (TextBody "Invalid toTimestamp") StatusBadRequest, Err err)
  | Ok toTimestamp => respond w encode (GetCheckpointMessages agg fromTimestamp toTimestamp)
  end
  end.

End RestServer.

(** ** Properties *)

Lemma parse_loop_digit maxVal n d s :
  0 ≤ n → 0 ≤ d ≤ 9 → maxVal < 2 ^ 64 → n * 10 + d ≤ maxVal →
  parse_loop maxVal n (String (pretty_N_char (Z.to_N d)) s) = parse_loop maxVal (n * 10 + d) s.
Proof.
  intros Hn Hd Hmax Hle. cbn [parse_loop].
  assert (Z.of_nat (Ascii.nat_of_ascii (pretty_N_char (Z.to_N d))) - 48 = d) as ->.
  { assert (d = 0 ∨ d = 1 ∨ d = 2 ∨ d = 3 ∨ d = 4 ∨ d = 5 ∨ d = 6 ∨ d = 7 ∨ d = 8 ∨ d = 9) as Hcases by lia.
    destruct_or! Hcases; subst d; reflexivity. }
  rewrite (proj2 (Z.leb_le 0 d)), (proj2 (Z.leb_le d 9)) by lia. cbn [andb].
  assert (max_u64 / 10 = 1844674407370955161) as -> by reflexivity.
  rewrite (proj2 (Z.leb_gt _ n)) by lia. rewrite u64_small by (unfold is_u64; lia).
  rewrite (proj2 (Z.ltb_ge _ (n * 10))), (proj2 (Z.ltb_ge maxVal _)) by lia. done.
Qed.

Lemma parse_loop_pretty maxVal : maxVal < 2 ^ 64 → ∀ x s,
  Z.of_N x ≤ maxVal → parse_loop maxVal 0 (pretty_N_go x s) = parse_loop maxVal (Z.of_N x) s.
Proof.
  intros Hmax x. induction (N.lt_wf_0 x) as [x _ IH]; intros s Hx.
  destruct (decide (x = 0%N)) as [->|Hne]; [done|].
  assert (x `div` 10 < x)%N as Hlt by (apply N.div_lt; lia).
  rewrite pretty_N_go_step by lia. rewrite IH by lia.
  pose proof (N.div_mod x 10 ltac:(done)) as Hdm. pose proof (N.mod_lt x 10 ltac:(done)) as Hm.
  revert Hdm Hm Hlt. generalize (x `mod` 10)%N, (x `div` 10)%N. intros r q Hdm Hr Hlt.
  rewrite <- (N2Z.id r), parse_loop_digit by lia. f_equal. lia.
Qed.

(** Every decimal numeral that fits the width is read back. *)
Lemma ParseUint_pretty bits z :
  0 ≤ bits ≤ 64 → 0 ≤ z < 2 ^ bits → ParseUint (pretty z) bits = Ok z.
Proof.
  intros Hb Hz. assert (2 ^ bits ≤ 2 ^ 64) by (apply Z.pow_le_mono_r; lia).
  assert (∀ s, ParseUint s bits = if decide (s = EmptyString) then Err ErrSyntax
    else parse_loop (2 ^ bits - 1) 0 s) as -> by (by intros []).
  destruct z as [|p|p]; [| |lia].
  - change (pretty 0) with (String (pretty_N_char (Z.to_N 0)) EmptyString).
    rewrite decide_False by done. by rewrite parse_loop_digit by lia.
  - change (pretty (Z.pos p)) with (pretty_N_go (Npos p) EmptyString). rewrite parse_loop_pretty by lia.
    destruct (decide (_ = _)) as [He|]; [|done].
    apply (f_equal (parse_loop (2 ^ bits - 1) 0)) in He. rewrite parse_loop_pretty in He by lia. done.
Qed.

Lemma parse_loop_bound maxVal s : ∀ n m, 0 ≤ n ≤ maxVal → parse_loop maxVal n s = Ok m → 0 ≤ m ≤ maxVal.
Proof.
  induction s as [|c s IH]; intros n m Hn Hp; cbn [parse_loop] in Hp; [by injection Hp as <-|].
  destruct (_ && _); [|done]. destruct (_ <=? n); [done|].
  destruct (_ || _) eqn:Ho; [done|]. apply orb_false_iff in Ho as [_ Ho].
  eapply IH; [|done]. pose proof (u64_is (n * 10 + (Z.of_nat (Ascii.nat_of_ascii c) - 48))) as [? _]. lia.
Qed.

Lemma ParseUint_bound bits s n : 0 ≤ bits → ParseUint s bits = Ok n → 0 ≤ n < 2 ^ bits.
Proof.
  intros Hb Hp. pose proof (Z.pow_pos_nonneg 2 bits). unfold ParseUint in Hp. destruct s; [done|].
  apply parse_loop_bound in Hp; lia.
Qed.

Section Theory.
Context `{B : BlsOps} `{H : HashOps} `{A : AbiOps}.
Context {G1 : GormOps StateRootUpdateModel} {G2 : GormOps OperatorSetUpdateModel}.
Context {L1 : GormLaws StateRootUpdateModel G1} {L2 : GormLaws OperatorSetUpdateModel G2}.
Context {S : Type} `{OI : !OperatorsInfo S}.

#[local] Notation AggEnv := (AggEnv (S := S)).
#[local] Notation BlsResponse := (MessageBlsAggregationServiceResponse (M := ServiceMessage)).

(** The validity check and the endpoint of each kind of message, at an argument that
    may be nil. *)
Inductive RpcArg : Type :=
| ArgCheckpointTaskResponse (m : option SignedCheckpointTaskResponse)
| ArgStateRootUpdate (m : option SignedStateRootUpdateMessage)
| ArgOperatorSetUpdate (m : option SignedOperatorSetUpdateMessage).

Definition arg_IsValid (arg : RpcArg) : go unit :=
  match arg with
  | ArgCheckpointTaskResponse m => ctr_IsValid m
  | ArgStateRootUpdate m => sru_IsValid m
  | ArgOperatorSetUpdate m => osu_IsValid m
  end.

Definition arg_any (arg : RpcArg) : SignedAny :=
  match arg with
  | ArgCheckpointTaskResponse (Some m) => AnyCheckpointTaskResponse m
  | ArgStateRootUpdate (Some m) => AnyStateRootUpdate m
  | ArgOperatorSetUpdate (Some m) => AnyOperatorSetUpdate m
  | _ => AnyOther
  end.

Definition rpc_call (env : AggEnv) (agg : Aggregator) (arg : RpcArg) : go RpcOutcome :=
  match arg with
  | ArgCheckpointTaskResponse m => rpc_ProcessSignedCheckpointTaskResponse env agg m
  | ArgStateRootUpdate m => rpc_ProcessSignedStateRootUpdateMessage env agg m
  | ArgOperatorSetUpdate m => rpc_ProcessSignedOperatorSetUpdateMessage env agg m
  end.

(** The affine points inside the signature and, in an operator set update, inside the
    operators' keys are set. *)
Definition operators_set (arg : RpcArg) : Prop :=
  match arg with
  | ArgOperatorSetUpdate (Some m) => Forall operator_set (osu_Operators (sosu_Message m))
  | _ => True
  end.
Definition signature_set (arg : RpcArg) : Prop :=
  ∀ sig, any_BlsSignature (arg_any arg) = Some sig → g1_affine_nil sig = false.

(** The timestamp of the message, where it has one, is accepted. *)
Definition arg_fresh (env : AggEnv) (arg : RpcArg) : Prop :=
  match arg_any arg with
  | AnyStateRootUpdate m => validateMessageTimestamp env (sru_Timestamp (ssru_Message m)) = Ok tt
  | AnyOperatorSetUpdate m => validateMessageTimestamp env (osu_Timestamp (sosu_Message m)) = Ok tt
  | _ => True
  end.

Lemma any_Digest_no_panic (arg : RpcArg) :
  (∀ vs, abi_pack vs ≠ Panic) → arg_IsValid arg = Ok tt → operators_set arg → any_Digest (arg_any arg) ≠ Panic.
Proof.
  intros Habi. assert (∀ p d, HashMessageWithPrefix p d ≠ Panic) as Hhash.
  { intros p d. unfold HashMessageWithPrefix. specialize (Habi [ABytes32 (Keccak256 p); ABytes32 (Keccak256 d)]).
    by destruct (abi_pack _). }
  assert (∀ p vs, (let? data := abi_pack vs in HashMessageWithPrefix p data) ≠ Panic) as Hpack.
  { intros p vs. specialize (Habi vs). destruct (abi_pack vs); [apply Hhash|done..]. }
  destruct arg as [[m|]|[m|]|[m|]]; simpl; try done; intros Hv Hset.
  - specialize (Hpack ctr_prefix [ctr_abi (sctr_TaskResponse m)]).
    unfold ctr_Digest, ctr_AbiEncode. by destruct (res_bind _ _).
  - specialize (Hpack sru_prefix [sru_abi (ssru_Message m)]).
    unfold sru_Digest, sru_AbiEncode. by destruct (res_bind _ _).
  - destruct (osu_IsValid_guards m) as (_ & Hb & _). destruct (Hb Hv Hset) as [b Hb'].
    specialize (Hpack osu_prefix [osu_binding_abi b]).
    unfold osu_Digest, osu_AbiEncode. rewrite Hb'. cbn [res_bind]. by destruct (res_bind _ _).
Qed.

Lemma arg_signature (arg : RpcArg) :
  arg_IsValid arg = Ok tt → is_Some (any_BlsSignature (arg_any arg)) ∧ arg_any arg ≠ AnyOther.
Proof.
  destruct arg as [[m|]|[m|]|[m|]]; simpl; try done;
    [destruct (sctr_BlsSignature m)|destruct (ssru_BlsSignature m)|destruct (sosu_BlsSignature m)]; naive_solver.
Qed.

Lemma verifySignature_total (env : AggEnv) (arg : RpcArg) :
  operator_valid (ae_operatorRegistrationsService env) →
  (∀ vs, abi_pack vs ≠ Panic) → (∀ sig pk d, g1_affine_nil sig = false → bls_verify sig pk d ≠ Panic) →
  arg_IsValid arg = Ok tt → operators_set arg → signature_set arg → verifySignature env (arg_any arg) ≠ Panic.
Proof.
  intros Hvalid Habi Hbls Hv Hops Hsigs. unfold verifySignature.
  pose proof (any_Digest_no_panic arg Habi Hv Hops) as Hd. destruct (arg_signature arg Hv) as [[sig Hsig] _].
  destruct (any_Digest (arg_any arg)) as [d| |]; [|done..]. cbn [res_bind].
  destruct (operator_info _ _) as [info|] eqn:Hinfo; [|done].
  destruct (operator_info_id _ _ _ Hvalid Hinfo) as (pk & Hpk & _). rewrite Hsig, Hpk.
  specialize (Hbls sig (pk_G2 pk) d (Hsigs _ Hsig)). by destruct (bls_verify _ _ _) as [[]| |].
Qed.

Lemma arg_IsValid_total (arg : RpcArg) : arg_IsValid arg ≠ Panic.
Proof.
  intros Hv. destruct arg as [[m|]|[m|]|[m|]]; simpl in Hv; try done.
  - by destruct (sctr_BlsSignature m).
  - by destruct (ssru_BlsSignature m).
  - destruct (sosu_BlsSignature m); [|done].
    induction (osu_Operators (sosu_Message m)) as [|op ops IH]; [done|]. simpl in Hv.
    destruct (ro_Pubkey op), (ro_Weight op); done || by apply IH.
Qed.

(** What [IsValid] lets through with a nil affine point panics in the signature check. *)
Lemma nil_point_panics {BL : BlsLaws B} (env : AggEnv) (arg : RpcArg) info :
  operator_valid (ae_operatorRegistrationsService env) →
  arg_IsValid arg = Ok tt → ¬ (operators_set arg ∧ signature_set arg) →
  operator_info (ae_operatorRegistrationsService env) (any_OperatorId (arg_any arg)) = Some info →
  (∀ e, any_Digest (arg_any arg) ≠ Err e) → verifySignature env (arg_any arg) = Panic.
Proof.
  intros Hvalid Hv Hnil Hinfo Hd. unfold verifySignature.
  destruct (any_Digest (arg_any arg)) as [d|e|] eqn:Hdig; [|by destruct (Hd e)|done]. cbn [res_bind].
  assert (operators_set arg) as Hops.
  { destruct arg as [m|m|[m|]]; simpl; try done.
    destruct (decide (Forall operator_set (osu_Operators (sosu_Message m)))) as [|Hn]; [done|].
    destruct (osu_IsValid_guards m) as (_ & _ & Hb). simpl in Hdig.
    unfold osu_Digest, osu_AbiEncode in Hdig. by rewrite (Hb Hv Hn) in Hdig. }
  destruct (operator_info_id _ _ _ Hvalid Hinfo) as (pk & Hpk & _). rewrite Hinfo.
  destruct (arg_signature arg Hv) as [[sig Hsig] _]. rewrite Hsig, Hpk.
  rewrite bls_verify_nil; [done|]. apply not_false_is_true. intros Hset. apply Hnil. split; [done|].
  intros sig' Hs'. congruence.
Qed.

Lemma rpc_call_panics (env : AggEnv) (agg : Aggregator) (arg : RpcArg) :
  arg_IsValid arg = Ok tt → arg_fresh env arg → verifySignature env (arg_any arg) = Panic →
  rpc_call env agg arg = Panic.
Proof.
  intros Hv Hf Hp. destruct arg as [[m|]|[m|]|[m|]]; simpl in Hv; try done; cbn [rpc_call].
  - unfold rpc_ProcessSignedCheckpointTaskResponse, ctr_IsValid. rewrite Hv.
    unfold ProcessSignedCheckpointTaskResponse. cbn [arg_any] in Hp. by rewrite Hp.
  - unfold rpc_ProcessSignedStateRootUpdateMessage, sru_IsValid. rewrite Hv.
    unfold ProcessSignedStateRootUpdateMessage. unfold arg_fresh in Hf; cbn [arg_any] in *. by rewrite Hf, Hp.
  - unfold rpc_ProcessSignedOperatorSetUpdateMessage, osu_IsValid. rewrite Hv.
    unfold ProcessSignedOperatorSetUpdateMessage. unfold arg_fresh in Hf; cbn [arg_any] in *. by rewrite Hf, Hp.
Qed.

(** C40: what the RPC server's [IsValid] checks are worth.  They never panic themselves.  A
    call they refuse is answered with their error, and the aggregator is untouched and no
    metric counts it.  A call they let through whose signature and operator keys have
    their affine points passes the digest computation and the signature check without a
    panic.  But they look at the outer pointer only: a call they let through with a nil
    affine point, in the name of any registered operator and with an acceptable
    timestamp, makes the handler panic before the sender is authenticated. *)
Theorem malformed_calls_refused {BL : BlsLaws B} (env : AggEnv) (agg : Aggregator) (arg : RpcArg) :
  operator_valid (ae_operatorRegistrationsService env) →
  (∀ vs, abi_pack vs ≠ Panic) → (∀ sig pk d, g1_affine_nil sig = false → bls_verify sig pk d ≠ Panic) →
  arg_IsValid arg ≠ Panic ∧
  (∀ e, arg_IsValid arg = Err e →
     rpc_call env agg arg = Ok (mkRpcOutcome (mkOutcome agg (Replied (Err e)) [] []) [])) ∧
  (arg_IsValid arg = Ok tt → operators_set arg ∧ signature_set arg → verifySignature env (arg_any arg) ≠ Panic) ∧
  (∀ info, arg_IsValid arg = Ok tt → ¬ (operators_set arg ∧ signature_set arg) → arg_fresh env arg →
     operator_info (ae_operatorRegistrationsService env) (any_OperatorId (arg_any arg)) = Some info →
     (∀ e, any_Digest (arg_any arg) ≠ Err e) → rpc_call env agg arg = Panic).
Proof.
  intros Hvalid Habi Hbls. split_and!.
  - apply arg_IsValid_total.
  - intros e Hv. destruct arg as [m|m|m]; simpl in Hv |- *.
    + unfold rpc_ProcessSignedCheckpointTaskResponse. by rewrite Hv.
    + unfold rpc_ProcessSignedStateRootUpdateMessage. by rewrite Hv.
    + unfold rpc_ProcessSignedOperatorSetUpdateMessage. by rewrite Hv.
  - intros Hv [Hops Hsig]. by apply verifySignature_total.
  - intros info Hv Hnil Hf Hinfo Hd. apply rpc_call_panics; [done..|]. by eapply nil_point_panics.
Qed.

(** A checkpoint query is answered only for ranges of at most two hours, in order,
    with the uint64 difference never wrapping; every other range is refused before
    the database is asked. *)
Theorem checkpoint_range_bounded (agg : Aggregator) from to :
  is_u64 from → is_u64 to →
  (from ≤ to ≤ from + 7200 →
     rpc_GetAggregatedCheckpointMessages agg (Some (mkCheckpointArgs from to)) =
     match FetchCheckpointMessages (ag_msgDb agg) from to with
     | Err e => Err (mapErrors e) | r => r
     end) ∧
  (¬ (from ≤ to ≤ from + 7200) → ∃ text,
     rpc_GetAggregatedCheckpointMessages agg (Some (mkCheckpointArgs from to)) = Err (NewError text)).
Proof.
  unfold is_u64. intros Hf Ht. unfold rpc_GetAggregatedCheckpointMessages, args_IsValid, MaxCheckpointRange.
  cbn [ca_FromTimestamp ca_ToTimestamp]. destruct (Z.ltb_spec to from).
  { split; [lia|]. intros _. by eexists. }
  rewrite u64_small by (unfold is_u64; lia). destruct (Z.ltb_spec (60 * 60 * 2) (to - from)).
  { split; [lia|]. intros _. by eexists. }
  split; [done|]. lia.
Qed.

Definition status {R} (r : ResponseWriter R * go unit) : option Z := fst <$> rw_sent r.1.

(** The REST statuses.  A request gets 400 exactly when a parameter is not a decimal
    number of its width; the two aggregation routes then answer 200 when the
    aggregator has the message and its aggregation and 404 in every other case, never
    500; the checkpoint route answers 200 or 500, and never 404. *)
Theorem rest_statuses (agg : Aggregator) (params : string → string) enc1 enc2 enc3 :
  status (handleGetStateRootUpdateAggregation agg enc1 params new_writer) =
    match ParseUint (params "rollupId") 32, ParseUint (params "blockHeight") 64 with
    | Ok r, Ok h => match GetStateRootUpdateAggregation agg r h with
                    | Ok _ => Some 200 | Err _ => Some 404 | Panic => None end
    | _, _ => Some 400
    end ∧
  status (handleGetOperatorSetUpdateAggregation agg enc2 params new_writer) =
    match ParseUint (params "id") 64 with
    | Ok id => match GetOperatorSetUpdateAggregation agg id with
               | Ok _ => Some 200 | Err _ => Some 404 | Panic => None end
    | _ => Some 400
    end ∧
  status (handleGetCheckpointMessages agg enc3 params new_writer) =
    match ParseUint (params "fromTimestamp") 64, ParseUint (params "toTimestamp") 64 with
    | Ok from, Ok to => match FetchCheckpointMessages (ag_msgDb agg) from to with
                        | Ok _ => Some 200 | Err _ => Some 500 | Panic => None end
    | _, _ => Some 400
    end.
Proof.
  assert (∀ bits s, ParseUint s bits ≠ Panic) as Hparse.
  { intros bits s. unfold ParseUint. destruct s as [|c s]; [done|]. generalize (String c s). clear.
    intros s. generalize 0. induction s as [|c s IH]; intros n; cbn [parse_loop]; [done|].
    destruct (_ && _); [|done]. destruct (_ <=? n); [done|]. destruct (_ || _); [done|]. apply IH. }
  assert (∀ R (enc : R → go unit) x, status (send_json new_writer enc x) = Some 200) as Hsend.
  { intros. unfold send_json. by destruct (enc _). }
  split_and!.
  - unfold handleGetStateRootUpdateAggregation.
    destruct (ParseUint (params "rollupId") 32) as [r|e|] eqn:Hr; [|done|by destruct (Hparse _ _ Hr)].
    destruct (ParseUint (params "blockHeight") 64) as [h|e|] eqn:Hh; [|done|by destruct (Hparse _ _ Hh)].
    apply ParseUint_bound in Hr; [|lia]. rewrite u32_small by done. unfold respond, GetStateRootUpdateAggregation.
    repeat case_match; simplify_eq/=; done || apply Hsend.
  - unfold handleGetOperatorSetUpdateAggregation.
    destruct (ParseUint (params "id") 64) as [r|e|] eqn:Hr; [|done|by destruct (Hparse _ _ Hr)].
    unfold respond, GetOperatorSetUpdateAggregation. repeat case_match; simplify_eq/=; done || apply Hsend.
  - unfold handleGetCheckpointMessages.
    destruct (ParseUint (params "fromTimestamp") 64) as [f|e|] eqn:Hf; [|done|by destruct (Hparse _ _ Hf)].
    destruct (ParseUint (params "toTimestamp") 64) as [t|e|] eqn:Ht; [|done|by destruct (Hparse _ _ Ht)].
    unfold respond, GetCheckpointMessages. repeat case_match; simplify_eq/=; done || apply Hsend.
Qed.

Lemma rest_serves_quorum_lemma (agg : Aggregator) (resp : BlsResponse) m d1 row d2 enc params :
  db_wf (ag_msgDb agg) → msg_bytes32 m →
  length (mba_MessageDigest (resp_Aggregation resp)) = 32%nat →
  resp_Err resp = None → resp_Message resp = Some (MsgStateRootUpdate m) →
  StoreStateRootUpdate (ag_msgDb agg) m = (d1, Ok row) →
  StoreStateRootUpdateAggregation d1 row (resp_Aggregation resp) = (d2, Ok tt) →
  FetchStateRootUpdate (ag_msgDb agg) (sru_RollupId m) (sru_BlockHeight m) = Err ErrRecordNotFound →
  is_u32 (sru_RollupId m) → is_u64 (sru_BlockHeight m) →
  params "rollupId"%string = pretty (sru_RollupId m) →
  params "blockHeight"%string = pretty (sru_BlockHeight m) →
  enc (m, resp_Aggregation resp) = Ok tt →
  ∃ agg' effects w, handleStateRootUpdateReachedQuorum agg resp = Ok (agg', effects) ∧
    wrapRequest true (handleGetStateRootUpdateAggregation agg' enc params) new_writer = Ok (w, 0%nat) ∧
    rw_sent w = Some (200, ∅) ∧ rw_body w = [JsonBody (m, resp_Aggregation resp)].
Proof.
  intros Hwf Hm Hd He Hmsg Hst1 Hst2 Hnew Hr Hh Hpr Hph Henc.
  destruct (store_response_lemma _ _ _ _ _ _ Hwf Hm Hd He Hmsg Hst1 Hst2) as (Hhandle & _ & m0 & Hq & Hcase).
  assert (m0 = m) as -> by (destruct Hcase as [Hold|[_ ->]]; congruence).
  do 3 eexists. split; [exact Hhandle|]. unfold wrapRequest, handleGetStateRootUpdateAggregation.
  rewrite Hpr, Hph, !ParseUint_pretty by (done || lia). rewrite u32_small, Hq by done.
  unfold respond, send_json. rewrite Henc. cbv iota beta. split_and!; reflexivity.
Qed.

(** From quorum to the public API.  Once the aggregation service has reported a
    state root update for a new key and the database accepts the writes, a GET with
    the decimal rollup id and height answers 200 with exactly that message and its
    aggregation as JSON, and counts no API error.  No Content-Type header is sent: it
    is set after the headers have gone out. *)
Theorem rest_serves_quorum (agg : Aggregator) (resp : BlsResponse) m d1 row d2 enc params :
  db_wf (ag_msgDb agg) → msg_bytes32 m →
  length (mba_MessageDigest (resp_Aggregation resp)) = 32%nat →
  resp_Err resp = None → resp_Message resp = Some (MsgStateRootUpdate m) →
  StoreStateRootUpdate (ag_msgDb agg) m = (d1, Ok row) →
  StoreStateRootUpdateAggregation d1 row (resp_Aggregation resp) = (d2, Ok tt) →
  FetchStateRootUpdate (ag_msgDb agg) (sru_RollupId m) (sru_BlockHeight m) = Err ErrRecordNotFound →
  is_u32 (sru_RollupId m) → is_u64 (sru_BlockHeight m) →
  params "rollupId"%string = pretty (sru_RollupId m) →
  params "blockHeight"%string = pretty (sru_BlockHeight m) →
  enc (m, resp_Aggregation resp) = Ok tt →
  ∃ agg' effects w, handleStateRootUpdateReachedQuorum agg resp = Ok (agg', effects) ∧
    wrapRequest true (handleGetStateRootUpdateAggregation agg' enc params) new_writer = Ok (w, 0%nat) ∧
    rw_sent w = Some (200, ∅) ∧ rw_body w = [JsonBody (m, resp_Aggregation resp)].
Proof. apply rest_serves_quorum_lemma. Qed.

End Theory.
