(* ===== verification/ServersExamples.v ===== *)
(** * Concrete requests to the servers

    The servers over the aggregator of [AggregatorExamples]. *)

From stdpp Require Import pretty.
From S2P Require Import Prelude CoreTypes Instances Messages MessagesTheory BlsAgg BlsAggExamples.
From S2P Require Import OperatorRegistrations Database DatabaseTheory Aggregator AggregatorTheory.
From S2P Require Import AggregatorExamples Servers.

#[local] Existing Instances ToyBls.ops ToyHash.ops ToyAbi.ops ToyBls.bls_laws.
#[local] Existing Instances DatabaseTheory.Examples.G1 DatabaseTheory.Examples.G2.
#[local] Existing Instances DatabaseTheory.Examples.L1 DatabaseTheory.Examples.L2.

#[local] Notation start := OperatorRegistrations.Examples.start.
#[local] Notation empty_db := DatabaseTheory.Examples.empty_db.

Example parse_examples :
  ParseUint "4294967295" 32 = Ok 4294967295 ∧ ParseUint "4294967296" 32 = Err ErrRange ∧
  ParseUint "18446744073709551616" 64 = Err ErrRange ∧ ParseUint "1_000" 64 = Err ErrSyntax ∧
  ParseUint "-1" 64 = Err ErrSyntax ∧ ParseUint "007" 64 = Ok 7.
Proof. repeat split; vm_compute; reflexivity. Qed.

Definition nil_point : RpcArg :=
  ArgStateRootUpdate (Some (mkSignedStateRootUpdate (ex_update 9) None (op_id 1))).

(** A signature whose affine point is nil, in the name of operator 1. *)
Definition nil_affine : RpcArg :=
  ArgStateRootUpdate (Some (mkSignedStateRootUpdate (ex_update 9) (Some (0, -1)) (op_id 1))).

Example nil_point_refused : ∃ e,
  rpc_call (ex_agg_env 1700000000) (ex_aggregator empty_db) nil_point =
  Ok (mkRpcOutcome (mkOutcome (ex_aggregator empty_db) (Replied (Err e)) [] []) []).
Proof. eexists. reflexivity. Qed.

Lemma malformed_calls_refused_witness :
  arg_IsValid nil_affine = Ok tt ∧ rpc_call (ex_agg_env 1700000000) (ex_aggregator empty_db) nil_affine = Panic.
Proof.
  split; [reflexivity|].
  refine (proj2 (proj2 (proj2 (malformed_calls_refused (ex_agg_env 1700000000) (ex_aggregator empty_db) nil_affine
    _ _ _))) (default (mkOperatorInfo None EmptyString) (operator_info start (op_id 1))) _ _ _ _ _).
  - exact start_valid.
  - discriminate.
  - intros sig pk d Hs. simpl in *. unfold ToyBls.verify. by rewrite Hs.
  - reflexivity.
  - intros [_ Hs]. discriminate (Hs (0, -1) eq_refl).
  - reflexivity.
  - reflexivity.
  - intros e. vm_compute. discriminate.
Defined.

Lemma checkpoint_range_bounded_witness :
  ∃ text, rpc_GetAggregatedCheckpointMessages (ex_aggregator empty_db)
    (Some (mkCheckpointArgs 1000 9000)) = Err (NewError text).
Proof.
  refine (proj2 (checkpoint_range_bounded (ex_aggregator empty_db) 1000 9000 _ _) _);
    unfold is_u64; lia.
Defined.

Definition ex_params (name : string) : string :=
  if bool_decide (name = "rollupId"%string) then "3" else if bool_decide (name = "blockHeight"%string) then "7" else "x".

Lemma rest_serves_quorum_witness :
  ∃ agg' effects w,
    handleStateRootUpdateReachedQuorum (ex_aggregator empty_db) (ex_response 9) = Ok (agg', effects) ∧
    wrapRequest true (handleGetStateRootUpdateAggregation agg' (λ _, Ok tt) ex_params) new_writer
      = Ok (w, 0%nat) ∧
    rw_sent w = Some (200, ∅) ∧ rw_body w = [JsonBody (ex_update 9, ex_aggregation 9)].
Proof.
  apply (rest_serves_quorum (ex_aggregator empty_db) (ex_response 9) (ex_update 9) db1 row1 db2).
  - apply DatabaseTheory.Examples.empty_db_wf.
  - split_and!; reflexivity.
  - vm_compute. reflexivity.
  - reflexivity.
  - reflexivity.
  - reflexivity.
  - reflexivity.
  - reflexivity.
  - unfold is_u32; simpl; lia.
  - unfold is_u64; simpl; lia.
  - reflexivity.
  - reflexivity.
  - reflexivity.
Defined.
