(* ===== verification/Attestor.v ===== *)
(** * The attestor: operator/attestor/notifier.go and attestor.go

    [Notifier] hands blocks from the message queue to the subscribers of a rollup whose
    predicate accepts them.  The attestor starts one goroutine per rollup header
    ([processHeader]): it subscribes with a predicate for its header, waits for a
    matching block or a timeout, then signs a state root update.  The system of all
    those goroutines is the state machine [at_step]; timers are events. *)

From S2P Require Import Prelude CoreTypes Instances Messages.

(** [ethtypes.Header], with the fields the attestor reads. *)
Record Header := mkHeader {
  h_Number : Z;
  h_Root : bytes;
  h_Time : Timestamp }.

(** [consumer.BlockData]; [bd_Header] is [Block.Header()]. *)
Record BlockData := mkBlockData {
  bd_RollupId : RollupId;
  bd_TransactionId : bytes;
  bd_Commitment : bytes;
  bd_Header : Header }.

#[export] Instance Header_eq_dec : EqDecision Header.
Proof. solve_decision. Defined.
#[export] Instance BlockData_eq_dec : EqDecision BlockData.
Proof. solve_decision. Defined.

(** ** Notifier *)

Module Notifier.

Definition capacity : nat := 100.

(** [subscriberData], the element identity, and the contents of its channel. *)
Record Subscriber := mkSubscriber {
  sub_id : nat;
  sub_predicate : BlockData → bool;
  sub_chan : list BlockData }.

Record Notifier := mkNotifier {
  nt_subscribers : gmap RollupId (list Subscriber);
  nt_next : nat }.

Definition NewNotifier : Notifier := mkNotifier ∅ 0.

Definition Subscribe (n : Notifier) (rollupId : RollupId) (predicate : BlockData → bool)
    : Notifier * nat :=
  let id := nt_next n in
  let subs := default [] (nt_subscribers n !! rollupId) in
  (mkNotifier (<[rollupId := subs ++ [mkSubscriber id predicate []]]> (nt_subscribers n)) (S id), id).

(** The loop over the list; [None] when a send would block: the buffer of a matching
    subscriber is full, and the lock stays held. *)
Fixpoint notify_loop (subs : list Subscriber) (block : BlockData) : option (list Subscriber) :=
  match subs with
  | [] => Some []
  | s :: subs =>
      if sub_predicate s block then
        if (length (sub_chan s) <? capacity)%nat then
          subs ← notify_loop subs block;
          Some (mkSubscriber (sub_id s) (sub_predicate s) (sub_chan s ++ [block]) :: subs)
        else None
      else subs ← notify_loop subs block; Some (s :: subs)
  end.

Inductive NotifyResult : Type :=
| Notified (n : Notifier) (err : option GoError)
| NotifyBlocked.

Definition Notify (n : Notifier) (rollupId : RollupId) (block : BlockData) : NotifyResult :=
  match nt_subscribers n !! rollupId with
  | None => Notified n (Some unknownRollupIdError)
  | Some subs =>
      match notify_loop subs block with
      | None => NotifyBlocked
      | Some subs => Notified (mkNotifier (<[rollupId := subs]> (nt_subscribers n)) (nt_next n)) None
      end
  end.

(** Removing from the list of an unknown rollup dereferences nil. *)
Definition Unsubscribe (n : Notifier) (rollupId : RollupId) (id : nat) : go Notifier :=
  match nt_subscribers n !! rollupId with
  | None => Panic
  | Some subs =>
      Ok (mkNotifier (<[rollupId := filter (λ s, sub_id s ≠ id) subs]> (nt_subscribers n)) (nt_next n))
  end.

(** The subscriber takes the next block of its channel. *)
Definition take_block (n : Notifier) (rollupId : RollupId) (id : nat) : option BlockData :=
  subs ← nt_subscribers n !! rollupId;
  s ← List.find (λ s, bool_decide (sub_id s = id)) subs;
  head (sub_chan s).

(** The subscriber as it is after a block was offered to it. *)
Definition offered (block : BlockData) (s : Subscriber) : Subscriber :=
  if sub_predicate s block
  then mkSubscriber (sub_id s) (sub_predicate s) (sub_chan s ++ [block]) else s.

Definition has_room (block : BlockData) (s : Subscriber) : Prop :=
  sub_predicate s block = true → (length (sub_chan s) < capacity)%nat.
#[export] Instance has_room_dec block s : Decision (has_room block s).
Proof. unfold has_room. apply _. Defined.

Lemma notify_loop_spec block subs :
  notify_loop subs block =
  if bool_decide (Forall (has_room block) subs) then Some (offered block <$> subs) else None.
Proof.
  induction subs as [|s subs IH]; [done|]. cbn [notify_loop]. rewrite IH, fmap_cons. clear IH.
  assert (offered block s = if sub_predicate s block
    then mkSubscriber (sub_id s) (sub_predicate s) (sub_chan s ++ [block]) else s) as -> by done.
  destruct (decide (has_room block s)) as [Hs|Hs].
  - rewrite (bool_decide_ext (Forall (has_room block) (s :: subs)) (Forall (has_room block) subs))
      by (rewrite Forall_cons; naive_solver).
    destruct (sub_predicate s block) eqn:Hp; [|by destruct (bool_decide _)].
    specialize (Hs Hp). rewrite (proj2 (Nat.ltb_lt _ _)) by done. by destruct (bool_decide _).
  - rewrite (bool_decide_false (Forall _ (s :: subs))) by (rewrite Forall_cons; naive_solver).
    unfold has_room in Hs. destruct (sub_predicate s block); [|by destruct Hs].
    destruct (Nat.ltb_spec (length (sub_chan s)) capacity); [by destruct Hs|done].
Qed.

(** A notification reaches exactly the subscribers of the rollup whose predicate
    accepts the block: if none of their buffers is full, each of them gets the block
    once, at the end of its channel, and every other subscriber is left alone; if
    the buffer of one of them is full, the call blocks with the lock held.  A rollup
    nobody ever subscribed to is an error and changes nothing. *)
Theorem Notify_spec (n : Notifier) rollupId block :
  Notify n rollupId block =
  match nt_subscribers n !! rollupId with
  | None => Notified n (Some unknownRollupIdError)
  | Some subs =>
      if bool_decide (Forall (has_room block) subs)
      then Notified (mkNotifier (<[rollupId := offered block <$> subs]> (nt_subscribers n)) (nt_next n)) None
      else NotifyBlocked
  end.
Proof.
  unfold Notify. destruct (nt_subscribers n !! rollupId) as [subs|]; [|done].
  rewrite notify_loop_spec. by case_bool_decide.
Qed.

End Notifier.
Import Notifier.

(** ** Attestor *)

Section Attestor.
Context `{B : BlsOps} `{H : HashOps} `{A : AbiOps}.

Definition SignStateRootUpdateMessage (blsKeypair : KeyPair) (m : StateRootUpdateMessage)
    : go G1Point :=
  let? messageDigest := sru_Digest m in
  Ok (SignMessage blsKeypair messageDigest).

(** The predicate a header's goroutine subscribes with. *)
Definition header_predicate (rollupId : RollupId) (rollupHeader : Header) (mqBlock : BlockData) : bool :=
  if bool_decide (bd_RollupId mqBlock = rollupId) then
    if bool_decide (h_Number rollupHeader = h_Number (bd_Header mqBlock)) then
      bool_decide (h_Root (bd_Header mqBlock) = h_Root rollupHeader)
    else false
  else false.

(** The part of [processHeader] after its loop: [found] is the block taken from the
    channel, or [None] after the timeout.  A message that cannot be signed is
    dropped. *)
Definition attest (blsKeypair : KeyPair) (operatorId : OperatorId) (rollupId : RollupId)
    (rollupHeader : Header) (found : option BlockData) : go (option SignedStateRootUpdateMessage) :=
  let daCommitment := match found with Some b => bd_Commitment b | None => replicate 32 0 end in
  let transactionId := match found with Some b => bd_TransactionId b | None => replicate 32 0 end in
  let message := mkStateRootUpdate rollupId (u64 (h_Number rollupHeader)) (h_Time rollupHeader)
                   transactionId daCommitment (h_Root rollupHeader) in
  match SignStateRootUpdateMessage blsKeypair message with
  | Panic => Panic
  | Err _ => Ok None
  | Ok signature => Ok (Some (mkSignedStateRootUpdate message (Some signature) operatorId))
  end.

(** The goroutines in their select, by subscription id, the blocks waiting to be
    broadcast again, and the messages sent on [signedRootC]. *)
Record AttState := mkAttState {
  at_notifier : Notifier;
  at_waiting : gmap nat (RollupId * Header);
  at_rebroadcast : list BlockData;
  at_signed : list SignedStateRootUpdateMessage }.

Definition NewAttestor : AttState := mkAttState NewNotifier ∅ [] [].

Inductive AttEvent : Type :=
| AeHeader (rollupId : RollupId) (rollupHeader : Header)
| AeMqBlock (block : BlockData)
| AeRebroadcast (i : nat)
| AeMqTimeout (id : nat)
| AeTakeBlock (id : nat)
| AeCtxDone (id : nat).

(** A goroutine leaves its select: it signs unless its context is done, and the deferred
    [Unsubscribe] runs. *)
Definition finish_header (keypair : KeyPair) (operatorId : OperatorId) (st : AttState) (id : nat)
    (rollupId : RollupId) (header : Header) (found : option (option BlockData)) : go AttState :=
  let? out :=
    match found with
    | None => Ok None
    | Some found => attest keypair operatorId rollupId header found
    end in
  let? n := Unsubscribe (at_notifier st) rollupId id in
  Ok (mkAttState n (delete id (at_waiting st)) (at_rebroadcast st)
        (at_signed st ++ match out with Some m => [m] | None => [] end)).

(** [None] when the notification blocks: a matching subscriber's buffer is full and the
    notifier's lock stays held until that goroutine takes a block. *)
Definition notify_state (st : AttState) (block : BlockData) : option AttState :=
  match Notify (at_notifier st) (bd_RollupId block) block with
  | Notified n _ => Some (mkAttState n (at_waiting st) (at_rebroadcast st) (at_signed st))
  | NotifyBlocked => None
  end.

(** One event; [Ok None] when it does not complete because a notification blocks. *)
Definition at_step (keypair : KeyPair) (operatorId : OperatorId) (st : AttState) (ev : AttEvent)
    : go (option AttState) :=
  match ev with
  | AeHeader rollupId header =>
      let '(n, id) := Subscribe (at_notifier st) rollupId (header_predicate rollupId header) in
      Ok (Some (mkAttState n (<[id := (rollupId, header)]> (at_waiting st)) (at_rebroadcast st) (at_signed st)))
  | AeMqBlock block =>
      Ok (st ← notify_state st block;
          Some (mkAttState (at_notifier st) (at_waiting st) (at_rebroadcast st ++ [block]) (at_signed st)))
  | AeRebroadcast i =>
      match at_rebroadcast st !! i with
      | None => Ok (Some st)
      | Some block =>
          Ok (st ← notify_state st block;
              Some (mkAttState (at_notifier st) (at_waiting st) (delete i (at_rebroadcast st)) (at_signed st)))
      end
  | AeMqTimeout id =>
      match at_waiting st !! id with
      | None => Ok (Some st)
      | Some (rollupId, header) =>
          let? st := finish_header keypair operatorId st id rollupId header (Some None) in Ok (Some st)
      end
  | AeTakeBlock id =>
      match at_waiting st !! id with
      | None => Ok (Some st)
      | Some (rollupId, header) =>
          match take_block (at_notifier st) rollupId id with
          | None => Ok (Some st)
          | Some block =>
              let? st := finish_header keypair operatorId st id rollupId header (Some (Some block)) in
              Ok (Some st)
          end
      end
  | AeCtxDone id =>
      match at_waiting st !! id with
      | None => Ok (Some st)
      | Some (rollupId, header) =>
          let? st := finish_header keypair operatorId st id rollupId header None in Ok (Some st)
      end
  end.

(** A run of the attestor; [Ok None] when one of the events blocks. *)
Fixpoint at_run (keypair : KeyPair) (operatorId : OperatorId) (st : AttState) (evs : list AttEvent)
    : go (option AttState) :=
  match evs with
  | [] => Ok (Some st)
  | ev :: evs =>
      let? st := at_step keypair operatorId st ev in
      match st with
      | None => Ok None
      | Some st => at_run keypair operatorId st evs
      end
  end.

End Attestor.

Section Theory.
Context `{B : BlsOps} `{H : HashOps} `{A : AbiOps} (keypair : KeyPair) (operatorId : OperatorId).

#[local] Notation at_step := (at_step keypair operatorId).
#[local] Notation at_run := (at_run keypair operatorId).
#[local] Notation attest := (attest keypair operatorId).

Lemma header_predicate_true r h b :
  header_predicate r h b = true →
  bd_RollupId b = r ∧ h_Number (bd_Header b) = h_Number h ∧ h_Root (bd_Header b) = h_Root h.
Proof. unfold header_predicate. repeat case_bool_decide; naive_solver. Qed.

(** [m] was produced for a header of [E], with no block or with a matching block of [E]. *)
Definition signed_ok (E : list AttEvent) (m : SignedStateRootUpdateMessage) : Prop :=
  ∃ r h found, AeHeader r h ∈ E ∧ attest r h found = Ok (Some m) ∧
    match found with
    | None => True
    | Some b => AeMqBlock b ∈ E ∧ header_predicate r h b = true
    end.

(** Relative to all events [E] of a run: channels hold blocks of the queue their
    subscriber accepts, waiting goroutines belong to headers, and their subscription
    has their header's predicate. *)
Record att_inv (E : list AttEvent) (st : AttState) : Prop := {
  inv_subs r subs s : nt_subscribers (at_notifier st) !! r = Some subs → s ∈ subs →
    (sub_id s < nt_next (at_notifier st))%nat ∧
    ∀ b, b ∈ sub_chan s → AeMqBlock b ∈ E ∧ sub_predicate s b = true;
  inv_waiting id r h : at_waiting st !! id = Some (r, h) → AeHeader r h ∈ E ∧
    ∀ subs s, nt_subscribers (at_notifier st) !! r = Some subs → s ∈ subs → sub_id s = id →
      sub_predicate s = header_predicate r h;
  inv_rebroadcast b : b ∈ at_rebroadcast st → AeMqBlock b ∈ E;
  inv_signed m : m ∈ at_signed st → signed_ok E m;
}.

Lemma att_inv_new E : att_inv E NewAttestor.
Proof. split; simpl; try (intros *; rewrite lookup_empty; done); intros * Hin; by apply elem_of_nil in Hin. Qed.

(** Facts about subscribers carry over to a notifier whose subscribers are old ones,
    possibly with more accepted blocks. *)
Lemma att_inv_notify E st block st' :
  att_inv E st → AeMqBlock block ∈ E → notify_state st block = Some st' → att_inv E st'.
Proof.
  intros [Hs Hw Hr Hm] Hb. unfold notify_state, Notify.
  destruct (nt_subscribers (at_notifier st) !! bd_RollupId block) as [subs|] eqn:Hsubs;
    [|intros [= <-]; by split].
  rewrite notify_loop_spec. case_bool_decide as Hroom; [|done]. intros [= <-].
  assert (∀ s, sub_id (offered block s) = sub_id s ∧ sub_predicate (offered block s) = sub_predicate s)
    as Hoff by (intros s; unfold offered; by destruct (sub_predicate s block)).
  split; simpl; [| |done|done].
  - intros r subs' s. rewrite lookup_insert_Some. intros [[<- <-]|[_ Hl]] Hin; [|by eapply Hs].
    apply list_elem_of_fmap in Hin as (s0 & -> & Hin). destruct (Hs _ _ _ Hsubs Hin) as [Hid Hbs].
    destruct (Hoff s0) as [-> ->]. split; [done|]. intros b.
    unfold offered. destruct (sub_predicate s0 block) eqn:Hp; simpl; [|by apply Hbs].
    rewrite elem_of_app, list_elem_of_singleton. intros [?| ->]; [by apply Hbs|done].
  - intros id r h Hid. destruct (Hw _ _ _ Hid) as [Hh Hpred]. split; [done|].
    intros subs' s. rewrite lookup_insert_Some. intros [[<- <-]|[_ Hl]] Hin Heq; [|by eapply Hpred].
    apply list_elem_of_fmap in Hin as (s0 & -> & Hin). destruct (Hoff s0) as [Ho ->].
    rewrite Ho in Heq. by eapply Hpred.
Qed.

Lemma att_inv_finish E st id r h found st' :
  att_inv E st → at_waiting st !! id = Some (r, h) →
  match found with Some (Some b) => AeMqBlock b ∈ E ∧ header_predicate r h b = true | _ => True end →
  finish_header keypair operatorId st id r h found = Ok st' → att_inv E st'.
Proof.
  intros Hinv Hid Hf. unfold finish_header.
  intros (out & Hout & (n & Hn & [= <-])%res_bind_ok)%res_bind_ok.
  unfold Unsubscribe in Hn.
  destruct (nt_subscribers (at_notifier st) !! r) as [subs|] eqn:Hsubs; [|done]. injection Hn as <-.
  destruct Hinv as [Hs Hw Hr Hm]. split; simpl; [| |done|].
  - intros r' subs' s. rewrite lookup_insert_Some. intros [[<- <-]|[_ Hl]] Hin; [|by eapply Hs].
    apply list_elem_of_filter in Hin as [_ Hin]. by eapply Hs.
  - intros id' r' h' [_ Hid']%lookup_delete_Some. destruct (Hw _ _ _ Hid') as [Hh Hpred].
    split; [done|]. intros subs' s. rewrite lookup_insert_Some.
    intros [[<- <-]|[_ Hl]] Hin; [|by eapply Hpred].
    apply list_elem_of_filter in Hin as [_ Hin]. by eapply Hpred.
  - intros m [Hin|Hin]%elem_of_app; [by apply Hm|].
    destruct out as [m'|]; [|by apply elem_of_nil in Hin]. apply list_elem_of_singleton in Hin as ->.
    destruct found as [found|]; [|done]. exists r, h, found. split_and!; [by apply (Hw id)|done|].
    by destruct found.
Qed.

Lemma att_inv_header E st r h :
  att_inv E st → AeHeader r h ∈ E →
  let '(n, id) := Subscribe (at_notifier st) r (header_predicate r h) in
  att_inv E (mkAttState n (<[id := (r, h)]> (at_waiting st)) (at_rebroadcast st) (at_signed st)).
Proof.
  intros [Hs Hw Hr Hm] Hh. unfold Subscribe. set (id := nt_next (at_notifier st)).
  split; simpl; [| |done|done].
  - intros r' subs' s. rewrite lookup_insert_Some. intros [[<- <-]|[_ Hl]] Hin.
    + apply elem_of_app in Hin as [Hin|Hin%list_elem_of_singleton].
      * destruct (nt_subscribers (at_notifier st) !! r) as [subs|] eqn:Hl; simpl in Hin;
          [|by apply elem_of_nil in Hin].
        destruct (Hs _ _ _ Hl Hin). split; [lia|done].
      * subst s. simpl. split; [lia|]. intros b Hb. by apply elem_of_nil in Hb.
    + destruct (Hs _ _ _ Hl Hin). split; [lia|done].
  - assert (∀ r0 subs s, nt_subscribers (at_notifier st) !! r0 = Some subs → s ∈ subs → sub_id s ≠ id) as Hold.
    { intros r0 subs s Hl Hin Heq. destruct (Hs _ _ _ Hl Hin). subst id. lia. }
    intros id' r' h'. rewrite lookup_insert_Some. intros [[<- [= <- <-]]|[Hne Hid']].
    + split; [done|]. intros subs s. rewrite lookup_insert_eq. intros [= <-] Hin Heq.
      apply elem_of_app in Hin as [Hin|Hin%list_elem_of_singleton]; [|by subst s].
      destruct (nt_subscribers (at_notifier st) !! r) as [subs|] eqn:Hl; simpl in Hin;
        [|by apply elem_of_nil in Hin]. by destruct (Hold _ _ _ Hl Hin).
    + destruct (Hw _ _ _ Hid') as [Hh' Hpred]. split; [done|]. intros subs s. rewrite lookup_insert_Some.
      intros [[<- <-]|[_ Hl]] Hin Heq; [|by eapply Hpred].
      apply elem_of_app in Hin as [Hin|Hin%list_elem_of_singleton]; [|by subst s].
      destruct (nt_subscribers (at_notifier st) !! r) as [subs|] eqn:Hl; simpl in Hin;
        [|by apply elem_of_nil in Hin]. by eapply Hpred.
Qed.

(** A block a waiting goroutine takes matches its header. *)
Lemma take_block_ok E st id r h b :
  att_inv E st → at_waiting st !! id = Some (r, h) → take_block (at_notifier st) r id = Some b →
  AeMqBlock b ∈ E ∧ header_predicate r h b = true.
Proof.
  intros [Hs Hw _ _] Hid. unfold take_block.
  destruct (nt_subscribers (at_notifier st) !! r) as [subs|] eqn:Hl; simpl; [|done].
  destruct (List.find _ subs) as [s|] eqn:Hf; simpl; [|done].
  apply List.find_some in Hf as [Hin Hsid]. rewrite <- list_elem_of_In in Hin.
  apply bool_decide_eq_true in Hsid. intros Hb.
  destruct (Hs _ _ _ Hl Hin) as [_ Hbs]. destruct (Hw _ _ _ Hid) as [_ Hpred].
  destruct (Hbs b) as [HE Hp].
  { destruct (sub_chan s); [done|]. injection Hb as ->. by left. }
  split; [done|]. by rewrite <- (Hpred _ _ Hl Hin Hsid).
Qed.

Lemma elem_of_list_delete {X} (x : X) (i : nat) (l : list X) : x ∈ delete i l → x ∈ l.
Proof.
  rewrite delete_take_drop, elem_of_app, elem_of_take.
  intros [(j & Hj & _)|Hj%list_elem_of_In]; [by eapply list_elem_of_lookup_2|].
  apply list_elem_of_In. rewrite <- (take_drop (S i) l). apply in_or_app. by right.
Qed.

Lemma att_inv_step E st ev st' :
  att_inv E st → ev ∈ E → at_step st ev = Ok (Some st') → att_inv E st'.
Proof.
  intros Hinv HE Hstep. destruct ev as [r h|b|i|id|id|id]; cbn [Attestor.at_step] in Hstep.
  - pose proof (att_inv_header E st r h Hinv HE) as Hh.
    destruct (Subscribe _ _ _) as [n id]. by injection Hstep as <-.
  - injection Hstep as Hstep. apply bind_Some in Hstep as (st1 & Hn & [= <-]).
    destruct (att_inv_notify E st b st1 Hinv HE Hn) as [? ? Hr ?]. split; simpl; try done.
    intros b' [?| ->%list_elem_of_singleton]%elem_of_app; [by apply Hr|done].
  - destruct (at_rebroadcast st !! i) as [b|] eqn:Hb; [|by injection Hstep as <-].
    injection Hstep as Hstep. apply bind_Some in Hstep as (st1 & Hn & [= <-]).
    assert (AeMqBlock b ∈ E) as HbE by (eapply inv_rebroadcast, list_elem_of_lookup_2; done).
    destruct (att_inv_notify E st b st1 Hinv HbE Hn) as [? ? Hr ?]. split; simpl; try done.
    intros b' Hb'. apply Hr. by eapply elem_of_list_delete.
  - destruct (at_waiting st !! id) as [[r h]|] eqn:Hid; [|by injection Hstep as <-].
    apply res_bind_ok in Hstep as (st1 & Hf & [= <-]). by eapply att_inv_finish in Hf.
  - destruct (at_waiting st !! id) as [[r h]|] eqn:Hid; [|by injection Hstep as <-].
    destruct (take_block _ _ _) as [b|] eqn:Hb; [|by injection Hstep as <-].
    apply res_bind_ok in Hstep as (st1 & Hf & [= <-]).
    eapply att_inv_finish in Hf; [done..|]. by eapply take_block_ok.
  - destruct (at_waiting st !! id) as [[r h]|] eqn:Hid; [|by injection Hstep as <-].
    apply res_bind_ok in Hstep as (st1 & Hf & [= <-]). by eapply att_inv_finish in Hf.
Qed.

Lemma att_inv_run E evs : ∀ st st',
  att_inv E st → (∀ ev, ev ∈ evs → ev ∈ E) → at_run st evs = Ok (Some st') → att_inv E st'.
Proof.
  induction evs as [|ev evs IH]; intros st st' Hinv HE Hrun; simpl in Hrun; [by injection Hrun as <-|].
  apply res_bind_ok in Hrun as ([st1|] & Hstep & Hrun); [|done]. eapply IH; [|set_solver|done].
  eapply att_inv_step; [done| |done]. set_solver.
Qed.

(** What a signed message says: it is for a header that was received, with the
    operator's signature, and its commitment is zero or that of a matching block. *)
Lemma signed_ok_meaning {BL : BlsLaws B} (evs : list AttEvent) m :
  signed_ok evs m →
  ssru_OperatorId m = operatorId ∧
  (∃ h, AeHeader (sru_RollupId (ssru_Message m)) h ∈ evs ∧
     sru_BlockHeight (ssru_Message m) = u64 (h_Number h) ∧
     sru_Timestamp (ssru_Message m) = h_Time h ∧ sru_StateRoot (ssru_Message m) = h_Root h ∧
     ((sru_NearDaCommitment (ssru_Message m) = replicate 32 0 ∧
       sru_NearDaTransactionId (ssru_Message m) = replicate 32 0) ∨
      (∃ b, AeMqBlock b ∈ evs ∧ bd_RollupId b = sru_RollupId (ssru_Message m) ∧
         h_Number (bd_Header b) = h_Number h ∧ h_Root (bd_Header b) = h_Root h ∧
         sru_NearDaCommitment (ssru_Message m) = bd_Commitment b ∧
         sru_NearDaTransactionId (ssru_Message m) = bd_TransactionId b))) ∧
  (∃ sig d, ssru_BlsSignature m = Some sig ∧ sru_Digest (ssru_Message m) = Ok d ∧
     bls_verify sig (GetPubKeyG2 keypair) d = Ok true).
Proof.
  intros (r & h & found & HE & Hatt & Hfound).
  unfold Attestor.attest, SignStateRootUpdateMessage in Hatt.
  destruct (sru_Digest _) as [d| |] eqn:Hd; [|done..]. injection Hatt as <-. simpl in *.
  split; [done|]. split.
  - exists h. split_and!; [done..|]. destruct found as [b|]; [right|by left].
    destruct Hfound as [Hb (Hr & Hnum & Hroot)%header_predicate_true]. by exists b.
  - eexists _, d. split_and!; [done..|]. apply bls_verify_sign.
Qed.

(** Attestations are sound.  Along any interleaving of headers, queue blocks,
    rebroadcasts and timeouts, every message the attestor signs is for a header it
    received: same rollup, height, time and state root; the signature verifies under
    the operator's key for the message's digest; and the NEAR DA commitment and
    transaction id are either both zero or those of a queue block with the same
    rollup, height and state root. *)
Theorem attestation_sound {BL : BlsLaws B} evs st m :
  at_run NewAttestor evs = Ok (Some st) → m ∈ at_signed st →
  ssru_OperatorId m = operatorId ∧
  (∃ h, AeHeader (sru_RollupId (ssru_Message m)) h ∈ evs ∧
     sru_BlockHeight (ssru_Message m) = u64 (h_Number h) ∧
     sru_Timestamp (ssru_Message m) = h_Time h ∧ sru_StateRoot (ssru_Message m) = h_Root h ∧
     ((sru_NearDaCommitment (ssru_Message m) = replicate 32 0 ∧
       sru_NearDaTransactionId (ssru_Message m) = replicate 32 0) ∨
      (∃ b, AeMqBlock b ∈ evs ∧ bd_RollupId b = sru_RollupId (ssru_Message m) ∧
         h_Number (bd_Header b) = h_Number h ∧ h_Root (bd_Header b) = h_Root h ∧
         sru_NearDaCommitment (ssru_Message m) = bd_Commitment b ∧
         sru_NearDaTransactionId (ssru_Message m) = bd_TransactionId b))) ∧
  (∃ sig d, ssru_BlsSignature m = Some sig ∧ sru_Digest (ssru_Message m) = Ok d ∧
     bls_verify sig (GetPubKeyG2 keypair) d = Ok true).
Proof.
  intros Hrun Hin. apply signed_ok_meaning. eapply inv_signed; [|done].
  eapply att_inv_run; [apply att_inv_new|done|done].
Qed.

(** The attestor while the goroutine of its first header waits: [chan] is in its
    channel and [rb] are the blocks to be broadcast again. *)
Definition one_waiting (r : RollupId) (h : Header) (chan rb : list BlockData) : AttState :=
  mkAttState (mkNotifier {[ r := [mkSubscriber 0 (header_predicate r h) chan] ]} 1)
    {[ 0%nat := (r, h) ]} rb [].

Lemma at_run_step st ev evs st' :
  at_step st ev = Ok (Some st') → at_run st (ev :: evs) = at_run st' evs.
Proof. intros Hst. cbn [Attestor.at_run]. by rewrite Hst. Qed.

Lemma step_first_header r h rb :
  at_step (mkAttState NewNotifier ∅ rb []) (AeHeader r h) = Ok (Some (one_waiting r h [] rb)).
Proof. cbn. by rewrite lookup_empty. Qed.

Lemma step_first_block b :
  at_step NewAttestor (AeMqBlock b) = Ok (Some (mkAttState NewNotifier ∅ [b] [])).
Proof. cbn. unfold notify_state, Notify. cbn. by rewrite lookup_empty. Qed.

Lemma notify_waiting h b :
  header_predicate (bd_RollupId b) h b = true → ∀ rb,
  notify_state (one_waiting (bd_RollupId b) h [] rb) b = Some (one_waiting (bd_RollupId b) h [b] rb).
Proof.
  intros Hp rb. unfold notify_state, Notify, one_waiting. cbn. rewrite lookup_singleton_eq. cbn.
  rewrite Hp. cbn. by rewrite insert_singleton_eq.
Qed.

Lemma take_offered r h b rb m :
  attest r h (Some b) = Ok (Some m) →
  ∃ st, at_step (one_waiting r h [b] rb) (AeTakeBlock 0) = Ok (Some st) ∧ at_signed st = [m].
Proof.
  intros Hatt. cbn [Attestor.at_step one_waiting at_waiting at_notifier]. rewrite lookup_singleton_eq.
  assert (take_block (mkNotifier {[ r := [mkSubscriber 0 (header_predicate r h) [b]] ]} 1) r 0 = Some b) as ->.
  { unfold take_block. cbn. by rewrite lookup_singleton_eq. }
  unfold finish_header. rewrite Hatt. cbn. unfold Unsubscribe. cbn. rewrite lookup_singleton_eq. by eexists.
Qed.

(** The order in which a header and its queue block arrive does not matter.  If the
    block comes while the header's goroutine waits, or comes first and is broadcast
    again after the header, the goroutine finds it and the message it signs carries
    the block's commitment and transaction id. *)
Theorem matching_block_found r h b m :
  header_predicate r h b = true → attest r h (Some b) = Ok (Some m) →
  (∃ st, at_run NewAttestor [AeHeader r h; AeMqBlock b; AeTakeBlock 0] = Ok (Some st) ∧ at_signed st = [m]) ∧
  (∃ st, at_run NewAttestor [AeMqBlock b; AeHeader r h; AeRebroadcast 0; AeTakeBlock 0] = Ok (Some st) ∧
     at_signed st = [m]) ∧
  sru_NearDaCommitment (ssru_Message m) = bd_Commitment b ∧
  sru_NearDaTransactionId (ssru_Message m) = bd_TransactionId b.
Proof.
  intros Hp Hatt. pose proof (header_predicate_true _ _ _ Hp) as (<- & _).
  assert (sru_NearDaCommitment (ssru_Message m) = bd_Commitment b ∧
          sru_NearDaTransactionId (ssru_Message m) = bd_TransactionId b) as Hm.
  { unfold Attestor.attest in Hatt. destruct (SignStateRootUpdateMessage _ _); [|done..].
    by injection Hatt as <-. }
  split_and!; [| |apply Hm..].
  - destruct (take_offered _ _ _ [b] _ Hatt) as (st & Hst & Hs). exists st. split; [|done].
    rewrite (at_run_step _ _ _ _ (step_first_header _ _ [])).
    rewrite (at_run_step _ _ _ (one_waiting (bd_RollupId b) h [b] [b])), (at_run_step _ _ _ _ Hst); [done|].
    cbn [Attestor.at_step]. by rewrite (notify_waiting _ _ Hp).
  - destruct (take_offered _ _ _ [] _ Hatt) as (st & Hst & Hs). exists st. split; [|done].
    rewrite (at_run_step _ _ _ _ (step_first_block _)), (at_run_step _ _ _ _ (step_first_header _ _ [b])).
    rewrite (at_run_step _ _ _ (one_waiting (bd_RollupId b) h [b] [])), (at_run_step _ _ _ _ Hst); [done|].
    cbn [Attestor.at_step one_waiting at_rebroadcast]. change ([b] !! 0%nat) with (Some b). cbv iota.
    by rewrite (notify_waiting _ _ Hp).
Qed.

End Theory.

Module Examples.

#[local] Existing Instances ToyBls.ops ToyHash.ops ToyAbi.ops.
#[local] Existing Instances ToyBls.bls_laws ToyHash.hash_laws ToyAbi.abi_laws.

Definition op_id : OperatorId := replicate 32 1.
Definition header : Header := mkHeader 100 (replicate 32 7) 1700000000.
Definition block : BlockData := mkBlockData 3 (replicate 32 4) (replicate 32 5) header.
Definition other_block : BlockData := mkBlockData 3 (replicate 32 6) (replicate 32 6) (mkHeader 101 (replicate 32 7) 1).

(** The messages signed by an operator with secret key [k]. *)
Definition run_signed (k : Z) (evs : list AttEvent) : list SignedStateRootUpdateMessage :=
  match at_run (B := ToyBls.ops) k op_id NewAttestor evs with
  | Ok (Some st) => at_signed st
  | _ => []
  end.

Definition run_state (k : Z) (evs : list AttEvent) : AttState :=
  match at_run (B := ToyBls.ops) k op_id NewAttestor evs with
  | Ok (Some st) => st
  | _ => NewAttestor
  end.

(** Two headers: the first finds its block among others, the second times out. *)
Definition evs : list AttEvent :=
  [AeHeader 3 header; AeHeader 7 header; AeMqBlock other_block; AeMqBlock block;
   AeTakeBlock 0; AeMqTimeout 1].

Definition expected (r : RollupId) (txid com : bytes) : StateRootUpdateMessage :=
  mkStateRootUpdate r 100 1700000000 txid com (replicate 32 7).

Example run_evs :
  ssru_Message <$> run_signed 5 evs =
  [expected 3 (replicate 32 4) (replicate 32 5); expected 7 (replicate 32 0) (replicate 32 0)].
Proof. reflexivity. Qed.

Definition first_signed : SignedStateRootUpdateMessage :=
  match run_signed 5 evs with
  | m :: _ => m
  | [] => mkSignedStateRootUpdate (expected 0 [] []) None []
  end.

Lemma attestation_sound_witness :
  ssru_OperatorId first_signed = op_id ∧
  ∃ sig d, ssru_BlsSignature first_signed = Some sig ∧ sru_Digest (ssru_Message first_signed) = Ok d ∧
     bls_verify sig (ToyBls.ops.(GetPubKeyG2) 5) d = Ok true.
Proof.
  split; [reflexivity|].
  refine (proj2 (proj2 (attestation_sound (B := ToyBls.ops) (5 : Z) op_id evs (run_state 5 evs) first_signed _ _))).
  - reflexivity.
  - left.
Defined.

Lemma matching_block_found_witness :
  sru_NearDaCommitment (ssru_Message first_signed) = bd_Commitment block ∧
  sru_NearDaTransactionId (ssru_Message first_signed) = bd_TransactionId block.
Proof.
  refine (proj2 (proj2 (matching_block_found (B := ToyBls.ops) (5 : Z) op_id 3 header block first_signed _ _))).
  - reflexivity.
  - reflexivity.
Defined.

End Examples.
