(* ===== verification/Rollups.v ===== *)
(** * The rollup writers: aggregator/rollup_writer.go and rollup_broadcaster.go

    A [RollupWriter] sends operator set updates to the registry contract of one rollup,
    with a bounded number of attempts; the [RollupBroadcaster] initializes the rollups'
    operator sets and hands every aggregated update to all writers.

    What the network does to an attempt is the argument [Attempt]: the answers of the
    clients, whether the transaction is executed even though [Send] may report an
    error, whether the context is done by the time the retry timer is armed, and the
    transactions other accounts have executed before.  The rollup is the contract of
    [RegistryContract]. *)

From S2P Require Import Prelude CoreTypes Instances Messages MessagesTheory AvsReader.
From S2P Require Import RegistryContract RegistryContractTheory.

#[export] Instance BindingOperator_eq_dec : EqDecision RollupOperatorsOperator.
Proof. solve_decision. Defined.

(** ** RollupWriter *)

Definition INITIALIZE_OPERATOR_SET_RETRIES : nat := 5.
Definition UPDATE_OPERATOR_SET_RETRIES : nat := 5.

Record Attempt := mkAttempt {
  ap_others : list (Inherited * Address * RegistryTx);
  ap_inherited : Inherited;
  ap_GetNoSendTxOpts : go unit;
  ap_NextOperatorUpdateId : go unit;
  ap_assemble : go unit;
  ap_Send : go unit;
  ap_landed : bool;
  ap_ctxDone : bool }.

(** The rollup and the transactions this writer sent to it. *)
Record Chain := mkChain {
  ch_registry : Registry;
  ch_sent : list RegistryTx }.

Section RollupWriter.
Context `{B : BlsOps} `{H : HashOps} `{A : AbiOps} {N : Bn254Ops}.

(** The account of the writer's transaction manager. *)
Context (address : Address).

(** Transactions of other accounts that are executed before the attempt. *)
Definition other_txs (a : Attempt) (c : Chain) : Chain :=
  mkChain (foldl (λ r t, execute_tx t.1.1 t.1.2 r t.2) (ch_registry c) (ap_others a)) (ch_sent c).

(** [txMgr.Send]. *)
Definition send_tx (a : Attempt) (c : Chain) (tx : RegistryTx) : Chain * go unit :=
  (mkChain (if ap_landed a then execute_tx (ap_inherited a) address (ch_registry c) tx else ch_registry c)
     (ch_sent c ++ [tx]), ap_Send a).

(** Both methods retry their [operation] in the same way. *)
Fixpoint retry (operation : Attempt → Chain → Chain * go unit) (failed : GoError)
    (n : nat) (script : nat → Attempt) (c : Chain) : Chain * go unit :=
  match n with
  | O => (c, Err failed)
  | S n =>
      let a := script 0%nat in
      match operation a (other_txs a c) with
      | (c, Ok _) => (c, Ok tt)
      | (c, Panic) => (c, Panic)
      | (c, Err _) =>
          if ap_ctxDone a then (c, Err ContextCanceled)
          else retry operation failed n (λ i, script (S i)) c
      end
  end.

Definition init_operation (operators : list RollupOperatorsOperator) (operatorSetUpdateId : Z)
    (a : Attempt) (c : Chain) : Chain * go unit :=
  match ap_GetNoSendTxOpts a with
  | Panic => (c, Panic) | Err e => (c, Err e)
  | Ok _ =>
  match ap_assemble a with
  | Panic => (c, Panic) | Err e => (c, Err e)
  | Ok _ => send_tx a c (TxSetInitialOperatorSet operators (u64 (operatorSetUpdateId + 1)))
  end
  end.

Definition InitializeOperatorSet (script : nat → Attempt) (operators : list RollupOperatorsOperator)
    (operatorSetUpdateId : Z) (c : Chain) : Chain * go unit :=
  retry (init_operation operators operatorSetUpdateId)
    (NewError "failed to initialize operator set after retries") INITIALIZE_OPERATOR_SET_RETRIES script c.

(** [message.ToBinding()] is evaluated when the transaction is assembled. *)
Definition update_operation (message : OperatorSetUpdateMessage) (info : RollupOperatorsSignatureInfo)
    (a : Attempt) (c : Chain) : Chain * go unit :=
  match ap_GetNoSendTxOpts a with
  | Panic => (c, Panic) | Err e => (c, Err e)
  | Ok _ =>
  match ap_NextOperatorUpdateId a with
  | Panic => (c, Panic) | Err e => (c, Err e)
  | Ok _ =>
  if negb (bool_decide (osu_Id message = reg_nextOperatorUpdateId (ch_registry c))) then (c, Ok tt)
  else
  match osu_ToBinding message with
  | Panic => (c, Panic) | Err e => (c, Err e)
  | Ok binding =>
  match ap_assemble a with
  | Panic => (c, Panic) | Err e => (c, Err e)
  | Ok _ => send_tx a c (TxUpdateOperatorSet binding info)
  end
  end
  end
  end.

Definition UpdateOperatorSet (script : nat → Attempt) (message : OperatorSetUpdateMessage)
    (info : RollupOperatorsSignatureInfo) (c : Chain) : Chain * go unit :=
  retry (update_operation message info)
    (NewError "failed to update operator set after retries") UPDATE_OPERATOR_SET_RETRIES script c.

End RollupWriter.

(** ** RollupBroadcaster *)

Definition GET_OPERATOR_SET_RETRIES : nat := 5.

Definition converted (op : RegistryOperator) : RollupOperatorsOperator :=
  mkBindingOperator (rg_Pubkey op) (Some (rg_Weight op)).

(** The reader's answers, one per attempt, each with whether the context is done when
    the retry timer is armed.  Returns the errors sent on the error channel. *)
Fixpoint get_set_loop (n : nat) (answers : nat → go (list RegistryOperator) * bool)
    : list GoError * go (list RegistryOperator) :=
  match n with
  | O => ([], Err (NewError "failed to fetch operator set after retries"))
  | S n =>
      match (answers 0%nat).1 with
      | Ok operators => ([], Ok operators)
      | Panic => ([], Panic)
      | Err e =>
          if (answers 0%nat).2 then ([e], Err (NewError "failed to fetch operator set early"))
          else let '(es, r) := get_set_loop n (λ i, answers (S i)) in (e :: es, r)
      end
  end.

Definition tryGetOperatorSetById (getSet : nat → Z → go (list RegistryOperator) * bool) (id : Z)
    : list GoError * go (list RegistryOperator) :=
  get_set_loop GET_OPERATOR_SET_RETRIES (λ i, getSet i id).

Section RollupBroadcaster.
Context `{B : BlsOps} `{H : HashOps} `{A : AbiOps} {N : Bn254Ops} (address : Address).

(** One writer's goroutine; [nextId] is whether the rollup's client answers. *)
Definition tryInitializeRollupOperatorSet (nextId : go unit)
    (getSet : nat → Z → go (list RegistryOperator) * bool) (script : nat → Attempt)
    (mainnetNextOperatorSetUpdateId : Z) (c : Chain) : go (Chain * list GoError) :=
  match nextId with
  | Panic => Panic
  | Err e => Ok (c, [e])
  | Ok _ =>
      if negb (bool_decide (reg_nextOperatorUpdateId (ch_registry c) = 0)) then Ok (c, [])
      else
        match tryGetOperatorSetById getSet (u64 (mainnetNextOperatorSetUpdateId - 1)) with
        | (_, Panic) => Panic
        | (es, Err e) => Ok (c, es ++ [e])
        | (es, Ok operators) =>
            match InitializeOperatorSet address script (converted <$> operators)
                    (u64 (mainnetNextOperatorSetUpdateId - 1)) c with
            | (_, Panic) => Panic
            | (c, Err e) => Ok (c, es ++ [e])
            | (c, Ok _) => Ok (c, es)
            end
        end
  end.

(** The events of the goroutine that waits for the first update, and what it leaves to
    do: the operators and the id every writer is initialized with. *)
Inductive InitEvent : Type :=
| IeCtxDone
| IeSubscriptionError
| IeOperatorSetUpdated (id : Z).

Fixpoint initializeRollupOperatorSetsOnUpdate (getSet : Z → go (list RegistryOperator))
    (evs : list InitEvent) : list GoError * option (list RollupOperatorsOperator * Z) :=
  match evs with
  | [] => ([], None)
  | IeCtxDone :: _ | IeSubscriptionError :: _ => ([], None)
  | IeOperatorSetUpdated id :: evs =>
      match getSet id with
      | Ok operators => ([], Some (converted <$> operators, id))
      | Err e => let '(es, r) := initializeRollupOperatorSetsOnUpdate getSet evs in (e :: es, r)
      | Panic => ([], None)
      end
  end.

(** [BroadcastOperatorSetUpdate] over the writers' chains: [ctxDone i] is whether the
    context is done when the loop reaches writer [i].  Each writer works on its own
    rollup, so the order of the goroutines does not matter.  An error is reported with
    the rollup id its text names. *)
Fixpoint BroadcastOperatorSetUpdate (scripts : nat → nat → Attempt) (ctxDone : nat → bool)
    (message : OperatorSetUpdateMessage) (info : RollupOperatorsSignatureInfo)
    (writers : list (RollupId * Chain)) : go (list (RollupId * Chain) * list (RollupId * GoError)) :=
  match writers with
  | [] => Ok ([], [])
  | (rollupId, c) :: cs =>
      if ctxDone 0%nat then Ok ((rollupId, c) :: cs, [])
      else
        match UpdateOperatorSet address (scripts 0%nat) message info c with
        | (_, Panic) => Panic
        | (c, r) =>
            let? rest := BroadcastOperatorSetUpdate (λ i, scripts (S i)) (λ i, ctxDone (S i)) message info cs in
            Ok ((rollupId, c) :: rest.1, match r with Err e => (rollupId, e) :: rest.2 | _ => rest.2 end)
        end
  end.

End RollupBroadcaster.

(** ** Properties of the writer *)

Section WriterTheory.
Context `{B : BlsOps} `{H : HashOps} `{A : AbiOps} {N : Bn254Ops} (address : Address).

#[local] Notation UpdateOperatorSet := (UpdateOperatorSet address).

Lemma accept_update_next ih r m info r' :
  accept_tx ih address r (TxUpdateOperatorSet m info) = Ok r' →
  osb_Id m = reg_nextOperatorUpdateId r ∧ reg_nextOperatorUpdateId r' = osb_Id m + 1.
Proof.
  cbn [accept_tx]. intros Ha. unfold updateOperatorSet in Ha. inv_bind Ha ops Hops. inv_require Ha.
  inv_bind Ha u Hu. apply require_ok, bool_decide_eq_true in Hu. inv_bind Ha h Hh. inv_bind Ha b Hb. inv_require Ha.
  inv_bind Ha n Hn. apply checked_ok in Hn as [-> _]. inv_bind Ha os Hos. by injection Ha as <-.
Qed.

Lemma osu_ToBinding_Id m b : osu_ToBinding m = Ok b → osb_Id b = osu_Id m.
Proof. intros (ops & _ & [= <-])%res_bind_ok. done. Qed.

(** The registry has accepted the update [b]. *)
Definition accepted_update (b : OperatorSetUpdateBinding) (info : RollupOperatorsSignatureInfo) (r r' : Registry) : Prop :=
  ∃ ih, accept_tx ih address r (TxUpdateOperatorSet b info) = Ok r'.

(** One attempt leaves the registry as it is or has it accept the update. *)
Lemma update_operation_cases m info b a c c' r :
  osu_ToBinding m = Ok b → update_operation address m info a c = (c', r) →
  c' = c ∨
  (reg_nextOperatorUpdateId (ch_registry c) = osu_Id m ∧
   ch_sent c' = ch_sent c ++ [TxUpdateOperatorSet b info] ∧
   (ch_registry c' = ch_registry c ∨ accepted_update b info (ch_registry c) (ch_registry c'))).
Proof.
  intros Hb. unfold update_operation. rewrite Hb.
  destruct (ap_GetNoSendTxOpts a); [|intros [= <- <-]; auto..].
  destruct (ap_NextOperatorUpdateId a); [|intros [= <- <-]; auto..].
  case_bool_decide as Hid; cbn [negb]; [|intros [= <- <-]; auto].
  destruct (ap_assemble a); [|intros [= <- <-]; auto..].
  intros [= <- <-]. right. split_and!; [done..|]. cbn [ch_registry].
  destruct (ap_landed a); [|by left]. unfold execute_tx.
  destruct (accept_tx _ _ _ _) eqn:Ha; [right; by eexists|by left..].
Qed.

(** An operator set update is executed at most once per call.  Whatever the network
    answers, and even if a transaction is executed although [Send] reports a failure,
    a call of [UpdateOperatorSet] sends at most five transactions, all of them this
    update; if no other account interferes, afterwards the registry is as before or
    has accepted the update exactly once. *)
Theorem update_executed_at_most_once script m info b c c' r :
  osu_ToBinding m = Ok b → (∀ i, ap_others (script i) = []) →
  UpdateOperatorSet script m info c = (c', r) →
  (∃ k, (k ≤ 5)%nat ∧ ch_sent c' = ch_sent c ++ replicate k (TxUpdateOperatorSet b info)) ∧
  (ch_registry c' = ch_registry c ∨ accepted_update b info (ch_registry c) (ch_registry c')).
Proof.
  intros Hb Hothers. unfold Rollups.UpdateOperatorSet. generalize (NewError "failed to update operator set after retries").
  intros failed. change 5%nat with UPDATE_OPERATOR_SET_RETRIES. pose proof (osu_ToBinding_Id m b Hb) as Hbid.
  set (r0 := ch_registry c). assert (ch_registry c = r0 ∨ accepted_update b info r0 (ch_registry c)) as Hr0 by (by left).
  clearbody r0. revert script Hothers c c' r Hr0. generalize UPDATE_OPERATOR_SET_RETRIES.
  induction n as [|n IH]; intros script Hothers c c' r Hr0 Hret; cbn [retry] in Hret.
  { injection Hret as <- <-. split; [|done]. exists 0%nat. split; [done|]. by rewrite app_nil_r. }
  assert (other_txs (script 0%nat) c = c) as Heq.
  { unfold other_txs. rewrite Hothers. by destruct c. }
  rewrite Heq in Hret. destruct (update_operation _ _ _ _ _) as [c1 r1] eqn:Hop.
  assert ((∃ k, (k ≤ 1)%nat ∧ ch_sent c1 = ch_sent c ++ replicate k (TxUpdateOperatorSet b info)) ∧
    (ch_registry c1 = r0 ∨ accepted_update b info r0 (ch_registry c1))) as [(k1 & Hk1 & Hs1) Hc1].
  { destruct (update_operation_cases m info b _ _ _ _ Hb Hop) as [->|(Hn & Hs & Hc)].
    { split; [|done]. exists 0%nat. split; [lia|]. by rewrite app_nil_r. }
    split; [by exists 1%nat|]. destruct Hr0 as [<-|[ih Hacc]]; [done|].
    apply accept_update_next in Hacc as [_ Hne]. lia. }
  assert ((∃ k, (k ≤ S n)%nat ∧ ch_sent c1 = ch_sent c ++ replicate k (TxUpdateOperatorSet b info)) ∧
    (ch_registry c1 = r0 ∨ accepted_update b info r0 (ch_registry c1))) as Hdone.
  { split; [|done]. exists k1. split; [lia|done]. }
  destruct r1 as [u|e|]; [injection Hret as <- <-; exact Hdone| |injection Hret as <- <-; exact Hdone].
  destruct (ap_ctxDone _); [injection Hret as <- <-; exact Hdone|].
  destruct (IH (λ i, script (S i)) (λ i, Hothers (S i)) c1 c' r Hc1 Hret) as [(k & Hk & Hs) Hfin].
  split; [|done]. exists (k1 + k)%nat. split; [lia|]. rewrite Hs, Hs1, replicate_add. by rewrite app_assoc.
Qed.

(** An attempt in which every client answers, updates are not paused and the transaction
    is executed. *)
Definition healthy (a : Attempt) : Prop :=
  ap_others a = [] ∧ ap_GetNoSendTxOpts a = Ok tt ∧ ap_NextOperatorUpdateId a = Ok tt ∧
  ap_assemble a = Ok tt ∧ ap_Send a = Ok tt ∧ ap_landed a = true ∧
  ih_paused (ap_inherited a) PAUSED_UPDATE_OPERATOR_SET = false.

Lemma healthy_update script m info b c r' :
  healthy (script 0%nat) → osu_ToBinding m = Ok b →
  accept_tx (ap_inherited (script 0%nat)) address (ch_registry c) (TxUpdateOperatorSet b info) = Ok r' →
  UpdateOperatorSet script m info c = (mkChain r' (ch_sent c ++ [TxUpdateOperatorSet b info]), Ok tt).
Proof.
  intros (Ho & Htx & Hn & Has & Hsend & Hl & _) Hb Hacc.
  destruct (accept_update_next _ _ _ _ _ Hacc) as [Hid _]. rewrite (osu_ToBinding_Id _ _ Hb) in Hid.
  unfold Rollups.UpdateOperatorSet, UPDATE_OPERATOR_SET_RETRIES. cbn [retry].
  unfold other_txs. rewrite Ho. cbn [foldl]. unfold update_operation. rewrite Htx, Hn, Has, Hb.
  cbn [ch_registry ch_sent]. rewrite bool_decide_true by done. cbn [negb].
  unfold send_tx. cbn [ch_registry ch_sent]. rewrite Hl, Hsend. unfold execute_tx. by rewrite Hacc.
Qed.

(** Updates that arrive out of order are lost.  If the update after the next one
    reaches the writer first, its call returns without error and without a
    transaction; the next update is then executed, and the registry waits for the
    update that was dropped: both calls have reported success. *)
Theorem early_update_lost s1 s2 m1 m2 info1 info2 b1 c r' :
  healthy (s1 0%nat) → healthy (s2 0%nat) → osu_Id m2 = osu_Id m1 + 1 → osu_ToBinding m1 = Ok b1 →
  accept_tx (ap_inherited (s1 0%nat)) address (ch_registry c) (TxUpdateOperatorSet b1 info1) = Ok r' →
  ∃ c1 c2, UpdateOperatorSet s2 m2 info2 c = (c1, Ok tt) ∧ UpdateOperatorSet s1 m1 info1 c1 = (c2, Ok tt) ∧
    ch_sent c2 = ch_sent c ++ [TxUpdateOperatorSet b1 info1] ∧ ch_registry c2 = r' ∧
    reg_nextOperatorUpdateId (ch_registry c2) = osu_Id m2.
Proof.
  intros Hs1 Hs2 Hid2 Hb Hacc. destruct (accept_update_next _ _ _ _ _ Hacc) as [Hid Hnext].
  rewrite (osu_ToBinding_Id _ _ Hb) in Hid, Hnext.
  assert (UpdateOperatorSet s2 m2 info2 c = (c, Ok tt)) as H2.
  { destruct Hs2 as (Ho & Htx & Hn & _). unfold Rollups.UpdateOperatorSet, UPDATE_OPERATOR_SET_RETRIES.
    cbn [retry]. unfold other_txs. rewrite Ho. cbn [foldl]. unfold update_operation. rewrite Htx, Hn.
    cbn [ch_registry]. rewrite bool_decide_false by lia. by destruct c. }
  exists c. eexists. split; [done|]. split; [by eapply healthy_update|]. split_and!; [done..|].
  cbn [ch_registry]. lia.
Qed.

End WriterTheory.

(** ** The operator sets *)

(** Weights of type uint128. *)
Definition weights_fit (ops : list RegistryOperator) : Prop := Forall (λ op, 0 ≤ rg_Weight op < 2 ^ 128) ops.

Lemma decode_converted ops : weights_fit ops → decode_operators (converted <$> ops) = Ok ops.
Proof.
  intros Hfit. unfold decode_operators. apply res_mapM_ok, Forall2_fmap_l, Forall_Forall2_diag.
  eapply Forall_impl; [exact Hfit|]. intros [p w] Hw. unfold decode_operator. simpl. by rewrite bool_decide_true.
Qed.

Lemma weights_fit_sum ops :
  Forall (λ op, 0 ≤ rg_Weight op) ops → zsum (rg_Weight <$> ops) < 2 ^ 127 → weights_fit ops.
Proof.
  intros Hpos Hsum. apply Forall_forall. intros op Hop. pose proof (proj1 (Forall_forall _ _) Hpos op Hop) as Hw. simpl in Hw.
  apply list_elem_of_split in Hop as (l1 & l2 & ->). apply Forall_app in Hpos as [H1 [_ H2]%Forall_cons].
  rewrite fmap_app, fmap_cons, zsum_app, zsum_cons in Hsum.
  assert (0 ≤ zsum (rg_Weight <$> l1)) by (by apply zsum_nonneg, Forall_fmap).
  assert (0 ≤ zsum (rg_Weight <$> l2)) by (by apply zsum_nonneg, Forall_fmap). lia.
Qed.

Lemma weight_in_nonneg ops p : Forall (λ op, 0 ≤ rg_Weight op) ops → 0 ≤ weight_in ops p.
Proof.
  induction ops as [|op ops IH] using rev_ind; intros Hops; [done|].
  apply Forall_app in Hops as [Hops [Hop _]%Forall_cons]. rewrite weight_in_snoc. case_bool_decide; auto.
Qed.

Section OperatorSets.
Context `{B : BlsOps} `{H : HashOps} `{A : AbiOps} {AL : AbiLaws A} {N : Bn254Ops} {NL : Bn254Laws N}.
Context (address : Address) (K : BN254G1Point → Prop)
  (K_valid : ∀ p, K p → g1_valid p = true)
  (K_coordinates : ∀ p, K p → coordinates_ok p)
  (K_inj : ∀ p q, K p → K q → hashG1Point p = hashG1Point q → p = q).
Context (pdqsort : (nat → nat → bool) → list RegistryOperator → list RegistryOperator)
  (pdqsort_perm : ∀ less l, pdqsort less l ≡ₚ l)
  (order : gmap string operatorUpdate → list (string * operatorUpdate))
  (order_perm : ∀ m, order m ≡ₚ map_to_list m).

#[local] Notation UpdateOperatorSet := (UpdateOperatorSet address).
#[local] Notation set_ok := (set_ok K).
#[local] Notation os_represents := (os_represents K).

(** The weights of the operators that are updated are some of the new set's. *)
Lemma delta_total delta new :
  set_ok new → NoDup (rg_Pubkey <$> delta) →
  (∀ op, op ∈ delta → rg_Weight op = weight_in new (rg_Pubkey op)) →
  zsum (rg_Weight <$> delta) ≤ zsum (rg_Weight <$> new).
Proof.
  intros Hnew Hnd Hw.
  assert (∃ live : list RegistryOperator, live ⊆+ new ∧ zsum (rg_Weight <$> delta) = zsum (rg_Weight <$> live))
    as (live & [rest Hrest]%submseteq_Permutation & ->).
  { exists (filter (λ op, rg_Weight op ≠ 0) delta). split.
    - apply NoDup_submseteq; [by eapply NoDup_filter, NoDup_fmap_1|].
      intros op [Hnz Hop]%list_elem_of_filter. rewrite (Hw op Hop) in Hnz.
      destruct (decide (rg_Pubkey op ∈ rg_Pubkey <$> new)) as [Hin|?]; [|by rewrite weight_in_absent in Hnz].
      apply list_elem_of_fmap in Hin as (o & Hk & Ho). specialize (Hw op Hop).
      rewrite Hk, weight_in_elem in Hw by (done || apply Hnew).
      by replace op with o by (destruct o, op; simpl in *; congruence).
    - clear. induction delta as [|op delta IH]; [done|]. rewrite filter_cons, fmap_cons, zsum_cons.
      case_decide as Hz; [by rewrite fmap_cons, zsum_cons, IH|]. rewrite IH. lia. }
  rewrite Hrest, fmap_app, zsum_app. enough (0 ≤ zsum (rg_Weight <$> rest)) by lia.
  apply zsum_nonneg, Forall_forall. intros z (o & -> & Ho)%list_elem_of_fmap.
  pose proof (so_positive _ _ Hnew o ltac:(rewrite Hrest; apply elem_of_app; by right)). lia.
Qed.

(** The delta of two operator sets takes a registry that holds the first one to the
    second: no entry is refused as up to date, and no addition overflows. *)
Lemma apply_delta prev new delta os :
  set_ok prev → set_ok new →
  GetOperatorSetUpdateDelta pdqsort order (Ok (mkOperatorSetUpdateInfo prev new)) = Ok delta →
  os_represents os prev →
  weights_fit delta ∧
  ∃ os', os_update os delta = Ok os' ∧ os_represents os' new ∧ os_quorumThreshold os' = os_quorumThreshold os.
Proof.
  intros Hprev Hnew Hdelta HR.
  assert (Forall (λ op, coordinates_ok (rg_Pubkey op)) (prev ++ new)) as Hco.
  { apply Forall_forall. intros op [?|?]%elem_of_app; apply K_coordinates; [by apply (so_known _ _ Hprev)|by apply (so_known _ _ Hnew)]. }
  destruct (delta_correct_lemma pdqsort pdqsort_perm order order_perm prev new Hco) as (d & Hd & Hnd & Hmem).
  rewrite Hdelta in Hd. injection Hd as <-.
  assert (∀ op, op ∈ delta → rg_Weight op = weight_in new (rg_Pubkey op)) as Hw.
  { intros [p w] [Hw _]%Hmem. by rewrite <- Hw. }
  assert (Forall (λ op, 0 ≤ rg_Weight op) delta) as Hpos.
  { apply Forall_forall. intros op Hop. rewrite (Hw op Hop).
    apply weight_in_nonneg, Forall_forall. intros o Ho. pose proof (so_positive _ _ Hnew _ Ho). lia. }
  pose proof (delta_total delta new Hnew Hnd Hw) as Hsum. pose proof (so_total _ _ Hnew) as Hmax.
  split; [by apply weights_fit_sum; [|lia]|].
  apply (os_update_reaches K K_valid K_inj os prev delta new); [done|done|..|].
  - apply Forall_forall. intros [p w] Hop. pose proof (Hw _ Hop) as Hw'. apply Hmem in Hop as [_ Hne].
    simpl in *. split.
    + destruct (decide (p ∈ rg_Pubkey <$> prev ++ new)) as [Hin|Hout].
      * apply list_elem_of_fmap in Hin as (op & -> & [Hop|Hop]%elem_of_app); [by apply (so_known _ _ Hprev)|by apply (so_known _ _ Hnew)].
      * rewrite fmap_app, not_elem_of_app in Hout. destruct Hout.
        rewrite weight_in_absent in Hne, Hw' by done. congruence.
    + rewrite Hw'. apply weight_in_nonneg, Forall_forall. intros o Ho. pose proof (so_positive _ _ Hnew _ Ho). lia.
  - done.
  - intros [p w] Hop. pose proof (Hw _ Hop) as Hw'. apply Hmem in Hop as [_ Hne]. simpl in *. split; congruence.
  - intros p _ Hp. destruct (decide (weight_in prev p = weight_in new p)) as [|Hne]; [done|].
    exfalso. apply Hp. apply list_elem_of_fmap. exists (mkRegistryOperator p (weight_in new p)).
    split; [done|]. by apply Hmem.
  - rewrite (rep_total _ _ _ _ _ HR). pose proof (so_total _ _ Hprev). lia.
Qed.

Lemma set_ok_fits ops : set_ok ops → weights_fit ops.
Proof.
  intros Hok. apply weights_fit_sum; [|apply Hok]. apply Forall_forall. intros op Hop.
  pose proof (so_positive _ _ Hok op Hop). lia.
Qed.

(** The update [b] is signed by a quorum of [S]: a registry that holds [S] and asks for
    [threshold] percent of the weight accepts the signature.  That the responses of the
    aggregation satisfy this is [final_quorum_signed] of RollupSystem. *)
Definition quorum_signed (threshold : Z) (S : list RegistryOperator) (b : OperatorSetUpdateBinding)
    (info : RollupOperatorsSignatureInfo) : Prop :=
  ∃ d, osu_hashCalldata b = Ok d ∧
    ∀ os, os_represents os S → os_quorumThreshold os = threshold → verifyCalldata os d info = Ok true.

(** The registry holds the operators [S], asks for [threshold] percent and expects update
    [id]. *)
Record holds (threshold : Z) (S : list RegistryOperator) (id : Z) (r : Registry) : Prop := {
  ho_set : os_represents (reg_operatorSet r) S;
  ho_threshold : os_quorumThreshold (reg_operatorSet r) = threshold;
  ho_next : reg_nextOperatorUpdateId r = id;
}.

(** One signed update of the mainnet set is executed by the registry. *)
Lemma signed_update_accepted threshold prev new delta id ts info ih r :
  set_ok prev → set_ok new →
  GetOperatorSetUpdateDelta pdqsort order (Ok (mkOperatorSetUpdateInfo prev new)) = Ok delta →
  quorum_signed threshold prev (mkOsuBinding id ts (converted <$> delta)) info →
  0 ≤ id → id + 1 < 2 ^ 64 → ih_paused ih PAUSED_UPDATE_OPERATOR_SET = false → holds threshold prev id r →
  ∃ r', accept_tx ih address r (TxUpdateOperatorSet (mkOsuBinding id ts (converted <$> delta)) info) = Ok r' ∧
    holds threshold new (id + 1) r'.
Proof.
  intros Hprev Hnew Hdelta (d & Hd & Hver) Hid Hmax Hp [HR Ht Hn].
  destruct (apply_delta prev new delta _ Hprev Hnew Hdelta HR) as (Hfit & os' & Hup & HR' & Ht').
  exists (set_operatorSet r os' (id + 1)). split; [|split; cbn; [done|congruence|done]].
  cbn [accept_tx]. unfold updateOperatorSet. cbn [osb_Operators osb_Id]. rewrite (decode_converted _ Hfit), Hp. cbn [res_bind negb require].
  rewrite bool_decide_true by done. cbn [res_bind require]. rewrite Hd. cbn [res_bind]. rewrite Hver by done.
  cbn [res_bind require]. unfold checked. rewrite bool_decide_true by lia. cbn [res_bind]. by rewrite Hup.
Qed.

(** [mainnet_updates id S ms S']: the mainnet registry goes from set [S], before update
    [id], to [S'] by updates whose messages, with the deltas the operators compute and
    sign, are [ms]. *)
Inductive mainnet_updates (threshold : Z) : Z → list RegistryOperator →
    list (OperatorSetUpdateMessage * RollupOperatorsSignatureInfo) → list RegistryOperator → Prop :=
| mu_nil id S : mainnet_updates threshold id S [] S
| mu_cons id S S1 S' ts delta m info ms :
    set_ok S → set_ok S1 →
    GetOperatorSetUpdateDelta pdqsort order (Ok (mkOperatorSetUpdateInfo S S1)) = Ok delta →
    osu_ToBinding m = Ok (mkOsuBinding id ts (converted <$> delta)) →
    quorum_signed threshold S (mkOsuBinding id ts (converted <$> delta)) info →
    mainnet_updates threshold (id + 1) S1 ms S' → mainnet_updates threshold id S ((m, info) :: ms) S'.

(** The calls of one writer, one after the other. *)
Fixpoint update_all (scripts : nat → nat → Attempt)
    (ms : list (OperatorSetUpdateMessage * RollupOperatorsSignatureInfo)) (c : Chain) : Chain :=
  match ms with
  | [] => c
  | (m, info) :: ms => update_all (λ i, scripts (S i)) ms (UpdateOperatorSet (scripts 0%nat) m info c).1
  end.

(** C15: a rollup's registry follows the mainnet operator set.  If it holds the mainnet
    set before update [id] and expects that update, every following update reaches
    the writer in order with the signature of a quorum of the set before it, and the
    network works, then after the last update it holds exactly the mainnet set, with its
    weights, aggregate key and total weight, and expects the next id; in particular the
    contract never refuses an entry of a delta as up to date. *)
Theorem rollup_follows_mainnet threshold id S S' ms scripts c :
  mainnet_updates threshold id S ms S' → 0 ≤ id → id + Z.of_nat (length ms) < 2 ^ 64 →
  (∀ i, healthy (scripts i 0%nat)) → holds threshold S id (ch_registry c) →
  holds threshold S' (id + Z.of_nat (length ms)) (ch_registry (update_all scripts ms c)).
Proof.
  intros Hms Hid Hmax Hscripts Hc. revert scripts c Hscripts Hc.
  induction Hms as [id S|id S S1 S' ts delta m info ms HS HS1 Hdelta Hb Hq Hms IH]; intros scripts c Hscripts Hc.
  { simpl. by rewrite Z.add_0_r. }
  cbn [update_all]. rewrite length_cons in Hmax |- *.
  pose proof (Hscripts 0%nat) as Hh. destruct Hh as (_ & _ & _ & _ & _ & _ & Hp).
  destruct (signed_update_accepted threshold S S1 delta id ts info _ (ch_registry c) HS HS1 Hdelta Hq ltac:(lia) ltac:(lia) Hp Hc)
    as (r' & Hacc & Hr').
  rewrite (healthy_update address _ _ _ _ _ _ (Hscripts 0%nat) Hb Hacc). cbn [fst].
  replace (id + Z.of_nat (Datatypes.S (length ms))) with (id + 1 + Z.of_nat (length ms)) by lia.
  apply IH; [lia..| |done]. intros i. apply Hscripts.
Qed.

(** ** Initialization *)

Lemma get_set_loop_ok ops k : ∀ n answers,
  (k < n)%nat → (∀ i, (i < k)%nat → ∃ e, answers i = (Err e, false)) → (answers k).1 = Ok ops →
  ∃ es, length es = k ∧ get_set_loop n answers = (es, Ok ops).
Proof.
  induction k as [|k IH]; intros [|n] answers Hk Herr Hok; try lia.
  { exists []. split; [done|]. cbn [get_set_loop]. by rewrite Hok. }
  destruct (Herr 0%nat) as [e He]; [lia|].
  destruct (IH n (λ i, answers (S i))) as (es & Hes & Hloop); [lia|intros i Hi; apply Herr; lia|done|].
  exists (e :: es). split; [simpl; lia|]. cbn [get_set_loop]. rewrite He. simpl. by rewrite Hloop.
Qed.

(** Initializing a new registry whose aggregator is the writer's account. *)
Lemma healthy_init threshold ops id script c :
  0 ≤ id → id + 1 < 2 ^ 64 → set_ok ops → healthy (script 0%nat) →
  initialize threshold address = Ok (ch_registry c) →
  ∃ c', InitializeOperatorSet address script (converted <$> ops) id c = (c', Ok tt) ∧
    holds threshold ops (id + 1) (ch_registry c').
Proof.
  intros H0 Hid Hok (Ho & Htx & _ & Has & Hsend & Hl & _) Hreg.
  unfold initialize in Hreg. inv_bind Hreg os0 Hos0. apply os_setQuorumThreshold_inv in Hos0 as [_ ->].
  injection Hreg as Hreg. destruct (os_update_first K K_valid K_inj (reg_operatorSet (ch_registry c)) ops) as (os & Hup & HR & Ht).
  { rewrite <- Hreg. apply represents_empty. }
  { done. }
  set (tx := TxSetInitialOperatorSet (converted <$> ops) (id + 1)).
  exists (mkChain (set_operatorSet (ch_registry c) os (id + 1)) (ch_sent c ++ [tx])). split.
  - unfold InitializeOperatorSet, INITIALIZE_OPERATOR_SET_RETRIES. cbn [retry].
    unfold other_txs. rewrite Ho. cbn [foldl]. unfold init_operation. rewrite Htx, Has.
    rewrite (u64_small (id + 1)) by (unfold is_u64; lia). fold tx.
    unfold send_tx. cbn [ch_registry ch_sent]. rewrite Hl, Hsend. unfold execute_tx.
    cbn [tx accept_tx]. unfold setInitialOperatorSet. rewrite (decode_converted _ (set_ok_fits _ Hok)). cbn [res_bind].
    rewrite !bool_decide_true by (by rewrite <- Hreg). cbn [require res_bind]. by rewrite Hup.
  - split; [done| |done]. cbn. rewrite Ht, <- Hreg. done.
Qed.

Lemma try_initialize threshold n ops k getSet script c :
  0 < n < 2 ^ 64 → (k < 5)%nat → (∀ i, (i < k)%nat → ∃ e, getSet i (n - 1) = (Err e, false)) →
  (getSet k (n - 1)).1 = Ok ops → set_ok ops → healthy (script 0%nat) →
  initialize threshold address = Ok (ch_registry c) →
  ∃ c' es, tryInitializeRollupOperatorSet address (Ok tt) getSet script n c = Ok (c', es) ∧
    length es = k ∧ holds threshold ops n (ch_registry c').
Proof.
  intros Hn Hk Herr Hok Hset Hs Hreg.
  assert (u64 (n - 1) = n - 1) as Hn1 by (apply u64_small; unfold is_u64; lia).
  destruct (get_set_loop_ok ops k 5 (λ i, getSet i (n - 1)) Hk Herr Hok) as (es & Hes & Hloop).
  destruct (healthy_init threshold ops (n - 1) script c) as (c' & Hinit & Hh); [lia..|done|done|done|].
  rewrite Z.sub_add in Hh. exists c', es. split_and!; [|done|done].
  unfold tryInitializeRollupOperatorSet. assert (reg_nextOperatorUpdateId (ch_registry c) = 0) as Hz.
  { unfold initialize in Hreg. inv_bind Hreg os0 Hos0. by injection Hreg as <-. }
  rewrite bool_decide_true by done. cbn [negb]. unfold tryGetOperatorSetById, GET_OPERATOR_SET_RETRIES.
  by rewrite Hn1, Hloop, Hinit.
Qed.

Lemma try_initialize_skips n getSet script d :
  reg_nextOperatorUpdateId (ch_registry d) ≠ 0 →
  tryInitializeRollupOperatorSet address (Ok tt) getSet script n d = Ok (d, []).
Proof. intros Hd. unfold tryInitializeRollupOperatorSet. by rewrite bool_decide_false. Qed.

(** A rollup is initialized to the mainnet operator set.  If mainnet's next update id
    is [n > 0] and the rollup's registry is new, the set is fetched within five
    attempts and the transaction is executed, then the registry holds exactly the
    mainnet set after update [n - 1] and expects update [n]; every failed fetch is
    reported.  A rollup that already expects some update is left alone. *)
Theorem initialization_matches_mainnet threshold n ops k getSet script c :
  0 < n < 2 ^ 64 → (k < 5)%nat → (∀ i, (i < k)%nat → ∃ e, getSet i (n - 1) = (Err e, false)) →
  (getSet k (n - 1)).1 = Ok ops → set_ok ops → healthy (script 0%nat) →
  initialize threshold address = Ok (ch_registry c) →
  (∃ c' es, tryInitializeRollupOperatorSet address (Ok tt) getSet script n c = Ok (c', es) ∧
     length es = k ∧ holds threshold ops n (ch_registry c')) ∧
  (∀ d, reg_nextOperatorUpdateId (ch_registry d) ≠ 0 →
     tryInitializeRollupOperatorSet address (Ok tt) getSet script n d = Ok (d, [])).
Proof. intros Hn Hk Herr Hok Hset Hs Hreg. split; [by eapply try_initialize|apply try_initialize_skips]. Qed.

End OperatorSets.

Module Examples.

#[local] Existing Instances ToyBls.ops ToyHash.ops ToyAbi.ops ToyBn254.ops.
#[local] Existing Instances ToyBls.bls_laws ToyHash.hash_laws ToyAbi.abi_laws ToyBn254.laws.

#[local] Notation small_key := RegistryContractTheory.Examples.small_key.
#[local] Notation small_valid := RegistryContractTheory.Examples.small_valid.
#[local] Notation small_inj := RegistryContractTheory.Examples.small_inj.

Lemma small_coordinates p : small_key p → coordinates_ok p.
Proof. intros [Hx Hy]. split; rewrite ?Hy; lia. Qed.

Definition nothing_paused : Inherited := mkInherited 1 (λ _, false).
Definition fine : Attempt := mkAttempt [] nothing_paused (Ok tt) (Ok tt) (Ok tt) (Ok tt) true false.
(** The transaction is executed, but [Send] times out waiting for its receipt. *)
Definition unseen : Attempt := mkAttempt [] nothing_paused (Ok tt) (Ok tt) (Ok tt) (Err (ExternalError "timeout")) true false.

Lemma fine_healthy : healthy fine.
Proof. split_and!; reflexivity. Qed.

Definition operator (i w : Z) : RegistryOperator := mkRegistryOperator (mkBN254G1Point i 0) w.
Definition message (id : Z) (ops : list RegistryOperator) : OperatorSetUpdateMessage :=
  mkOperatorSetUpdate id 1700000000 ((λ op, mkRollupOperator
    (Some (NewG1Point (bn_X (rg_Pubkey op)) (bn_Y (rg_Pubkey op)))) (Some (rg_Weight op))) <$> ops).
Definition binding (id : Z) (ops : list RegistryOperator) : OperatorSetUpdateBinding :=
  mkOsuBinding id 1700000000 (converted <$> ops).

(** The signature of everybody, with secrets that add up to [secret]. *)
Definition signed_by (secret : Z) (b : OperatorSetUpdateBinding) : RollupOperatorsSignatureInfo :=
  mkSignatureInfo [] (mkBN254G2Point (0, secret) (0, 0))
    (mkBN254G1Point (secret * ToyBls.hash_to_scalar (res_or [] (osu_hashCalldata b))) 0).

Definition set0 : list RegistryOperator := [operator 1 10; operator 2 20].
Definition set1 : list RegistryOperator := [operator 2 25; operator 3 30].

Ltac each_operator Hop :=
  repeat (apply elem_of_cons in Hop as [->|Hop]; [(split; simpl; lia) || (simpl; lia)|]); by apply elem_of_nil in Hop.

Lemma set0_ok : set_ok small_key set0.
Proof. split; [by apply (bool_decide_unpack _)|intros op Hop; each_operator Hop..|done]. Qed.
Lemma set1_ok : set_ok small_key set1.
Proof. split; [by apply (bool_decide_unpack _)|intros op Hop; each_operator Hop..|done]. Qed.

(** A registry of the aggregator with address 7, new and with the operators [set0]. *)
Definition fresh : Registry := res_or (mkRegistry (mkOperatorSet ∅ g1_zero 0 0) 0 0 ∅) (initialize 66 7).
Definition chain0 : Chain :=
  mkChain (ch_registry (InitializeOperatorSet 7 (λ _, fine) (converted <$> set0) 3 (mkChain fresh [])).1) [].

Lemma chain0_holds : holds small_key 66 set0 4 (ch_registry chain0).
Proof.
  destruct (healthy_init 7 small_key small_valid small_inj 66 set0 3 (λ _, fine) (mkChain fresh [])) as (c & Hc & Hh);
    [lia|lia|exact set0_ok|exact fine_healthy|reflexivity|].
  unfold chain0. rewrite Hc. exact Hh.
Qed.

Lemma everybody_signed (id : Z) (ops : list RegistryOperator) :
  is_ok (osu_hashCalldata (binding id ops)) = true →
  quorum_signed small_key 66 set0 (binding id ops) (signed_by 3 (binding id ops)).
Proof.
  intros Hok. exists (res_or [] (osu_hashCalldata (binding id ops))). split; [by apply res_or_ok|]. intros os HR Ht.
  pose proof (rep_total _ _ _ _ _ HR) as Htotal. change (zsum (rg_Weight <$> set0)) with 30 in Htotal.
  rewrite (verifyCalldata_accepts small_key small_valid os set0 []);
    [|done|done|constructor|lia|rewrite Ht, Htotal; lia|done|..].
  - rewrite Htotal, Ht. reflexivity.
  - unfold signed_by. cbn [rsi_Sigma rsi_ApkG2]. generalize (res_or [] (osu_hashCalldata (binding id ops))). intros d.
    cbn -[Z.mul]. f_equal. apply bool_decide_eq_true. unfold ToyBn254.scalar. cbn [bn2_X fst snd]. lia.
  - reflexivity.
Qed.

(** After the unseen execution the next attempt finds the id already used. *)
Example unseen_then_fine :
  (λ r, (length (ch_sent r.1), reg_nextOperatorUpdateId (ch_registry r.1), r.2))
    (UpdateOperatorSet 7 (λ i, if (i =? 0)%nat then unseen else fine) (message 4 [operator 3 30])
       (signed_by 3 (binding 4 [operator 3 30])) chain0)
  = (1%nat, 5, Ok tt).
Proof. vm_compute. reflexivity. Qed.

(** A key that is not the operators' is refused, and the writer gives up. *)
Definition forged (b : OperatorSetUpdateBinding) : RollupOperatorsSignatureInfo :=
  mkSignatureInfo [] (mkBN254G2Point (0, 2) (0, 0))
    (mkBN254G1Point (2 * ToyBls.hash_to_scalar (res_or [] (osu_hashCalldata b))) 1).

Example forged_refused :
  (λ r, (length (ch_sent r.1), reg_nextOperatorUpdateId (ch_registry r.1)))
    (UpdateOperatorSet 7 (λ i, unseen) (message 4 [operator 3 30]) (forged (binding 4 [operator 3 30])) chain0)
  = (5%nat, 4).
Proof. vm_compute. reflexivity. Qed.

Definition info3 : RollupOperatorsSignatureInfo := signed_by 3 (binding 4 [operator 3 30]).
Definition after_unseen : Chain * go unit :=
  UpdateOperatorSet 7 (λ _, unseen) (message 4 [operator 3 30]) info3 chain0.

Lemma update_executed_at_most_once_witness :
  ∃ k, (k ≤ 5)%nat ∧ ch_sent after_unseen.1 = replicate k (TxUpdateOperatorSet (binding 4 [operator 3 30]) info3).
Proof.
  refine (proj1 (update_executed_at_most_once 7 (λ _, unseen) (message 4 [operator 3 30]) info3
    (binding 4 [operator 3 30]) chain0 after_unseen.1 after_unseen.2 _ _ _)).
  - reflexivity.
  - reflexivity.
  - unfold after_unseen. apply surjective_pairing.
Defined.

Definition after3 : Registry :=
  res_or fresh (accept_tx nothing_paused 7 (ch_registry chain0) (TxUpdateOperatorSet (binding 4 [operator 3 30]) info3)).

Lemma early_update_lost_witness :
  ∃ c1 c2, UpdateOperatorSet 7 (λ _, fine) (message 5 [operator 1 0]) info3 chain0 = (c1, Ok tt) ∧
    UpdateOperatorSet 7 (λ _, fine) (message 4 [operator 3 30]) info3 c1 = (c2, Ok tt) ∧
    ch_sent c2 = [] ++ [TxUpdateOperatorSet (binding 4 [operator 3 30]) info3] ∧
    ch_registry c2 = after3 ∧ reg_nextOperatorUpdateId (ch_registry c2) = 5.
Proof.
  apply (early_update_lost 7 (λ _, fine) (λ _, fine) (message 4 [operator 3 30]) (message 5 [operator 1 0])
    info3 info3 (binding 4 [operator 3 30]) chain0).
  - exact fine_healthy.
  - exact fine_healthy.
  - reflexivity.
  - reflexivity.
  - apply res_or_ok. vm_compute. reflexivity.
Defined.

Definition keep (less : nat → nat → bool) (l : list RegistryOperator) : list RegistryOperator := l.

Definition delta01 : list RegistryOperator :=
  res_or [] (GetOperatorSetUpdateDelta keep map_to_list (Ok (mkOperatorSetUpdateInfo set0 set1))).

(** Operator 1 leaves, operator 2 gets a new weight, operator 3 joins. *)
Example delta01_members : (λ op, (bn_X (rg_Pubkey op), rg_Weight op)) <$> delta01 = [(3, 30); (1, 0); (2, 25)].
Proof. vm_compute. reflexivity. Qed.

Definition updates01 : list (OperatorSetUpdateMessage * RollupOperatorsSignatureInfo) :=
  [(message 4 delta01, signed_by 3 (binding 4 delta01))].

Lemma rollup_follows_mainnet_witness :
  holds small_key 66 set1 5 (ch_registry (update_all 7 (λ _ _, fine) updates01 chain0)).
Proof.
  apply (rollup_follows_mainnet 7 small_key small_valid small_coordinates small_inj
    keep (λ _ l, reflexivity l) map_to_list (λ m, reflexivity (map_to_list m))
    66 4 set0 set1 updates01 (λ _ _, fine) chain0).
  - apply (mu_cons small_key keep map_to_list 66 4 set0 set1 set1 1700000000 delta01).
    + exact set0_ok.
    + exact set1_ok.
    + vm_compute. reflexivity.
    + vm_compute. reflexivity.
    + apply everybody_signed. vm_compute. reflexivity.
    + constructor.
  - lia.
  - simpl. lia.
  - intros _. exact fine_healthy.
  - exact chain0_holds.
Defined.

(** The first fetch of the set fails. *)
Definition reader (i : nat) (id : Z) : go (list RegistryOperator) * bool :=
  if (i =? 0)%nat then (Err (ExternalError "rpc"), false) else (Ok set0, false).

Lemma initialization_matches_mainnet_witness :
  ∃ c' es, tryInitializeRollupOperatorSet 7 (Ok tt) reader (λ _, fine) 4 (mkChain fresh []) = Ok (c', es) ∧
     length es = 1%nat ∧ holds small_key 66 set0 4 (ch_registry c').
Proof.
  refine (proj1 (initialization_matches_mainnet 7 small_key small_valid small_inj 66 4 set0 1 reader (λ _, fine)
    (mkChain fresh []) _ _ _ _ _ _ _)).
  - lia.
  - lia.
  - intros i Hi. exists (ExternalError "rpc"). by destruct i; [|lia].
  - reflexivity.
  - exact set0_ok.
  - exact fine_healthy.
  - reflexivity.
Defined.

End Examples.
