(* ===== verification/Broadcaster.v ===== *)
(** * The rollup broadcaster at work: aggregator/rollup_broadcaster.go

    The goroutines [BroadcastOperatorSetUpdate] and the initialization start, the lock of
    each [RollupWriter] that serializes their calls, the registry contracts they share
    with everybody else, and the unbuffered error channel the loop of [Aggregator.Start]
    reads.  [task_step] is one step of one goroutine; [bc_step] adds the events from
    outside: broadcasts, initializations, transactions of other accounts and the end of
    the loop.  Whatever the interleaving, every registry is new or holds a set mainnet had,
    as long as quorums sign only mainnet's updates, initializations use mainnet's sets and
    the owner does not intervene ([rollups_track_mainnet]); while the loop runs every goroutine returns and every
    error is delivered ([broadcasts_settle]); updates that are broadcast in order can
    overtake each other ([updates_race]). *)

From stdpp Require Import relations.
From S2P Require Import Prelude CoreTypes Instances Messages MessagesTheory AvsReader.
From S2P Require Import RegistryContract RegistryContractTheory OperatorSetRegistry Rollups.

(** ** The system *)

Section Broadcaster.
Context `{B : BlsOps}.

(** The two calls of a writer. *)
Inductive Call : Type :=
| CallInitialize (operators : list RollupOperatorsOperator) (operatorSetUpdateId : Z)
| CallUpdate (message : OperatorSetUpdateMessage) (info : RollupOperatorsSignatureInfo).

(** Where the goroutine of a call is: waiting for the writer's lock; with [n] attempts
    left; with the transaction of an attempt assembled; returned from the call and
    sending its error; gone.  The lock is held in between. *)
Inductive JobState : Type :=
| JWaiting
| JAttempt (n : nat)
| JSending (n : nat) (tx : RegistryTx)
| JReporting (e : GoError)
| JDone.

Definition locked (st : JobState) : bool :=
  match st with JAttempt _ | JSending _ _ => true | _ => false end.

Record Job := mkJob {
  jb_rollup : RollupId;
  jb_call : Call;
  jb_state : JobState }.

(** [bc_spawners]: the goroutines that loop over the writers, with the writers left;
    [bc_errors]: what the aggregator's loop received; [bc_running]: whether it runs. *)
Record Broadcaster := mkBroadcaster {
  bc_registries : gmap RollupId Registry;
  bc_spawners : list (Call * list RollupId);
  bc_jobs : list Job;
  bc_errors : list (RollupId * GoError);
  bc_running : bool }.

(** The account and the writers of the broadcaster. *)
Context `{H : HashOps} `{A : AbiOps} {N : Bn254Ops} (address : Address) (writers : list RollupId).

Definition tx_of (call : Call) : go RegistryTx :=
  match call with
  | CallInitialize operators id => Ok (TxSetInitialOperatorSet operators (u64 (id + 1)))
  | CallUpdate message info => let? b := osu_ToBinding message in Ok (TxUpdateOperatorSet b info)
  end.

(** The check [message.Id != nextOperatorUpdateId]; an initialization has none. *)
Definition current (call : Call) (r : Registry) : bool :=
  match call with
  | CallInitialize _ _ => true
  | CallUpdate message _ => bool_decide (osu_Id message = reg_nextOperatorUpdateId r)
  end.

Definition retries (call : Call) : nat :=
  match call with
  | CallInitialize _ _ => INITIALIZE_OPERATOR_SET_RETRIES
  | CallUpdate _ _ => UPDATE_OPERATOR_SET_RETRIES
  end.

Definition failed (call : Call) : GoError :=
  match call with
  | CallInitialize _ _ => NewError "failed to initialize operator set after retries"
  | CallUpdate _ _ => NewError "failed to update operator set after retries"
  end.

Definition set_job (s : Broadcaster) (j : nat) (jb : Job) (st : JobState) : Broadcaster :=
  mkBroadcaster (bc_registries s) (bc_spawners s) (<[j := mkJob (jb_rollup jb) (jb_call jb) st]> (bc_jobs s))
    (bc_errors s) (bc_running s).

Definition set_registry (s : Broadcaster) (w : RollupId) (r : Registry) : Broadcaster :=
  mkBroadcaster (<[w := r]> (bc_registries s)) (bc_spawners s) (bc_jobs s) (bc_errors s) (bc_running s).

(** One step of a goroutine.  An attempt may fail at any of its calls and is then
    repeated after the timer, or given up when the context is done; a transaction that
    was sent may have been executed or not, whatever [Send] answers. *)
Inductive task_step (s : Broadcaster) : Broadcaster → Prop :=
| ts_spawn i call w ws :
    bc_spawners s !! i = Some (call, w :: ws) →
    task_step s (mkBroadcaster (bc_registries s) (<[i := (call, ws)]> (bc_spawners s))
      (bc_jobs s ++ [mkJob w call JWaiting]) (bc_errors s) (bc_running s))
| ts_spawn_canceled i call w ws :
    bc_spawners s !! i = Some (call, w :: ws) →
    task_step s (mkBroadcaster (bc_registries s) (<[i := (call, [])]> (bc_spawners s))
      (bc_jobs s) (bc_errors s) (bc_running s))
| ts_lock j jb :
    bc_jobs s !! j = Some jb → jb_state jb = JWaiting →
    (∀ k jb', bc_jobs s !! k = Some jb' → jb_rollup jb' = jb_rollup jb → locked (jb_state jb') = false) →
    task_step s (set_job s j jb (JAttempt (retries (jb_call jb))))
| ts_skip j jb n r :
    bc_jobs s !! j = Some jb → jb_state jb = JAttempt (S n) → bc_registries s !! jb_rollup jb = Some r →
    current (jb_call jb) r = false → task_step s (set_job s j jb JDone)
| ts_assemble j jb n r tx :
    bc_jobs s !! j = Some jb → jb_state jb = JAttempt (S n) → bc_registries s !! jb_rollup jb = Some r →
    current (jb_call jb) r = true → tx_of (jb_call jb) = Ok tx → task_step s (set_job s j jb (JSending n tx))
| ts_attempt_fails j jb n st :
    bc_jobs s !! j = Some jb → jb_state jb = JAttempt (S n) → st = JAttempt n ∨ st = JReporting ContextCanceled →
    task_step s (set_job s j jb st)
| ts_exhausted j jb :
    bc_jobs s !! j = Some jb → jb_state jb = JAttempt 0 → task_step s (set_job s j jb (JReporting (failed (jb_call jb))))
| ts_send j jb n tx r ih (landed : bool) st :
    bc_jobs s !! j = Some jb → jb_state jb = JSending n tx → bc_registries s !! jb_rollup jb = Some r →
    st = JDone ∨ st = JAttempt n ∨ st = JReporting ContextCanceled →
    task_step s (set_job (set_registry s (jb_rollup jb) (if landed then execute_tx ih address r tx else r)) j jb st)
| ts_report j jb e :
    bc_jobs s !! j = Some jb → jb_state jb = JReporting e → bc_running s = true →
    task_step s (mkBroadcaster (bc_registries s) (bc_spawners s) (<[j := mkJob (jb_rollup jb) (jb_call jb) JDone]> (bc_jobs s))
      (bc_errors s ++ [(jb_rollup jb, e)]) (bc_running s)).

(** Events from outside; [BeTask] is a step of a goroutine.  A broadcast comes from the
    loop, with a message whose operators were checked when it was received.  An
    initialization goroutine first fetches an operator set from mainnet, which touches
    neither locks nor registries ([tryGetOperatorSetById] of Rollups); [BeInitialize] is
    the moment it has one, whichever it is, and calls its writer with it. *)
Inductive BcEvent : Type :=
| BeTask
| BeBroadcast (message : OperatorSetUpdateMessage) (info : RollupOperatorsSignatureInfo)
| BeInitialize (rollupId : RollupId) (operators : list RollupOperatorsOperator) (operatorSetUpdateId : Z)
| BeTx (rollupId : RollupId) (ih : Inherited) (sender : Address) (tx : RegistryTx)
| BeLoopEnds.

Inductive bc_step (s : Broadcaster) : BcEvent → Broadcaster → Prop :=
| bs_task s' : task_step s s' → bc_step s BeTask s'
| bs_broadcast message info :
    bc_running s = true → is_ok (osu_ToBinding message) = true →
    bc_step s (BeBroadcast message info) (mkBroadcaster (bc_registries s)
      (bc_spawners s ++ [(CallUpdate message info, writers)]) (bc_jobs s) (bc_errors s) (bc_running s))
| bs_initialize w operators id :
    w ∈ writers →
    bc_step s (BeInitialize w operators id) (mkBroadcaster (bc_registries s) (bc_spawners s)
      (bc_jobs s ++ [mkJob w (CallInitialize operators id) JWaiting]) (bc_errors s) (bc_running s))
| bs_tx w r ih sender tx :
    bc_registries s !! w = Some r → bc_step s (BeTx w ih sender tx) (set_registry s w (execute_tx ih sender r tx))
| bs_loop_ends :
    bc_step s BeLoopEnds (mkBroadcaster (bc_registries s) (bc_spawners s) (bc_jobs s) (bc_errors s) false).

Inductive bc_run (s : Broadcaster) : list BcEvent → Broadcaster → Prop :=
| br_nil : bc_run s [] s
| br_cons ev s' evs s'' : bc_step s ev s' → bc_run s' evs s'' → bc_run s (ev :: evs) s''.

(** The broadcaster when it is created, over the registries of its writers. *)
Definition new_broadcaster (registries : gmap RollupId Registry) : Broadcaster :=
  mkBroadcaster registries [] [] [] true.

End Broadcaster.

(** ** The registries follow mainnet *)

Section Tracking.
Context `{B : BlsOps} `{H : HashOps} `{A : AbiOps} {AL : AbiLaws A} {N : Bn254Ops} {NL : Bn254Laws N}.
Context (address : Address) (writers : list RollupId) (K : BN254G1Point → Prop)
  (K_valid : ∀ p, K p → g1_valid p = true)
  (K_coordinates : ∀ p, K p → coordinates_ok p)
  (K_inj : ∀ p q, K p → K q → hashG1Point p = hashG1Point q → p = q).

#[local] Notation os_represents := (os_represents K).
#[local] Notation task_step := (task_step address).
#[local] Notation bc_step := (bc_step address writers).
#[local] Notation bc_run := (bc_run address writers).

(** [sets i] is the operator set of mainnet when its next update is [i], and [threshold]
    the percentage the registries were deployed with. *)
Context (sets : Z → list RegistryOperator) (sets_ok : ∀ i, set_ok K (sets i)) (sets_live : ∀ i, 0 < i → sets i ≠ [])
  (threshold : Z).

(** A delta operators may compute for mainnet's update [i]. *)
Definition mainnet_delta (i : Z) (delta : list RegistryOperator) : Prop :=
  ∃ pdqsort order, (∀ less l, pdqsort less l ≡ₚ l) ∧ (∀ m, order m ≡ₚ map_to_list m) ∧
    GetOperatorSetUpdateDelta pdqsort order (Ok (mkOperatorSetUpdateInfo (sets i) (sets (i + 1)))) = Ok delta.

(** What the accounts do: the aggregator initializes with a set of mainnet, a quorum of
    mainnet's operators signs only mainnet's updates, and the owner does nothing.
    Everything else is open, also updates with any other signature. *)
Definition tx_mainnet (ih : Inherited) (sender : Address) (tx : RegistryTx) : Prop :=
  match tx with
  | TxSetInitialOperatorSet operators next =>
      sender = address → 0 ≤ next ∧ decode_operators operators = Ok (sets next)
  | TxUpdateOperatorSet b info => ∀ os d,
      os_represents os (sets (osb_Id b)) → os_quorumThreshold os = threshold →
      osu_hashCalldata b = Ok d → verifyCalldata os d info = Ok true →
      ∃ delta, decode_operators (osb_Operators b) = Ok delta ∧ mainnet_delta (osb_Id b) delta
  | TxForceOperatorSetUpdate _ | TxSetAggregator _ | TxSetQuorumThreshold _ => sender ≠ ih_owner ih
  | TxUpdateStateRoot _ _ | TxUpdateAndGetStorageValue _ _ _ => True
  end.

(** The registry is new, or it holds the set mainnet had at the id it expects. *)
Record tracked (r : Registry) : Prop := {
  tr_aggregator : reg_aggregator r = address;
  tr_threshold : os_quorumThreshold (reg_operatorSet r) = threshold;
  tr_next : 0 ≤ reg_nextOperatorUpdateId r;
  tr_set : os_represents (reg_operatorSet r) (sets (reg_nextOperatorUpdateId r)) ∨
    (os_represents (reg_operatorSet r) [] ∧ reg_nextOperatorUpdateId r = 0);
}.

Lemma total_positive S : set_ok K S → S ≠ [] → 0 < zsum (rg_Weight <$> S).
Proof.
  intros Hok Hne. pose proof (so_positive _ _ Hok) as Hp. destruct S as [|op S]; [done|].
  rewrite fmap_cons, zsum_cons.
  enough (0 ≤ zsum (rg_Weight <$> S)) by (pose proof (Hp op ltac:(by left)); lia).
  apply zsum_nonneg, Forall_forall. intros z (o & -> & Ho)%list_elem_of_fmap. pose proof (Hp o ltac:(by right)). lia.
Qed.

Lemma verify_live os d info b : verifyCalldata os d info = Ok b → os_totalWeight os ≠ 0.
Proof. unfold verifyCalldata. intros Hv. inv_bind Hv u Hu. apply require_ok, negb_true_iff, bool_decide_eq_false in Hu. done. Qed.

(** A registry without weight is new. *)
Lemma tracked_new r :
  tracked r → os_totalWeight (reg_operatorSet r) = 0 →
  os_represents (reg_operatorSet r) [] ∧ reg_nextOperatorUpdateId r = 0.
Proof.
  intros [_ _ Hn [HR|HR]] Hz; [|done]. set (i := reg_nextOperatorUpdateId r) in *.
  assert (sets i = []) as Hempty.
  { destruct (decide (sets i = [])) as [He|He]; [done|]. pose proof (total_positive _ (sets_ok i) He).
    rewrite (rep_total _ _ _ _ _ HR) in Hz. lia. }
  rewrite Hempty in HR. split; [done|]. destruct (decide (i = 0)); [done|].
  exfalso. apply (sets_live i); [lia|done].
Qed.

Lemma tracked_initial sender r operators next r' :
  tracked r → (sender = address → 0 ≤ next ∧ decode_operators operators = Ok (sets next)) →
  setInitialOperatorSet sender r operators next = Ok r' → tracked r' ∧ reg_nextOperatorUpdateId r ≤ reg_nextOperatorUpdateId r'.
Proof.
  intros Htr Htx Hacc. pose proof Htr as [Ha Ht Hn Hs]. unfold setInitialOperatorSet in Hacc. inv_bind Hacc ops Hops.
  inv_bind Hacc u Hu. apply require_ok, bool_decide_eq_true in Hu. inv_bind Hacc u' Hz. apply require_ok, bool_decide_eq_true in Hz.
  inv_bind Hacc os Hos. injection Hacc as <-. destruct Htx as [H0 Hdec]; [congruence|]. rewrite Hops in Hdec. injection Hdec as ->.
  assert (os_represents (reg_operatorSet r) [] ∧ reg_nextOperatorUpdateId r = 0) as [HR Hz'] by by apply tracked_new.
  destruct (os_update_first K K_valid K_inj _ (sets next) HR (sets_ok next)) as (os' & Hup & HR' & Ht').
  rewrite Hup in Hos. injection Hos as <-. split; [|cbn; lia]. split; cbn; [done|congruence|done|by left].
Qed.

Lemma tracked_update ih sender r b info r' :
  tracked r → tx_mainnet ih sender (TxUpdateOperatorSet b info) →
  updateOperatorSet ih r b info = Ok r' → tracked r' ∧ reg_nextOperatorUpdateId r ≤ reg_nextOperatorUpdateId r'.
Proof.
  intros [Ha Ht Hn Hs] Htx Hacc. unfold updateOperatorSet in Hacc. inv_bind Hacc ops Hops. inv_require Hacc.
  inv_bind Hacc u Hu. apply require_ok, bool_decide_eq_true in Hu. inv_bind Hacc d Hd. inv_bind Hacc met Hmet.
  inv_bind Hacc u' Hm. apply require_ok in Hm. subst met. inv_bind Hacc next Hnext. apply checked_ok in Hnext as [-> _].
  inv_bind Hacc os Hos. injection Hacc as <-. rewrite <- Hu in Hs. destruct Hs as [HR|[HR _]].
  2:{ pose proof (verify_live _ _ _ _ Hmet) as Hz. rewrite (rep_total _ _ _ _ _ HR) in Hz. done. }
  destruct (Htx _ d HR Ht Hd Hmet) as (delta & Hdec & pdqsort & order & Hp & Ho & Hdelta). rewrite Hops in Hdec. injection Hdec as ->.
  destruct (apply_delta K K_valid K_coordinates K_inj pdqsort Hp order Ho _ _ _ _ (sets_ok _) (sets_ok _) Hdelta HR) as (_ & os' & Hup & HR' & Ht').
  rewrite Hup in Hos. injection Hos as <-. split; [|cbn; lia]. split; cbn; [done|congruence|lia|by left].
Qed.

Lemma tracked_state_root ih r m info r' :
  tracked r → updateStateRoot ih r m info = Ok r' → tracked r' ∧ reg_nextOperatorUpdateId r ≤ reg_nextOperatorUpdateId r'.
Proof.
  intros [Ha Ht Hn Hs] Hacc. unfold updateStateRoot in Hacc. inv_require Hacc. inv_bind Hacc d Hd. inv_bind Hacc met Hmet.
  inv_require Hacc. injection Hacc as <-. split; [|cbn; lia]. by split.
Qed.

Lemma tracked_tx ih sender r tx :
  tracked r → tx_mainnet ih sender tx →
  tracked (execute_tx ih sender r tx) ∧ reg_nextOperatorUpdateId r ≤ reg_nextOperatorUpdateId (execute_tx ih sender r tx).
Proof.
  intros Hr Htx. unfold execute_tx. destruct (accept_tx ih sender r tx) as [r'| |] eqn:Hacc; cbn [res_or]; [|split; [done|lia]..].
  destruct tx as [ops next|b info|m info|m proof agreement|b|a|q]; cbn [accept_tx tx_mainnet] in *.
  - by eapply tracked_initial.
  - by apply (tracked_update ih sender r b info).
  - by eapply tracked_state_root.
  - inv_bind Hacc x Hx. injection Hacc as <-. unfold updateAndGetStorageValue in Hx. inv_require Hx. inv_bind Hx r1 Hr1.
    inv_bind Hx v Hv. injection Hx as <-. cbn [fst]. case_bool_decide; [|injection Hr1 as <-; split; [done|lia]].
    destruct agreement; [|done]. by eapply tracked_state_root.
  - unfold forceOperatorSetUpdate in Hacc. inv_bind Hacc ops Hops. by rewrite bool_decide_false in Hacc.
  - unfold setAggregator in Hacc. by rewrite bool_decide_false in Hacc.
  - unfold setQuorumThreshold in Hacc. by rewrite bool_decide_false in Hacc.
Qed.

(** What the broadcaster is asked to do. *)
Definition call_mainnet (call : Call) : Prop := ∀ ih tx, tx_of call = Ok tx → tx_mainnet ih address tx.

Definition event_mainnet (ev : BcEvent) : Prop :=
  match ev with
  | BeBroadcast message info => call_mainnet (CallUpdate message info)
  | BeInitialize _ operators id => call_mainnet (CallInitialize operators id)
  | BeTx _ ih sender tx => tx_mainnet ih sender tx
  | BeTask | BeLoopEnds => True
  end.

(** Every registry is tracked, and its id is not below the one in [base]; every call is
    for mainnet, and transactions are those of their calls. *)
Record bc_inv (base : gmap RollupId Registry) (s : Broadcaster) : Prop := {
  bi_registries w r : bc_registries s !! w = Some r → tracked r ∧
    ∃ r0, base !! w = Some r0 ∧ reg_nextOperatorUpdateId r0 ≤ reg_nextOperatorUpdateId r;
  bi_spawners call ws : (call, ws) ∈ bc_spawners s → call_mainnet call;
  bi_jobs jb : jb ∈ bc_jobs s → call_mainnet (jb_call jb) ∧ ∀ n tx, jb_state jb = JSending n tx → tx_of (jb_call jb) = Ok tx;
}.

Lemma bc_inv_job base s j jb st :
  bc_inv base s → bc_jobs s !! j = Some jb → (∀ n tx, st = JSending n tx → tx_of (jb_call jb) = Ok tx) →
  bc_inv base (set_job s j jb st).
Proof.
  intros [Hr Hs Hj] Hl Hst. split; cbn; [done..|]. intros jb' Hin. apply list_elem_of_lookup in Hin as [k Hk].
  apply list_lookup_insert_Some in Hk as [(-> & <- & _)|[_ Hk]]; cbn.
  - split; [|done]. apply Hj. by eapply list_elem_of_lookup_2.
  - apply Hj. by eapply list_elem_of_lookup_2.
Qed.

Lemma bc_inv_registry base s w r ih sender tx (landed : bool) :
  bc_inv base s → bc_registries s !! w = Some r → tx_mainnet ih sender tx →
  bc_inv base (set_registry s w (if landed then execute_tx ih sender r tx else r)).
Proof.
  intros [Hr Hs Hj] Hl Htx. split; cbn; [|done..]. intros w' r'. rewrite lookup_insert_Some.
  intros [[<- <-]|[_ Hl']]; [|by apply Hr]. destruct (Hr _ _ Hl) as [Htr (r0 & Hr0 & Hle)].
  destruct landed; [|split; [done|by exists r0]]. destruct (tracked_tx _ _ _ _ Htr Htx) as [? ?].
  split; [done|]. exists r0. split; [done|lia].
Qed.

Lemma bc_inv_task base s s' : bc_inv base s → task_step s s' → bc_inv base s'.
Proof.
  intros Hinv Hstep. assert (∀ j jb st, bc_jobs s !! j = Some jb → locked st = false ∨ (∃ n, st = JAttempt n) →
    bc_inv base (set_job s j jb st)) as Hquiet.
  { intros j jb st Hl Hst. apply bc_inv_job; [done..|]. intros n tx ->. by destruct Hst as [?|[? ?]]. }
  destruct Hstep as [i call w ws Hi|i call w ws Hi|j jb Hl Hst _|j jb n r Hl Hst _ _|j jb n r tx Hl Hst Hr Hc Htx
    |j jb n st Hl Hst Hst'|j jb Hl Hst|j jb n tx r ih landed st Hl Hst Hr Hst'|j jb e Hl Hst Hrun].
  - destruct Hinv as [Hr Hs Hj]. pose proof (Hs _ _ (list_elem_of_lookup_2 _ _ _ Hi)) as Hc. split; cbn; [done| |].
    + intros call' ws' Hin. apply list_elem_of_lookup in Hin as [k [(-> & [= <- <-] & _)|[_ Hk]]%list_lookup_insert_Some]; [done|].
      by eapply Hs, list_elem_of_lookup_2.
    + intros jb [Hin| ->%list_elem_of_singleton]%elem_of_app; [by apply Hj|done].
  - destruct Hinv as [Hr Hs Hj]. pose proof (Hs _ _ (list_elem_of_lookup_2 _ _ _ Hi)) as Hc. split; cbn; [done| |done].
    intros call' ws' Hin. apply list_elem_of_lookup in Hin as [k [(-> & [= <- <-] & _)|[_ Hk]]%list_lookup_insert_Some]; [done|].
    by eapply Hs, list_elem_of_lookup_2.
  - apply Hquiet; eauto.
  - apply Hquiet; eauto.
  - apply bc_inv_job; [done..|]. by intros n' tx' [= <- <-].
  - apply Hquiet; [done|]. destruct Hst' as [->| ->]; eauto.
  - apply Hquiet; eauto.
  - destruct (bi_jobs _ _ Hinv jb (list_elem_of_lookup_2 _ _ _ Hl)) as [Hc Htx].
    apply bc_inv_job; [|done|by destruct Hst' as [->|[->| ->]]]. apply bc_inv_registry; [done..|]. by eapply Hc, Htx.
  - destruct (Hquiet j jb JDone Hl ltac:(by left)) as [Hr Hs Hj]. by split.
Qed.

Lemma bc_inv_step base s ev s' : bc_inv base s → event_mainnet ev → bc_step s ev s' → bc_inv base s'.
Proof.
  intros Hinv Hev Hstep. destruct Hstep as [s' Hstep|m info|w ops id|w r ih sender tx Hl|]; cbn [event_mainnet] in Hev.
  - by eapply bc_inv_task.
  - destruct Hinv as [Hr Hs Hj]. split; cbn; [done| |done].
    intros call ws [Hin|[= -> ->]%list_elem_of_singleton]%elem_of_app; [by eapply Hs|done].
  - destruct Hinv as [Hr Hs Hj]. split; cbn; [done..|].
    intros jb [Hin| ->%list_elem_of_singleton]%elem_of_app; [by apply Hj|done].
  - by apply (bc_inv_registry base s w r ih sender tx true).
  - by destruct Hinv.
Qed.

Lemma bc_inv_run base s evs s' : bc_inv base s → Forall event_mainnet evs → bc_run s evs s' → bc_inv base s'.
Proof.
  intros Hinv Hevs Hrun. revert Hinv Hevs. induction Hrun as [|s ev s1 evs s' Hstep _ IH]; intros Hinv Hevs; [done|].
  apply Forall_cons in Hevs as [Hev Hevs]. apply IH; [|done]. by eapply bc_inv_step.
Qed.

Lemma registries_tracked registries evs s w r :
  (∀ w r, registries !! w = Some r → tracked r) → Forall event_mainnet evs →
  bc_run (new_broadcaster registries) evs s → bc_registries s !! w = Some r →
  tracked r ∧ ∃ r0, registries !! w = Some r0 ∧ reg_nextOperatorUpdateId r0 ≤ reg_nextOperatorUpdateId r.
Proof.
  intros Hinit Hevs Hrun Hl.
  assert (bc_inv registries (new_broadcaster registries)) as Hinv.
  { split; cbn; [|by intros ? ? ?%elem_of_nil|by intros ? ?%elem_of_nil].
    intros w' r' Hl'. split; [by eapply Hinit|]. exists r'. split; [done|lia]. }
  by eapply bi_registries, Hl; eapply bc_inv_run.
Qed.

(** C16: the rollups stay at sets of mainnet, whatever the interleaving.  Let the
    registries be new or at a set of mainnet when the broadcaster is created, and let no
    set of mainnet be empty once it has an update.  As long as the aggregator initializes only
    with sets of mainnet, quorums of mainnet's operators sign only mainnet's updates and
    the owner of the registries does not intervene (by forcing a set, or changing the
    aggregator or the threshold), along any interleaving of broadcasts, initializations,
    the goroutines with their retries and lost answers, and other transactions, every
    registry is new or holds exactly the operators, aggregate key and total weight mainnet
    had at the id the registry expects, and that id never decreases. *)
Theorem rollups_track_mainnet registries evs s w r :
  (∀ w r, registries !! w = Some r → tracked r) → Forall event_mainnet evs →
  bc_run (new_broadcaster registries) evs s → bc_registries s !! w = Some r →
  tracked r ∧ ∃ r0, registries !! w = Some r0 ∧ reg_nextOperatorUpdateId r0 ≤ reg_nextOperatorUpdateId r.
Proof. apply registries_tracked. Qed.

End Tracking.

(** *** With the sets of mainnet's update registry *)

Section Contract.
Context `{B : BlsOps} `{H : HashOps} `{A : AbiOps} {AL : AbiLaws A} {N : Bn254Ops} {NL : Bn254Laws N}.

(** The set after the updates recorded so far, at most [i]. *)
Definition contract_sets (mn : Mainnet) (i : Z) : list RegistryOperator :=
  set_after mn (Z.to_nat i `min` length (ur_operatorSetUpdateIdToBlockNumber (mn_updates mn))).

(** What the Go reader gets from the contract. *)
Definition contract_answer (mn : Mainnet) (i : Z) : go OperatorSetUpdate :=
  match getOperatorSetUpdate (mn_registries mn) i (mn_updates mn) with
  | Ok update => Ok update
  | _ => Err (ExternalError "execution reverted")
  end.

(** The delta an operator computes from the contract's answer is one of mainnet's. *)
Lemma contract_answer_delta mn i pdqsort order delta :
  (∀ less l, pdqsort less l ≡ₚ l) → (∀ m, order m ≡ₚ map_to_list m) → 0 ≤ i →
  GetOperatorSetUpdateDelta pdqsort order (contract_answer mn i) = Ok delta →
  mainnet_delta (contract_sets mn) i delta.
Proof.
  intros Hp Ho Hi Hd. exists pdqsort, order. split_and!; [done..|].
  set (count := length (ur_operatorSetUpdateIdToBlockNumber (mn_updates mn))).
  rewrite <- (Z2Nat.id i Hi) in Hd. unfold contract_answer in Hd.
  destruct (decide (Z.to_nat i < count)%nat) as [Hlt|Hge].
  - rewrite getOperatorSetUpdate_ok in Hd by done. rewrite <- Hd. unfold contract_sets. fold count.
    rewrite Z2Nat.inj_add, Nat.add_1_r, !Nat.min_l by lia. done.
  - unfold getOperatorSetUpdate in Hd. rewrite (block_of_lookup _ (Z.to_nat i)), lookup_ge_None_2 in Hd by (unfold count in *; lia).
    exfalso. by destruct (if 0 <? _ then _ else _).
Qed.

(** From the coordinator to the rollups: if quorums sign only the deltas of mainnet's
    update registry, every rollup is new or holds a set the coordinator recorded. *)
Theorem rollups_track_contract mn (address : Address) writers K threshold registries evs s w r :
  (∀ p, K p → g1_valid p = true) → (∀ p, K p → coordinates_ok p) →
  (∀ p q, K p → K q → hashG1Point p = hashG1Point q → p = q) →
  (∀ i, set_ok K (contract_sets mn i)) → (∀ i, 0 < i → contract_sets mn i ≠ []) →
  (∀ w r, registries !! w = Some r → tracked address K (contract_sets mn) threshold r) →
  Forall (event_mainnet address K (contract_sets mn) threshold) evs →
  bc_run address writers (new_broadcaster registries) evs s → bc_registries s !! w = Some r →
  tracked address K (contract_sets mn) threshold r.
Proof.
  intros Hv Hc Hinj Hok Hlive Hinit Hevs Hrun Hl.
  by destruct (registries_tracked address writers K Hv Hc Hinj (contract_sets mn) Hok Hlive threshold registries evs s w r).
Qed.

End Contract.

(** ** Goroutines return *)

Lemma sum_list_insert {X} (f : X → nat) (l : list X) i x y :
  l !! i = Some x → (sum_list_with f (<[i := y]> l) + f x = sum_list_with f l + f y)%nat.
Proof.
  revert i; induction l as [|z l IH]; intros [|i] Hl; [done..|injection Hl as ->; simpl; lia|].
  specialize (IH i Hl). simpl. lia.
Qed.

Section Settling.
Context `{B : BlsOps} `{H : HashOps} `{A : AbiOps} {N : Bn254Ops} (address : Address) (writers : list RollupId).

#[local] Notation task_step := (task_step address).
#[local] Notation bc_step := (bc_step address writers).
#[local] Notation bc_run := (bc_run address writers).

(** The steps a goroutine has left at most. *)
Definition job_work (jb : Job) : nat :=
  match jb_state jb with
  | JWaiting => 13
  | JAttempt n => 2 * n + 2
  | JSending n _ => 2 * n + 3
  | JReporting _ => 1
  | JDone => 0
  end.

Definition work (s : Broadcaster) : nat :=
  (sum_list_with (λ sp : Call * list RollupId, 14 * length sp.2)%nat (bc_spawners s) + sum_list_with job_work (bc_jobs s))%nat.

(** Every goroutine has returned. *)
Definition settled (s : Broadcaster) : Prop :=
  Forall (λ sp : Call * list RollupId, sp.2 = []) (bc_spawners s) ∧ Forall (λ jb, jb_state jb = JDone) (bc_jobs s).

Lemma set_job_work s j jb st :
  bc_jobs s !! j = Some jb → (job_work (mkJob (jb_rollup jb) (jb_call jb) st) < job_work jb)%nat →
  (work (set_job s j jb st) < work s)%nat.
Proof. intros Hl Hlt. unfold work. cbn. pose proof (sum_list_insert job_work _ _ _ (mkJob (jb_rollup jb) (jb_call jb) st) Hl). lia. Qed.

Lemma task_decreases s s' : task_step s s' → (work s' < work s)%nat.
Proof.
  destruct 1 as [i call w ws Hi|i call w ws Hi|j jb Hl Hst _|j jb n r Hl Hst _ _|j jb n r tx Hl Hst Hr Hc Htx
    |j jb n st Hl Hst Hst'|j jb Hl Hst|j jb n tx r ih landed st Hl Hst Hr Hst'|j jb e Hl Hst Hrun].
  - unfold work. cbn [bc_spawners bc_jobs]. rewrite sum_list_with_app.
    pose proof (sum_list_insert (λ sp : Call * list RollupId, 14 * length sp.2)%nat _ _ _ (call, ws) Hi) as Hsum.
    cbn [snd length] in Hsum. cbn [sum_list_with job_work jb_state]. lia.
  - unfold work. cbn [bc_spawners bc_jobs].
    pose proof (sum_list_insert (λ sp : Call * list RollupId, 14 * length sp.2)%nat _ _ _ (call, []) Hi) as Hsum.
    cbn [snd length] in Hsum. lia.
  - apply set_job_work; [done|]. unfold job_work. cbn [jb_state]. rewrite Hst. destruct (jb_call jb); cbn; lia.
  - apply set_job_work; [done|]. unfold job_work. cbn [jb_state]. rewrite Hst. lia.
  - apply set_job_work; [done|]. unfold job_work. cbn [jb_state]. rewrite Hst. lia.
  - apply set_job_work; [done|]. unfold job_work. cbn [jb_state]. rewrite Hst. destruct Hst' as [->| ->]; lia.
  - apply set_job_work; [done|]. unfold job_work. cbn [jb_state]. rewrite Hst. lia.
  - apply (set_job_work (set_registry s _ _)); [done|]. unfold job_work. cbn [jb_state]. rewrite Hst.
    destruct Hst' as [->|[->| ->]]; lia.
  - apply (set_job_work s j jb JDone); [done|]. unfold job_work. cbn [jb_state]. rewrite Hst. lia.
Qed.

Lemma task_steps_bounded n s s' : nsteps task_step n s s' → (n + work s' ≤ work s)%nat.
Proof. induction 1 as [s|n s s1 s' Hstep _ IH]; [done|]. apply task_decreases in Hstep. lia. Qed.

(** Every goroutine works for a writer with a registry, on a message that can be
    encoded. *)
Definition call_ok (call : Call) : Prop := is_ok (tx_of call) = true.

Record bc_alive (s : Broadcaster) : Prop := {
  al_writers w : w ∈ writers → is_Some (bc_registries s !! w);
  al_spawners call ws : (call, ws) ∈ bc_spawners s → call_ok call ∧ ∀ w, w ∈ ws → w ∈ writers;
  al_jobs jb : jb ∈ bc_jobs s → call_ok (jb_call jb) ∧ jb_rollup jb ∈ writers;
}.

Lemma alive_set_job s j jb st : bc_alive s → bc_jobs s !! j = Some jb → bc_alive (set_job s j jb st).
Proof.
  intros [Hw Hs Hj] Hl. split; cbn; [done..|]. intros jb' Hin.
  apply list_elem_of_lookup in Hin as [k [(-> & <- & _)|[_ Hk]]%list_lookup_insert_Some]; [apply (Hj jb)|apply Hj];
    by eapply list_elem_of_lookup_2.
Qed.

Lemma alive_set_registry s w r : bc_alive s → bc_alive (set_registry s w r).
Proof. intros [Hw Hs Hj]. split; cbn; [|done..]. intros w' Hw'. apply lookup_insert_is_Some'. right. by apply Hw. Qed.

Lemma alive_task s s' : bc_alive s → task_step s s' → bc_alive s'.
Proof.
  intros Hal Hstep. destruct Hstep as [i call w ws Hi|i call w ws Hi|j jb Hl Hst _|j jb n r Hl Hst _ _|j jb n r tx Hl Hst Hr Hc Htx
    |j jb n st Hl Hst Hst'|j jb Hl Hst|j jb n tx r ih landed st Hl Hst Hr Hst'|j jb e Hl Hst Hrun]; try by apply alive_set_job.
  - destruct Hal as [Hw Hs Hj]. destruct (Hs _ _ (list_elem_of_lookup_2 _ _ _ Hi)) as [Hc Hws]. split; cbn; [done| |].
    + intros call' ws' Hin. apply list_elem_of_lookup in Hin as [k [(-> & [= <- <-] & _)|[_ Hk]]%list_lookup_insert_Some].
      * split; [done|]. intros w' Hw'. apply Hws. by right.
      * by eapply Hs, list_elem_of_lookup_2.
    + intros jb [Hin| ->%list_elem_of_singleton]%elem_of_app; [by apply Hj|]. split; [done|]. apply Hws. by left.
  - destruct Hal as [Hw Hs Hj]. destruct (Hs _ _ (list_elem_of_lookup_2 _ _ _ Hi)) as [Hc Hws]. split; cbn; [done| |done].
    intros call' ws' Hin. apply list_elem_of_lookup in Hin as [k [(-> & [= <- <-] & _)|[_ Hk]]%list_lookup_insert_Some].
    + split; [done|]. by intros w' ?%elem_of_nil.
    + by eapply Hs, list_elem_of_lookup_2.
  - by apply (alive_set_job (set_registry s _ _)), Hl; apply alive_set_registry.
  - by destruct (alive_set_job s j jb JDone Hal Hl).
Qed.

Lemma alive_step s ev s' : bc_alive s → bc_step s ev s' → bc_alive s'.
Proof.
  intros Hal Hstep. destruct Hstep as [s' Hstep|m info Hrun Hm|w ops id Hw|w r ih sender tx Hl|].
  - by eapply alive_task.
  - destruct Hal as [Hw Hs Hj]. split; cbn; [done| |done].
    intros call ws [Hin|[= -> ->]%list_elem_of_singleton]%elem_of_app; [by eapply Hs|]. split; [|done].
    unfold call_ok. cbn. by destruct (osu_ToBinding m).
  - destruct Hal as [Hw' Hs Hj]. split; cbn; [done..|]. intros jb [Hin| ->%list_elem_of_singleton]%elem_of_app; [by apply Hj|done].
  - by apply alive_set_registry.
  - by destruct Hal.
Qed.

Lemma alive_run s evs s' : bc_alive s → bc_run s evs s' → bc_alive s'.
Proof. intros Hal Hrun. induction Hrun as [|s ev s1 evs s' Hstep _ IH]; [done|]. apply IH. by eapply alive_step. Qed.

Lemma running_tasks s s' : rtc task_step s s' → bc_running s' = bc_running s.
Proof. induction 1 as [|s s1 s' Hstep _ IH]; [done|]. rewrite IH. by destruct Hstep. Qed.

(** A goroutine that holds a lock or has an error to send can go on. *)
Definition active (st : JobState) : bool :=
  match st with JAttempt _ | JSending _ _ | JReporting _ => true | JWaiting | JDone => false end.

Lemma active_progress s j jb :
  bc_alive s → bc_running s = true → bc_jobs s !! j = Some jb → active (jb_state jb) = true → ∃ s', task_step s s'.
Proof.
  intros [Hw _ Hj] Hrun Hl Hact. destruct (Hj jb (list_elem_of_lookup_2 _ _ _ Hl)) as [_ Hmem].
  destruct (Hw _ Hmem) as [r Hr]. destruct (jb_state jb) as [|[|n]|n tx|e|] eqn:Hst; [done| | | | |done].
  - eexists. by eapply ts_exhausted.
  - eexists. eapply ts_attempt_fails; [done..|by left].
  - eexists. eapply (ts_send _ _ _ _ _ _ _ (mkInherited 0 (λ _, false)) false); [done..|by left].
  - eexists. by eapply ts_report.
Qed.

Lemma Forall_not_Exists {X} (P Q : X → Prop) `{∀ x, Decision (P x)} (l : list X) :
  ¬ Exists P l → (∀ x, ¬ P x → Q x) → Forall Q l.
Proof. intros Hn HQ. apply not_Exists_Forall in Hn; [|apply _]. by eapply Forall_impl. Qed.

Lemma task_progress s : bc_alive s → bc_running s = true → settled s ∨ ∃ s', task_step s s'.
Proof.
  intros Hal Hrun. destruct (decide (Exists (λ sp : Call * list RollupId, sp.2 ≠ []) (bc_spawners s))) as [Hsp|Hsp].
  { apply Exists_exists in Hsp as ([call [|w ws]] & [i Hi]%list_elem_of_lookup & Hne); [done|]. right. eexists. by eapply ts_spawn. }
  destruct (decide (Exists (λ jb, active (jb_state jb) = true) (bc_jobs s))) as [Ha|Ha].
  { apply Exists_exists in Ha as (jb & [j Hj]%list_elem_of_lookup & Hact). right. by eapply active_progress. }
  assert (Forall (λ jb, locked (jb_state jb) = false) (bc_jobs s)) as Hfree.
  { apply (Forall_not_Exists (λ jb, active (jb_state jb) = true)); [apply _|done|]. intros jb. by destruct (jb_state jb). }
  destruct (decide (Exists (λ jb, job_work jb = 13%nat) (bc_jobs s))) as [Hw|Hw].
  { apply Exists_exists in Hw as (jb & [j Hj]%list_elem_of_lookup & Hwork). right. eexists. eapply ts_lock; [done| |].
    - assert (¬ active (jb_state jb) = true) as Hna.
      { intros Hact. apply Ha, Exists_exists. exists jb. split; [by eapply list_elem_of_lookup_2|done]. }
      unfold job_work in Hwork. by destruct (jb_state jb).
    - intros k jb' Hk _. by eapply (Forall_lookup_1 _ _ _ _ Hfree). }
  left. split; [apply (Forall_not_Exists (λ sp : Call * list RollupId, sp.2 ≠ [])); [apply _|done|]; intros [? []]; naive_solver|].
  apply Forall_forall. intros jb Hin.
  assert (active (jb_state jb) ≠ true ∧ job_work jb ≠ 13%nat) as [Hna Hnw].
  { split; intros Hx; [apply Ha|apply Hw]; apply Exists_exists; by exists jb. }
  unfold job_work in Hnw. by destruct (jb_state jb).
Qed.

(** C31: broadcasts settle.  From every state the broadcaster reaches, for any
    transactions of others, the goroutines take a bounded number of steps, and while the
    aggregator's loop runs they only stop when all of them have returned: no call waits
    for a lock for ever, and no error is left on the channel. *)
Theorem broadcasts_settle registries evs s :
  (∀ w, w ∈ writers → is_Some (registries !! w)) → bc_run (new_broadcaster registries) evs s → bc_running s = true →
  (∀ n s', nsteps task_step n s s' → (n ≤ work s)%nat) ∧
  (∀ s', rtc task_step s s' → (∀ s'', ¬ task_step s' s'') → settled s').
Proof.
  intros Hw Hrun Hs. assert (bc_alive s) as Hal.
  { eapply alive_run, Hrun. split; cbn; [done|by intros ? ? ?%elem_of_nil|by intros ? ?%elem_of_nil]. }
  split; [intros n s' Hn; apply task_steps_bounded in Hn; lia|]. intros s' Hsteps Hstop.
  rewrite <- (running_tasks _ _ Hsteps) in Hs. assert (bc_alive s') as Hal'.
  { clear Hstop Hs Hrun. induction Hsteps as [|s s1 s' Hstep _ IH]; [done|]. by eapply IH, alive_task. }
  destruct (task_progress s' Hal' Hs) as [?|[s'' Hstep]]; [done|]. by destruct (Hstop s'').
Qed.

(** After the loop has ended nobody reads the channel: the goroutine of a call that
    failed never returns. *)
Theorem errors_leak s evs s' j jb e :
  bc_run s evs s' → bc_running s = false → bc_jobs s !! j = Some jb → jb_state jb = JReporting e →
  bc_jobs s' !! j = Some jb.
Proof.
  intros Hrun. induction Hrun as [|s ev s1 evs s' Hstep _ IH]; intros Hs Hl Hst; [done|].
  assert (∀ k jb' st, bc_jobs s !! k = Some jb' → jb_state jb' ≠ JReporting e → <[k := mkJob (jb_rollup jb') (jb_call jb') st]> (bc_jobs s) !! j = Some jb) as Hne.
  { intros k jb' st Hk Hn. rewrite list_lookup_insert_ne; [done|]. intros ->. rewrite Hl in Hk. injection Hk as <-. done. }
  assert (bc_running s1 = false ∧ bc_jobs s1 !! j = Some jb) as [? ?]; [|by apply IH]. clear IH.
  destruct Hstep as [s1 Hstep|m info Hrun|w ops id Hw|w r ih sender tx Hr|]; cbn; [|congruence|split; [done|by apply lookup_app_l_Some]|done..].
  destruct Hstep as [i call w ws Hi|i call w ws Hi|k jb' Hk Hst' _|k jb' n r Hk Hst' _ _|k jb' n r tx Hk Hst' _ _ _
    |k jb' n st Hk Hst' _|k jb' Hk Hst'|k jb' n tx r ih landed st Hk Hst' _ _|k jb' e' Hk Hst' Hrun]; cbn;
    try (split; [done|]); try (apply Hne; [done|by rewrite Hst']); try done; [by apply lookup_app_l_Some|congruence].
Qed.

(** Broadcasting updates in order is not enough: their goroutines race for the lock of
    the writer.  If the second one gets it first, it finds the wrong id and returns without
    an error; the first update is then executed, every goroutine has returned, no error
    was reported, and the registry waits for the second update. *)
Theorem updates_race w m1 m2 info1 info2 b1 b2 r r' ih :
  writers = [w] → osu_ToBinding m1 = Ok b1 → osu_ToBinding m2 = Ok b2 → osu_Id m2 = osu_Id m1 + 1 →
  accept_tx ih address r (TxUpdateOperatorSet b1 info1) = Ok r' →
  ∃ s, bc_run (new_broadcaster {[w := r]}) ([BeBroadcast m1 info1; BeBroadcast m2 info2] ++ replicate 7 BeTask) s ∧
    settled s ∧ bc_errors s = [] ∧ bc_registries s = {[w := r']} ∧ reg_nextOperatorUpdateId r' = osu_Id m2.
Proof.
  intros Hw Hb1 Hb2 Hid Hacc. destruct (accept_update_next _ _ _ _ _ _ Hacc) as [Hn Hn'].
  rewrite (osu_ToBinding_Id _ _ Hb1) in Hn, Hn'.
  eexists. split.
  { cbn [app replicate]. eapply br_cons; [by apply bs_broadcast; [done|rewrite Hb1]|].
    eapply br_cons; [by apply bs_broadcast; [done|rewrite Hb2]|]. cbn. rewrite Hw.
    eapply br_cons; [apply bs_task, (ts_spawn _ _ 0); done|]. eapply br_cons; [apply bs_task, (ts_spawn _ _ 1); done|].
    eapply br_cons; [apply bs_task, (ts_lock _ _ 1); [done..|]; intros [|[|k]] jb [= <-] _; done|].
    eapply br_cons; [eapply bs_task, (ts_skip _ _ 1); [done|done|apply lookup_singleton_eq|cbn; by apply bool_decide_eq_false; lia]|].
    eapply br_cons; [apply bs_task, (ts_lock _ _ 0); [done..|]; intros [|[|k]] jb [= <-] _; done|].
    eapply br_cons; [eapply bs_task, (ts_assemble _ _ 0); [done|done|apply lookup_singleton_eq|cbn; by apply bool_decide_eq_true|cbn; by rewrite Hb1]|].
    eapply br_cons; [eapply bs_task, (ts_send _ _ 0 _ _ _ _ ih true JDone); [done|done|apply lookup_singleton_eq|by left]|]. apply br_nil. }
  cbn. unfold execute_tx. rewrite Hacc. cbn. split_and!; [by repeat constructor|done|by rewrite insert_singleton_eq|lia].
Qed.

(** *** The calls of the sequential model *)

Lemma bc_run_app s evs1 s1 evs2 s2 : bc_run s evs1 s1 → bc_run s1 evs2 s2 → bc_run s (evs1 ++ evs2) s2.
Proof. induction 1 as [|s ev s0 evs s1 Hstep _ IH]; intros H2; cbn; [done|]. econstructor; [done|]. by apply IH. Qed.

(** Job [j] is in state [st] and the registry of rollup [w] is [r]; nothing else changed. *)
Definition moved (s : Broadcaster) (j : nat) (w : RollupId) (call : Call) (r : Registry) (st : JobState) : Broadcaster :=
  set_job (set_registry s w r) j (mkJob w call st) st.

Lemma moved_set_job s j w call r st st' : set_job (moved s j w call r st) j (mkJob w call st) st' = moved s j w call r st'.
Proof. unfold moved, set_job. cbn. by rewrite list_insert_insert_eq. Qed.

Lemma moved_set_registry s j w call r st r' : set_registry (moved s j w call r st) w r' = moved s j w call r' st.
Proof. unfold moved, set_job, set_registry. cbn. by rewrite insert_insert_eq. Qed.

Lemma moved_job s j w call r st jb : bc_jobs s !! j = Some jb → bc_jobs (moved s j w call r st) !! j = Some (mkJob w call st).
Proof. intros Hl. cbn. apply list_lookup_insert_eq. by eapply lookup_lt_Some. Qed.

Lemma moved_registry s j w call r st : bc_registries (moved s j w call r st) !! w = Some r.
Proof. cbn. apply lookup_insert_eq. Qed.

Lemma others_simulated s j w call st jb txs : ∀ r, bc_jobs s !! j = Some jb →
  ∃ evs, bc_run (moved s j w call r st) evs (moved s j w call (foldl (λ r t, execute_tx t.1.1 t.1.2 r t.2) r txs) st).
Proof.
  induction txs as [|[[ih sender] tx] txs IH]; intros r Hl; [exists []; constructor|].
  destruct (IH (execute_tx ih sender r tx) Hl) as [evs Hrun]. exists (BeTx w ih sender tx :: evs).
  econstructor; [apply bs_tx, moved_registry|]. by rewrite moved_set_registry.
Qed.

(** One attempt: it ends the call, or leaves [n] attempts. *)
Lemma attempt_simulated s j w m info b n a c c' res st jb :
  bc_jobs s !! j = Some jb → osu_ToBinding m = Ok b → update_operation address m info a c = (c', res) →
  match res with Ok _ => st = JDone | Err _ => st = JAttempt n ∨ st = JReporting ContextCanceled | Panic => False end →
  ∃ evs, bc_run (moved s j w (CallUpdate m info) (ch_registry c) (JAttempt (S n))) evs
    (moved s j w (CallUpdate m info) (ch_registry c') st).
Proof.
  intros Hl Hb Hop Hst. set (call := CallUpdate m info). set (s1 := moved s j w call (ch_registry c) (JAttempt (S n))).
  pose proof (moved_job s j w call (ch_registry c) (JAttempt (S n)) jb Hl) as Hl1.
  pose proof (moved_registry s j w call (ch_registry c) (JAttempt (S n))) as Hr1.
  assert (∀ st', st' = JAttempt n ∨ st' = JReporting ContextCanceled → ∃ evs, bc_run s1 evs (moved s j w call (ch_registry c) st')) as Hfail.
  { intros st' Hst'. exists [BeTask]. eapply br_cons; [|apply br_nil].
    rewrite <- (moved_set_job s j w call (ch_registry c) (JAttempt (S n))). by eapply bs_task, ts_attempt_fails. }
  unfold update_operation in Hop. rewrite Hb in Hop.
  destruct (ap_GetNoSendTxOpts a); [|injection Hop as <- <-; by apply Hfail|by injection Hop as <- <-].
  destruct (ap_NextOperatorUpdateId a); [|injection Hop as <- <-; by apply Hfail|by injection Hop as <- <-].
  case_bool_decide as Hid; cbn [negb] in Hop.
  2:{ injection Hop as <- <-. subst st. exists [BeTask]. eapply br_cons; [|apply br_nil].
      rewrite <- (moved_set_job s j w call (ch_registry c) (JAttempt (S n))).
      eapply bs_task, ts_skip; [done..|]. cbn. by apply bool_decide_eq_false. }
  destruct (ap_assemble a); [|injection Hop as <- <-; by apply Hfail|by injection Hop as <- <-].
  injection Hop as <- <-. exists [BeTask; BeTask]. set (tx := TxUpdateOperatorSet b info).
  eapply (br_cons _ _ _ _ (moved s j w call (ch_registry c) (JSending n tx))); [|eapply br_cons; [|apply br_nil]].
  - rewrite <- (moved_set_job s j w call (ch_registry c) (JAttempt (S n))).
    eapply bs_task, ts_assemble; [done..| |cbn; by rewrite Hb]. cbn. by apply bool_decide_eq_true.
  - pose proof (ts_send address (moved s j w call (ch_registry c) (JSending n tx)) j (mkJob w call (JSending n tx)) n tx
      (ch_registry c) (ap_inherited a) (ap_landed a) st) as Hsend. cbn [jb_rollup] in Hsend.
    rewrite moved_set_registry, moved_set_job in Hsend. apply bs_task, Hsend; [by eapply moved_job|done|apply moved_registry|].
    destruct (ap_Send a); [by left|by right|done].
Qed.

Definition returned (res : go unit) : JobState :=
  match res with Ok _ => JDone | Err e => JReporting e | Panic => JWaiting end.

Lemma retry_simulated s j w m info b jb n : ∀ script c c' res,
  bc_jobs s !! j = Some jb → osu_ToBinding m = Ok b → res ≠ Panic →
  retry (update_operation address m info) (failed (CallUpdate m info)) n script c = (c', res) →
  ∃ evs, bc_run (moved s j w (CallUpdate m info) (ch_registry c) (JAttempt n)) evs
    (moved s j w (CallUpdate m info) (ch_registry c') (returned res)).
Proof.
  set (call := CallUpdate m info). induction n as [|n IH]; intros script c c' res Hl Hb Hres Hret; cbn [retry] in Hret.
  { injection Hret as <- <-. exists [BeTask]. eapply br_cons; [|apply br_nil].
    change (returned _) with (JReporting (failed call)).
    rewrite <- (moved_set_job s j w call (ch_registry c) (JAttempt 0) (JReporting (failed call))).
    eapply bs_task, (ts_exhausted _ _ _ (mkJob w call (JAttempt 0))); [by eapply moved_job|done]. }
  destruct (others_simulated s j w call (JAttempt (S n)) jb (ap_others (script 0%nat)) (ch_registry c) Hl) as [evs0 Hrun0].
  destruct (update_operation _ _ _ _ _) as [c1 r1] eqn:Hop.
  pose proof (λ st, attempt_simulated s j w m info b n _ _ _ _ st jb Hl Hb Hop) as Hatt. fold call in Hatt.
  unfold other_txs in Hatt. cbn [ch_registry] in Hatt.
  destruct r1 as [u|e|]; [injection Hret as <- <-| |injection Hret as <- <-; done].
  { destruct (Hatt JDone eq_refl) as [evs1 Hrun1]. exists (evs0 ++ evs1). by eapply bc_run_app. }
  destruct (ap_ctxDone (script 0%nat)).
  { injection Hret as <- <-. destruct (Hatt (JReporting ContextCanceled) ltac:(by right)) as [evs1 Hrun1].
    exists (evs0 ++ evs1). by eapply bc_run_app. }
  destruct (Hatt (JAttempt n) ltac:(by left)) as [evs1 Hrun1].
  destruct (IH _ _ _ _ Hl Hb Hres Hret) as [evs2 Hrun2]. exists (evs0 ++ evs1 ++ evs2).
  eapply bc_run_app; [done|]. by eapply bc_run_app.
Qed.

(** The sequential model of a call is one of its schedules.  Whatever script of
    answers and transactions of others a call of [UpdateOperatorSet] gets, the broadcaster
    in which its goroutine waits for a free lock has a run that makes the same
    transactions: the registry ends as the call leaves it, and the goroutine returns, or
    sends the error the call returns. *)
Theorem update_call_simulated s j w m info b script c c' res :
  bc_jobs s !! j = Some (mkJob w (CallUpdate m info) JWaiting) →
  (∀ k jb, bc_jobs s !! k = Some jb → jb_rollup jb = w → locked (jb_state jb) = false) →
  bc_registries s !! w = Some (ch_registry c) → osu_ToBinding m = Ok b → res ≠ Panic →
  UpdateOperatorSet address script m info c = (c', res) →
  ∃ evs s', bc_run s evs s' ∧ bc_registries s' = <[w := ch_registry c']> (bc_registries s) ∧
    bc_jobs s' = <[j := mkJob w (CallUpdate m info) (returned res)]> (bc_jobs s) ∧ bc_errors s' = bc_errors s.
Proof.
  intros Hl Hfree Hr Hb Hres Hcall.
  destruct (retry_simulated s j w m info b _ UPDATE_OPERATOR_SET_RETRIES _ _ _ _ Hl Hb Hres Hcall) as [evs Hrun].
  exists (BeTask :: evs), (moved s j w (CallUpdate m info) (ch_registry c') (returned res)). split; [|done].
  eapply br_cons; [|exact Hrun]. pose proof (bs_task address writers _ _ (ts_lock address s j _ Hl eq_refl Hfree)) as Hlock.
  unfold moved, set_registry. rewrite insert_id by done. exact Hlock.
Qed.

End Settling.

Module Examples.

#[local] Existing Instances ToyBls.ops ToyHash.ops ToyAbi.ops ToyBn254.ops.
#[local] Existing Instances ToyBls.bls_laws ToyHash.hash_laws ToyAbi.abi_laws ToyBn254.laws.
Import Rollups.Examples.

#[local] Notation small_key := RegistryContractTheory.Examples.small_key.
#[local] Notation small_valid := RegistryContractTheory.Examples.small_valid.
#[local] Notation small_inj := RegistryContractTheory.Examples.small_inj.

(** Mainnet's fourth update replaces [set0] by [set1]; the fifth changes nothing. *)
Definition mainnet (i : Z) : list RegistryOperator := if bool_decide (i <= 4) then set0 else set1.
Definition m4 : OperatorSetUpdateMessage := message 4 delta01.
Definition m5 : OperatorSetUpdateMessage := message 5 [].
Definition info4 : RollupOperatorsSignatureInfo := signed_by 3 (binding 4 delta01).
Definition after4 : Registry :=
  res_or fresh (accept_tx nothing_paused 7 (ch_registry chain0) (TxUpdateOperatorSet (binding 4 delta01) info4)).

Lemma mainnet_ok i : set_ok small_key (mainnet i).
Proof. unfold mainnet. case_bool_decide; [exact set0_ok|exact set1_ok]. Qed.
Lemma mainnet_live i : 0 < i → mainnet i ≠ [].
Proof. unfold mainnet. by case_bool_decide. Qed.

Lemma m4_binding : osu_ToBinding m4 = Ok (binding 4 delta01).
Proof. vm_compute. reflexivity. Qed.
Lemma m5_binding : osu_ToBinding m5 = Ok (binding 5 []).
Proof. vm_compute. reflexivity. Qed.

Lemma m4_mainnet : call_mainnet 7 small_key mainnet 66 (CallUpdate m4 info4).
Proof.
  intros ih tx. unfold tx_of. rewrite m4_binding. intros [= <-] os d _ _ _ _. exists delta01. split; [vm_compute; reflexivity|].
  exists keep, map_to_list. split_and!; [done..|]. vm_compute. reflexivity.
Qed.
Lemma m5_mainnet info : call_mainnet 7 small_key mainnet 66 (CallUpdate m5 info).
Proof.
  intros ih tx. unfold tx_of. rewrite m5_binding. intros [= <-] os d _ _ _ _. exists []. split; [vm_compute; reflexivity|].
  exists keep, map_to_list. split_and!; [done..|]. vm_compute. reflexivity.
Qed.

Lemma accepted4 : accept_tx nothing_paused 7 (ch_registry chain0) (TxUpdateOperatorSet (binding 4 delta01) info4) = Ok after4.
Proof. apply res_or_ok. vm_compute. reflexivity. Qed.

Lemma chain0_tracked : tracked 7 small_key mainnet 66 (ch_registry chain0).
Proof. destruct chain0_holds as [HR Ht Hn]. split; [vm_compute; reflexivity|done|rewrite Hn; lia|left]. rewrite Hn. exact HR. Qed.

Lemma rollups_track_mainnet_witness : tracked 7 small_key mainnet 66 after4 ∧ reg_nextOperatorUpdateId after4 = 5.
Proof.
  destruct (updates_race 7 [3] 3 m4 m5 info4 info4 (binding 4 delta01) (binding 5 []) (ch_registry chain0) after4 nothing_paused
    eq_refl m4_binding m5_binding eq_refl accepted4) as (s & Hrun & _ & _ & Hr & Hn). split; [|exact Hn].
  apply (rollups_track_mainnet 7 [3] small_key small_valid small_coordinates small_inj mainnet mainnet_ok mainnet_live 66
    {[3 := ch_registry chain0]} ([BeBroadcast m4 info4; BeBroadcast m5 info4] ++ replicate 7 BeTask) s 3 after4).
  - intros w r [<- <-]%lookup_singleton_Some. exact chain0_tracked.
  - apply Forall_cons_2; [exact m4_mainnet|]. apply Forall_cons_2; [exact (m5_mainnet info4)|].
    repeat (apply Forall_cons_2; [exact I|]). constructor.
  - exact Hrun.
  - rewrite Hr. apply lookup_singleton_eq.
Defined.

Definition waiting : Broadcaster :=
  mkBroadcaster {[3 := ch_registry chain0]} [(CallUpdate m4 info4, [])] [mkJob 3 (CallUpdate m4 info4) JWaiting] [] true.

Lemma waiting_reached : bc_run 7 [3] (new_broadcaster {[3 := ch_registry chain0]}) [BeBroadcast m4 info4; BeTask] waiting.
Proof.
  eapply br_cons; [apply bs_broadcast; [done|by rewrite m4_binding]|]. eapply br_cons; [|apply br_nil].
  apply bs_task. refine (ts_spawn 7 _ 0 (CallUpdate m4 info4) 3 [] _). done.
Qed.

Lemma broadcasts_settle_witness :
  (∀ n s', nsteps (task_step 7) n waiting s' → (n ≤ 13)%nat) ∧
  (∀ s', rtc (task_step 7) waiting s' → (∀ s'', ¬ task_step 7 s' s'') → settled s').
Proof.
  apply (broadcasts_settle 7 [3] {[3 := ch_registry chain0]} [BeBroadcast m4 info4; BeTask] waiting).
  - intros w ->%list_elem_of_singleton. by eexists.
  - exact waiting_reached.
  - reflexivity.
Defined.

Lemma update_call_simulated_witness :
  ∃ evs s', bc_run 7 [3] waiting evs s' ∧ bc_registries s' = <[3 := after4]> {[3 := ch_registry chain0]} ∧
    bc_jobs s' = [mkJob 3 (CallUpdate m4 info4) JDone] ∧ bc_errors s' = [].
Proof.
  apply (update_call_simulated 7 [3] waiting 0 3 m4 info4 (binding 4 delta01) (λ _, fine) chain0
    (mkChain after4 [TxUpdateOperatorSet (binding 4 delta01) info4]) (Ok tt)).
  - reflexivity.
  - intros [|k] jb Hk _; [by injection Hk as <-|done].
  - reflexivity.
  - reflexivity.
  - done.
  - apply (healthy_update 7 (λ _, fine) m4 info4 (binding 4 delta01) chain0 after4 fine_healthy m4_binding accepted4).
Defined.

End Examples.
