(* ===== verification/Consumer.v ===== *)
(** * The message queue consumer: operator/consumer/consumer.go and queues_listener.go

    A [QueuesListener] goroutine decodes the deliveries of one rollup's queue and passes
    the blocks on; the consumer's [reconnect] goroutine keeps a connection and a channel
    to the broker open.  The decoders of borsh-go and go-ethereum's RLP are the
    operations [DecodeOps]; the broker's answers and the errors the amqp091 library
    reports on its close channels are events.  As that library documents, a close
    channel gets at most one error and is then closed, so that a later receive from it
    yields nil. *)

From Stdlib Require Import Ascii.
From S2P Require Import Prelude CoreTypes Messages Attestor.

(** ** Deliveries *)

Record Namespace := mkNamespace { ns_Version : Z; ns_Id : Z }.

Record Blob := mkBlob {
  bl_Namespace : Namespace;
  bl_ShareVersion : Z;
  bl_Commitment : bytes;
  bl_Data : bytes }.

Record SubmitRequest := mkSubmitRequest { sr_Blobs : list Blob }.

Record PublishPayload := mkPublishPayload {
  pp_TransactionId : bytes;
  pp_Data : bytes }.

Class DecodeOps : Type := {
  borsh_PublishPayload : bytes → go PublishPayload;
  borsh_SubmitRequest : bytes → go SubmitRequest;
  rlp_DecodeBlocks : bytes → go (list Header);
}.

(** What the goroutine does with a delivery, in order. *)
Inductive ListenEffect : Type :=
| OnArrival
| OnFormatError
| Reject (requeue : bool)
| Ack (multiple : bool)
| SendBlock (block : BlockData).

Section Listener.
Context `{D : DecodeOps}.

Fixpoint process_blobs (rollupId : RollupId) (transactionId : bytes) (blobs : list Blob)
    : go (list ListenEffect) :=
  match blobs with
  | [] => Ok []
  | blob :: blobs =>
      match rlp_DecodeBlocks (bl_Data blob) with
      | Panic => Panic
      | Err _ => let? rest := process_blobs rollupId transactionId blobs in Ok (OnFormatError :: rest)
      | Ok blocks =>
          let? rest := process_blobs rollupId transactionId blobs in
          Ok (((λ block, SendBlock (mkBlockData rollupId transactionId (bl_Commitment blob) block)) <$> blocks)
                ++ rest)
      end
  end.

(** The body of the loop for one delivery. *)
Definition process_delivery (rollupId : RollupId) (body : bytes) : go (list ListenEffect) :=
  match borsh_PublishPayload body with
  | Panic => Panic
  | Err _ => Ok [OnArrival; OnFormatError; Reject false]
  | Ok publishPayload =>
  match borsh_SubmitRequest (pp_Data publishPayload) with
  | Panic => Panic
  | Err _ => Ok [OnArrival; OnFormatError; Reject false]
  | Ok submitRequest =>
      let? effects := process_blobs rollupId (pp_TransactionId publishPayload) (sr_Blobs submitRequest) in
      Ok (OnArrival :: effects ++ [Ack false])
  end
  end.
End Listener.

(** ** QueuesListener *)

(** The registered delivery channels and the goroutines that were started. *)
Record QueuesListener := mkQueuesListener {
  ql_queueDeliveryCs : gset RollupId;
  ql_listening : list RollupId }.

Definition NewQueuesListener : QueuesListener := mkQueuesListener ∅ [].

Definition Add (l : QueuesListener) (rollupId : RollupId) : QueuesListener * go unit :=
  if bool_decide (rollupId ∈ ql_queueDeliveryCs l) then (l, Err QueueExistsError)
  else (mkQueuesListener ({[rollupId]} ∪ ql_queueDeliveryCs l) (ql_listening l ++ [rollupId]), Ok tt).

Definition Remove (l : QueuesListener) (rollupId : RollupId) : QueuesListener :=
  mkQueuesListener (ql_queueDeliveryCs l ∖ {[rollupId]}) (ql_listening l).

Inductive ListenEvent : Type :=
| LeDelivery (body : bytes)
| LeDeliveriesClosed
| LeCtxDone.

(** [listen]: the loop over the events of one queue. *)
Fixpoint listen `{D : DecodeOps} (l : QueuesListener) (rollupId : RollupId) (evs : list ListenEvent)
    : go (QueuesListener * list ListenEffect) :=
  match evs with
  | [] => Ok (l, [])
  | LeDelivery body :: evs =>
      let? out := process_delivery rollupId body in
      let? rest := listen l rollupId evs in
      Ok (rest.1, out ++ rest.2)
  | LeDeliveriesClosed :: _ => Ok (Remove l rollupId, [])
  | LeCtxDone :: _ => Ok (l, [])
  end.

(** ** Consumer *)

(** A close channel of the library: [PendingErr recover] holds an error to be received. *)
Inductive ErrChan : Type :=
| NilChan
| OpenChan
| PendingErr (recover : bool)
| ClosedChan.

(** Where the [reconnect] goroutine is: about to dial, waiting after a failed dial,
    about to set up a channel, waiting after a failed setup, in the final select, or
    gone. *)
Inductive Location : Type :=
| LDial | LDialWait | LSetup | LSetupWait | LServe | LStopped.

Record Consumer := mkConsumer {
  cs_rollupIds : list RollupId;
  cs_isReady : bool;
  cs_queuesListener : option QueuesListener;
  cs_connClosedErrC : ErrChan;
  cs_chanClosedErrC : ErrChan;
  cs_canceled : bool;
  cs_loc : Location }.

Definition set_loc (c : Consumer) (loc : Location) : Consumer :=
  mkConsumer (cs_rollupIds c) (cs_isReady c) (cs_queuesListener c) (cs_connClosedErrC c)
    (cs_chanClosedErrC c) (cs_canceled c) loc.
(** The assignment [consumer.isReady = false] at the head of both loops. *)
Definition enter (c : Consumer) (loc : Location) : Consumer :=
  mkConsumer (cs_rollupIds c) false (cs_queuesListener c) (cs_connClosedErrC c)
    (cs_chanClosedErrC c) (cs_canceled c) loc.
Definition set_conn (c : Consumer) (ch : ErrChan) : Consumer :=
  mkConsumer (cs_rollupIds c) (cs_isReady c) (cs_queuesListener c) ch
    (cs_chanClosedErrC c) (cs_canceled c) (cs_loc c).
Definition set_chan (c : Consumer) (ch : ErrChan) : Consumer :=
  mkConsumer (cs_rollupIds c) (cs_isReady c) (cs_queuesListener c) (cs_connClosedErrC c)
    ch (cs_canceled c) (cs_loc c).

Definition set_ready (c : Consumer) : Consumer :=
  mkConsumer (cs_rollupIds c) true (cs_queuesListener c) (cs_connClosedErrC c)
    (cs_chanClosedErrC c) (cs_canceled c) (cs_loc c).

(** *** Names at the broker *)

(** [strconv.FormatUint(uint64(rollupId), 10)]. *)
Definition FormatUint (z : Z) : string := pretty (Z.to_N z).

Definition getQueueName (rollupId : RollupId) (id : string) : string :=
  "rollup" +:+ FormatUint rollupId +:+ "-" +:+ id.
Definition getRotingKey (rollupId : RollupId) : string := "rollup" +:+ FormatUint rollupId.
Definition getConsumerTag (rollupId : RollupId) : string := "operator" +:+ FormatUint rollupId.

(** Two consumers share a queue only if they have the same id and listen to the same
    rollup; routing keys and tags tell the rollups apart. *)
Theorem broker_names_distinct (r r' : RollupId) (id id' : string) :
  is_u32 r → is_u32 r' →
  (getQueueName r id = getQueueName r' id' → r = r' ∧ id = id') ∧
  (getRotingKey r = getRotingKey r' → r = r') ∧ (getConsumerTag r = getConsumerTag r' → r = r').
Proof.
  unfold is_u32, getQueueName, getRotingKey, getConsumerTag, FormatUint. intros Hr Hr'.
  assert (∀ x y : N, pretty x = pretty y → x = y) as Hinj by (intros x y; apply (inj pretty)).
  split_and!.
  - intros Heq. injection Heq as Heq. apply (split_separator "-"%char) in Heq as [Heq ->].
    + apply Hinj in Heq. split; [lia|done].
    + apply lacks_pretty_N. intros d. unfold pretty_N_char. by repeat case_match.
    + apply lacks_pretty_N. intros d. unfold pretty_N_char. by repeat case_match.
  - intros Heq. injection Heq as Heq. apply Hinj in Heq. lia.
  - intros Heq. injection Heq as Heq. apply Hinj in Heq. lia.
Qed.

(** [NewConsumer] and [Start]. *)
Definition NewConsumer (rollupIds : list RollupId) : Consumer :=
  mkConsumer rollupIds false None NilChan NilChan false LDial.

Definition changeConnection (c : Consumer) : Consumer := set_conn c OpenChan.
Definition changeChannel (c : Consumer) : Consumer := set_chan c OpenChan.

(** The broker's answers for one queue. *)
Record QueueAnswers := mkQueueAnswers {
  qa_QueueDeclare : go unit;
  qa_QueueBind : go unit;
  qa_Consume : go unit }.

Fixpoint setup_queues (answers : RollupId → QueueAnswers) (l : QueuesListener) (rollupIds : list RollupId)
    : QueuesListener * go unit :=
  match rollupIds with
  | [] => (l, Ok tt)
  | rollupId :: rollupIds =>
      match res_bind (qa_QueueDeclare (answers rollupId)) (λ _,
              res_bind (qa_QueueBind (answers rollupId)) (λ _, qa_Consume (answers rollupId))) with
      | Panic => (l, Panic)
      | Err e => (l, Err e)
      | Ok _ =>
          match Add l rollupId with
          | (l, Ok _) => setup_queues answers l rollupIds
          | (l, r) => (l, r)
          end
      end
  end.

Definition setupChannel (channel : go unit) (answers : RollupId → QueueAnswers) (c : Consumer)
    : Consumer * go unit :=
  match channel with
  | Panic => (c, Panic)
  | Err e => (c, Err e)
  | Ok _ =>
      match setup_queues answers NewQueuesListener (cs_rollupIds c) with
      | (_, Panic) => (c, Panic)
      | (_, Err e) => (c, Err e)
      | (listener, Ok _) =>
          let c := changeChannel (mkConsumer (cs_rollupIds c) (cs_isReady c) (Some listener)
                     (cs_connClosedErrC c) (cs_chanClosedErrC c) (cs_canceled c) (cs_loc c)) in
          (set_ready c, Ok tt)
      end
  end.

Inductive CsEvent : Type :=
| CeDial (answer : go unit)
| CeSetup (channel : go unit) (answers : RollupId → QueueAnswers)
| CeTimer
| CeCtxDone
| CeConnCloses (recover : bool)
| CeChanCloses (recover : bool)
| CeGracefulClose
| CeRecvConnErr
| CeRecvChanErr.

(** The library reports on an open close channel. *)
Definition report (ch : ErrChan) (recover : bool) : ErrChan :=
  match ch with OpenChan => PendingErr recover | ch => ch end.
Definition close_quietly (ch : ErrChan) : ErrChan :=
  match ch with OpenChan => ClosedChan | ch => ch end.

(** One event of the goroutine or of the library; an event that is not enabled in the
    current location changes nothing. *)
Definition cs_step (c : Consumer) (ev : CsEvent) : go Consumer :=
  match ev, cs_loc c with
  | CeDial answer, LDial =>
      match answer with
      | Panic => Panic
      | Err _ => Ok (set_loc c LDialWait)
      | Ok _ => Ok (enter (changeConnection c) LSetup)
      end
  | CeSetup channel answers, LSetup =>
      match setupChannel channel answers c with
      | (_, Panic) => Panic
      | (c, Err _) => Ok (set_loc c LSetupWait)
      | (c, Ok _) => Ok (set_loc c LServe)
      end
  | CeTimer, LDialWait => Ok (enter c LDial)
  | CeTimer, LSetupWait => Ok (enter c LSetup)
  | CeCtxDone, (LDialWait | LSetupWait | LServe) => Ok (set_loc c LStopped)
  | CeConnCloses recover, _ => Ok (set_conn c (report (cs_connClosedErrC c) recover))
  | CeChanCloses recover, _ => Ok (set_chan c (report (cs_chanClosedErrC c) recover))
  | CeGracefulClose, _ =>
      Ok (set_chan (set_conn c (close_quietly (cs_connClosedErrC c))) (close_quietly (cs_chanClosedErrC c)))
  | CeRecvConnErr, LSetupWait =>
      match cs_connClosedErrC c with
      | PendingErr false => Ok (set_loc (set_conn c ClosedChan) LStopped)
      | PendingErr true => Ok (set_loc (set_conn c ClosedChan) LServe)
      | ClosedChan => Panic
      | _ => Ok c
      end
  | CeRecvConnErr, LServe =>
      match cs_connClosedErrC c with
      | PendingErr _ => Ok (enter (set_conn c ClosedChan) LDial)
      | ClosedChan => Panic
      | _ => Ok c
      end
  | CeRecvChanErr, LServe =>
      match cs_chanClosedErrC c with
      | PendingErr _ => Ok (enter (set_chan c ClosedChan) LDial)
      | ClosedChan => Panic
      | _ => Ok c
      end
  | _, _ => Ok c
  end.

Fixpoint cs_run (c : Consumer) (evs : list CsEvent) : go Consumer :=
  match evs with
  | [] => Ok c
  | ev :: evs => let? c := cs_step c ev in cs_run c evs
  end.

(** [Close], with the answers of the channel's and the connection's [Close]. *)
Definition Close (c : Consumer) (channelClose connectionClose : go unit) : Consumer * go unit :=
  if negb (cs_isReady c) then (c, Err AlreadyClosedError)
  else
    let c := mkConsumer (cs_rollupIds c) (cs_isReady c) (cs_queuesListener c) (cs_connClosedErrC c)
               (cs_chanClosedErrC c) true (cs_loc c) in
    match channelClose with
    | Panic => (c, Panic)
    | Err e => (c, Err e)
    | Ok _ =>
    match connectionClose with
    | Panic => (c, Panic)
    | Err e => (c, Err e)
    | Ok _ =>
        (mkConsumer (cs_rollupIds c) false (cs_queuesListener c) (cs_connClosedErrC c)
           (cs_chanClosedErrC c) (cs_canceled c) (cs_loc c), Ok tt)
    end
    end.

(** ** Properties of the listener *)

Section ListenerTheory.
Context `{D : DecodeOps}.

(** The blocks of a delivery: those of every blob that decodes, in order, with the
    payload's transaction id and the blob's commitment. *)
Definition blob_blocks (rollupId : RollupId) (txid : bytes) (blob : Blob) : list BlockData :=
  match rlp_DecodeBlocks (bl_Data blob) with
  | Ok blocks => mkBlockData rollupId txid (bl_Commitment blob) <$> blocks
  | _ => []
  end.

Definition delivery_blocks (rollupId : RollupId) (body : bytes) : list BlockData :=
  match borsh_PublishPayload body with
  | Ok payload =>
      match borsh_SubmitRequest (pp_Data payload) with
      | Ok req => concat (blob_blocks rollupId (pp_TransactionId payload) <$> sr_Blobs req)
      | _ => []
      end
  | _ => []
  end.

Definition decodes (body : bytes) : bool :=
  match borsh_PublishPayload body with
  | Ok payload => is_ok (borsh_SubmitRequest (pp_Data payload))
  | _ => false
  end.

Definition sent_block (e : ListenEffect) : option BlockData :=
  match e with SendBlock b => Some b | _ => None end.
Definition settles (e : ListenEffect) : bool :=
  match e with Ack _ | Reject _ => true | _ => false end.

Lemma process_blobs_spec r txid blobs effects :
  process_blobs r txid blobs = Ok effects →
  omap sent_block effects = concat (blob_blocks r txid <$> blobs) ∧
  filter (λ e, settles e = true) effects = [].
Proof.
  revert effects; induction blobs as [|blob blobs IH]; intros effects Hp; cbn [process_blobs] in Hp.
  { by injection Hp as <-. }
  cbn [fmap list_fmap concat]. unfold blob_blocks at 1.
  destruct (rlp_DecodeBlocks (bl_Data blob)) as [blocks|e|]; [| |done];
    apply res_bind_ok in Hp as (rest & Hrest & [= <-]); destruct (IH rest Hrest) as [Hs Hf].
  - rewrite omap_app, filter_app, Hs, Hf. split.
    + f_equal. clear. induction blocks as [|b bs IH]; [done|]. cbn. f_equal. exact IH.
    + rewrite app_nil_r. clear. induction blocks as [|b bs IH]; [done|]. cbn. exact IH.
  - split; [exact Hs|]. exact Hf.
Qed.

(** The goroutine of a queue forwards exactly the blocks of its deliveries, in
    order and with the queue's rollup id, and settles every delivery exactly once and
    last: acknowledged if both layers of its payload decode (even if some blob does
    not), rejected without requeueing otherwise, in which case no block is sent. *)
Theorem delivery_settled_once rollupId body effects :
  process_delivery rollupId body = Ok effects →
  omap sent_block effects = delivery_blocks rollupId body ∧
  filter (λ e, settles e = true) effects = [if decodes body then Ack false else Reject false] ∧
  last effects = Some (if decodes body then Ack false else Reject false) ∧
  Forall (λ b, bd_RollupId b = rollupId) (omap sent_block effects).
Proof.
  intros Hp. assert (omap sent_block effects = delivery_blocks rollupId body ∧
    filter (λ e, settles e = true) effects = [if decodes body then Ack false else Reject false] ∧
    last effects = Some (if decodes body then Ack false else Reject false)) as (Hb & Hf & Hl).
  { unfold process_delivery, delivery_blocks, decodes in *.
    destruct (borsh_PublishPayload body) as [payload|e|]; [|by injection Hp as <-|done].
    destruct (borsh_SubmitRequest (pp_Data payload)) as [req|e|]; [|by injection Hp as <-|done].
    apply res_bind_ok in Hp as (out & Hout & [= <-]). apply process_blobs_spec in Hout as [Hs Hn].
    cbn [is_ok]. rewrite app_comm_cons, last_snoc, omap_app, filter_app. cbn [omap list_omap sent_block].
    rewrite app_nil_r. split_and!; [exact Hs| |done]. change (filter _ (OnArrival :: out)) with
      (filter (λ e, settles e = true) out). by rewrite Hn. }
  split_and!; [done..|]. rewrite Hb. unfold delivery_blocks. clear.
  destruct (borsh_PublishPayload body) as [payload|e|]; [|constructor..].
  destruct (borsh_SubmitRequest _) as [req|e|]; [|constructor..].
  apply Forall_concat, Forall_fmap, Forall_forall. intros blob _. simpl. unfold blob_blocks.
  destruct (rlp_DecodeBlocks _); [|constructor..]. by apply Forall_fmap, Forall_true.
Qed.

End ListenerTheory.

(** ** Properties of the consumer *)

Definition answers_ok (answers : RollupId → QueueAnswers) : Prop :=
  ∀ r, answers r = mkQueueAnswers (Ok tt) (Ok tt) (Ok tt).

Lemma setup_queues_dup answers rollupIds : ∀ l,
  ¬ (NoDup rollupIds ∧ ∀ r, r ∈ rollupIds → r ∉ ql_queueDeliveryCs l) →
  (setup_queues answers l rollupIds).2 ≠ Ok tt.
Proof.
  induction rollupIds as [|r rs IH]; intros l Hn; cbn [setup_queues].
  { destruct Hn. split; [constructor|]. intros r Hr. by apply elem_of_nil in Hr. }
  destruct (res_bind _ _); [|done..]. unfold Add. case_bool_decide as Hin; [done|].
  apply IH. cbn [ql_queueDeliveryCs]. intros [Hnd Hdis]. apply Hn. split.
  - constructor; [|done]. intros Hr. specialize (Hdis r Hr). set_solver.
  - intros r' [->|Hr']%elem_of_cons; [done|]. specialize (Hdis r' Hr'). set_solver.
Qed.

Lemma setup_queues_ok answers rollupIds : answers_ok answers → ∀ l,
  NoDup rollupIds → (∀ r, r ∈ rollupIds → r ∉ ql_queueDeliveryCs l) →
  setup_queues answers l rollupIds =
  (mkQueuesListener (list_to_set rollupIds ∪ ql_queueDeliveryCs l) (ql_listening l ++ rollupIds), Ok tt).
Proof.
  intros Hok. induction rollupIds as [|r rs IH]; intros l Hnd Hdis; cbn [setup_queues].
  { rewrite app_nil_r. destruct l. simpl. by rewrite union_empty_l_L. }
  rewrite Hok. cbn [qa_QueueDeclare qa_QueueBind qa_Consume res_bind]. unfold Add.
  rewrite bool_decide_false by (apply Hdis; by left). apply NoDup_cons in Hnd as [Hr Hnd].
  rewrite IH; [|done|]. 2:{ intros r' Hr'. cbn [ql_queueDeliveryCs].
    specialize (Hdis r' ltac:(by right)). set_solver. }
  cbn [ql_queueDeliveryCs ql_listening]. rewrite <- app_assoc. do 2 f_equal. set_solver.
Qed.

(** The consumer is ready only after a channel with all its queues was set up. *)
Record cs_inv (c : Consumer) : Prop := {
  ci_ready : cs_isReady c = true → NoDup (cs_rollupIds c) ∧
    (cs_loc c = LServe ∨ cs_loc c = LStopped) ∧
    ∃ l, cs_queuesListener c = Some l ∧ ql_listening l = cs_rollupIds c;
}.

Lemma setup_queues_listening answers rollupIds : ∀ l l',
  setup_queues answers l rollupIds = (l', Ok tt) → ql_listening l' = ql_listening l ++ rollupIds.
Proof.
  induction rollupIds as [|r rs IH]; intros l l' Hs; cbn [setup_queues] in Hs.
  { injection Hs as <-. by rewrite app_nil_r. }
  destruct (res_bind _ _); [|done..]. unfold Add in Hs. case_bool_decide; [done|].
  apply IH in Hs. rewrite Hs. cbn [ql_listening]. by rewrite <- app_assoc.
Qed.

Lemma cs_step_ids c ev c' : cs_step c ev = Ok c' → cs_rollupIds c' = cs_rollupIds c.
Proof.
  unfold cs_step, setupChannel. intros Hs. destruct ev, (cs_loc c); try (by injection Hs as <-);
    repeat case_match; simplify_eq/=; done.
Qed.

Lemma cs_inv_setup channel answers c c' :
  cs_loc c = LSetup → setupChannel channel answers c = (c', Ok tt) → cs_inv (set_loc c' LServe).
Proof.
  unfold setupChannel. intros _ Hs. destruct channel; [|done..].
  destruct (setup_queues _ _ _) as [l [[]|e|]] eqn:Hq; [|done..]. injection Hs as <-. split. intros _. simpl.
  split_and!; [|by left|].
  - destruct (decide (NoDup (cs_rollupIds c))) as [|Hn]; [done|].
    pose proof (setup_queues_dup answers (cs_rollupIds c) NewQueuesListener) as Hd. rewrite Hq in Hd.
    destruct Hd; [|done]. by intros [? _].
  - apply setup_queues_listening in Hq. by eexists.
Qed.

Lemma cs_inv_step c ev c' : cs_inv c → cs_step c ev = Ok c' → cs_inv c'.
Proof.
  intros [Hready] Hs. unfold cs_step in Hs.
  destruct ev, (cs_loc c) eqn:Hloc; try (injection Hs as <-; split; simpl; naive_solver).
  - destruct answer; [injection Hs as <-; by split|injection Hs as <-|done].
    split; simpl. intros Hr. destruct (Hready Hr) as (_ & [?|?] & _); congruence.
  - destruct (setupChannel _ _ _) as [c1 [[]|e|]] eqn:Hset; [|injection Hs as <-|done].
    + injection Hs as <-. by eapply cs_inv_setup.
    + assert (c1 = c) as ->.
      { unfold setupChannel in Hset. repeat case_match; simplify_eq/=; done. }
      split; simpl. intros Hr. destruct (Hready Hr) as (_ & [?|?] & _); congruence.
  - destruct (cs_connClosedErrC c) as [| |[]|]; try done; injection Hs as <-; split; simpl; try naive_solver.
  - destruct (cs_connClosedErrC c) as [| |[]|]; try done; injection Hs as <-; split; simpl; naive_solver.
  - destruct (cs_chanClosedErrC c) as [| |[]|]; try done; injection Hs as <-; split; simpl; naive_solver.
Qed.

Lemma cs_inv_run evs : ∀ c c', cs_inv c → cs_run c evs = Ok c' →
  cs_inv c' ∧ cs_rollupIds c' = cs_rollupIds c.
Proof.
  induction evs as [|ev evs IH]; intros c c' Hinv Hrun; cbn [cs_run] in Hrun; [by injection Hrun as <-|].
  apply res_bind_ok in Hrun as (c1 & Hs & Hrun). rewrite <- (cs_step_ids _ _ _ Hs).
  eapply IH; [|done]. by eapply cs_inv_step.
Qed.

(** A ready consumer listens to every queue it was configured with.  Along any run,
    [isReady] is set only while the goroutine serves a channel (or after it was told
    to stop), and then one listener goroutine runs per configured rollup.  With
    distinct rollup ids, one successful dial and setup make the consumer ready; with a
    repeated id it never becomes ready. *)
Theorem ready_means_listening rollupIds evs c :
  cs_run (NewConsumer rollupIds) evs = Ok c →
  (cs_isReady c = true →
     (cs_loc c = LServe ∨ cs_loc c = LStopped) ∧
     ∃ l, cs_queuesListener c = Some l ∧ ql_listening l = rollupIds) ∧
  (¬ NoDup rollupIds → cs_isReady c = false) ∧
  (∀ answers, NoDup rollupIds → answers_ok answers → ∃ c',
     cs_run (NewConsumer rollupIds) [CeDial (Ok tt); CeSetup (Ok tt) answers] = Ok c' ∧
     cs_isReady c' = true ∧ cs_loc c' = LServe).
Proof.
  intros Hrun. assert (cs_inv (NewConsumer rollupIds)) as Hinv by (by split).
  destruct (cs_inv_run _ _ _ Hinv Hrun) as [[Hready] Hids]. rewrite Hids in Hready.
  cbn [cs_rollupIds NewConsumer] in Hready. split_and!.
  - intros Hr. destruct (Hready Hr) as (_ & ? & ?). done.
  - intros Hnd. destruct (cs_isReady c); [|done]. by destruct (Hready eq_refl).
  - intros answers Hnd Hok. cbn. unfold setupChannel. cbn [cs_rollupIds enter changeConnection set_conn NewConsumer].
    rewrite setup_queues_ok by (done || intros r _; cbn; set_solver). by eexists.
Qed.

(** Losing the connection while the channel cannot be set up crashes the operator.
    If the setup fails and the connection is then lost with a recoverable error,
    [ResetChannel] consumes the only error of the close channel and returns as if the
    channel were ready; the final select then receives nil from the closed channel and
    dereferences it.  If the error is not recoverable the goroutine ends instead, and
    the consumer never becomes ready again. *)
Theorem lost_connection_panics rollupIds channel answers e :
  (setupChannel channel answers (enter (changeConnection (NewConsumer rollupIds)) LSetup)).2 = Err e →
  let lost recover := [CeDial (Ok tt); CeSetup channel answers; CeConnCloses recover; CeRecvConnErr] in
  (∃ c, cs_run (NewConsumer rollupIds) (lost true) = Ok c ∧ cs_loc c = LServe ∧ cs_isReady c = false) ∧
  cs_run (NewConsumer rollupIds) (lost true ++ [CeRecvConnErr]) = Panic ∧
  (∀ evs c, cs_run (NewConsumer rollupIds) (lost false ++ evs) = Ok c →
     cs_loc c = LStopped ∧ cs_isReady c = false).
Proof.
  intros Hset lost.
  assert (∀ recover evs, cs_run (NewConsumer rollupIds) (lost recover ++ evs) =
    cs_run (mkConsumer rollupIds false None ClosedChan NilChan false
      (if recover then LServe else LStopped)) evs) as Hlost.
  { set (c0 := enter (changeConnection (NewConsumer rollupIds)) LSetup) in *.
    assert (cs_step c0 (CeSetup channel answers) = Ok (set_loc c0 LSetupWait)) as Hfail.
    { unfold cs_step. change (cs_loc c0) with LSetup. cbv iota.
      destruct (setupChannel channel answers c0) as [c1 r1] eqn:Hs. simpl in Hset. subst r1.
      revert Hs. unfold setupChannel. repeat case_match; intros [= <- ?]; done. }
    intros recover evs. unfold lost. rewrite <- app_comm_cons. cbn [cs_run].
    change (cs_step (NewConsumer rollupIds) (CeDial (Ok tt))) with (@Ok GoError _ c0). cbn [res_bind].
    rewrite <- app_comm_cons. cbn [cs_run]. rewrite Hfail. cbn [res_bind].
    by destruct recover. }
  split_and!.
  - rewrite <- (app_nil_r (lost true)), Hlost. by eexists.
  - by rewrite Hlost.
  - intros evs c. rewrite Hlost. set (c0 := mkConsumer _ _ _ _ _ _ _).
    assert (cs_loc c0 = LStopped ∧ cs_isReady c0 = false) as H0 by done. clearbody c0. revert c0 H0.
    induction evs as [|ev evs IH]; intros c0 [Hl Hr] Hrun; cbn [cs_run] in Hrun; [by injection Hrun as <-|].
    apply res_bind_ok in Hrun as (c1 & Hstep & Hrun). apply (IH c1); [|done].
    unfold cs_step in Hstep. rewrite Hl in Hstep. by destruct ev; injection Hstep as <-.
Qed.

(** [Close] races with the reconnecting goroutine.  When a serving consumer is
    closed, the close channels are closed without an error; whether the goroutine
    stops or dereferences nil depends on which ready case of its select it takes. *)
Theorem close_races c :
  cs_isReady c = true → cs_loc c = LServe → cs_connClosedErrC c = OpenChan →
  ∃ c', Close c (Ok tt) (Ok tt) = (c', Ok tt) ∧ cs_isReady c' = false ∧
    (∃ c'', cs_run c' [CeGracefulClose; CeCtxDone] = Ok c'' ∧ cs_loc c'' = LStopped) ∧
    cs_run c' [CeGracefulClose; CeRecvConnErr] = Panic.
Proof.
  intros Hr Hl Hc. destruct c as [ids ready ql conn ch canceled loc]; simpl in *. subst ready loc conn.
  eexists. split; [reflexivity|]. split; [done|]. split; [by eexists|]. done.
Qed.

Module Examples.

(** Decoders for a toy format: byte 0 fails, byte 1 is one good blob followed by a bad one. *)
#[local] Instance toy_decode : DecodeOps := {|
  borsh_PublishPayload body := match body with [] => Err (ExternalError "eof") | _ => Ok (mkPublishPayload (replicate 32 1) body) end;
  borsh_SubmitRequest data :=
    match data with
    | 1 :: _ => Ok (mkSubmitRequest [mkBlob (mkNamespace 0 1) 0 (replicate 32 2) [7; 8]; mkBlob (mkNamespace 0 1) 0 (replicate 32 3) []])
    | _ => Err (ExternalError "bad request")
    end;
  rlp_DecodeBlocks data :=
    match data with [] => Err (ExternalError "rlp") | _ => Ok ((λ n, mkHeader n (replicate 32 9) 0) <$> data) end |}.

Definition block (n : Z) : BlockData := mkBlockData 5 (replicate 32 1) (replicate 32 2) (mkHeader n (replicate 32 9) 0).

Lemma delivery_settled_once_witness :
  omap sent_block [OnArrival; SendBlock (block 7); SendBlock (block 8); OnFormatError; Ack false] = [block 7; block 8] ∧
  filter (λ e, settles e = true) [OnArrival; SendBlock (block 7); SendBlock (block 8); OnFormatError; Ack false] = [Ack false].
Proof.
  destruct (delivery_settled_once 5 [1] [OnArrival; SendBlock (block 7); SendBlock (block 8); OnFormatError; Ack false])
    as (H1 & H2 & _); [reflexivity|]. split; [exact H1|exact H2].
Defined.

Definition good (r : RollupId) : QueueAnswers := mkQueueAnswers (Ok tt) (Ok tt) (Ok tt).

Lemma ready_means_listening_witness : cs_isReady (NewConsumer [3; 3]) = false.
Proof.
  refine (proj1 (proj2 (ready_means_listening [3; 3] [] (NewConsumer [3; 3]) _)) _).
  - reflexivity.
  - intros Hnd. apply NoDup_cons in Hnd as [Hn _]. apply Hn. by left.
Defined.

Lemma lost_connection_panics_witness :
  cs_run (NewConsumer [3]) [CeDial (Ok tt); CeSetup (Err (ExternalError "channel")) good;
    CeConnCloses true; CeRecvConnErr; CeRecvConnErr] = Panic.
Proof.
  refine (proj1 (proj2 (lost_connection_panics [3] (Err (ExternalError "channel")) good (ExternalError "channel") _))).
  reflexivity.
Defined.

Definition serving : Consumer :=
  mkConsumer [3] true (Some (mkQueuesListener {[3]} [3])) OpenChan OpenChan false LServe.

(** The state a consumer reaches after connecting. *)
Example serving_reached : cs_run (NewConsumer [3]) [CeDial (Ok tt); CeSetup (Ok tt) good] = Ok serving.
Proof. vm_compute. reflexivity. Qed.

Lemma close_races_witness :
  ∃ c', Close serving (Ok tt) (Ok tt) = (c', Ok tt) ∧ cs_isReady c' = false ∧
    (∃ c'', cs_run c' [CeGracefulClose; CeCtxDone] = Ok c'' ∧ cs_loc c'' = LStopped) ∧
    cs_run c' [CeGracefulClose; CeRecvConnErr] = Panic.
Proof. apply (close_races serving); reflexivity. Defined.

End Examples.
