(* ===== verification/OperatorPipeline.v ===== *)
(** * From the message queue to the signed message

    The consumer (operator/consumer/) and the attestor (operator/attestor/) as they run
    together in an operator: the goroutines of the queues hand the blocks of their
    deliveries over on the unbuffered channel of [GetBlockStream], [processMQBlocks] takes
    them and notifies the goroutines of the headers.  [pipe_step] is one step of any of
    them.  A message is signed with a commitment only if a delivery of its rollup's queue
    carried it ([commitments_published]), a delivery is settled only after all its blocks
    were handed over ([settled_deliveries_handed_over]), and a waiting header whose
    block is delivered can be signed with its commitment ([delivered_block_attested]). *)

From S2P Require Import Prelude CoreTypes Instances Messages Attestor Consumer.
Import Notifier.

(** ** The system *)

(** A goroutine of [QueuesListener.listen]: what is left to do for the delivery it
    received last, and what it has received and done so far. *)
Record Listening := mkListening {
  ls_rollupId : RollupId;
  ls_running : bool;
  ls_pending : list ListenEffect;
  ls_bodies : list bytes;
  ls_effects : list ListenEffect }.

(** [processMQBlocks]: in its select, with a block it has not yet notified, or gone. *)
Inductive MqState : Type :=
| MqIdle
| MqNotifying (block : BlockData)
| MqStopped.

Section Pipe.
Context `{B : BlsOps}.

(** [pi_received] are the blocks [processMQBlocks] has taken so far. *)
Record Pipe := mkPipe {
  pi_consumer : Consumer;
  pi_listeners : list Listening;
  pi_mq : MqState;
  pi_received : list BlockData;
  pi_attestor : AttState }.

Definition newPipe (rollupIds : list RollupId) : Pipe :=
  mkPipe (NewConsumer rollupIds) [] MqIdle [] NewAttestor.

Inductive PipeEvent : Type :=
| PeConsumer (ev : CsEvent)
| PeDelivery (g : nat) (body : bytes)
| PeAdvance (g : nat)
| PeListenerStops (g : nat)
| PeNotify
| PeMqStops
| PeAttestor (ev : AttEvent).

Definition new_listener (rollupId : RollupId) : Listening := mkListening rollupId true [] [] [].

(** The goroutines a channel setup starts, also when it fails half way: those of the
    queues [Add] was called for. *)
Definition started (c : Consumer) (ev : CsEvent) : list RollupId :=
  match ev, cs_loc c with
  | CeSetup (Ok _) answers, LSetup => ql_listening (setup_queues answers NewQueuesListener (cs_rollupIds c)).1
  | _, _ => []
  end.

Definition set_listener (p : Pipe) (g : nat) (l : Listening) : Pipe :=
  mkPipe (pi_consumer p) (<[g := l]> (pi_listeners p)) (pi_mq p) (pi_received p) (pi_attestor p).
Definition set_mq (p : Pipe) (mq : MqState) : Pipe :=
  mkPipe (pi_consumer p) (pi_listeners p) mq (pi_received p) (pi_attestor p).

(** The goroutine did the first of its pending effects. *)
Definition advanced (l : Listening) (e : ListenEffect) (rest : list ListenEffect) : Listening :=
  mkListening (ls_rollupId l) (ls_running l) rest (ls_bodies l) (ls_effects l ++ [e]).

Context `{H : HashOps} `{A : AbiOps} `{D : DecodeOps} (keypair : KeyPair) (operatorId : OperatorId).

(** One step; an event that is not enabled changes nothing, [Ok None] when a notification
    blocks.  The goroutine of a queue looks at its context and at the next delivery only
    between deliveries; its send waits until [processMQBlocks] is in its select. *)
Definition pipe_step (p : Pipe) (ev : PipeEvent) : go (option Pipe) :=
  match ev with
  | PeConsumer ev =>
      let? c := cs_step (pi_consumer p) ev in
      Ok (Some (mkPipe c (pi_listeners p ++ (new_listener <$> started (pi_consumer p) ev)) (pi_mq p)
                  (pi_received p) (pi_attestor p)))
  | PeDelivery g body =>
      match pi_listeners p !! g with
      | Some (mkListening rollupId true [] bodies effects) =>
          let? out := process_delivery rollupId body in
          Ok (Some (set_listener p g (mkListening rollupId true out (bodies ++ [body]) effects)))
      | _ => Ok (Some p)
      end
  | PeAdvance g =>
      match pi_listeners p !! g with
      | Some l =>
          match ls_pending l with
          | [] => Ok (Some p)
          | SendBlock b :: rest =>
              match pi_mq p with
              | MqIdle =>
                  Ok (Some (mkPipe (pi_consumer p) (<[g := advanced l (SendBlock b) rest]> (pi_listeners p))
                              (MqNotifying b) (pi_received p ++ [b]) (pi_attestor p)))
              | _ => Ok (Some p)
              end
          | e :: rest => Ok (Some (set_listener p g (advanced l e rest)))
          end
      | None => Ok (Some p)
      end
  | PeListenerStops g =>
      match pi_listeners p !! g with
      | Some (mkListening rollupId true [] bodies effects) =>
          Ok (Some (set_listener p g (mkListening rollupId false [] bodies effects)))
      | _ => Ok (Some p)
      end
  | PeNotify =>
      match pi_mq p with
      | MqNotifying b =>
          let? st := at_step keypair operatorId (pi_attestor p) (AeMqBlock b) in
          Ok (st ← st; Some (mkPipe (pi_consumer p) (pi_listeners p) MqIdle (pi_received p) st))
      | _ => Ok (Some p)
      end
  | PeMqStops => Ok (Some (match pi_mq p with MqIdle => set_mq p MqStopped | _ => p end))
  | PeAttestor (AeMqBlock _) => Ok (Some p)
  | PeAttestor ev =>
      let? st := at_step keypair operatorId (pi_attestor p) ev in
      Ok (st ← st; Some (mkPipe (pi_consumer p) (pi_listeners p) (pi_mq p) (pi_received p) st))
  end.

Fixpoint pipe_run (p : Pipe) (evs : list PipeEvent) : go (option Pipe) :=
  match evs with
  | [] => Ok (Some p)
  | ev :: evs =>
      let? p := pipe_step p ev in
      match p with
      | None => Ok None
      | Some p => pipe_run p evs
      end
  end.

End Pipe.

Section Theory.
Context `{B : BlsOps} `{H : HashOps} `{A : AbiOps} `{D : DecodeOps} (keypair : KeyPair) (operatorId : OperatorId).

#[local] Notation at_step := (at_step keypair operatorId).
#[local] Notation at_run := (at_run keypair operatorId).
#[local] Notation attest := (attest keypair operatorId).
#[local] Notation pipe_step := (pipe_step keypair operatorId).
#[local] Notation pipe_run := (pipe_run keypair operatorId).

Lemma pipe_run_app evs1 evs2 : ∀ p p', pipe_run p evs1 = Ok (Some p') →
  pipe_run p (evs1 ++ evs2) = pipe_run p' evs2.
Proof.
  induction evs1 as [|ev evs1 IH]; intros p p' Hrun; cbn [app OperatorPipeline.pipe_run] in *; [by injection Hrun as ->|].
  apply res_bind_ok in Hrun as ([p1|] & Hs & Hrun); [|done]. rewrite Hs. by apply IH.
Qed.

(** ** The listeners *)

(** What a goroutine has done and has left is what its deliveries ask for. *)
Definition listener_ok (rollupIds : list RollupId) (l : Listening) : Prop :=
  ls_rollupId l ∈ rollupIds ∧
  ∃ outs, Forall2 (λ body out, process_delivery (ls_rollupId l) body = Ok out) (ls_bodies l) outs ∧
    concat outs = ls_effects l ++ ls_pending l.

Definition handed_over (l : Listening) : list BlockData := omap sent_block (ls_effects l).

(** The consumer keeps its rollups, and the blocks that were taken are those that were
    handed over, by each goroutine in its order. *)
Record pipe_inv (rollupIds : list RollupId) (p : Pipe) : Prop := {
  pv_rollups : cs_rollupIds (pi_consumer p) = rollupIds;
  pv_listeners : Forall (listener_ok rollupIds) (pi_listeners p);
  pv_order g l : pi_listeners p !! g = Some l → handed_over l `sublist_of` pi_received p;
  pv_received : pi_received p ≡ₚ (pi_listeners p ≫= handed_over);
  pv_notifying b : pi_mq p = MqNotifying b → b ∈ pi_received p;
}.

Lemma setup_queues_subset answers rollupIds : ∀ l r,
  r ∈ ql_listening (setup_queues answers l rollupIds).1 → r ∈ ql_listening l ∨ r ∈ rollupIds.
Proof.
  induction rollupIds as [|r0 rs IH]; intros l r Hr; cbn [setup_queues] in Hr; [by left|].
  destruct (res_bind _ _); [|by left..]. unfold Add in Hr. case_bool_decide; [by left|].
  apply IH in Hr. cbn [ql_listening] in Hr. rewrite elem_of_app, list_elem_of_singleton in Hr. set_solver.
Qed.

Lemma started_configured c ev r : r ∈ started c ev → r ∈ cs_rollupIds c.
Proof.
  unfold started. intros Hr. destruct ev as [| [] | | | | | | |]; try by apply elem_of_nil in Hr.
  destruct (cs_loc c); try by apply elem_of_nil in Hr.
  apply setup_queues_subset in Hr as [Hr|Hr]; [by apply elem_of_nil in Hr|done].
Qed.

Lemma new_listeners_silent rs : (new_listener <$> rs) ≫= handed_over = [].
Proof. by induction rs. Qed.

Lemma bind_insert {X Y} (f : X → list Y) (l : list X) g x x' :
  l !! g = Some x → <[g := x']> l ≫= f ≡ₚ f x' ++ (delete g l ≫= f).
Proof.
  intros Hg. rewrite insert_take_drop by (by eapply lookup_lt_Some). rewrite delete_take_drop, !bind_app. cbn.
  solve_Permutation.
Qed.

Lemma bind_lookup {X Y} (f : X → list Y) (l : list X) g x :
  l !! g = Some x → l ≫= f ≡ₚ f x ++ (delete g l ≫= f).
Proof. intros Hg. rewrite <- (bind_insert f l g x x Hg). by rewrite list_insert_id. Qed.

(** A goroutine goes on, handing over the blocks [bs]. *)
Lemma pipe_inv_advance rollupIds p g l l' bs mq st :
  pipe_inv rollupIds p → pi_listeners p !! g = Some l →
  listener_ok rollupIds l' → handed_over l' = handed_over l ++ bs →
  (∀ b, mq = MqNotifying b → b ∈ pi_received p ++ bs) →
  pipe_inv rollupIds (mkPipe (pi_consumer p) (<[g := l']> (pi_listeners p)) mq (pi_received p ++ bs) st).
Proof.
  intros [Hids Hls Hord Hrec Hmq] Hg Hok Hh Hmq'. split; cbn; [done| | | |done].
  - by apply Forall_insert.
  - intros g' l0. rewrite list_lookup_insert_Some. intros [(-> & -> & _)|[_ Hg']].
    + rewrite Hh. apply sublist_app; [by eapply Hord|done].
    + apply sublist_inserts_r. by eapply Hord.
  - rewrite (bind_insert _ _ _ _ _ Hg), Hh, Hrec, (bind_lookup _ _ _ _ Hg). solve_Permutation.
Qed.

Lemma pipe_inv_same rollupIds p mq st :
  pipe_inv rollupIds p → (∀ b, mq = MqNotifying b → mq = pi_mq p) → pipe_inv rollupIds (mkPipe (pi_consumer p) (pi_listeners p) mq (pi_received p) st).
Proof. intros [? ? ? ? Hmq] Hs. split; cbn; try done. intros b Hb. apply Hmq. by rewrite <- (Hs b Hb). Qed.

(** The same without a block. *)
Lemma pipe_inv_quiet rollupIds p g l l' :
  pipe_inv rollupIds p → pi_listeners p !! g = Some l →
  listener_ok rollupIds l' → handed_over l' = handed_over l → pipe_inv rollupIds (set_listener p g l').
Proof.
  intros Hinv Hg Hok Hh. unfold set_listener. rewrite <- (app_nil_r (pi_received p)).
  eapply pipe_inv_advance; [done..|by rewrite app_nil_r|]. rewrite app_nil_r. apply Hinv.
Qed.

Lemma listener_ok_advanced rollupIds l e rest :
  listener_ok rollupIds l → ls_pending l = e :: rest → listener_ok rollupIds (advanced l e rest).
Proof.
  intros [Hr (outs & Hout & Heq)] Hp. split; [done|]. exists outs. split; [done|]. cbn.
  by rewrite Heq, Hp, <- app_assoc.
Qed.

Lemma listener_ok_delivery rollupIds r bodies effects body out :
  listener_ok rollupIds (mkListening r true [] bodies effects) → process_delivery r body = Ok out →
  listener_ok rollupIds (mkListening r true out (bodies ++ [body]) effects).
Proof.
  intros [Hr (outs & Hout & Heq)] Hp. split; [done|]. exists (outs ++ [out]). cbn in *. split.
  - apply Forall2_app; [done|]. by repeat constructor.
  - rewrite concat_app, Heq, app_nil_r. cbn. by rewrite app_nil_r.
Qed.

Lemma handed_over_advanced l e rest :
  handed_over (advanced l e rest) = handed_over l ++ match e with SendBlock b => [b] | _ => [] end.
Proof. unfold handed_over. cbn. rewrite omap_app. by destruct e. Qed.

Lemma pipe_inv_consumer rollupIds p ev c :
  pipe_inv rollupIds p → cs_step (pi_consumer p) ev = Ok c →
  pipe_inv rollupIds (mkPipe c (pi_listeners p ++ (new_listener <$> started (pi_consumer p) ev)) (pi_mq p)
    (pi_received p) (pi_attestor p)).
Proof.
  intros [Hids Hls Hord Hrec Hmq] Hc. split; cbn; [| | | |done].
  - by rewrite (cs_step_ids _ _ _ Hc).
  - apply Forall_app; split; [done|]. apply Forall_fmap, Forall_forall. intros r Hr. split.
    + rewrite <- Hids. by eapply started_configured.
    + exists []. by split.
  - intros g l [Hg|[_ Hg]]%lookup_app_Some; [by eapply Hord|].
    rewrite list_lookup_fmap in Hg. apply fmap_Some in Hg as (r & _ & ->). apply sublist_nil_l.
  - by rewrite bind_app, new_listeners_silent, app_nil_r.
Qed.

Lemma pipe_inv_step rollupIds p ev p' :
  pipe_inv rollupIds p → pipe_step p ev = Ok (Some p') → pipe_inv rollupIds p'.
Proof.
  intros Hinv Hstep. pose proof Hinv as [Hids Hls Hord Hrec Hmq].
  destruct ev as [ev|g body|g|g| | |ev]; cbn [OperatorPipeline.pipe_step] in Hstep.
  - apply res_bind_ok in Hstep as (c & Hc & [= <-]). by apply pipe_inv_consumer.
  - destruct (pi_listeners p !! g) as [[r [] [] bodies effects]|] eqn:Hg; try (by injection Hstep as <-).
    apply res_bind_ok in Hstep as (out & Hout & [= <-]).
    eapply pipe_inv_quiet; [done..| |done]. eapply listener_ok_delivery; [|done]. by eapply Forall_lookup_1 in Hls.
  - destruct (pi_listeners p !! g) as [l|] eqn:Hg; [|by injection Hstep as <-].
    pose proof (Forall_lookup_1 _ _ _ _ Hls Hg) as Hl.
    destruct (ls_pending l) as [|e rest] eqn:Hp; [by injection Hstep as <-|].
    pose proof (listener_ok_advanced _ _ _ _ Hl Hp) as Hl'. pose proof (handed_over_advanced l e rest) as Hh.
    destruct e; try (injection Hstep as <-; rewrite app_nil_r in Hh; by eapply pipe_inv_quiet).
    destruct (pi_mq p); injection Hstep as <-; [|done..]. eapply pipe_inv_advance; [done..|].
    intros b [= <-]. apply elem_of_app. right. by left.
  - destruct (pi_listeners p !! g) as [[r [] [] bodies effects]|] eqn:Hg; try (by injection Hstep as <-).
    injection Hstep as <-. eapply pipe_inv_quiet; [done..| |done]. exact (Forall_lookup_1 _ _ _ _ Hls Hg).
  - destruct (pi_mq p); [by injection Hstep as <-| |by injection Hstep as <-].
    apply res_bind_ok in Hstep as ([st|] & _ & [= <-]). by apply pipe_inv_same.
  - injection Hstep as <-. destruct (pi_mq p); [by apply pipe_inv_same|done..].
  - destruct ev; try (apply res_bind_ok in Hstep as ([st|] & _ & [= <-]); by apply pipe_inv_same).
    by injection Hstep as <-.
Qed.

Lemma pipe_inv_run rollupIds evs : ∀ p p',
  pipe_inv rollupIds p → pipe_run p evs = Ok (Some p') → pipe_inv rollupIds p'.
Proof.
  induction evs as [|ev evs IH]; intros p p' Hinv Hrun; cbn [OperatorPipeline.pipe_run] in Hrun; [by injection Hrun as <-|].
  apply res_bind_ok in Hrun as ([p1|] & Hs & Hrun); [|done]. eapply IH; [|done]. by eapply pipe_inv_step.
Qed.

Lemma pipe_inv_new rollupIds : pipe_inv rollupIds (newPipe rollupIds).
Proof. by split. Qed.

(** *** Settlement *)

Definition settlements (l : Listening) : list ListenEffect := filter (λ e, settles e = true) (ls_effects l).
Definition verdict (body : bytes) : ListenEffect := if decodes body then Ack false else Reject false.

Lemma last_split {X} (l : list X) x : last l = Some x → ∃ l', l = l' ++ [x].
Proof. intros Hl. apply last_Some in Hl as [l' ->]. by exists l'. Qed.

(** A delivery's effects: its settlement comes last. *)
Lemma delivery_shape r body out : process_delivery r body = Ok out →
  ∃ pre, out = pre ++ [verdict body] ∧ filter (λ e, settles e = true) pre = [] ∧ omap sent_block out = delivery_blocks r body.
Proof.
  intros (Hb & Hf & Hl & _)%delivery_settled_once. apply last_split in Hl as [pre ->]. exists pre. split; [done|]. split; [|done].
  fold (verdict body) in Hf. rewrite filter_app, filter_cons_True in Hf by (unfold verdict; by destruct (decodes body)).
  apply (f_equal length) in Hf. rewrite length_app in Hf. apply nil_length_inv. cbn in Hf |- *. lia.
Qed.

(** As many deliveries as there are settlements among the effects were dealt with. *)
Lemma settled_prefix r bodies outs : Forall2 (λ body out, process_delivery r body = Ok out) bodies outs →
  ∀ effects rest, concat outs = effects ++ rest →
  concat (take (length (filter (λ e, settles e = true) effects)) outs) `prefix_of` effects.
Proof.
  induction 1 as [|body out bodies outs Hout _ IH]; intros effects rest Heq; [rewrite take_nil; apply prefix_nil|].
  destruct (delivery_shape _ _ _ Hout) as (pre & -> & Hpre & _). cbn [concat] in Heq.
  destruct (app_eq_app _ _ _ _ Heq) as [x [[Hx Hx']|[-> Hx']]].
  - destruct x as [|e x _] using rev_ind.
    + rewrite app_nil_r in Hx. subst effects. rewrite filter_app, Hpre. cbn [app].
      rewrite filter_cons_True by (unfold verdict; by destruct (decodes body)). cbn [filter list_filter length take concat].
      by rewrite app_nil_r.
    + rewrite app_assoc in Hx. apply app_inj_tail in Hx as [-> _]. rewrite filter_app in Hpre.
      apply app_eq_nil in Hpre as [-> _]. apply prefix_nil.
  - rewrite !filter_app, Hpre. cbn [app]. rewrite filter_cons_True by (unfold verdict; by destruct (decodes body)).
    cbn [app length take concat]. apply prefix_app. by eapply IH.
Qed.

Lemma outs_blocks r bodies outs : Forall2 (λ body out, process_delivery r body = Ok out) bodies outs →
  omap sent_block (concat outs) = concat (delivery_blocks r <$> bodies) ∧
  filter (λ e, settles e = true) (concat outs) = verdict <$> bodies.
Proof.
  induction 1 as [|body out bodies outs Hout _ [IHb IHs]]; [done|].
  destruct (delivery_shape _ _ _ Hout) as (pre & -> & Hpre & Hb). cbn [concat fmap list_fmap].
  rewrite omap_app, Hb, IHb. split; [done|]. rewrite !filter_app, Hpre, IHs. unfold verdict. by destruct (decodes body).
Qed.

(** C38: a delivery is settled only after its blocks were handed over.  Along any
    interleaving of the queue goroutines, [processMQBlocks], reconnections and the
    attestor, every goroutine settles its deliveries in order, each acknowledged or
    rejected as its payload decodes or not; the blocks of the settled deliveries have
    been taken by the attestor, in order; and the attestor takes no block that was not
    handed over, and none twice. *)
Theorem settled_deliveries_handed_over rollupIds evs p g l :
  pipe_run (newPipe rollupIds) evs = Ok (Some p) → pi_listeners p !! g = Some l →
  ls_rollupId l ∈ rollupIds ∧ settlements l `prefix_of` (verdict <$> ls_bodies l) ∧
  concat (delivery_blocks (ls_rollupId l) <$> take (length (settlements l)) (ls_bodies l)) `sublist_of` pi_received p ∧
  pi_received p ≡ₚ (pi_listeners p ≫= handed_over) ∧
  handed_over l `prefix_of` concat (delivery_blocks (ls_rollupId l) <$> ls_bodies l).
Proof.
  intros Hrun Hg. pose proof (pipe_inv_run _ _ _ _ (pipe_inv_new rollupIds) Hrun) as [_ Hls Hord Hrec _].
  destruct (Forall_lookup_1 _ _ _ _ Hls Hg) as [Hr (outs & Hout & Heq)].
  destruct (outs_blocks _ _ _ Hout) as [Hb Hs]. rewrite Heq, omap_app in Hb. rewrite Heq, filter_app in Hs.
  split; [done|]. split; [by eexists|]. split; [|split; [done|by eexists]].
  pose proof (Forall2_take _ _ _ (length (settlements l)) Hout) as Htake. destruct (outs_blocks _ _ _ Htake) as [<- _].
  destruct (settled_prefix _ _ _ Hout _ _ Heq) as [rest Hpre]. fold (settlements l) in Hpre.
  etrans; [|by eapply Hord]. unfold handed_over. rewrite Hpre, omap_app. apply sublist_inserts_r. done.
Qed.

(** ** The attestor *)

Lemma at_run_app evs1 evs2 : ∀ st st', at_run st evs1 = Ok (Some st') → at_run st (evs1 ++ evs2) = at_run st' evs2.
Proof.
  induction evs1 as [|ev evs1 IH]; intros st st' Hrun; cbn [app Attestor.at_run] in *; [by injection Hrun as ->|].
  apply res_bind_ok in Hrun as ([st1|] & Hs & Hrun); [|done]. rewrite Hs. by apply IH.
Qed.

Lemma at_run_one st ev st' : at_step st ev = Ok (Some st') → at_run st [ev] = Ok (Some st').
Proof. intros Hs. cbn [Attestor.at_run]. by rewrite Hs. Qed.

(** The attestor's part of a step is a run of the attestor alone, on blocks that were
    taken from the channel. *)
Definition attestor_part (p : Pipe) (evs : list PipeEvent) (p' : Pipe) : Prop :=
  ∃ aevs, at_run (pi_attestor p) aevs = Ok (Some (pi_attestor p')) ∧
    (∀ a, a ∈ aevs → (∃ b, a = AeMqBlock b ∧ b ∈ pi_received p') ∨ (PeAttestor a ∈ evs ∧ ∀ b, a ≠ AeMqBlock b)) ∧
    pi_received p `prefix_of` pi_received p'.

Lemma attestor_idle p evs q :
  pi_attestor q = pi_attestor p → pi_received p `prefix_of` pi_received q → attestor_part p evs q.
Proof. intros Hq Hpre. exists []. split_and!; [cbn; by rewrite Hq|by intros a ?%elem_of_nil|done]. Qed.

Lemma pipe_step_attestor rollupIds p ev p' :
  pipe_inv rollupIds p → pipe_step p ev = Ok (Some p') → attestor_part p [ev] p'.
Proof.
  intros Hinv Hstep. destruct ev as [ev|g body|g|g| | |ev]; cbn [OperatorPipeline.pipe_step] in Hstep.
  - apply res_bind_ok in Hstep as (c & _ & [= <-]). by apply attestor_idle.
  - destruct (pi_listeners p !! g) as [[r [] [] bodies effects]|]; try (injection Hstep as <-; by apply attestor_idle).
    apply res_bind_ok in Hstep as (out & _ & [= <-]). by apply attestor_idle.
  - destruct (pi_listeners p !! g) as [l|]; [|injection Hstep as <-; by apply attestor_idle].
    destruct (ls_pending l) as [|[] rest]; try (injection Hstep as <-; by apply attestor_idle).
    destruct (pi_mq p); injection Hstep as <-; apply attestor_idle; cbn; try done. by apply prefix_app_r.
  - destruct (pi_listeners p !! g) as [[r [] [] bodies effects]|]; injection Hstep as <-; by apply attestor_idle.
  - destruct (pi_mq p) as [|b|] eqn:Hmq; try (injection Hstep as <-; by apply attestor_idle).
    apply res_bind_ok in Hstep as ([st|] & Hst & [= <-]). exists [AeMqBlock b]. split_and!; [by apply at_run_one| |done].
    intros a ->%list_elem_of_singleton. left. exists b. split; [done|]. exact (pv_notifying _ _ Hinv b Hmq).
  - injection Hstep as <-. apply attestor_idle; by destruct (pi_mq p).
  - destruct (match ev with AeMqBlock a => Some a | _ => None end) as [a|] eqn:Ha.
    { destruct ev; try done. injection Hstep as <-. by apply attestor_idle. }
    exists [ev]. destruct ev; try done; apply res_bind_ok in Hstep as ([st|] & Hst & [= <-]);
      (split_and!; [by apply at_run_one|intros a ->%list_elem_of_singleton; right; split; [by left|done]|done]).
Qed.

Lemma attestor_part_app p1 evs1 p2 evs2 p3 :
  attestor_part p1 evs1 p2 → attestor_part p2 evs2 p3 → attestor_part p1 (evs1 ++ evs2) p3.
Proof.
  intros (aevs1 & Ha1 & Hb1 & Hp1) (aevs2 & Ha2 & Hb2 & Hp2).
  exists (aevs1 ++ aevs2). split_and!; [by rewrite (at_run_app _ _ _ _ Ha1)| |by etrans].
  intros a [Hin|Hin]%elem_of_app.
  - destruct (Hb1 a Hin) as [(b & -> & Hb)|[He Hn]].
    + left. exists b. split; [done|]. destruct Hp2 as [k ->]. apply elem_of_app. by left.
    + right. split; [|done]. apply elem_of_app. by left.
  - destruct (Hb2 a Hin) as [?|[He Hn]]; [by left|right]. split; [|done]. apply elem_of_app. by right.
Qed.

Lemma pipe_run_attestor rollupIds evs : ∀ p p',
  pipe_inv rollupIds p → pipe_run p evs = Ok (Some p') → attestor_part p evs p'.
Proof.
  induction evs as [|ev evs IH]; intros p p' Hinv Hrun; cbn [OperatorPipeline.pipe_run] in Hrun.
  { injection Hrun as <-. by apply attestor_idle. }
  apply res_bind_ok in Hrun as ([p1|] & Hs & Hrun); [|done]. apply (attestor_part_app _ [ev] p1); [by eapply pipe_step_attestor|].
  eapply IH; [|done]. by eapply pipe_inv_step.
Qed.

Lemma elem_of_concat {X} (x : X) (ls : list (list X)) : x ∈ concat ls ↔ ∃ l, x ∈ l ∧ l ∈ ls.
Proof. rewrite list_elem_of_In, in_concat. setoid_rewrite list_elem_of_In. naive_solver. Qed.

(** The header [h] was published with the commitment: the delivery [body] decodes to a
    payload with transaction id [txid], one of whose blobs has the commitment and carries
    a block with this header. *)
Definition published (body txid commitment : bytes) (h : Header) : Prop :=
  ∃ payload req blob blocks,
    borsh_PublishPayload body = Ok payload ∧ pp_TransactionId payload = txid ∧
    borsh_SubmitRequest (pp_Data payload) = Ok req ∧ blob ∈ sr_Blobs req ∧ bl_Commitment blob = commitment ∧
    rlp_DecodeBlocks (bl_Data blob) = Ok blocks ∧ h ∈ blocks.

Lemma delivery_blocks_published r body b : b ∈ delivery_blocks r body →
  bd_RollupId b = r ∧ published body (bd_TransactionId b) (bd_Commitment b) (bd_Header b).
Proof.
  unfold delivery_blocks. destruct (borsh_PublishPayload body) as [payload| |] eqn:Hp; [|by intros ?%elem_of_nil..].
  destruct (borsh_SubmitRequest _) as [req| |] eqn:Hq; [|by intros ?%elem_of_nil..].
  rewrite elem_of_concat. intros (bs & Hb & (blob & -> & Hblob)%list_elem_of_fmap).
  unfold blob_blocks in Hb. destruct (rlp_DecodeBlocks _) as [blocks| |] eqn:Hd; [|by apply elem_of_nil in Hb..].
  apply list_elem_of_fmap in Hb as (h & -> & Hh). split; [done|]. by exists payload, req, blob, blocks.
Qed.

Lemma received_published rollupIds p b : pipe_inv rollupIds p → b ∈ pi_received p →
  ∃ l body, l ∈ pi_listeners p ∧ ls_rollupId l ∈ rollupIds ∧ bd_RollupId b = ls_rollupId l ∧ body ∈ ls_bodies l ∧
    published body (bd_TransactionId b) (bd_Commitment b) (bd_Header b).
Proof.
  intros [_ Hls _ Hrec _]. rewrite Hrec. intros (l & Hb & Hl)%list_elem_of_bind. rewrite Forall_forall in Hls.
  destruct (Hls l Hl) as [Hr (outs & Hout & Heq)]. destruct (outs_blocks _ _ _ Hout) as [Hbs _].
  rewrite Heq, omap_app in Hbs. assert (b ∈ concat (delivery_blocks (ls_rollupId l) <$> ls_bodies l)) as Hin.
  { rewrite <- Hbs. apply elem_of_app. by left. }
  apply elem_of_concat in Hin as (bs & Hin & (body & -> & Hbody)%list_elem_of_fmap).
  apply delivery_blocks_published in Hin as [? ?]. by exists l, body.
Qed.

(** C18: every signed message is for a header, and its commitment was published.  Whatever
    the broker delivers, however often the consumer reconnects and however the goroutines
    interleave, every message the operator signs has its own signature and is for a header
    it received, with its rollup, height, time and state root; the message's NEAR DA
    commitment and transaction id are zero, or they were published together with a block
    of the header's height and state root in a delivery of the queue of the message's
    rollup, one of the configured. *)
Theorem commitments_published {BL : BlsLaws B} rollupIds evs p m :
  pipe_run (newPipe rollupIds) evs = Ok (Some p) → m ∈ at_signed (pi_attestor p) →
  (∃ sig d, ssru_OperatorId m = operatorId ∧ ssru_BlsSignature m = Some sig ∧ sru_Digest (ssru_Message m) = Ok d ∧
     bls_verify sig (GetPubKeyG2 keypair) d = Ok true) ∧
  ∃ h, PeAttestor (AeHeader (sru_RollupId (ssru_Message m)) h) ∈ evs ∧
    sru_BlockHeight (ssru_Message m) = u64 (h_Number h) ∧ sru_Timestamp (ssru_Message m) = h_Time h ∧
    sru_StateRoot (ssru_Message m) = h_Root h ∧
    ((sru_NearDaCommitment (ssru_Message m) = replicate 32 0 ∧
      sru_NearDaTransactionId (ssru_Message m) = replicate 32 0) ∨
     ∃ l body h', l ∈ pi_listeners p ∧ ls_rollupId l = sru_RollupId (ssru_Message m) ∧ ls_rollupId l ∈ rollupIds ∧
       body ∈ ls_bodies l ∧ h_Number h' = h_Number h ∧ h_Root h' = h_Root h ∧
       published body (sru_NearDaTransactionId (ssru_Message m)) (sru_NearDaCommitment (ssru_Message m)) h').
Proof.
  intros Hrun Hm. pose proof (pipe_inv_run _ _ _ _ (pipe_inv_new rollupIds) Hrun) as Hinv.
  destruct (pipe_run_attestor _ _ _ _ (pipe_inv_new rollupIds) Hrun) as (aevs & Ha & Hb & _).
  pose proof (att_inv_run keypair operatorId aevs aevs _ _ (att_inv_new _ _ _) ltac:(done) Ha) as Hatt.
  destruct (signed_ok_meaning _ _ _ _ (inv_signed _ _ _ _ Hatt m Hm)) as (Hid & (h & Hh & Hn & Hti & Hroot & Hda) & Hsig).
  destruct Hsig as (sig & d & Hsig). split; [by exists sig, d|]. exists h. split; [|split_and!; [done..|]].
  { by destruct (Hb _ Hh) as [(b & ? & _)|[? _]]. }
  destruct Hda as [?|(b & Hbe & Hr & Hnum & Hbr & Hc & Ht)]; [by left|right].
  destruct (Hb _ Hbe) as [(b' & [= <-] & Hrec)|[_ Hn']]; [|by destruct (Hn' b)].
  destruct (received_published _ _ _ Hinv Hrec) as (l & body & Hl & Hcfg & Hbl & Hbody & Hpub).
  exists l, body, (bd_Header b). by rewrite Hc, Ht, <- Hr.
Qed.

(** *** Waiting goroutines *)

(** Every waiting goroutine has its subscription, and subscriptions have distinct ids. *)
Record waiting_ok (st : AttState) : Prop := {
  wo_sub id r h : at_waiting st !! id = Some (r, h) → ∃ subs s, nt_subscribers (at_notifier st) !! r = Some subs ∧
    s ∈ subs ∧ sub_id s = id ∧ sub_predicate s = header_predicate r h;
  wo_nodup r subs : nt_subscribers (at_notifier st) !! r = Some subs → NoDup (sub_id <$> subs);
  wo_fresh r subs s : nt_subscribers (at_notifier st) !! r = Some subs → s ∈ subs → (sub_id s < nt_next (at_notifier st))%nat;
}.

Lemma offered_id b s : sub_id (offered b s) = sub_id s ∧ sub_predicate (offered b s) = sub_predicate s.
Proof. unfold offered. by destruct (sub_predicate s b). Qed.

Lemma waiting_ok_notify st b st' : waiting_ok st → notify_state st b = Some st' → waiting_ok st'.
Proof.
  intros [Hsub Hnd Hfr]. unfold notify_state, Notify.
  destruct (nt_subscribers (at_notifier st) !! bd_RollupId b) as [subs|] eqn:Hl; [|intros [= <-]; by split].
  rewrite notify_loop_spec. case_bool_decide; [|done]. intros [= <-]. split; simpl.
  - intros id r h Hid. destruct (Hsub _ _ _ Hid) as (subs' & s & Hl' & Hs & Hsid & Hp).
    destruct (decide (r = bd_RollupId b)) as [->|Hne].
    + rewrite Hl in Hl'. injection Hl' as <-. exists (offered b <$> subs), (offered b s). rewrite lookup_insert_eq.
      destruct (offered_id b s) as [-> ->]. split_and!; [done| |done..]. by apply list_elem_of_fmap_2.
    + exists subs', s. by rewrite lookup_insert_ne by done.
  - intros r subs'. rewrite lookup_insert_Some. intros [[_ <-]|[_ Hl']]; [|by eapply Hnd].
    rewrite <- list_fmap_compose. rewrite (list_fmap_ext _ sub_id); [by eapply Hnd|]. intros ? s _. apply offered_id.
  - intros r subs' s. rewrite lookup_insert_Some. intros [[_ <-]|[_ Hl']] Hs; [|by eapply Hfr].
    apply list_elem_of_fmap in Hs as (s0 & -> & Hs). destruct (offered_id b s0) as [-> _]. by eapply Hfr.
Qed.

Lemma waiting_ok_finish st id r h found st' :
  waiting_ok st → at_waiting st !! id = Some (r, h) → finish_header keypair operatorId st id r h found = Ok st' → waiting_ok st'.
Proof.
  intros [Hsub Hnd Hfr] Hid. unfold finish_header.
  intros (out & Hout & (n & Hn & [= <-])%res_bind_ok)%res_bind_ok. unfold Unsubscribe in Hn.
  destruct (nt_subscribers (at_notifier st) !! r) as [subs|] eqn:Hl; [|done]. injection Hn as <-. split; simpl.
  - intros id' r' h' [Hne Hid']%lookup_delete_Some. destruct (Hsub _ _ _ Hid') as (subs' & s & Hl' & Hs & Hsid & Hp).
    destruct (decide (r' = r)) as [->|Hr].
    + rewrite Hl in Hl'. injection Hl' as <-. eexists _, s. rewrite lookup_insert_eq. split_and!; [done| |done..].
      apply list_elem_of_filter. split; [congruence|done].
    + exists subs', s. by rewrite lookup_insert_ne by done.
  - intros r' subs'. rewrite lookup_insert_Some. intros [[_ <-]|[_ Hl']]; [|by eapply Hnd].
    eapply sublist_NoDup; [by eapply Hnd|]. apply fmap_sublist, sublist_filter.
  - intros r' subs' s. rewrite lookup_insert_Some. intros [[_ <-]|[_ Hl']] Hs; [|by eapply Hfr].
    apply list_elem_of_filter in Hs as [_ Hs]. by eapply Hfr.
Qed.

Lemma waiting_ok_header st r h : waiting_ok st →
  let '(n, id) := Subscribe (at_notifier st) r (header_predicate r h) in
  waiting_ok (mkAttState n (<[id := (r, h)]> (at_waiting st)) (at_rebroadcast st) (at_signed st)).
Proof.
  intros [Hsub Hnd Hfr]. unfold Subscribe. set (subs0 := default [] (nt_subscribers (at_notifier st) !! r)).
  assert (∀ s, s ∈ subs0 → (sub_id s < nt_next (at_notifier st))%nat) as Hfr0.
  { intros s. subst subs0. destruct (nt_subscribers (at_notifier st) !! r) eqn:Hl; simpl; [by eapply Hfr|by intros ?%elem_of_nil]. }
  split; simpl.
  - intros id' r' h'. rewrite lookup_insert_Some. intros [[<- [= <- <-]]|[Hne Hid']].
    { eexists _, _. rewrite lookup_insert_eq. split; [done|]. split; [apply elem_of_app; right; by left|done]. }
    destruct (Hsub _ _ _ Hid') as (subs' & s & Hl' & Hs & Hsid & Hp). destruct (decide (r' = r)) as [->|Hr].
    + eexists _, s. rewrite lookup_insert_eq. split; [done|]. split; [|done]. subst subs0. rewrite Hl'. apply elem_of_app. by left.
    + exists subs', s. by rewrite lookup_insert_ne by done.
  - intros r' subs'. rewrite lookup_insert_Some. intros [[_ <-]|[_ Hl']]; [|by eapply Hnd].
    rewrite fmap_app. apply NoDup_app. split_and!.
    + subst subs0. destruct (nt_subscribers (at_notifier st) !! r) eqn:Hl; simpl; [by eapply Hnd|constructor].
    + intros x (s & -> & Hs)%list_elem_of_fmap. apply Hfr0 in Hs. intros Heq%list_elem_of_singleton. simpl in Heq. lia.
    + apply NoDup_singleton.
  - intros r' subs' s. rewrite lookup_insert_Some. intros [[_ <-]|[_ Hl']] Hs.
    + apply elem_of_app in Hs as [Hs%Hfr0| ->%list_elem_of_singleton]; simpl; lia.
    + specialize (Hfr _ _ _ Hl' Hs). lia.
Qed.

Lemma waiting_ok_step st ev st' : waiting_ok st → at_step st ev = Ok (Some st') → waiting_ok st'.
Proof.
  intros Hok Hstep. assert (∀ b rb st1, notify_state st b = Some st1 →
    waiting_ok (mkAttState (at_notifier st1) (at_waiting st1) rb (at_signed st1))) as Hnotify.
  { intros b rb st1 Hn. by destruct (waiting_ok_notify _ _ _ Hok Hn). }
  destruct ev as [r h|b|i|id|id|id]; cbn [Attestor.at_step] in Hstep.
  - pose proof (waiting_ok_header st r h Hok) as Hh. destruct (Subscribe _ _ _). by injection Hstep as <-.
  - injection Hstep as (st1 & Hn & [= <-])%bind_Some. by eapply Hnotify.
  - destruct (at_rebroadcast st !! i); [|by injection Hstep as <-].
    injection Hstep as (st1 & Hn & [= <-])%bind_Some. by eapply Hnotify.
  - destruct (at_waiting st !! id) as [[r h]|] eqn:Hid; [|by injection Hstep as <-].
    apply res_bind_ok in Hstep as (st1 & Hf & [= <-]). by eapply waiting_ok_finish.
  - destruct (at_waiting st !! id) as [[r h]|] eqn:Hid; [|by injection Hstep as <-].
    destruct (take_block _ _ _); [|by injection Hstep as <-].
    apply res_bind_ok in Hstep as (st1 & Hf & [= <-]). by eapply waiting_ok_finish.
  - destruct (at_waiting st !! id) as [[r h]|] eqn:Hid; [|by injection Hstep as <-].
    apply res_bind_ok in Hstep as (st1 & Hf & [= <-]). by eapply waiting_ok_finish.
Qed.

Lemma waiting_ok_run evs : ∀ st st', waiting_ok st → at_run st evs = Ok (Some st') → waiting_ok st'.
Proof.
  induction evs as [|ev evs IH]; intros st st' Hok Hrun; cbn [Attestor.at_run] in Hrun; [by injection Hrun as <-|].
  apply res_bind_ok in Hrun as ([st1|] & Hs & Hrun); [|done]. eapply IH; [|done]. by eapply waiting_ok_step.
Qed.

Lemma waiting_ok_new : waiting_ok NewAttestor.
Proof. split; simpl; intros *; by rewrite lookup_empty. Qed.

(** *** A delivery reaches the waiting goroutines *)

(** The subscriber after the blocks [bs] were offered to it. *)
Definition offered_all (bs : list BlockData) (s : Subscriber) : Subscriber :=
  mkSubscriber (sub_id s) (sub_predicate s) (sub_chan s ++ filter (λ b, sub_predicate s b = true) bs).

Definition room_for (n : nat) (s : Subscriber) : Prop := (length (sub_chan s) + n ≤ capacity)%nat.

Lemma offered_all_cons b bs s : offered_all bs (offered b s) = offered_all (b :: bs) s.
Proof.
  unfold offered_all, offered. destruct (sub_predicate s b) eqn:Hp; cbn [sub_id sub_predicate sub_chan].
  - rewrite filter_cons_True by done. by rewrite <- app_assoc.
  - by rewrite filter_cons_False by (by rewrite Hp).
Qed.

Lemma offered_room n b s : room_for (S n) s → room_for n (offered b s).
Proof. unfold room_for, offered. destruct (sub_predicate s b); cbn; rewrite ?length_app; cbn; lia. Qed.

Lemma notify_with_room st b subs :
  nt_subscribers (at_notifier st) !! bd_RollupId b = Some subs → Forall (room_for 1) subs →
  ∃ st', at_step st (AeMqBlock b) = Ok (Some st') ∧ at_waiting st' = at_waiting st ∧ at_signed st' = at_signed st ∧
    nt_subscribers (at_notifier st') !! bd_RollupId b = Some (offered b <$> subs).
Proof.
  intros Hl Hroom. cbn [Attestor.at_step]. unfold notify_state. rewrite Notify_spec, Hl, bool_decide_true.
  - eexists. split_and!; [done..|]. cbn [at_notifier nt_subscribers mbind option_bind]. apply lookup_insert_eq.
  - eapply Forall_impl; [done|]. unfold room_for, has_room. intros s Hs _. lia.
Qed.

(** A goroutine works off its pending effects, each block being notified at once. *)
Definition drive (g : nat) (out : list ListenEffect) : list PipeEvent :=
  out ≫= λ e, match e with SendBlock _ => [PeAdvance g; PeNotify] | _ => [PeAdvance g] end.

Lemma drive_run g r out : ∀ p l subs,
  pi_mq p = MqIdle → pi_listeners p !! g = Some l → ls_pending l = out →
  Forall (λ b, bd_RollupId b = r) (omap sent_block out) →
  nt_subscribers (at_notifier (pi_attestor p)) !! r = Some subs →
  Forall (room_for (length (omap sent_block out))) subs →
  ∃ p', pipe_run p (drive g out) = Ok (Some p') ∧
    pi_listeners p' = <[g := mkListening (ls_rollupId l) (ls_running l) [] (ls_bodies l) (ls_effects l ++ out)]> (pi_listeners p) ∧
    at_waiting (pi_attestor p') = at_waiting (pi_attestor p) ∧ at_signed (pi_attestor p') = at_signed (pi_attestor p) ∧
    nt_subscribers (at_notifier (pi_attestor p')) !! r = Some (offered_all (omap sent_block out) <$> subs).
Proof.
  induction out as [|e out IH]; intros p l subs Hmq Hg Hpend Hr Hl Hroom.
  { exists p. split; [done|]. rewrite app_nil_r. split; [|split_and!; [done..|]].
    - rewrite list_insert_id; [done|]. rewrite Hg. destruct l; simpl in *. by subst.
    - rewrite Hl. f_equal. rewrite <- (list_fmap_id subs) at 1. apply list_fmap_ext. intros ? [] _. unfold offered_all. cbn. by rewrite app_nil_r. }
  assert ((∃ b, e = SendBlock b) ∨ sent_block e = None) as [[b ->]|He] by (destruct e; eauto).
  - cbn [omap list_omap sent_block] in *. apply Forall_cons in Hr as [Hb Hr].
    destruct (notify_with_room (pi_attestor p) b subs) as (st' & Hst & Hw & Hs & Hl'); [by rewrite Hb|
      eapply Forall_impl; [exact Hroom|]; unfold room_for; cbn; lia|]. rewrite Hb in Hl'.
    destruct (IH (mkPipe (pi_consumer p) (<[g := advanced l (SendBlock b) out]> (pi_listeners p)) MqIdle (pi_received p ++ [b]) st')
      (advanced l (SendBlock b) out) (offered b <$> subs)) as (p' & Hrun & Hls & Hw' & Hs' & Hsub); [done| |done..| |].
    + cbn. apply list_lookup_insert_eq. by eapply lookup_lt_Some.
    + apply Forall_fmap. eapply Forall_impl; [exact Hroom|]. intros s. apply offered_room.
    + exists p'. split.
      { unfold drive in Hrun |- *. cbn [mbind list_bind app OperatorPipeline.pipe_run OperatorPipeline.pipe_step].
        rewrite Hg, Hpend, Hmq. cbn [res_bind pi_mq pi_attestor OperatorPipeline.pipe_step]. rewrite Hst. exact Hrun. }
      cbn in Hls, Hw', Hs'. rewrite Hls, Hw', Hs', Hw, Hs, Hsub, list_insert_insert_eq, <- app_assoc, <- list_fmap_compose.
      split_and!; [done..|]. f_equal. apply list_fmap_ext. intros ? s _. apply offered_all_cons.
  - assert (omap sent_block (e :: out) = omap sent_block out) as Ho by (cbn; by rewrite He). rewrite Ho in *.
    destruct (IH (set_listener p g (advanced l e out)) (advanced l e out) subs) as (p' & Hrun & Hls & Hw' & Hs' & Hsub);
      [done| |done..|].
    + cbn. apply list_lookup_insert_eq. by eapply lookup_lt_Some.
    + exists p'. split.
      { unfold drive in Hrun |- *. cbn [mbind list_bind OperatorPipeline.pipe_run]. destruct e; try done;
          cbn [app OperatorPipeline.pipe_run OperatorPipeline.pipe_step]; rewrite Hg, Hpend; exact Hrun. }
      cbn in Hls. rewrite Hls, list_insert_insert_eq, <- app_assoc. done.
Qed.

Lemma find_filter {X} (f : X → bool) (l : list X) : head (filter (λ x, f x = true) l) = List.find f l.
Proof.
  induction l as [|x l IH]; [done|]. cbn [List.find]. destruct (f x) eqn:Hf.
  - by rewrite filter_cons_True.
  - by rewrite filter_cons_False by (by rewrite Hf).
Qed.

Lemma find_id (subs : list Subscriber) s : NoDup (sub_id <$> subs) → s ∈ subs →
  List.find (λ x, bool_decide (sub_id x = sub_id s)) subs = Some s.
Proof.
  induction subs as [|s0 subs IH]; intros Hnd Hs; [by apply elem_of_nil in Hs|]. cbn [List.find].
  rewrite fmap_cons in Hnd. apply NoDup_cons in Hnd as [Hn Hnd]. apply elem_of_cons in Hs as [->|Hs].
  - by rewrite bool_decide_true.
  - rewrite bool_decide_false; [by apply IH|]. intros Heq. apply Hn. rewrite Heq. by apply list_elem_of_fmap_2.
Qed.

Lemma take_block_spec st r subs s : waiting_ok st → nt_subscribers (at_notifier st) !! r = Some subs → s ∈ subs →
  take_block (at_notifier st) r (sub_id s) = head (sub_chan s).
Proof.
  intros Hok Hl Hs. unfold take_block. rewrite Hl. cbn [mbind option_bind].
  by rewrite (find_id _ _ (wo_nodup _ Hok _ _ Hl) Hs).
Qed.

(** The delivery is worked off and leaves the first matching block in the channel. *)
Lemma delivery_reaches p g r bodies effects id h body b out :
  waiting_ok (pi_attestor p) → pi_mq p = MqIdle →
  pi_listeners p !! g = Some (mkListening r true [] bodies effects) →
  at_waiting (pi_attestor p) !! id = Some (r, h) → take_block (at_notifier (pi_attestor p)) r id = None →
  process_delivery r body = Ok out →
  (∀ subs, nt_subscribers (at_notifier (pi_attestor p)) !! r = Some subs →
     Forall (room_for (length (delivery_blocks r body))) subs) →
  List.find (header_predicate r h) (delivery_blocks r body) = Some b →
  ∃ p' subs, pipe_run p (PeDelivery g body :: drive g out) = Ok (Some p') ∧
    pi_listeners p' !! g = Some (mkListening r true [] (bodies ++ [body]) (effects ++ out)) ∧
    at_waiting (pi_attestor p') !! id = Some (r, h) ∧ at_signed (pi_attestor p') = at_signed (pi_attestor p) ∧
    nt_subscribers (at_notifier (pi_attestor p')) !! r = Some subs ∧
    (waiting_ok (pi_attestor p') → take_block (at_notifier (pi_attestor p')) r id = Some b).
Proof.
  intros Hok Hmq Hg Hw Hnone Hout Hroom Hfind.
  destruct (wo_sub _ Hok _ _ _ Hw) as (subs & s & Hl & Hs & <- & Hpred).
  destruct (delivery_settled_once _ _ _ Hout) as (Hbs & _ & _ & Hids). pose proof (lookup_lt_Some _ _ _ Hg) as Hlt.
  destruct (drive_run g r out (set_listener p g (mkListening r true out (bodies ++ [body]) effects))
    (mkListening r true out (bodies ++ [body]) effects) subs) as (p1 & Hdrive & Hls & Hw1 & Hs1 & Hsub); [done| |done..| |].
  { cbn. by apply list_lookup_insert_eq. }
  { rewrite Hbs. by apply Hroom. }
  exists p1, (offered_all (omap sent_block out) <$> subs). rewrite Hls, Hw1, Hs1. cbn in Hls |- *.
  rewrite list_insert_insert_eq, list_lookup_insert_eq by done. rewrite Hg, Hout.
  split_and!; [exact Hdrive|done..|]. intros Hok1. rewrite (take_block_spec _ r subs s Hok Hl Hs) in Hnone.
  etrans; [apply (take_block_spec _ r _ (offered_all (omap sent_block out) s) Hok1 Hsub); by apply list_elem_of_fmap_2|].
  cbn [offered_all sub_chan]. destruct (sub_chan s); [|done]. cbn [app]. by rewrite Hpred, Hbs, find_filter.
Qed.

Lemma acknowledged r body out P b : process_delivery r body = Ok out → List.find P (delivery_blocks r body) = Some b →
  last out = Some (Ack false).
Proof.
  intros (_ & _ & -> & _)%delivery_settled_once. unfold delivery_blocks, decodes.
  destruct (borsh_PublishPayload body); [|done..]. by destruct (borsh_SubmitRequest _).
Qed.

(** C19: a published block can be attested.  Take a state the operator reaches in which
    the goroutine of a header waits and has seen no block, the goroutine that takes the
    consumer's blocks and the listener of the header's queue are idle, and the buffers of
    the rollup's subscribers have room for the blocks of a delivery on this queue that
    carries a matching block.  Then there is a schedule, the listener handing over block
    after block and the header's goroutine taking the first it was notified of before its
    timer fires, after which the delivery is acknowledged and the header is signed with
    the commitment and transaction id of the first matching block. *)
Theorem delivered_block_attested rollupIds evs p g r bodies effects id h body b m out :
  pipe_run (newPipe rollupIds) evs = Ok (Some p) → pi_mq p = MqIdle →
  pi_listeners p !! g = Some (mkListening r true [] bodies effects) →
  at_waiting (pi_attestor p) !! id = Some (r, h) → take_block (at_notifier (pi_attestor p)) r id = None →
  process_delivery r body = Ok out →
  (∀ subs, nt_subscribers (at_notifier (pi_attestor p)) !! r = Some subs →
     Forall (room_for (length (delivery_blocks r body))) subs) →
  List.find (header_predicate r h) (delivery_blocks r body) = Some b → attest r h (Some b) = Ok (Some m) →
  ∃ p', pipe_run (newPipe rollupIds)
          (evs ++ PeDelivery g body :: drive g out ++ [PeAttestor (AeTakeBlock id)]) = Ok (Some p') ∧
    at_signed (pi_attestor p') = at_signed (pi_attestor p) ++ [m] ∧
    sru_NearDaCommitment (ssru_Message m) = bd_Commitment b ∧
    sru_NearDaTransactionId (ssru_Message m) = bd_TransactionId b ∧
    ∃ l, pi_listeners p' !! g = Some l ∧ ls_pending l = [] ∧ last (ls_effects l) = Some (Ack false).
Proof.
  intros Hrun Hmq Hg Hw Hnone Hout Hroom Hfind Hatt.
  assert (∀ evs p, pipe_run (newPipe rollupIds) evs = Ok (Some p) → waiting_ok (pi_attestor p)) as Hreach.
  { intros evs' q (aevs & Ha & _)%(pipe_run_attestor rollupIds); [|apply pipe_inv_new]. by eapply waiting_ok_run, Ha; apply waiting_ok_new. }
  destruct (delivery_reaches p g r bodies effects id h body b out) as (p1 & subs & Hrun1 & Hl1 & Hw1 & Hs1 & Hsub & Htake);
    [by eapply Hreach|done..|].
  rewrite <- (pipe_run_app _ _ _ _ Hrun) in Hrun1. specialize (Htake (Hreach _ _ Hrun1)).
  rewrite app_comm_cons, app_assoc, (pipe_run_app _ _ _ _ Hrun1).
  cbn [OperatorPipeline.pipe_run OperatorPipeline.pipe_step Attestor.at_step]. rewrite Hw1, Htake. unfold finish_header.
  rewrite Hatt. cbn [res_bind]. unfold Unsubscribe. rewrite Hsub. cbn [res_bind].
  eexists. split; [done|]. cbn. rewrite Hs1. split; [done|]. unfold Attestor.attest in Hatt.
  destruct (SignStateRootUpdateMessage _ _); [|done..]. injection Hatt as <-. split_and!; [done..|].
  eexists. split_and!; [done..|]. cbn. by rewrite last_app, (acknowledged _ _ _ _ _ Hout Hfind).
Qed.

(** Once [processMQBlocks] has returned, a goroutine with a block to send is stuck: the
    send does not look at the context.  Its delivery is never settled. *)
Theorem listener_leaks evs : ∀ p p' g l b rest,
  pi_mq p = MqStopped → pi_listeners p !! g = Some l → ls_pending l = SendBlock b :: rest →
  pipe_run p evs = Ok (Some p') → pi_listeners p' !! g = Some l.
Proof.
  induction evs as [|ev evs IH]; intros p p' g l b rest Hmq Hg Hp Hrun; cbn [OperatorPipeline.pipe_run] in Hrun; [by injection Hrun as <-|].
  apply res_bind_ok in Hrun as ([p1|] & Hs & Hrun); [|done].
  enough (pi_mq p1 = MqStopped ∧ pi_listeners p1 !! g = Some l) as [Hmq1 Hg1] by (by eapply IH). clear Hrun IH.
  destruct ev as [ev|g' body|g'|g'| | |ev]; cbn [OperatorPipeline.pipe_step] in Hs.
  - apply res_bind_ok in Hs as (c & _ & [= <-]). split; [done|]. by apply lookup_app_l_Some.
  - destruct (pi_listeners p !! g') as [[r [] [] bodies effects]|] eqn:Hg'; try (by injection Hs as <-).
    apply res_bind_ok in Hs as (out & _ & [= <-]). split; [done|]. cbn. rewrite list_lookup_insert_ne; [done|].
    intros ->. rewrite Hg in Hg'. by injection Hg' as ->.
  - destruct (pi_listeners p !! g') as [l'|] eqn:Hg'; [|by injection Hs as <-].
    destruct (decide (g' = g)) as [->|Hne].
    { rewrite Hg in Hg'. injection Hg' as <-. rewrite Hp, Hmq in Hs. by injection Hs as <-. }
    rewrite Hmq in Hs. destruct (ls_pending l') as [|[] rest']; injection Hs as <-; split; try done; cbn; by rewrite list_lookup_insert_ne.
  - destruct (pi_listeners p !! g') as [[r [] [] bodies effects]|] eqn:Hg'; try (by injection Hs as <-).
    injection Hs as <-. split; [done|]. cbn. rewrite list_lookup_insert_ne; [done|]. intros ->. rewrite Hg in Hg'. by injection Hg' as ->.
  - rewrite Hmq in Hs. by injection Hs as <-.
  - rewrite Hmq in Hs. by injection Hs as <-.
  - destruct ev; try (apply res_bind_ok in Hs as ([st|] & _ & [= <-]); done). by injection Hs as <-.
Qed.

End Theory.

Module Examples.

#[local] Existing Instances ToyBls.ops ToyHash.ops ToyAbi.ops Consumer.Examples.toy_decode.
#[local] Existing Instances ToyBls.bls_laws ToyHash.hash_laws ToyAbi.abi_laws.

(** The operator connects, listens to the queue of rollup 5 and waits for the block of
    height 8. *)
Definition op_id : OperatorId := replicate 32 1.
Definition header : Header := mkHeader 8 (replicate 32 9) 1700000000.
Definition connect : list PipeEvent :=
  [PeConsumer (CeDial (Ok tt)); PeConsumer (CeSetup (Ok tt) Consumer.Examples.good); PeAttestor (AeHeader 5 header)].
Definition out : list ListenEffect := res_or [] (process_delivery 5 [1]).

Definition reached (evs : list PipeEvent) : Pipe :=
  match pipe_run (B := ToyBls.ops) (5 : Z) op_id (newPipe [5]) evs with Ok (Some p) => p | _ => newPipe [5] end.

Definition message : SignedStateRootUpdateMessage :=
  match attest (B := ToyBls.ops) (5 : Z) op_id 5 header (Some (Consumer.Examples.block 8)) with
  | Ok (Some m) => m
  | _ => mkSignedStateRootUpdate (mkStateRootUpdate 0 0 0 [] [] []) None []
  end.

Lemma delivered_block_attested_witness :
  sru_NearDaCommitment (ssru_Message message) = replicate 32 2 ∧
  ∃ p', pipe_run (B := ToyBls.ops) (5 : Z) op_id (newPipe [5])
          (connect ++ PeDelivery 0 [1] :: drive 0 out ++ [PeAttestor (AeTakeBlock 0)]) = Ok (Some p') ∧
    at_signed (pi_attestor p') = [message].
Proof.
  destruct (delivered_block_attested (B := ToyBls.ops) (5 : Z) op_id [5] connect (reached connect) 0 5 [] [] 0 header [1]
    (Consumer.Examples.block 8) message out) as (p' & Hrun & Hs & Hc & _).
  - reflexivity.
  - reflexivity.
  - reflexivity.
  - reflexivity.
  - reflexivity.
  - reflexivity.
  - intros subs [= <-]. repeat constructor.
  - reflexivity.
  - reflexivity.
  - split; [exact Hc|]. exists p'. split; [exact Hrun|exact Hs].
Defined.

Definition full : list PipeEvent := connect ++ PeDelivery 0 [1] :: drive 0 out ++ [PeAttestor (AeTakeBlock 0)].

Lemma commitments_published_witness :
  ∃ l body h, l ∈ pi_listeners (reached full) ∧ ls_rollupId l = 5 ∧ body ∈ ls_bodies l ∧ h_Root h = replicate 32 9 ∧
    published body (replicate 32 1) (replicate 32 2) h.
Proof.
  destruct (commitments_published (B := ToyBls.ops) (5 : Z) op_id [5] full (reached full) message)
    as (_ & h0 & _ & _ & _ & Hroot0 & [[Hc _]|(l & body & h & Hl & Hr & _ & Hb & _ & Hroot & Hp)]).
  - reflexivity.
  - left.
  - discriminate Hc.
  - exists l, body, h. rewrite Hroot, <- Hroot0. split_and!; [exact Hl|exact Hr|exact Hb|reflexivity|exact Hp].
Defined.

Definition first_listener : Listening :=
  mkListening 5 true [] [[1]] out.

Lemma settled_deliveries_handed_over_witness :
  settlements first_listener = [Ack false] ∧
  [Consumer.Examples.block 7; Consumer.Examples.block 8] `sublist_of` pi_received (reached full).
Proof.
  split; [reflexivity|].
  refine (proj1 (proj2 (proj2 (settled_deliveries_handed_over (B := ToyBls.ops) (5 : Z) op_id [5] full (reached full) 0
    first_listener _ _)))).
  - reflexivity.
  - reflexivity.
Defined.

End Examples.
