(* ===== verification/Operator.v ===== *)
(** * The operator: operator/operator.go and operator/avs_manager.go

    The AVS manager turns operator set events into messages; the operator's main loop
    signs what it is given and hands it to the aggregator client, each in a goroutine
    of its own.  What the reader, the clients and the writers answer are arguments. *)

From S2P Require Import Prelude CoreTypes Instances Messages MessagesTheory Smt AvsReader RegistryContract RegistryContractTheory.
From S2P Require Import OperatorRegistrations BlsAgg Database DatabaseTheory Aggregator.
From S2P Require Import AggregatorTheory Servers Attestor Rollups.

(** ** AvsManager *)

(** [OperatorSetUpdatedAtBlock]. *)
Record OperatorSetUpdatedEvent := mkOperatorSetUpdatedEvent {
  ose_Id : OperatorSetUpdateId;
  ose_Timestamp : Timestamp }.

Section AvsManager.
Context `{B : BlsOps} `{H : HashOps} `{A : AbiOps}.

Definition delta_operator (op : RegistryOperator) : RollupOperator :=
  mkRollupOperator (Some (NewG1Point (bn_X (rg_Pubkey op)) (bn_Y (rg_Pubkey op)))) (Some (rg_Weight op)).

(** Returns the message sent on [operatorSetUpdateMessageChan]. *)
Definition handleOperatorSetUpdate (getDelta : OperatorSetUpdateId → go (list RegistryOperator))
    (data : OperatorSetUpdatedEvent) : go OperatorSetUpdateMessage :=
  let? operatorSetDelta := getDelta (ose_Id data) in
  Ok (mkOperatorSetUpdate (ose_Id data) (ose_Timestamp data) (delta_operator <$> operatorSetDelta)).

(** [AvsManager.Start] up to its goroutines. *)
Definition manager_Start (isRegistered : go bool) (subscribeTasks subscribeUpdates : go unit) : go unit :=
  let? operatorIsRegistered := isRegistered in
  if negb operatorIsRegistered
  then Err (NewError "operator is not registered. Registering operator using the operator-cli before starting operator")
  else let? _ := subscribeTasks in subscribeUpdates.

(** The calls that change the chain, in order. *)
Inductive ChainCall : Type :=
| CallMint (operatorAddr : Address) (amount : Z)
| CallDeposit (strategyAddr : Address) (amount : Z)
| CallRegisterAsOperator (operatorAddr : Address)
| CallRegisterWithAvs (operatorId : OperatorId) (expiry : Z)
| CallDeregister (quorumNumbers : list QuorumNum) (pubkey : BN254G1Point).

(** The answers of the clients, by the call that needs them. *)
Record ManagerEnv := mkManagerEnv {
  me_GetStrategyAndUnderlyingToken : go Address;
  me_GetErc20Mock : go unit;
  me_GetNoSendTxOpts : go unit;
  me_assembleMint : go unit;
  me_SendMint : go unit;
  me_Deposit : go unit;
  me_RegisterAsOperator : go unit;
  me_IsOperatorRegistered : go bool;
  me_BlockNumber : go Z;
  me_BlockTime : Z → go Z;
  me_RegisterWithAvs : go unit;
  me_Deregister : go unit }.

(** A call to a writer is recorded whatever it answers. *)
Definition call (c : ChainCall) (answer : go unit) : list ChainCall * go unit := ([c], answer).

Definition then_ (r : list ChainCall * go unit) (k : list ChainCall * go unit) : list ChainCall * go unit :=
  match r with
  | (cs, Ok _) => (cs ++ k.1, k.2)
  | r => r
  end.

Definition DepositIntoStrategy (env : ManagerEnv) (operatorAddr strategyAddr : Address) (amount : Z)
    : list ChainCall * go unit :=
  match (let? _ := me_GetStrategyAndUnderlyingToken env in
         let? _ := me_GetErc20Mock env in
         let? _ := me_GetNoSendTxOpts env in me_assembleMint env) with
  | Err e => ([], Err e)
  | Panic => ([], Panic)
  | Ok _ =>
      then_ (call (CallMint operatorAddr amount) (me_SendMint env))
        (call (CallDeposit strategyAddr amount) (me_Deposit env))
  end.

Definition RegisterOperatorWithEigenlayer (env : ManagerEnv) (operatorAddr : Address)
    : list ChainCall * go unit :=
  call (CallRegisterAsOperator operatorAddr) (me_RegisterAsOperator env).

Definition sigValidForSeconds : Z := 1000000.

Definition RegisterOperatorWithAvs (env : ManagerEnv) (blsKeyPair : KeyPair) : list ChainCall * go unit :=
  match (let? curBlockNum := me_BlockNumber env in me_BlockTime env (i64 curBlockNum)) with
  | Err e => ([], Err e)
  | Panic => ([], Panic)
  | Ok curBlockTime =>
      call (CallRegisterWithAvs (OperatorIdFromG1Pubkey (GetPubKeyG1 blsKeyPair))
              (i64 (i64 curBlockTime + sigValidForSeconds)))
        (me_RegisterWithAvs env)
  end.

Definition DeregisterOperator (env : ManagerEnv) (blsKeyPair : KeyPair) : list ChainCall * go unit :=
  call (CallDeregister [0] (ConvertToBN254G1Point (GetPubKeyG1 blsKeyPair))) (me_Deregister env).

(** ** Operator *)

(** A failed call of [logger.Fatal] ends the process. *)
Definition fatal (r : list ChainCall * go unit) : list ChainCall * go unit :=
  match r with
  | (cs, Err _) => (cs, Panic)
  | r => r
  end.

Definition registerOperatorOnStartup (env : ManagerEnv) (blsKeyPair : KeyPair)
    (operatorAddr mockTokenStrategyAddr : Address) : list ChainCall * go unit :=
  let ignore (r : list ChainCall * go unit) :=
    match r with (cs, Err _) => (cs, Ok tt) | r => r end in
  then_ (ignore (RegisterOperatorWithEigenlayer env operatorAddr))
    (then_ (if negb (bool_decide (mockTokenStrategyAddr = 0))
            then fatal (DepositIntoStrategy env operatorAddr mockTokenStrategyAddr 1000) else ([], Ok tt))
       (match me_IsOperatorRegistered env with
        | Err _ | Panic => ([], Panic)
        | Ok true => ([], Ok tt)
        | Ok false => fatal (RegisterOperatorWithAvs env blsKeyPair)
        end)).

Definition SignTaskResponse (blsKeypair : KeyPair) (operatorId : OperatorId)
    (taskResponse : CheckpointTaskResponse) : go SignedCheckpointTaskResponse :=
  let? taskResponseHash := ctr_Digest taskResponse in
  Ok (mkSignedCheckpointTaskResponse taskResponse (Some (SignMessage blsKeypair taskResponseHash)) operatorId).

Definition SignOperatorSetUpdate (message : OperatorSetUpdateMessage) (blsKeyPair : KeyPair)
    (operatorId : OperatorId) : go SignedOperatorSetUpdateMessage :=
  let? messageHash := osu_Digest message in
  Ok (mkSignedOperatorSetUpdate message (Some (SignMessage blsKeyPair messageHash)) operatorId).

(** [CheckpointTaskCreated], with the fields the handler reads. *)
Record CheckpointTaskCreated := mkCheckpointTaskCreated {
  tc_TaskIndex : TaskIndex;
  tc_FromTimestamp : Timestamp;
  tc_ToTimestamp : Timestamp }.

Inductive OpAction : Type :=
| OnTasksReceived
| SendStateRootUpdate (m : SignedStateRootUpdateMessage)
| SendOperatorSetUpdate (m : SignedOperatorSetUpdateMessage)
| SendCheckpointTaskResponse (m : SignedCheckpointTaskResponse).

Context `{T : SmtOps}.

(** Errors are logged and end the handler. *)
Definition ProcessCheckpointTask (getMessages : Timestamp → Timestamp → go CheckpointMessages)
    (blsKeypair : KeyPair) (operatorId : OperatorId) (event : CheckpointTaskCreated) : go (list OpAction) :=
  match (let? checkpointMessages := getMessages (tc_FromTimestamp event) (tc_ToTimestamp event) in
         let? checkpointTaskResponse :=
           NewCheckpointTaskResponseFromMessages (tc_TaskIndex event) checkpointMessages in
         SignTaskResponse blsKeypair operatorId checkpointTaskResponse) with
  | Panic => Panic
  | Err _ => Ok [OnTasksReceived]
  | Ok signed => Ok [OnTasksReceived; SendCheckpointTaskResponse signed]
  end.

(** The cases of the select in [Operator.Start]; [getMessages] is the aggregator client
    at the time the handler runs. *)
Inductive OpEvent : Type :=
| OeCtxDone
| OeMetricsError (err : GoError)
| OeSignedRoot (m : SignedStateRootUpdateMessage)
| OeCheckpointTaskCreated (event : CheckpointTaskCreated)
    (getMessages : Timestamp → Timestamp → go CheckpointMessages)
| OeCheckpointTaskChanClosed
| OeOperatorSetUpdate (m : OperatorSetUpdateMessage)
| OeOperatorSetUpdateChanClosed.

(** One iteration: the actions and whether the loop goes on. *)
Definition op_step (blsKeypair : KeyPair) (operatorId : OperatorId) (ev : OpEvent)
    : go (list OpAction * bool) :=
  match ev with
  | OeCtxDone | OeCheckpointTaskChanClosed | OeOperatorSetUpdateChanClosed => Ok ([], false)
  | OeMetricsError _ => Panic
  | OeSignedRoot m => Ok ([SendStateRootUpdate m], true)
  | OeCheckpointTaskCreated event getMessages =>
      let? actions := ProcessCheckpointTask getMessages blsKeypair operatorId event in Ok (actions, true)
  | OeOperatorSetUpdate m =>
      match SignOperatorSetUpdate m blsKeypair operatorId with
      | Panic => Panic
      | Err _ => Ok ([], true)
      | Ok signed => Ok ([SendOperatorSetUpdate signed], true)
      end
  end.

Fixpoint op_run (blsKeypair : KeyPair) (operatorId : OperatorId) (evs : list OpEvent) : go (list OpAction) :=
  match evs with
  | [] => Ok []
  | ev :: evs =>
      let? r := op_step blsKeypair operatorId ev in
      if r.2 then let? rest := op_run blsKeypair operatorId evs in Ok (r.1 ++ rest) else Ok r.1
  end.

End AvsManager.

Section Theory.
Context `{B : BlsOps} `{H : HashOps} `{A : AbiOps} `{T : SmtOps}.
Context {BL : BlsLaws B}.
Context {G1 : GormOps StateRootUpdateModel} {G2 : GormOps OperatorSetUpdateModel}.
Context {S : Type} `{OI : !OperatorsInfo S}.
Context (keypair : KeyPair) (operatorId : OperatorId).

#[local] Notation AggEnv := (AggEnv (S := S)).

(** ** Signatures *)

(** The operator is registered with the aggregator under its own key. *)
Definition registered (env : AggEnv) : Prop :=
  ∃ info pk, operator_info (ae_operatorRegistrationsService env) operatorId = Some info ∧
    oi_Pubkeys info = Some pk ∧ pk_G2 pk = GetPubKeyG2 keypair.

Lemma own_signature_ok (env : AggEnv) m d :
  registered env → any_OperatorId m = operatorId → any_Digest m = Ok d →
  any_BlsSignature m = Some (SignMessage keypair d) → verifySignature env m = Ok tt.
Proof.
  intros (info & pk & Hinfo & Hpk & HG2) Hid Hd Hsig. unfold verifySignature. rewrite Hd. cbn [res_bind].
  rewrite Hid, Hinfo, Hsig, Hpk, HG2. by rewrite bls_verify_sign.
Qed.

(** An action's message passes the aggregator's signature check. *)
Definition accepted (env : AggEnv) (a : OpAction) : Prop :=
  match a with
  | OnTasksReceived => True
  | SendStateRootUpdate m => verifySignature env (AnyStateRootUpdate m) = Ok tt
  | SendOperatorSetUpdate m => verifySignature env (AnyOperatorSetUpdate m) = Ok tt
  | SendCheckpointTaskResponse m => verifySignature env (AnyCheckpointTaskResponse m) = Ok tt
  end.

(** Signed roots come from the attestor. *)
Definition from_attestor (ev : OpEvent) : Prop :=
  match ev with
  | OeSignedRoot m => ∃ r h found, attest keypair operatorId r h found = Ok (Some m)
  | _ => True
  end.

Lemma attested_accepted (env : AggEnv) r h found m :
  registered env → attest keypair operatorId r h found = Ok (Some m) → accepted env (SendStateRootUpdate m).
Proof.
  intros Hreg Hatt. unfold attest, SignStateRootUpdateMessage in Hatt.
  set (msg := mkStateRootUpdate _ _ _ _ _ _) in Hatt. clearbody msg. destruct (sru_Digest msg) as [d| |] eqn:Hd; [|done..]. injection Hatt as <-.
  apply (own_signature_ok env _ d); [done..| |done]. cbn [any_Digest ssru_Message sctr_TaskResponse sosu_Message]. by rewrite Hd.
Qed.

Lemma op_step_accepted (env : AggEnv) ev actions go_on :
  registered env → from_attestor ev → op_step keypair operatorId ev = Ok (actions, go_on) →
  Forall (accepted env) actions.
Proof.
  intros Hreg Hatt Hstep. destruct ev as [|e|m|event get| |m|]; cbn [op_step] in Hstep;
    try (injection Hstep as <- <-; constructor); try done.
  - destruct Hatt as (r & h & found & Hm). by eapply attested_accepted.
  - apply res_bind_ok in Hstep as (acts & Hp & [= <- <-]). unfold ProcessCheckpointTask in Hp.
    destruct (res_bind _ _) as [signed|e|] eqn:Hs; [|injection Hp as <-; by repeat constructor|done].
    injection Hp as <-. constructor; [done|]. constructor; [|constructor].
    apply res_bind_ok in Hs as (cm & _ & (tr & _ & (d & Hd & [= <-])%res_bind_ok)%res_bind_ok).
    apply (own_signature_ok env _ d); [done..| |done]. cbn [any_Digest ssru_Message sctr_TaskResponse sosu_Message]. by rewrite Hd.
  - destruct (SignOperatorSetUpdate _ _ _) as [signed|e|] eqn:Hs; [|injection Hstep as <- <-; constructor|done].
    injection Hstep as <- <-. constructor; [|constructor].
    apply res_bind_ok in Hs as (d & Hd & [= <-]).
    apply (own_signature_ok env _ d); [done..| |done]. cbn [any_Digest ssru_Message sctr_TaskResponse sosu_Message]. by rewrite Hd.
Qed.

Lemma op_run_accepted (env : AggEnv) evs actions :
  registered env → Forall from_attestor evs → op_run keypair operatorId evs = Ok actions →
  Forall (accepted env) actions.
Proof.
  intros Hreg Hatt. revert actions. induction Hatt as [|ev evs Hev _ IH]; intros actions Hrun; cbn [op_run] in Hrun.
  { injection Hrun as <-. constructor. }
  apply res_bind_ok in Hrun as ([acts go_on] & Hstep & Hrun). apply op_step_accepted with (env := env) in Hstep; [|done..].
  simpl in Hrun. destruct go_on; [|by injection Hrun as <-].
  apply res_bind_ok in Hrun as (rest & Hrest & [= <-]). apply Forall_app. auto.
Qed.

(** Everything an operator sends passes the aggregator's signature check.  Along any
    run of its main loop, whatever events arrive and whatever the aggregator answers
    to its queries, every state root update, operator set update and checkpoint
    response it sends verifies under its registered key. *)
Theorem honest_messages_accepted (env : AggEnv) evs actions :
  registered env → Forall from_attestor evs → op_run keypair operatorId evs = Ok actions →
  Forall (accepted env) actions.
Proof. apply op_run_accepted. Qed.

(** A checkpoint window of more than two hours is never answered.  If more than two
    hours and the aggregation delay have passed since the last checkpoint when the
    aggregator creates a task, the server refuses the operators' query for the
    task's window, and an operator that processes the task sends no response,
    whatever the database holds. *)
Theorem long_window_unanswerable (agg : Aggregator) idx b last interval :
  0 < last → last + 91 + 7200 < b → b < 2 ^ 63 →
  let w := checkpoint_window b last interval in
  ProcessCheckpointTask (λ from to, rpc_GetAggregatedCheckpointMessages agg (Some (mkCheckpointArgs from to)))
    keypair operatorId (mkCheckpointTaskCreated idx w.1 w.2) = Ok [OnTasksReceived].
Proof.
  intros Hl Hb Hmax w. unfold ProcessCheckpointTask. cbn [tc_FromTimestamp tc_ToTimestamp].
  assert (w = (last + 1, b - 90)) as -> by (apply checkpoint_window_eq; lia).
  unfold rpc_GetAggregatedCheckpointMessages, args_IsValid, MaxCheckpointRange. cbn [ca_FromTimestamp ca_ToTimestamp fst snd].
  rewrite (proj2 (Z.ltb_ge _ _)) by lia. rewrite u64_small by (unfold is_u64; lia).
  by rewrite (proj2 (Z.ltb_lt _ _)) by lia.
Qed.

(** ** Operator set updates *)

Lemma delta_message_binding getDelta data delta m :
  Forall (λ op, 0 ≤ bn_X (rg_Pubkey op) < fp_modulus ∧ 0 ≤ bn_Y (rg_Pubkey op) < fp_modulus) delta →
  getDelta (ose_Id data) = Ok delta → handleOperatorSetUpdate getDelta data = Ok m →
  osu_ToBinding m = Ok (mkOsuBinding (ose_Id data) (ose_Timestamp data) (converted <$> delta)).
Proof.
  intros Hco Hdelta Hm. unfold handleOperatorSetUpdate in Hm. rewrite Hdelta in Hm. injection Hm as <-.
  rewrite <- (osu_binding_roundtrip (mkOsuBinding (ose_Id data) (ose_Timestamp data) (converted <$> delta))).
  - unfold NewOperatorSetUpdateMessageFromBinding. cbn [osb_Id osb_Timestamp osb_Operators].
    by rewrite <- list_fmap_compose.
  - cbn [osb_Operators]. by apply Forall_fmap.
Qed.

(** C17: the message an operator derives from a mainnet operator set update takes a
    rollup that holds the previous set to the new one.  For every iteration order of
    the Go map, the message the operator builds from the event, encoded for the contract
    and signed by a quorum of the previous set, is executed by a registry that holds the
    previous set and expects the update, and leaves it with exactly the new set. *)
Theorem operator_message_updates_rollup {AL : AbiLaws A} {N : Bn254Ops} {NL : Bn254Laws N} address
    (K : BN254G1Point → Prop) pdqsort order threshold prev new data m b info script c :
  (∀ p, K p → g1_valid p = true) → (∀ p, K p → coordinates_ok p) →
  (∀ p q, K p → K q → hashG1Point p = hashG1Point q → p = q) →
  (∀ less l, pdqsort less l ≡ₚ l) → (∀ u, order u ≡ₚ map_to_list u) →
  set_ok K prev → set_ok K new →
  Forall (λ op, 0 ≤ bn_X (rg_Pubkey op) < fp_modulus ∧ 0 ≤ bn_Y (rg_Pubkey op) < fp_modulus) (prev ++ new) →
  handleOperatorSetUpdate
    (λ _, GetOperatorSetUpdateDelta pdqsort order (Ok (mkOperatorSetUpdateInfo prev new))) data = Ok m →
  osu_ToBinding m = Ok b → quorum_signed K threshold prev b info → healthy (script 0%nat) →
  0 ≤ ose_Id data → ose_Id data + 1 < 2 ^ 64 → holds K threshold prev (ose_Id data) (ch_registry c) →
  ∃ c', UpdateOperatorSet address script m info c = (c', Ok tt) ∧
    holds K threshold new (ose_Id data + 1) (ch_registry c').
Proof.
  intros HKv HKc HKi Hperm Horder Hprev Hnew Hco Hm Hb Hq Hs H0 Hmax Hc.
  assert (Forall (λ op, coordinates_ok (rg_Pubkey op)) (prev ++ new)) as Hco'.
  { apply Forall_forall. intros op [?|?]%elem_of_app; apply HKc; [by apply (so_known _ _ Hprev)|by apply (so_known _ _ Hnew)]. }
  destruct (delta_correct_lemma pdqsort Hperm order Horder prev new Hco') as (delta & Hdelta & _ & Hmem).
  assert (osu_ToBinding m = Ok (mkOsuBinding (ose_Id data) (ose_Timestamp data) (converted <$> delta))) as Hb'.
  { refine (delta_message_binding _ _ _ _ _ _ Hm); [|exact Hdelta]. apply Forall_forall. intros [p w] [Hn Hp]%Hmem. simpl.
    destruct (decide (p ∈ rg_Pubkey <$> prev ++ new)) as [Hin|Hout].
    - apply list_elem_of_fmap in Hin as (op & -> & Hop). by eapply Forall_forall in Hco.
    - rewrite fmap_app, not_elem_of_app in Hout. destruct Hout.
      rewrite weight_in_absent in Hn, Hp by done. congruence. }
  rewrite Hb' in Hb. injection Hb as <-. pose proof Hs as (_ & _ & _ & _ & _ & _ & Hp).
  destruct (signed_update_accepted address K HKv HKc HKi pdqsort Hperm order Horder threshold prev new delta
    (ose_Id data) (ose_Timestamp data) info _ (ch_registry c) Hprev Hnew Hdelta Hq H0 Hmax Hp Hc) as (r' & Hacc & Hr').
  eexists. split; [by eapply healthy_update|done].
Qed.

End Theory.

Module Examples.

#[local] Existing Instances ToyBls.ops ToyHash.ops ToyAbi.ops ToySmt.ops ToyBn254.ops.
#[local] Existing Instances ToyBls.bls_laws ToyHash.hash_laws ToyAbi.abi_laws ToyBn254.laws.
#[local] Existing Instances DatabaseTheory.Examples.G1 DatabaseTheory.Examples.G2.

#[local] Notation start := OperatorRegistrations.Examples.start.
#[local] Notation keys1 := OperatorRegistrations.Examples.keys1.
#[local] Notation empty_db := DatabaseTheory.Examples.empty_db.

(** Operator 1 of the registrations service, with secret key 1. *)
Definition id1 : OperatorId := OperatorIdFromG1Pubkey (pk_G1 keys1).

Definition no_avs : AvsEnv :=
  mkAvsEnv (Ok 0) (λ _ _, Err ContextCanceled) (λ _ _, Err ContextCanceled) (λ _ _ _, Err ContextCanceled).

Definition agg_env : AggEnv (S := Ors) := {|
  ae_avs := no_avs;
  ae_now := 1700000000;
  ae_operatorRegistrationsService := start;
  ae_GetOperatorSetUpdateBlock _ := Ok 100;
  ae_BlockNumber := Ok 1000;
  ae_BlockTime _ := Ok 1700000000;
  ae_GetLastCheckpointToTimestamp := Ok 1600000000;
  ae_SendNewCheckpointTask _ _ _ _ := Err ContextCanceled |}.

Definition signed_root (k : Z) : SignedStateRootUpdateMessage :=
  match attest (B := ToyBls.ops) k id1 3 (mkHeader 100 (replicate 32 7) 1700000000) None with
  | Ok (Some m) => m
  | _ => mkSignedStateRootUpdate (mkStateRootUpdate 0 0 0 [] [] []) None []
  end.

Definition no_messages : CheckpointMessages := mkCheckpointMessages [] [] [] [].

Definition ex_events : list OpEvent :=
  [OeSignedRoot (signed_root 1);
   OeCheckpointTaskCreated (mkCheckpointTaskCreated 5 100 200) (λ _ _, Ok no_messages);
   OeCheckpointTaskCreated (mkCheckpointTaskCreated 6 100 200) (λ _ _, Err RpcErrShutdown);
   OeOperatorSetUpdate (mkOperatorSetUpdate 4 1700000000 []); OeCtxDone; OeSignedRoot (signed_root 1)].

Definition ex_actions (k : Z) : list OpAction := res_or [] (op_run (B := ToyBls.ops) k id1 ex_events).

(** The root, the first response and the set update are sent; the second task only
    counts, and nothing is handled after the context is done. *)
Example ex_actions_sent : length (ex_actions 1) = 5%nat.
Proof. vm_compute. reflexivity. Qed.

Lemma honest_messages_accepted_witness : Forall (accepted agg_env) (ex_actions 1).
Proof.
  apply (honest_messages_accepted (B := ToyBls.ops) (1 : Z) id1 agg_env ex_events).
  - exists (mkOperatorInfo (Some keys1) EmptyString), keys1. split_and!; reflexivity.
  - repeat constructor; exists 3, (mkHeader 100 (replicate 32 7) 1700000000), None; reflexivity.
  - reflexivity.
Defined.

Definition ex_aggregator : Aggregator :=
  mkAggregator 60 NewMessageBlsAggregatorService NewMessageBlsAggregatorService
    NewMessageBlsAggregatorService ∅ empty_db.

Lemma long_window_unanswerable_witness :
  ProcessCheckpointTask (B := ToyBls.ops) (λ from to, rpc_GetAggregatedCheckpointMessages ex_aggregator (Some (mkCheckpointArgs from to)))
    (1 : Z) id1 (mkCheckpointTaskCreated 7 1600000001 1699999910) = Ok [OnTasksReceived].
Proof.
  apply (long_window_unanswerable (B := ToyBls.ops) (1 : Z) id1 ex_aggregator 7 1700000000 1600000000 60); lia.
Defined.

Definition ex_message : OperatorSetUpdateMessage := Rollups.Examples.message 4 Rollups.Examples.delta01.

Lemma operator_message_updates_rollup_witness :
  ∃ c', UpdateOperatorSet 7 (λ _, Rollups.Examples.fine) ex_message
      (Rollups.Examples.signed_by 3 (Rollups.Examples.binding 4 Rollups.Examples.delta01)) Rollups.Examples.chain0 = (c', Ok tt) ∧
    holds RegistryContractTheory.Examples.small_key 66 Rollups.Examples.set1 5 (ch_registry c').
Proof.
  apply (operator_message_updates_rollup 7 RegistryContractTheory.Examples.small_key Rollups.Examples.keep map_to_list
    66 Rollups.Examples.set0 Rollups.Examples.set1 (mkOperatorSetUpdatedEvent 4 1700000000) ex_message
    (Rollups.Examples.binding 4 Rollups.Examples.delta01)).
  - exact RegistryContractTheory.Examples.small_valid.
  - exact Rollups.Examples.small_coordinates.
  - exact RegistryContractTheory.Examples.small_inj.
  - intros less l. reflexivity.
  - intros u. reflexivity.
  - exact Rollups.Examples.set0_ok.
  - exact Rollups.Examples.set1_ok.
  - repeat constructor; simpl; lia.
  - reflexivity.
  - reflexivity.
  - apply Rollups.Examples.everybody_signed. vm_compute. reflexivity.
  - exact Rollups.Examples.fine_healthy.
  - simpl; lia.
  - simpl; lia.
  - exact Rollups.Examples.chain0_holds.
Defined.

End Examples.
