(* ===== verification/OperatorLoop.v ===== *)
(** * The operator and its AVS manager at work: operator/avs_manager.go, operator/operator.go

    The goroutines [AvsManager.Start] leaves running, the goroutine per operator set update
    that fetches the delta and sends the message on an unbuffered channel, and the main
    loop of [Operator.Start] that signs what it receives.  [rn_step] is one step of any of
    them.  Every update is signed at most once and with its own delta
    ([updates_signed_once]), one that is fetched is signed ([fetched_update_signed]), and
    an operator that loses a subscription goes on without ever signing again what came
    through it ([lost_subscription_silent]). *)

From S2P Require Import Prelude CoreTypes Instances Messages MessagesTheory Smt AvsReader.
From S2P Require Import Attestor Operator.

Section Loop.
Context `{B : BlsOps} `{H : HashOps} `{A : AbiOps} `{T : SmtOps} (keypair : KeyPair) (operatorId : OperatorId).

(** A goroutine of [handleOperatorSetUpdate]: waiting for the reader, sending its message,
    or gone, with the message it handed over. *)
Inductive Handler : Type :=
| HFetching (data : OperatorSetUpdatedEvent)
| HSending (data : OperatorSetUpdatedEvent) (message : OperatorSetUpdateMessage)
| HReturned (data : OperatorSetUpdatedEvent) (message : option OperatorSetUpdateMessage).

(** [rn_updates] and [rn_tasks]: whether the goroutines that watch the two subscriptions
    run, and so the subscriptions themselves; [rn_loop]: whether the main loop runs.  Each
    of the three sees a done context on its own. *)
Record Running := mkRunning {
  rn_updates : bool;
  rn_tasks : bool;
  rn_loop : bool;
  rn_received : list OperatorSetUpdatedEvent;
  rn_handlers : list Handler;
  rn_actions : list OpAction }.

Definition rn_started : Running := mkRunning true true true [] [] [].

Inductive RnEvent : Type :=
| ReUpdate (data : OperatorSetUpdatedEvent)
| ReUpdatesEnd
| ReTasksEnd
| ReAnswer (i : nat) (delta : go (list RegistryOperator))
| ReHandOver (i : nat)
| ReTask (event : CheckpointTaskCreated) (getMessages : Timestamp → Timestamp → go CheckpointMessages)
| ReSignedRoot (m : SignedStateRootUpdateMessage)
| ReCtxDone
| ReMetricsError (err : GoError).

Definition set_handlers (s : Running) (hs : list Handler) : Running :=
  mkRunning (rn_updates s) (rn_tasks s) (rn_loop s) (rn_received s) hs (rn_actions s).

(** The main loop takes an event, if it runs. *)
Definition loop_takes (s : Running) (ev : OpEvent) : go Running :=
  if rn_loop s then
    let? r := op_step keypair operatorId ev in
    Ok (mkRunning (rn_updates s) (rn_tasks s) r.2 (rn_received s) (rn_handlers s) (rn_actions s ++ r.1))
  else Ok s.

(** One step; an event that is not enabled changes nothing. *)
Definition rn_step (s : Running) (ev : RnEvent) : go Running :=
  match ev with
  | ReUpdate data =>
      if rn_updates s then
        Ok (mkRunning true (rn_tasks s) (rn_loop s) (rn_received s ++ [data])
              (rn_handlers s ++ [HFetching data]) (rn_actions s))
      else Ok s
  | ReUpdatesEnd =>
      Ok (mkRunning false (rn_tasks s) (rn_loop s) (rn_received s) (rn_handlers s) (rn_actions s))
  | ReTasksEnd =>
      Ok (mkRunning (rn_updates s) false (rn_loop s) (rn_received s) (rn_handlers s) (rn_actions s))
  | ReAnswer i delta =>
      match rn_handlers s !! i with
      | Some (HFetching data) =>
          match handleOperatorSetUpdate (λ _, delta) data with
          | Panic => Panic
          | Err _ => Ok (set_handlers s (<[i := HReturned data None]> (rn_handlers s)))
          | Ok message => Ok (set_handlers s (<[i := HSending data message]> (rn_handlers s)))
          end
      | _ => Ok s
      end
  | ReHandOver i =>
      match rn_handlers s !! i with
      | Some (HSending data message) =>
          if rn_loop s then
            loop_takes (set_handlers s (<[i := HReturned data (Some message)]> (rn_handlers s))) (OeOperatorSetUpdate message)
          else Ok s
      | _ => Ok s
      end
  | ReTask event getMessages => if rn_tasks s then loop_takes s (OeCheckpointTaskCreated event getMessages) else Ok s
  | ReSignedRoot m => loop_takes s (OeSignedRoot m)
  | ReCtxDone => loop_takes s OeCtxDone
  | ReMetricsError err => loop_takes s (OeMetricsError err)
  end.

Fixpoint rn_run (s : Running) (evs : list RnEvent) : go Running :=
  match evs with
  | [] => Ok s
  | ev :: evs => let? s := rn_step s ev in rn_run s evs
  end.

(** ** Properties *)

(** The signed update an action sends, and the one a finished handler is answered with. *)
Definition sent_update (a : OpAction) : option SignedOperatorSetUpdateMessage :=
  match a with SendOperatorSetUpdate m => Some m | _ => None end.
Definition handler_update (h : Handler) : option SignedOperatorSetUpdateMessage :=
  match h with
  | HReturned _ (Some message) =>
      match SignOperatorSetUpdate message keypair operatorId with Ok signed => Some signed | _ => None end
  | _ => None
  end.

(** The message of a handler is for its event, with some delta the reader answered. *)
Definition message_for (data : OperatorSetUpdatedEvent) (m : OperatorSetUpdateMessage) : Prop :=
  ∃ delta, m = mkOperatorSetUpdate (ose_Id data) (ose_Timestamp data) (delta_operator <$> delta).

Definition handler_for (data : OperatorSetUpdatedEvent) (h : Handler) : Prop :=
  match h with
  | HFetching d => d = data
  | HSending d m => d = data ∧ message_for data m
  | HReturned d m => d = data ∧ match m with Some m => message_for data m | None => True end
  end.

Record rn_inv (s : Running) : Prop := {
  ri_handlers : Forall2 handler_for (rn_received s) (rn_handlers s);
  ri_sent : omap sent_update (rn_actions s) ≡ₚ omap handler_update (rn_handlers s);
}.

Lemma op_step_updates ev r : (∀ m, ev ≠ OeOperatorSetUpdate m) → op_step keypair operatorId ev = Ok r →
  omap sent_update r.1 = [].
Proof.
  intros Hne Hs. destruct ev as [| |m|event getMessages| |m|]; cbn in Hs; try (by injection Hs as <-); try done.
  - unfold ProcessCheckpointTask in Hs. apply res_bind_ok in Hs as (actions & Ha & [= <-]). cbn.
    by case_match; simplify_eq.
  - by destruct (Hne m).
Qed.

Lemma rn_inv_loop s ev s' :
  rn_inv s → (∀ m, ev ≠ OeOperatorSetUpdate m) → loop_takes s ev = Ok s' → rn_inv s'.
Proof.
  intros [Hh Hs] Hne. unfold loop_takes. destruct (rn_loop s); [|by intros [= <-]].
  intros (r & Hr & [= <-])%res_bind_ok. split; cbn; [done|]. by rewrite omap_app, (op_step_updates _ _ Hne Hr), app_nil_r.
Qed.

Lemma omap_insert_perm {X Y} (f : X → option Y) (l : list X) i x x' :
  l !! i = Some x → f x = None →
  omap f (<[i := x']> l) ≡ₚ omap f l ++ match f x' with Some y => [y] | None => [] end.
Proof.
  revert i; induction l as [|z l IH]; intros [|i] Hl Hn; [done..| |].
  - injection Hl as ->. cbn. rewrite Hn. destruct (f x'); [|by rewrite app_nil_r]. by rewrite Permutation_app_comm.
  - specialize (IH i Hl Hn). cbn. destruct (f z); [by rewrite IH|done].
Qed.

Lemma handler_insert l hs i h h' :
  Forall2 handler_for l hs → hs !! i = Some h → (∀ data, handler_for data h → handler_for data h') →
  Forall2 handler_for l (<[i := h']> hs).
Proof.
  intros Hf Hl Himp. destruct (Forall2_lookup_r _ _ _ _ _ Hf Hl) as (data & Hd & Hh).
  rewrite <- (list_insert_id l i data Hd). apply Forall2_insert; [done|]. by apply Himp.
Qed.

Lemma rn_inv_step s ev s' : rn_inv s → rn_step s ev = Ok s' → rn_inv s'.
Proof.
  intros Hinv. pose proof Hinv as [Hh Hs]. destruct ev as [data| | |i delta|i|event getMessages|m| |err]; cbn [rn_step].
  - destruct (rn_updates s); intros [= <-]; [|done]. split; cbn; [by apply Forall2_app; [|repeat constructor]|].
    by rewrite omap_app, app_nil_r.
  - by intros [= <-].
  - by intros [= <-].
  - destruct (rn_handlers s !! i) as [[data| |]|] eqn:Hl; try by intros [= <-].
    unfold handleOperatorSetUpdate. destruct delta as [delta|e|]; cbn [res_bind]; intros [= <-].
    all: split; cbn; [eapply handler_insert; [done..|]; intros data' ->; cbn; try done; (split; [done|]); by exists delta|].
    all: by rewrite (omap_insert_perm _ _ _ _ _ Hl), app_nil_r.
  - destruct (rn_handlers s !! i) as [[|data m|]|] eqn:Hl; try by intros [= <-].
    destruct (rn_loop s) eqn:Hloop; [|by intros [= <-]]. unfold loop_takes. cbn [set_handlers rn_loop]. rewrite Hloop.
    intros (r & Hr & [= <-])%res_bind_ok. split; cbn.
    { eapply handler_insert; [done..|]. by intros data' [-> Hm]. }
    rewrite (omap_insert_perm _ _ _ _ _ Hl) by done. rewrite omap_app, Hs. f_equiv. cbn in Hr |- *.
    destruct (SignOperatorSetUpdate m keypair operatorId); by simplify_eq.
  - destruct (rn_tasks s); [|by intros [= <-]]. by apply rn_inv_loop.
  - by apply rn_inv_loop.
  - by apply rn_inv_loop.
  - by apply rn_inv_loop.
Qed.

Lemma rn_inv_run evs : ∀ s s', rn_inv s → rn_run s evs = Ok s' → rn_inv s'.
Proof.
  induction evs as [|ev evs IH]; intros s s' Hinv Hrun; cbn [rn_run] in Hrun; [by injection Hrun as <-|].
  apply res_bind_ok in Hrun as (s1 & Hs & Hrun). eapply IH; [|done]. by eapply rn_inv_step.
Qed.

Lemma handler_update_ok {BL : BlsLaws B} data h m :
  handler_for data h → handler_update h = Some m →
  message_for data (sosu_Message m) ∧ sosu_OperatorId m = operatorId ∧
  ∃ sig d, sosu_BlsSignature m = Some sig ∧ osu_Digest (sosu_Message m) = Ok d ∧
    bls_verify sig (GetPubKeyG2 keypair) d = Ok true.
Proof.
  destruct h as [| |d [msg|]]; cbn; [done..| |done]. intros [-> Hm]. unfold SignOperatorSetUpdate.
  destruct (osu_Digest msg) as [dig| |] eqn:Hd; cbn [res_bind]; [|done..]. intros [= <-]. cbn. split; [done|]. split; [done|].
  eexists _, dig. split_and!; [done..|]. apply bls_verify_sign.
Qed.

Lemma handler_ids {BL : BlsLaws B} received handlers : Forall2 handler_for received handlers →
  ((λ m, osu_Id (sosu_Message m)) <$> omap handler_update handlers) `sublist_of` (ose_Id <$> received).
Proof.
  induction 1 as [|data h received handlers Hh _ IH]; [constructor|]. cbn.
  destruct (handler_update h) as [m|] eqn:Hm; [|by constructor].
  destruct (handler_update_ok _ _ _ Hh Hm) as [[delta Hmsg] _]. cbn. rewrite Hmsg. cbn. by constructor.
Qed.

(** C39: every operator set update is signed at most once, for what it is.  Along any
    interleaving of the subscriptions, the handlers, the reader's answers and the main
    loop, there is one handler per update event; the signed updates the operator has sent
    are, in some order, those of the messages the handlers handed over, each for its
    event's id and timestamp with a delta the reader answered and with the operator's
    signature; if mainnet's ids are distinct, no two signed updates have the same id. *)
Theorem updates_signed_once {BL : BlsLaws B} evs s :
  rn_run rn_started evs = Ok s →
  Forall2 handler_for (rn_received s) (rn_handlers s) ∧
  omap sent_update (rn_actions s) ≡ₚ omap handler_update (rn_handlers s) ∧
  (∀ m, SendOperatorSetUpdate m ∈ rn_actions s →
     (∃ data, data ∈ rn_received s ∧ message_for data (sosu_Message m)) ∧ sosu_OperatorId m = operatorId ∧
     ∃ sig d, sosu_BlsSignature m = Some sig ∧ osu_Digest (sosu_Message m) = Ok d ∧
       bls_verify sig (GetPubKeyG2 keypair) d = Ok true) ∧
  (NoDup (ose_Id <$> rn_received s) →
     NoDup ((λ m, osu_Id (sosu_Message m)) <$> omap sent_update (rn_actions s))).
Proof.
  intros Hrun. assert (rn_inv rn_started) as H0 by (by split).
  destruct (rn_inv_run _ _ _ H0 Hrun) as [Hh Hs]. split; [done|]. split; [done|]. split.
  - intros m Hm. assert (m ∈ omap sent_update (rn_actions s)) as Hin.
    { apply list_elem_of_omap. by exists (SendOperatorSetUpdate m). }
    rewrite Hs in Hin. apply list_elem_of_omap in Hin as (h & Hin & Hm').
    apply list_elem_of_lookup in Hin as [i Hi]. destruct (Forall2_lookup_r _ _ _ _ _ Hh Hi) as (data & Hd & Hf).
    destruct (handler_update_ok _ _ _ Hf Hm') as [? ?]. split; [|done]. exists data. split; [by eapply list_elem_of_lookup_2|done].
  - intros Hnd. rewrite Hs. eapply sublist_NoDup; [exact Hnd|]. by apply handler_ids.
Qed.

(** An update whose delta is fetched is signed and sent, while the main loop runs. *)
Theorem fetched_update_signed s i data delta signed :
  rn_loop s = true → rn_handlers s !! i = Some (HFetching data) →
  SignOperatorSetUpdate (mkOperatorSetUpdate (ose_Id data) (ose_Timestamp data) (delta_operator <$> delta)) keypair operatorId = Ok signed →
  ∃ s', rn_run s [ReAnswer i (Ok delta); ReHandOver i] = Ok s' ∧
    rn_actions s' = rn_actions s ++ [SendOperatorSetUpdate signed] ∧ rn_loop s' = true.
Proof.
  intros Hloop Hl Hsig. cbn [rn_run rn_step]. rewrite Hl. unfold handleOperatorSetUpdate. cbn [res_bind].
  cbn [rn_run rn_step set_handlers rn_handlers rn_loop]. rewrite list_lookup_insert_eq by (by eapply lookup_lt_Some). rewrite Hloop.
  unfold loop_takes. cbn [set_handlers rn_loop]. rewrite Hloop. cbn [op_step]. rewrite Hsig. by eexists.
Qed.

Lemma loop_takes_same s ev s' : loop_takes s ev = Ok s' →
  rn_updates s' = rn_updates s ∧ rn_tasks s' = rn_tasks s ∧ rn_received s' = rn_received s.
Proof. unfold loop_takes. destruct (rn_loop s); [|by intros [= <-]]. by intros (r & _ & [= <-])%res_bind_ok. Qed.

Lemma updates_off s ev s' : rn_updates s = false → rn_step s ev = Ok s' →
  rn_updates s' = false ∧ rn_received s' = rn_received s.
Proof.
  intros Hoff. destruct ev as [data| | |i delta|i|event getMessages|m| |err]; cbn [rn_step].
  - rewrite Hoff. by intros [= <-].
  - by intros [= <-].
  - by intros [= <-].
  - repeat case_match; intros Hs; simplify_eq/=; done.
  - repeat case_match; try (by intros [= <-]). intros (-> & _ & ->)%loop_takes_same. done.
  - destruct (rn_tasks s); [|by intros [= <-]]. intros (-> & _ & ->)%loop_takes_same. done.
  - intros (-> & _ & ->)%loop_takes_same. done.
  - intros (-> & _ & ->)%loop_takes_same. done.
  - intros (-> & _ & ->)%loop_takes_same. done.
Qed.

(** An operator that loses the subscription to the operator set updates goes on silently:
    the main loop is not told, and whatever happens later, no further update is taken. *)
Theorem lost_subscription_silent evs s s1 s' :
  rn_step s ReUpdatesEnd = Ok s1 → rn_run s1 evs = Ok s' →
  rn_loop s1 = rn_loop s ∧ rn_actions s1 = rn_actions s ∧ rn_received s' = rn_received s.
Proof.
  intros [= <-] Hrun. split; [done|]. split; [done|].
  match type of Hrun with rn_run ?x _ = _ => change (rn_received s) with (rn_received x); assert (rn_updates x = false) as Hoff by done;
    revert Hoff Hrun; generalize x end.
  induction evs as [|ev evs IH]; intros x Hoff Hrun; cbn [rn_run] in Hrun; [by injection Hrun as <-|].
  apply res_bind_ok in Hrun as (x1 & Hs & Hrun). destruct (updates_off _ _ _ Hoff Hs) as [Hoff' <-]. by apply IH.
Qed.

End Loop.

Module Examples.

#[local] Existing Instances ToyBls.ops ToyHash.ops ToyAbi.ops.
#[local] Existing Instances ToyBls.bls_laws ToyHash.hash_laws ToyAbi.abi_laws.
#[local] Existing Instance ToySmt.ops.

Definition event (id : Z) : OperatorSetUpdatedEvent := mkOperatorSetUpdatedEvent id 1700000000.
Definition joined : list RegistryOperator := [mkRegistryOperator (mkBN254G1Point 3 0) 30].

(** Two updates; the second is answered first, and the first cannot be fetched. *)
Definition evs : list RnEvent :=
  [ReUpdate (event 4); ReUpdate (event 5); ReAnswer 1 (Ok joined); ReHandOver 1; ReAnswer 0 (Err (ExternalError "rpc")); ReUpdatesEnd].

Definition final : Running := res_or rn_started (rn_run (B := ToyBls.ops) (5 : Z) (replicate 32 1) rn_started evs).

Example final_ids : (λ m, osu_Id (sosu_Message m)) <$> omap sent_update (rn_actions final) = [5].
Proof. vm_compute. reflexivity. Qed.

Lemma updates_signed_once_witness :
  NoDup ((λ m, osu_Id (sosu_Message m)) <$> omap sent_update (rn_actions final)).
Proof.
  refine (proj2 (proj2 (proj2 (updates_signed_once (B := ToyBls.ops) (5 : Z) (replicate 32 1) evs final _))) _).
  - apply res_or_ok. vm_compute. reflexivity.
  - apply (bool_decide_unpack (NoDup [4; 5])). vm_compute. exact I.
Defined.

End Examples.
