(* ===== verification/SafeClient.v ===== *)
(** * The resilient Ethereum client: core/safeclient/client.go and utils.go

    [SubscribeFilterLogs] and [SubscribeNewHead] keep a subscription alive: a goroutine
    forwards what the node sends and subscribes again when the node's subscription
    ends or stays silent; after a resubscription the logs of the last blocks are fetched
    in chunks, and a cache of the last hundred log hashes suppresses duplicates.  The
    node's answers are arguments of the events.  A resubscription is two events, the
    request and what follows the answer, because the subscriber may unsubscribe in
    between. *)

From stdpp Require Import relations.
From S2P Require Import Prelude CoreTypes.

(** ** SafeSubscription *)

(** The subscriptions to the node that are open, by number, next to the fields of the
    struct. *)
Record SafeSubscription := mkSafeSubscription {
  ss_underlying : nat;
  ss_unsubscribed : bool;
  ss_open : gset nat;
  ss_next : nat }.

Definition NewSafeSubscription : SafeSubscription := mkSafeSubscription 0 false {[0%nat]} 1.

Definition Unsubscribe (s : SafeSubscription) : SafeSubscription :=
  if ss_unsubscribed s then s
  else mkSafeSubscription (ss_underlying s) true (ss_open s ∖ {[ss_underlying s]}) (ss_next s).

(** The node opens another subscription. *)
Definition open_sub (s : SafeSubscription) : SafeSubscription * nat :=
  (mkSafeSubscription (ss_underlying s) (ss_unsubscribed s) ({[ss_next s]} ∪ ss_open s) (S (ss_next s)),
   ss_next s).

Definition SetUnderlyingSub (s : SafeSubscription) (sub : nat) : SafeSubscription :=
  mkSafeSubscription sub (ss_unsubscribed s) (ss_open s ∖ {[ss_underlying s]}) (ss_next s).

(** ** Logs *)

(** [types.Log]: [lg_rlp] is what [EncodeRLP] writes. *)
Record Log := mkLog {
  lg_rlp : bytes;
  lg_BlockNumber : Z;
  lg_BlockHash : bytes;
  lg_TxHash : bytes;
  lg_Index : Z }.

(** [big.Int.Bytes]. *)
Definition big_bytes (z : Z) : bytes :=
  if bool_decide (z = 0) then [] else be_encode (Z.to_nat (Z.log2 z / 8 + 1)) z.

Section SafeClient.
Context (sha256 : bytes → bytes).

Definition hashLog (log : Log) : bytes :=
  sha256 (lg_rlp log ++ lg_BlockHash log ++ lg_TxHash log ++ big_bytes (u64 (lg_Index log))).

Definition cache_size : nat := 100.

(** [lru.Cache.ContainsOrAdd], the newest key first: a key that is present is not moved. *)
Definition ContainsOrAdd (cache : list bytes) (key : bytes) : bool * list bytes :=
  if bool_decide (key ∈ cache) then (true, cache) else (false, take cache_size (key :: cache)).

(** The variables the closures of [SubscribeFilterLogs] share, what was sent on [ch],
    the resubscription that waits for its answer, and whether the goroutine runs. *)
Record LogSub := mkLogSub {
  ls_sub : SafeSubscription;
  ls_lastBlock : Z;
  ls_cache : list bytes;
  ls_sent : list Log;
  ls_pending : option nat;
  ls_running : bool }.

Definition tryCacheLog (st : LogSub) (log : Log) : bool * LogSub :=
  let '(ok, cache) := ContainsOrAdd (ls_cache st) (hashLog log) in
  (negb ok, mkLogSub (ls_sub st) (ls_lastBlock st) cache (ls_sent st) (ls_pending st) (ls_running st)).

Definition forward_log (st : LogSub) (log : Log) : LogSub :=
  let '(fresh, st) := tryCacheLog st log in
  if (fresh : bool) then
    mkLogSub (ls_sub st) (Z.max (ls_lastBlock st) (lg_BlockNumber log)) (ls_cache st)
      (ls_sent st ++ [log]) (ls_pending st) (ls_running st)
  else st.

(** The chunks of the loop in [resubFilterLogs]; [None] when it has not ended after
    [fuel] iterations. *)
Fixpoint filter_loop (fuel : nat) (FilterLogs : Z → Z → go (list Log)) (chunk fromBlock currentBlock : Z)
    : option (go (list Log)) :=
  if fromBlock <=? currentBlock then
    match fuel with
    | O => None
    | S fuel =>
        let toBlock := Z.min (u64 (u64 (fromBlock + chunk) - 1)) currentBlock in
        match FilterLogs (i64 fromBlock) (i64 toBlock) with
        | Panic => Some Panic
        | Err e => Some (Err e)
        | Ok logs =>
            rest ← filter_loop fuel FilterLogs chunk (u64 (fromBlock + chunk)) currentBlock;
            Some (let? more := rest in Ok (logs ++ more))
        end
    end
  else Some (Ok []).

Definition range_start (maxRange lastBlock currentBlock : Z) : Z :=
  let rangeStartBlock := if currentBlock <? maxRange then 0 else u64 (currentBlock - maxRange) in
  Z.max lastBlock (u64 (rangeStartBlock + 1)).

Definition resubFilterLogs (chunk maxRange lastBlock : Z) (BlockNumber : go Z)
    (FilterLogs : Z → Z → go (list Log)) : option (go (list Log)) :=
  match BlockNumber with
  | Panic => Some Panic
  | Err e => Some (Err e)
  | Ok currentBlock =>
      if currentBlock <=? lastBlock then Some (Ok [])
      else
        let fromBlock := range_start maxRange lastBlock currentBlock in
        filter_loop (S (Z.to_nat (currentBlock - fromBlock))) FilterLogs chunk fromBlock currentBlock
  end.

Inductive LogEvent : Type :=
| LgLog (log : Log)
| LgResub (answer : go unit)
| LgResubAnswered (BlockNumber : go Z) (FilterLogs : Z → Z → go (list Log))
| LgUnsubscribe
| LgSafeErr
| LgClose.

Definition set_sub (st : LogSub) (s : SafeSubscription) (pending : option nat) (running : bool) : LogSub :=
  mkLogSub s (ls_lastBlock st) (ls_cache st) (ls_sent st) pending running.

(** [LgResub] is the ticker or the end of the node's subscription; [LgUnsubscribe] the
    subscriber; [LgClose] the client's [Close] or the context.  [None]: the goroutine is
    caught in the loop over the chunks. *)
Definition log_step (chunk maxRange : Z) (st : LogSub) (ev : LogEvent) : option (go LogSub) :=
  match ev with
  | LgUnsubscribe => Some (Ok (set_sub st (Unsubscribe (ls_sub st)) (ls_pending st) (ls_running st)))
  | _ =>
  if negb (ls_running st) then Some (Ok st)
  else
    match ls_pending st, ev with
    | None, LgLog log => Some (Ok (forward_log st log))
    | None, LgResub (Ok _) =>
        let '(s, sub) := open_sub (ls_sub st) in Some (Ok (set_sub st s (Some sub) true))
    | None, LgResub (Err _) => Some (Ok st)
    | None, LgResub Panic => Some Panic
    | Some sub, LgResubAnswered bn filter =>
        let st := set_sub st (SetUnderlyingSub (ls_sub st) sub) None true in
        r ← resubFilterLogs chunk maxRange (ls_lastBlock st) bn filter;
        Some match r with
             | Panic => Panic
             | Err _ => Ok st
             | Ok missedLogs => Ok (foldl forward_log st missedLogs)
             end
    | None, LgSafeErr =>
        Some (Ok (if ss_unsubscribed (ls_sub st) then set_sub st (ls_sub st) None false else st))
    | None, LgClose => Some (Ok (set_sub st (Unsubscribe (ls_sub st)) None false))
    | _, _ => Some (Ok st)
    end
  end.

Fixpoint log_run (chunk maxRange : Z) (st : LogSub) (evs : list LogEvent) : option (go LogSub) :=
  match evs with
  | [] => Some (Ok st)
  | ev :: evs =>
      r ← log_step chunk maxRange st ev;
      match r with
      | Ok st => log_run chunk maxRange st evs
      | r => Some r
      end
  end.

(** [SubscribeFilterLogs] up to the goroutine. *)
Definition SubscribeFilterLogs (BlockNumber : go Z) (subscribe : go unit) : go LogSub :=
  let? currentBlock := BlockNumber in
  let? _ := subscribe in
  Ok (mkLogSub NewSafeSubscription currentBlock [] [] None true).

(** ** Heads *)

Record HeadSub := mkHeadSub {
  hs_sub : SafeSubscription;
  hs_receivedBlock : bool;
  hs_sent : list Z;
  hs_pending : option nat;
  hs_running : bool }.

(** [SubscribeNewHead] up to the goroutine. *)
Definition SubscribeNewHead (subscribe : go unit) : go HeadSub :=
  let? _ := subscribe in Ok (mkHeadSub NewSafeSubscription false [] None true).

(** Headers by number; [answer] is that of a resubscription, if one is attempted. *)
Inductive HeadEvent : Type :=
| HdHeader (header : Z)
| HdTicker (answer : go unit)
| HdUnderlyingErr (answer : go unit)
| HdResubAnswered
| HdUnsubscribe
| HdSafeErr
| HdClose.

Definition head_resub (st : HeadSub) (answer : go unit) : go HeadSub :=
  match answer with
  | Panic => Panic
  | Err _ => Ok st
  | Ok _ =>
      let '(s, sub) := open_sub (hs_sub st) in
      Ok (mkHeadSub s (hs_receivedBlock st) (hs_sent st) (Some sub) (hs_running st))
  end.

Definition head_step (st : HeadSub) (ev : HeadEvent) : go HeadSub :=
  let set s pending running := mkHeadSub s (hs_receivedBlock st) (hs_sent st) pending running in
  match ev with
  | HdUnsubscribe => Ok (set (Unsubscribe (hs_sub st)) (hs_pending st) (hs_running st))
  | _ =>
  if negb (hs_running st) then Ok st
  else
    match hs_pending st, ev with
    | None, HdHeader h => Ok (mkHeadSub (hs_sub st) true (hs_sent st ++ [h]) None true)
    | None, HdTicker answer =>
        if hs_receivedBlock st then Ok (mkHeadSub (hs_sub st) false (hs_sent st) None true)
        else head_resub st answer
    | None, HdUnderlyingErr answer => head_resub st answer
    | Some sub, HdResubAnswered => Ok (set (SetUnderlyingSub (hs_sub st) sub) None true)
    | None, HdSafeErr => Ok (if ss_unsubscribed (hs_sub st) then set (hs_sub st) None false else st)
    | None, HdClose => Ok (set (Unsubscribe (hs_sub st)) None false)
    | _, _ => Ok st
    end
  end.

End SafeClient.

(** ** Properties of the log subscription *)

Section Theory.
Context (sha256 : bytes → bytes).

#[local] Notation hashLog := (hashLog sha256).
#[local] Notation forward_log := (forward_log sha256).
#[local] Notation log_step := (log_step sha256).
#[local] Notation log_run := (log_run sha256).

Lemma forward_log_cases st log :
  (hashLog log ∈ ls_cache st ∧ forward_log st log = st) ∨
  (hashLog log ∉ ls_cache st ∧
   ls_sent (forward_log st log) = ls_sent st ++ [log] ∧
   ls_cache (forward_log st log) = take cache_size (hashLog log :: ls_cache st)).
Proof.
  unfold SafeClient.forward_log, tryCacheLog, ContainsOrAdd.
  case_bool_decide as Hin; cbn [negb]; [left|right]; [by destruct st|done].
Qed.

Lemma forward_log_sub st log :
  ls_sub (forward_log st log) = ls_sub st ∧ ls_pending (forward_log st log) = ls_pending st ∧
  ls_running (forward_log st log) = ls_running st.
Proof.
  unfold SafeClient.forward_log, tryCacheLog. by destruct (ContainsOrAdd _ _) as [[] ?].
Qed.

Lemma forward_logs_sub logs : ∀ st,
  ls_sub (foldl forward_log st logs) = ls_sub st ∧ ls_pending (foldl forward_log st logs) = ls_pending st ∧
  ls_running (foldl forward_log st logs) = ls_running st.
Proof.
  induction logs as [|log logs IH]; intros st; cbn [foldl]; [done|].
  destruct (IH (forward_log st log)) as (-> & -> & ->). apply forward_log_sub.
Qed.

(** What a batch of logs adds: only logs of the batch, and every log of the batch whose
    hash was not in the cache. *)
Lemma forward_logs_spec logs : ∀ st, ∃ new,
  ls_sent (foldl forward_log st logs) = ls_sent st ++ new ∧
  (∀ log, log ∈ new → log ∈ logs) ∧
  (∀ log, log ∈ logs → hashLog log ∈ ls_cache st ∨ hashLog log ∈ hashLog <$> new) ∧
  (∀ h, h ∈ ls_cache (foldl forward_log st logs) → h ∈ ls_cache st ∨ h ∈ hashLog <$> new).
Proof.
  induction logs as [|log logs IH]; intros st; cbn [foldl].
  { exists []. rewrite app_nil_r. split_and!; [done| |by intros log ?%elem_of_nil|by left].
    intros log Hl. by apply elem_of_nil in Hl. }
  destruct (IH (forward_log st log)) as (new & Hsent & Hnew & Hall & Hcache).
  destruct (forward_log_cases st log) as [[Hin Heq]|(Hnin & Hs & Hc)].
  - rewrite Heq in *. exists new. split_and!; [done| | |done].
    + intros l Hl. right. by apply Hnew.
    + intros l [->|Hl]%elem_of_cons; [by left|by apply Hall].
  - assert (∀ h, h ∈ ls_cache (forward_log st log) → h ∈ ls_cache st ∨ h = hashLog log) as Hold.
    { intros h. rewrite Hc. intros Hh%elem_of_take. destruct Hh as (i & Hi & _).
      apply list_elem_of_lookup_2 in Hi. set_solver. }
    exists (log :: new). rewrite Hsent, Hs, <- app_assoc. split_and!; [done| | |].
    + intros l [->|Hl]%elem_of_cons; [by left|right; by apply Hnew].
    + intros l [->|Hl]%elem_of_cons; [right; by left|].
      destruct (Hall l Hl) as [Hh|Hh]; [|right; by right].
      destruct (Hold _ Hh) as [?| ->]; [by left|right; by left].
    + intros h Hh. destruct (Hcache h Hh) as [Hh'|Hh']; [|right; by right].
      destruct (Hold _ Hh') as [?| ->]; [by left|right; by left].
Qed.

(** ** The loop over the chunks *)

(** The logs a node has for a range. *)
Definition logs_between (L : list Log) (a b : Z) : list Log :=
  filter (λ l, a ≤ lg_BlockNumber l ∧ lg_BlockNumber l ≤ b) L.

Lemma filter_loop_complete L FilterLogs chunk cur : 1 ≤ chunk → cur + chunk < 2 ^ 63 →
  (∀ a b, FilterLogs a b = Ok (logs_between L a b)) → ∀ fuel from,
  0 ≤ from → cur - from < Z.of_nat fuel →
  ∃ logs, filter_loop fuel FilterLogs chunk from cur = Some (Ok logs) ∧
    ∀ log, log ∈ logs ↔ log ∈ L ∧ from ≤ lg_BlockNumber log ≤ cur.
Proof.
  intros Hchunk Hmax Hfilter. induction fuel as [|fuel IH]; intros from Hfrom Hfuel; cbn [filter_loop].
  { rewrite (proj2 (Z.leb_gt _ _)) by lia. exists []. split; [done|]. intros log. rewrite elem_of_nil. lia. }
  destruct (Z.leb_spec from cur) as [Hle|Hgt].
  2:{ exists []. split; [done|]. intros log. rewrite elem_of_nil. lia. }
  rewrite !(u64_small (from + chunk)), u64_small by (unfold is_u64; lia).
  rewrite !i64_small by lia. rewrite Hfilter. destruct (IH (from + chunk)) as (more & -> & Hmore); [lia..|].
  cbn [mbind option_bind res_bind]. eexists. split; [done|]. intros log.
  unfold logs_between. rewrite elem_of_app, list_elem_of_filter, Hmore. split.
  - intros [[? ?]|[? ?]]; (split; [done|lia]).
  - intros [Hin Hb]. destruct (decide (lg_BlockNumber log ≤ from + chunk - 1)); [left|right]; (split; [|done]) || split; (done || lia).
Qed.

(** With a chunk size of zero the loop never ends, unless the node returns an error. *)
Lemma zero_chunk_diverges FilterLogs from cur fuel :
  (∀ a b, ∃ logs, FilterLogs a b = Ok logs) → is_u64 from → from ≤ cur →
  filter_loop fuel FilterLogs 0 from cur = None.
Proof.
  intros Hf Hu Hle. induction fuel as [|fuel IH]; cbn [filter_loop]; rewrite (proj2 (Z.leb_le _ _)) by done; [done|].
  destruct (Hf (i64 from) (i64 (Z.min (u64 (u64 (from + 0) - 1)) cur))) as [logs ->].
  rewrite Z.add_0_r, (u64_small from) by done. by rewrite IH.
Qed.

(** More fuel does not change the outcome. *)
Lemma filter_loop_mono FilterLogs chunk cur fuel : ∀ fuel' from r,
  filter_loop fuel FilterLogs chunk from cur = Some r → (fuel ≤ fuel')%nat →
  filter_loop fuel' FilterLogs chunk from cur = Some r.
Proof.
  induction fuel as [|fuel IH]; intros [|fuel'] from r Hr Hle; try lia; [done|..]; cbn [filter_loop] in *;
    destruct (from <=? cur); try done.
  destruct (FilterLogs _ _) as [logs| |]; [|done..].
  apply bind_Some in Hr as (rest & Hrest & Hr). rewrite (IH fuel' _ rest) by (done || lia). done.
Qed.

Lemma filter_loop_ends FilterLogs chunk cur fuel : ∀ from,
  1 ≤ chunk → 0 ≤ from → cur + chunk < 2 ^ 64 → (cur - from) / chunk + 1 ≤ Z.of_nat fuel →
  is_Some (filter_loop fuel FilterLogs chunk from cur).
Proof.
  induction fuel as [|fuel IH]; intros from Hc Hf Hmax Hfuel; cbn [filter_loop];
    destruct (Z.leb_spec from cur) as [Hle|Hgt]; [|by eauto| |by eauto].
  { pose proof (Z.div_pos (cur - from) chunk). lia. }
  destruct (FilterLogs _ _) as [logs| |]; [|by eauto..].
  rewrite (u64_small (from + chunk)) by (unfold is_u64; lia).
  destruct (IH (from + chunk)) as [rest ->]; [lia..| |by eauto].
  replace (cur - (from + chunk)) with (cur - from + (-1) * chunk) by lia. rewrite Z.div_add by lia. lia.
Qed.

Lemma range_start_bounds maxRange lastBlock cur :
  0 ≤ lastBlock → 0 ≤ maxRange → 0 ≤ cur < 2 ^ 64 - 1 →
  0 ≤ range_start maxRange lastBlock cur ∧ cur - range_start maxRange lastBlock cur < maxRange ∧
  (1 ≤ maxRange → lastBlock < cur → range_start maxRange lastBlock cur ≤ cur).
Proof.
  intros Hl Hm Hcur. unfold range_start. destruct (Z.ltb_spec cur maxRange).
  - rewrite u64_small by (unfold is_u64; lia). lia.
  - rewrite (u64_small (cur - maxRange)) by (unfold is_u64; lia). rewrite u64_small by (unfold is_u64; lia). lia.
Qed.

(** The loop over the missed blocks ends.  Whatever the node answers, errors included,
    a resubscription with a chunk size of at least one block makes at most one query per
    chunk of the last [maxRange] blocks and returns, as long as block numbers stay a chunk
    below the range of [uint64].  A chunk size of zero, which the options accept, makes it
    query for ever: no number of iterations is enough. *)
Theorem paging_terminates (FilterLogs : Z → Z → go (list Log)) chunk maxRange lastBlock cur :
  1 ≤ chunk → 0 ≤ maxRange → 0 ≤ lastBlock → 0 ≤ cur → cur + chunk < 2 ^ 64 →
  let from := range_start maxRange lastBlock cur in
  (∃ r, resubFilterLogs chunk maxRange lastBlock (Ok cur) FilterLogs = Some r ∧
     (lastBlock < cur →
      filter_loop (Z.to_nat ((maxRange - 1) / chunk + 1)) FilterLogs chunk from cur = Some r)) ∧
  ((∀ a b, ∃ logs, FilterLogs a b = Ok logs) → 1 ≤ maxRange → lastBlock < cur →
     ∀ fuel, filter_loop fuel FilterLogs 0 from cur = None).
Proof.
  intros Hc Hm Hl Hcur Hmax from.
  destruct (range_start_bounds maxRange lastBlock cur) as (Hf & Hr & Hle); [lia..|]. fold from in Hf, Hr, Hle. split.
  - unfold resubFilterLogs. destruct (Z.leb_spec cur lastBlock) as [?|Hgt]; [eexists; split; [done|lia]|].
    fold from.
    destruct (filter_loop_ends FilterLogs chunk cur (Z.to_nat ((maxRange - 1) / chunk + 1)) from) as [r Hloop]; [lia..| |].
    { pose proof (Z.div_le_mono (cur - from) (maxRange - 1) chunk). lia. }
    destruct (filter_loop_ends FilterLogs chunk cur (S (Z.to_nat (cur - from))) from) as [r' Hloop']; [lia..| |].
    { destruct (decide (cur < from)).
      - assert ((cur - from) / chunk < 0); [|lia]. apply Z.div_lt_upper_bound; lia.
      - pose proof (Z.div_le_upper_bound (cur - from) chunk (cur - from)). nia. }
    exists r'. split; [done|]. intros _.
    destruct (Nat.le_ge_cases (Z.to_nat ((maxRange - 1) / chunk + 1)) (S (Z.to_nat (cur - from)))) as [Hfl|Hfl].
    + apply (filter_loop_mono _ _ _ _ _ _ _ Hloop) in Hfl. congruence.
    + by apply (filter_loop_mono _ _ _ _ _ _ _ Hloop').
  - intros Hok Hm1 Hlt fuel. specialize (Hle Hm1 Hlt).
    apply zero_chunk_diverges; [done|unfold is_u64; lia|done].
Qed.

(** ** Duplicates *)

(** Equal elements are more than [cache_size] positions apart. *)
Definition spaced (l : list bytes) : Prop :=
  ∀ i j h, l !! i = Some h → l !! j = Some h → (i < j)%nat → (cache_size < j - i)%nat.

Lemma spaced_snoc l h : spaced l → h ∉ take cache_size (reverse l) → spaced (l ++ [h]).
Proof.
  intros Hl Hh i j x Hi Hj Hij. destruct (decide (j < length l)%nat) as [Hjl|Hjl].
  - rewrite lookup_app_l in Hj by done. rewrite lookup_app_l in Hi by lia. by eapply Hl.
  - assert (j = length l) as ->.
    { apply lookup_lt_Some in Hj. rewrite length_app in Hj. simpl in Hj. lia. }
    rewrite lookup_app_r, Nat.sub_diag in Hj by lia. injection Hj as <-.
    rewrite lookup_app_l in Hi by lia.
    destruct (decide (length l - i ≤ cache_size)%nat) as [Hle|]; [exfalso|lia]. apply Hh.
    apply elem_of_take. exists (length l - S i)%nat. split; [|lia].
    rewrite reverse_lookup by lia. rewrite <- Hi. f_equal. lia.
Qed.

Record cache_inv (st : LogSub) : Prop := {
  ca_cache : ls_cache st = take cache_size (reverse (hashLog <$> ls_sent st));
  ca_spaced : spaced (hashLog <$> ls_sent st);
}.

Lemma cache_inv_forward st log : cache_inv st → cache_inv (forward_log st log).
Proof.
  intros [Hc Hs]. destruct (forward_log_cases st log) as [[_ ->]|(Hn & Hsent & Hcache)]; [by split|].
  rewrite Hc in Hn. split.
  - rewrite Hcache, Hsent, Hc, fmap_app, reverse_app. cbn [fmap list_fmap].
    rewrite reverse_singleton. cbn [app]. unfold cache_size. change 100%nat with (S 99).
    rewrite !firstn_cons. f_equal. by rewrite take_take.
  - rewrite Hsent, fmap_app. by apply spaced_snoc.
Qed.

Lemma cache_inv_set st s p r : cache_inv st → cache_inv (set_sub st s p r).
Proof. intros [? ?]. by split. Qed.

Lemma cache_inv_step chunk maxRange st ev st' :
  cache_inv st → log_step chunk maxRange st ev = Some (Ok st') → cache_inv st'.
Proof.
  intros Hinv. assert (∀ logs st, cache_inv st → cache_inv (foldl forward_log st logs)) as Hfold.
  { induction logs as [|l logs IH]; intros s Hs; [done|]. by apply IH, cache_inv_forward. }
  unfold SafeClient.log_step. destruct ev as [log|[[]|e|]|bn flt| | |];
    [destruct (ls_running st); cbn [negb]; [destruct (ls_pending st)|]..];
    try (intros [= <-]; try done; by (apply cache_inv_forward || apply cache_inv_set)).
  - intros (r & _ & Hr)%bind_Some. destruct r as [logs|e|]; simplify_eq/=; [apply Hfold|]; by apply cache_inv_set.
  - intros [= <-]. destruct (ss_unsubscribed _); [by apply cache_inv_set|done].
Qed.

Lemma cache_inv_start bn st : SubscribeFilterLogs bn (Ok tt) = Ok st → cache_inv st.
Proof.
  unfold SubscribeFilterLogs. intros (cur & _ & [= <-])%res_bind_ok. split; [done|]. intros i j h H1. by destruct i.
Qed.

Lemma cache_inv_run chunk maxRange evs : ∀ st st',
  cache_inv st → log_run chunk maxRange st evs = Some (Ok st') → cache_inv st'.
Proof.
  induction evs as [|ev evs IH]; intros st st' Hinv Hrun; cbn [SafeClient.log_run] in Hrun; [by injection Hrun as <-|].
  apply bind_Some in Hrun as ([st1|e|] & Hstep & Hrun); [|done..].
  eapply IH; [|done]. by eapply cache_inv_step.
Qed.

(** Duplicates are suppressed within the cache's reach.  Along any run of the
    subscription, with whatever logs arrive live and from resubscriptions, two
    forwarded logs with the same hash are always more than a hundred forwarded logs
    apart. *)
Theorem no_duplicates_within_cache bn chunk maxRange evs st0 st i j l1 l2 :
  SubscribeFilterLogs bn (Ok tt) = Ok st0 → log_run chunk maxRange st0 evs = Some (Ok st) →
  ls_sent st !! i = Some l1 → ls_sent st !! j = Some l2 → hashLog l1 = hashLog l2 → (i < j)%nat →
  (100 < j - i)%nat.
Proof.
  intros H0 Hrun Hi Hj Heq Hij. destruct (cache_inv_run _ _ _ _ _ (cache_inv_start _ _ H0) Hrun) as [_ Hs].
  apply (Hs i j (hashLog l1)); [by rewrite list_lookup_fmap, Hi|by rewrite list_lookup_fmap, Hj, Heq|done].
Qed.

(** ** Recovery *)

Lemma range_start_eq maxRange lastBlock cur :
  0 ≤ maxRange → 0 ≤ cur < 2 ^ 63 →
  range_start maxRange lastBlock cur = Z.max lastBlock (Z.max 0 (cur - maxRange) + 1).
Proof.
  intros Hm Hcur. unfold range_start. destruct (Z.ltb_spec cur maxRange).
  - rewrite u64_small by (unfold is_u64; lia). lia.
  - rewrite (u64_small (cur - maxRange)), u64_small by (unfold is_u64; lia). lia.
Qed.

(** What the answer to a resubscription adds to what was forwarded. *)
Lemma resub_answered st sub cur L FilterLogs chunk maxRange :
  ls_running st = true → ls_pending st = Some sub → 1 ≤ chunk → 1 ≤ maxRange →
  0 ≤ ls_lastBlock st < cur → cur + chunk < 2 ^ 63 →
  (∀ a b, FilterLogs a b = Ok (logs_between L a b)) →
  ∃ st' new, log_step chunk maxRange st (LgResubAnswered (Ok cur) FilterLogs) = Some (Ok st') ∧
    ls_sent st' = ls_sent st ++ new ∧
    (∀ log, log ∈ new → log ∈ L ∧ ls_lastBlock st ≤ lg_BlockNumber log ≤ cur ∧ cur - maxRange < lg_BlockNumber log) ∧
    (∀ log, log ∈ L → ls_lastBlock st ≤ lg_BlockNumber log ≤ cur → cur - maxRange < lg_BlockNumber log →
       1 ≤ lg_BlockNumber log → hashLog log ∈ ls_cache st ∨ hashLog log ∈ hashLog <$> new).
Proof.
  intros Hrun Hpend Hchunk Hrange Hlast Hmax Hfilter.
  set (st1 := set_sub st (SetUnderlyingSub (ls_sub st) sub) None true).
  pose proof (range_start_eq maxRange (ls_lastBlock st) cur ltac:(lia) ltac:(lia)) as Hfrom.
  set (from := range_start maxRange (ls_lastBlock st) cur) in *.
  destruct (filter_loop_complete L FilterLogs chunk cur Hchunk Hmax Hfilter
    (S (Z.to_nat (cur - from))) from) as (logs & Hloop & Hlogs); [lia..|].
  destruct (forward_logs_spec logs st1) as (new & Hsent & Hnew & Hall & _).
  exists (foldl forward_log st1 logs), new. split_and!; [|done| |].
  - unfold SafeClient.log_step. rewrite Hrun, Hpend. cbn [negb]. unfold resubFilterLogs. cbn [ls_lastBlock set_sub].
    rewrite (proj2 (Z.leb_gt _ _)) by lia. fold from. rewrite Hloop. done.
  - intros log [Hin Hb]%Hnew%Hlogs. split; [done|lia].
  - intros log Hin Hb Hr H1. apply Hall, Hlogs. split; [done|lia].
Qed.

(** C33: a resubscription recovers the missed logs of the last [maxRange] blocks.  In any
    state a subscription reaches, let a resubscription be answered by a node that is at
    block [cur] and answers the queries.  The loop over the chunks ends; what is forwarded
    is on the node and at most [maxRange] blocks old.  If [cur] is past the block of the
    last forwarded log, then every log the node has from that block on, at most [maxRange]
    blocks back and not in block 0, is among the logs forwarded to the subscriber, now or
    before.  Otherwise nothing is fetched: what was missed in that block is left to a
    resubscription after the next block. *)
Theorem resub_recovers_logs bn evs st0 st sub cur L FilterLogs chunk maxRange :
  SubscribeFilterLogs bn (Ok tt) = Ok st0 → log_run chunk maxRange st0 evs = Some (Ok st) →
  ls_running st = true → ls_pending st = Some sub → 1 ≤ chunk → 1 ≤ maxRange →
  0 ≤ ls_lastBlock st → cur + chunk < 2 ^ 63 →
  (∀ a b, FilterLogs a b = Ok (logs_between L a b)) →
  ∃ st' new, log_step chunk maxRange st (LgResubAnswered (Ok cur) FilterLogs) = Some (Ok st') ∧
    ls_sent st' = ls_sent st ++ new ∧
    (∀ log, log ∈ new → log ∈ L ∧ ls_lastBlock st ≤ lg_BlockNumber log ≤ cur ∧ cur - maxRange < lg_BlockNumber log) ∧
    (ls_lastBlock st < cur → ∀ log, log ∈ L → ls_lastBlock st ≤ lg_BlockNumber log ≤ cur →
       cur - maxRange < lg_BlockNumber log → 1 ≤ lg_BlockNumber log → hashLog log ∈ hashLog <$> ls_sent st') ∧
    (cur ≤ ls_lastBlock st → new = [] ∧ ls_lastBlock st' = ls_lastBlock st).
Proof.
  intros H0 Hevs Hrun Hpend Hchunk Hrange Hlast Hmax Hfilter.
  destruct (cache_inv_run _ _ _ _ _ (cache_inv_start _ _ H0) Hevs) as [Hcache _].
  destruct (Z.leb_spec cur (ls_lastBlock st)) as [Hle|Hlt].
  - exists (set_sub st (SetUnderlyingSub (ls_sub st) sub) None true), []. rewrite app_nil_r. split_and!; [|done| |lia|done].
    + unfold SafeClient.log_step. rewrite Hrun, Hpend. cbn [negb]. unfold resubFilterLogs. cbn [ls_lastBlock set_sub].
      by rewrite (proj2 (Z.leb_le _ _)).
    + intros log Hl. by apply elem_of_nil in Hl.
  - destruct (resub_answered st sub cur L FilterLogs chunk maxRange) as (st' & new & Hstep & Hsent & Hnew & Hall); [done..|].
    exists st', new. split_and!; [done..| |lia]. intros _ log Hin Hb Hr H1. rewrite Hsent, fmap_app, elem_of_app.
    destruct (Hall log Hin Hb Hr H1) as [Hc|?]; [left|by right]. rewrite Hcache in Hc.
    apply elem_of_take in Hc as (n & Hn & _). apply list_elem_of_lookup_2 in Hn. by rewrite elem_of_reverse in Hn.
Qed.

(** ** Subscriptions at the node *)

(** Before anybody unsubscribes: the open subscriptions are the current one and the one
    that was just requested; after the goroutine has ended there is none. *)
Record sub_inv (st : LogSub) : Prop := {
  si_running : ls_running st = true →
    ss_unsubscribed (ls_sub st) = false ∧
    ss_open (ls_sub st) = {[ss_underlying (ls_sub st)]} ∪ match ls_pending st with Some s => {[s]} | None => ∅ end ∧
    (ss_underlying (ls_sub st) < ss_next (ls_sub st))%nat ∧
    (∀ s, ls_pending st = Some s → (s < ss_next (ls_sub st))%nat ∧ s ≠ ss_underlying (ls_sub st));
  si_stopped : ls_running st = false → ss_open (ls_sub st) = ∅;
}.

Lemma sub_inv_same st st' :
  ls_sub st' = ls_sub st → ls_pending st' = ls_pending st → ls_running st' = ls_running st →
  sub_inv st → sub_inv st'.
Proof. intros Hs Hp Hr [H1 H2]. split; by rewrite Hs, Hr, ?Hp. Qed.

Lemma sub_inv_step chunk maxRange st ev st' :
  sub_inv st → ev ≠ LgUnsubscribe → log_step chunk maxRange st ev = Some (Ok st') → sub_inv st'.
Proof.
  intros Hinv Hev. pose proof Hinv as [Hrun _]. unfold SafeClient.log_step.
  destruct (ls_running st) eqn:Hr; [|by destruct ev; intros [= <-]].
  destruct (Hrun eq_refl) as (Hu & Hopen & Hlt & Hpend). cbn [negb].
  destruct (ls_pending st) as [sub|] eqn:Hp.
  - destruct ev as [log|a|bn flt| | |]; try (by intros [= <-]).
    set (st1 := set_sub st (SetUnderlyingSub (ls_sub st) sub) None true).
    assert (sub_inv st1) as Hinv1.
    { destruct (Hpend sub eq_refl) as [Hsl Hne]. split; [|done]. intros _. cbn. split_and!; [done| |lia|done].
      rewrite Hopen. set_solver. }
    intros (r & _ & Hr')%bind_Some. destruct r as [logs|e|]; simplify_eq/=; [|done].
    destruct (forward_logs_sub logs st1) as (? & ? & ?). by eapply sub_inv_same.
  - destruct ev as [log|[[]|e|]|bn flt| | |]; try (by intros [= <-]).
    + intros [= <-]. destruct (forward_log_sub st log) as (? & ? & ?). by eapply sub_inv_same.
    + intros [= <-]. split; [|done]. intros _. cbn. split_and!; [done| |lia|].
      * rewrite Hopen. set_solver.
      * intros s [= <-]. lia.
    + rewrite Hu. by intros [= <-].
    + intros [= <-]. split; [done|]. intros _. cbn. unfold Unsubscribe. rewrite Hu. cbn. rewrite Hopen. set_solver.
Qed.

(** The subscription is closed properly when the client is closed or its context ends:
    while the subscriber itself has not unsubscribed, whatever resubscriptions took
    place, one subscription is open at the node, and none after the goroutine ended. *)
Theorem close_releases_subscription bn chunk maxRange evs st0 st :
  SubscribeFilterLogs bn (Ok tt) = Ok st0 → LgUnsubscribe ∉ evs →
  log_run chunk maxRange st0 evs = Some (Ok st) → ls_running st = false → ss_open (ls_sub st) = ∅.
Proof.
  intros H0 Hevs Hrun Hstop. assert (sub_inv st0) as Hinv.
  { unfold SubscribeFilterLogs in H0. apply res_bind_ok in H0 as (cur & _ & [= <-]). split; [|done].
    intros _. cbn. split_and!; [done|set_solver|lia|done]. }
  assert (sub_inv st) as [_ Hs]; [|by apply Hs].
  clear -Hrun Hinv Hevs. revert st0 Hinv Hrun.
  induction evs as [|ev evs IH]; intros st0 Hinv Hrun; cbn [SafeClient.log_run] in Hrun.
  { by injection Hrun as <-. }
  apply bind_Some in Hrun as ([st1|e|] & Hstep & Hrun); [|done..].
  apply not_elem_of_cons in Hevs as [Hne Hevs]. eapply (IH Hevs); [|done]. by eapply sub_inv_step.
Qed.

(** A resubscription after [Unsubscribe] leaks a subscription.  When the subscriber has
    unsubscribed, both the closed error channel and the ticker can be ready; if the
    goroutine takes the ticker, [SetUnderlyingSub] installs a new subscription without
    looking at [unsubscribed], and the goroutine then ends without closing it. *)
Theorem late_resub_leaks bn chunk maxRange st0 cur flt :
  SubscribeFilterLogs bn (Ok tt) = Ok st0 → cur ≤ ls_lastBlock st0 →
  ∃ st, log_run chunk maxRange st0
      [LgUnsubscribe; LgResub (Ok tt); LgResubAnswered (Ok cur) flt; LgSafeErr] = Some (Ok st) ∧
    ls_running st = false ∧ ss_unsubscribed (ls_sub st) = true ∧
    ss_open (ls_sub st) = {[ss_underlying (ls_sub st)]}.
Proof.
  intros H0 Hcur. unfold SubscribeFilterLogs in H0. apply res_bind_ok in H0 as (b & _ & [= <-]).
  cbn in Hcur. cbn. rewrite (proj2 (Z.leb_le _ _)) by done. cbn. eexists. split; [done|]. cbn.
  split_and!; [done..|]. set_solver.
Qed.

End Theory.

(** ** Heads *)

(** A head subscription that stays silent is renewed: at the latest the second tick
    without a header in between requests a new subscription. *)
Theorem silent_heads_resubscribe st :
  hs_running st = true → hs_pending st = None →
  ∃ st1, head_step st (HdTicker (Ok tt)) = Ok st1 ∧
    (hs_pending st1 = Some (ss_next (hs_sub st)) ∨
     ∃ st2, head_step st1 (HdTicker (Ok tt)) = Ok st2 ∧ hs_pending st2 = Some (ss_next (hs_sub st)) ∧
       hs_sent st2 = hs_sent st).
Proof.
  intros Hr Hp. unfold head_step at 1. rewrite Hr, Hp. cbn [negb].
  destruct (hs_receivedBlock st); eexists; (split; [done|]); [right|by left].
  by eexists.
Qed.

Module Examples.

Definition log (n : Z) : Log := mkLog [n] (100 + n) [1] [2] n.
Definition chain : list Log := [log 0; log 3; log 7; log 30].
Definition node (a b : Z) : go (list Log) := Ok (logs_between chain a b).
Definition toy_hash (bs : bytes) : bytes := bs.

(** Subscribed at block 101; log 3 was seen live, then the connection was lost. *)
Definition live : LogSub := mkLogSub NewSafeSubscription 101 [] [] None true.
Definition before : LogSub := set_sub (forward_log toy_hash live (log 3)) (open_sub NewSafeSubscription).1 (Some 1%nat) true.

Example before_reached :
  log_run toy_hash 5 50 live [LgLog (log 3); LgResub (Ok tt)] = Some (Ok before).
Proof. vm_compute. reflexivity. Qed.

Definition after (st : LogSub) (ev : LogEvent) : LogSub :=
  match log_step toy_hash 5 50 st ev with Some (Ok st) => st | _ => st end.

(** The missed logs 7 and 30 are fetched in chunks of five blocks and forwarded; log 3 is
    fetched again and suppressed. *)
Example recovered : ls_sent (after before (LgResubAnswered (Ok 140) node)) = [log 3; log 7; log 30].
Proof. vm_compute. reflexivity. Qed.

(** The same missed blocks, in ten queries at most; the node's error ends the loop. *)
Lemma paging_terminates_witness :
  ∃ r, resubFilterLogs 5 50 103 (Ok 140) node = Some r ∧
    filter_loop 10 node 5 (range_start 50 103 140) 140 = Some r.
Proof.
  destruct (paging_terminates node 5 50 103 140) as [(r & Hr & Hloop) _]; [lia..|].
  exists r. split; [exact Hr|]. apply Hloop. lia.
Defined.

Lemma resub_recovers_logs_witness :
  ∃ st' new, log_step toy_hash 5 50 before (LgResubAnswered (Ok 140) node) = Some (Ok st') ∧
    ls_sent st' = [log 3] ++ new ∧
    (∀ l, l ∈ new → l ∈ chain ∧ 103 ≤ lg_BlockNumber l ≤ 140 ∧ 140 - 50 < lg_BlockNumber l) ∧
    (103 < 140 → ∀ l, l ∈ chain → 103 ≤ lg_BlockNumber l ≤ 140 → 140 - 50 < lg_BlockNumber l → 1 ≤ lg_BlockNumber l →
       hashLog toy_hash l ∈ hashLog toy_hash <$> ls_sent st') ∧
    (140 ≤ 103 → new = [] ∧ ls_lastBlock st' = 103).
Proof.
  apply (resub_recovers_logs toy_hash (Ok 101) [LgLog (log 3); LgResub (Ok tt)] live before 1%nat 140 chain node 5 50).
  - reflexivity.
  - vm_compute. reflexivity.
  - reflexivity.
  - reflexivity.
  - lia.
  - lia.
  - simpl. lia.
  - lia.
  - reflexivity.
Defined.

(** A hundred other logs push log 200 out of the cache. *)
Definition many : list LogEvent := (λ n, LgLog (log (Z.of_nat n))) <$> (200%nat :: seq 0 100 ++ [200%nat]).
Definition after_many : LogSub :=
  match log_run toy_hash 5 50 live many with Some (Ok st) => st | _ => live end.

Lemma no_duplicates_within_cache_witness : (100 < 101 - 0)%nat.
Proof.
  apply (no_duplicates_within_cache toy_hash (Ok 101) 5 50 many live after_many 0 101 (log 200) (log 200)).
  - reflexivity.
  - vm_compute. reflexivity.
  - vm_compute. reflexivity.
  - vm_compute. reflexivity.
  - reflexivity.
  - lia.
Defined.

Lemma late_resub_leaks_witness :
  ∃ st, log_run toy_hash 5 50 live
      [LgUnsubscribe; LgResub (Ok tt); LgResubAnswered (Ok 101) node; LgSafeErr] = Some (Ok st) ∧
    ls_running st = false ∧ ss_unsubscribed (ls_sub st) = true ∧
    ss_open (ls_sub st) = {[ss_underlying (ls_sub st)]}.
Proof.
  apply (late_resub_leaks toy_hash (Ok 101)).
  - reflexivity.
  - simpl. lia.
Defined.

End Examples.
