(* ===== verification/Relayer.v ===== *)
(** * The relayer: relayer/relayer.go

    One goroutine collects the headers of a rollup and hands them over in batches when a
    ticker fires; the main loop submits a batch to NEAR with a bounded number of attempts
    and restarts the ticker.  The two goroutines share the ticker: the collecting one
    stops it after the hand-over, the submitting one resets it when it is done.  Each of
    these is an event of [rl_step], so that their order is explicit; the ticker's channel
    behaves as in the Go version of go.mod (1.21). *)

From S2P Require Import Prelude CoreTypes.

(** ** Submission *)

Definition SUBMIT_BLOCK_RETRIES : nat := 3.

Inductive SubmitMetric : Type :=
| OnDaSubmitted
| OnRetriesRequired (retries : nat)
| OnInvalidNonce
| OnExpiredTx
| OnTimeoutTx
| OnDaSubmissionFailed.

Definition contains (pattern text : string) : bool :=
  match String.index 0 pattern text with Some _ => true | None => false end.

(** The metric of an error after which the submission is repeated. *)
Definition transient (text : string) : option SubmitMetric :=
  if contains "InvalidNonce" text then Some OnInvalidNonce
  else if contains "Expired" text then Some OnExpiredTx
  else if contains "Timeout" text then Some OnTimeoutTx
  else None.

(** [ForceSubmit i] is the answer to attempt [i]: the output or the error's text. *)
Fixpoint submit_loop (n i : nat) (ForceSubmit : nat → bytes + string) : list SubmitMetric * go bytes :=
  match n with
  | O => ([], Err (NewError "failed to submit blocks to NEAR after retries"))
  | S n =>
      match ForceSubmit i with
      | inl out => ([OnDaSubmitted; OnRetriesRequired i], Ok out)
      | inr text =>
          match transient text with
          | None => ([], Err (NewError "unknown error while submitting block to NEAR"))
          | Some m => let '(ms, r) := submit_loop n (S i) ForceSubmit in (m :: ms, r)
          end
      end
  end.

Definition submitEncodedBlocks (ForceSubmit : nat → bytes + string) : list SubmitMetric * go bytes :=
  submit_loop SUBMIT_BLOCK_RETRIES 0 ForceSubmit.

(** [handleBlocks] up to the deferred [ticker.Reset]; [encoded] is the RLP encoder's
    answer. *)
Definition handleBlocks (encoded : go bytes) (ForceSubmit : nat → bytes + string)
    : list SubmitMetric * go unit :=
  match encoded with
  | Panic => ([], Panic)
  | Err e => ([], Err e)
  | Ok _ =>
      match submitEncodedBlocks ForceSubmit with
      | (ms, Ok _) => (ms, Ok tt)
      | (ms, Err e) => (ms ++ [OnDaSubmissionFailed], Err e)
      | (ms, Panic) => (ms, Panic)
      end
  end.

(** ** The two goroutines *)

(** Where [listenToBlocks] is: at its select, in the send of a batch, between the send
    and [ticker.Stop], or returned. *)
Inductive Collector : Type := Selecting | Sending | Stopping | CollectorReturned.

(** Where the loop of [Start] is: at its select, in [handleBlocks], or past the loop. *)
Inductive MainLoop : Type := Idle | Handling (batch : list Z) | MainReturned.

(** Blocks by header number.  [rl_ticker] says whether the ticker runs and [rl_tick]
    whether its channel, of capacity one, holds a tick; [rl_done] has the handled batches
    with whether they were submitted. *)
Record Relayer := mkRelayer {
  rl_blocks : list Z;
  rl_collector : Collector;
  rl_ticker : bool;
  rl_tick : bool;
  rl_main : MainLoop;
  rl_done : list (list Z * bool) }.

Definition rl_start : Relayer := mkRelayer [] Selecting true false Idle [].

Inductive RlEvent : Type :=
| RlFire
| RlHeader (number : Z)
| RlTick
| RlSend
| RlStop
| RlHandled (encoded : go bytes) (ForceSubmit : nat → bytes + string)
| RlSubscriptionError
| RlCollectorDone
| RlMainDone.

Definition selecting (r : Relayer) : bool :=
  match rl_collector r with Selecting => true | _ => false end.

(** [RlFire] is the timer, which drops a tick when the channel is full; stopping or
    resetting the ticker leaves a tick in the channel.  [RlSend] is the rendezvous on the
    unbuffered [blocksToSubmit]; [RlHandled] is the rest of [handleBlocks] with the
    deferred [ticker.Reset].  An event that is not enabled changes nothing. *)
Definition rl_step (r : Relayer) (ev : RlEvent) : go Relayer :=
  let '(mkRelayer blocks coll ticker tick main handled) := r in
  match ev, coll, main with
  | RlFire, _, _ => Ok (mkRelayer blocks coll ticker (tick || ticker) main handled)
  | RlHeader n, Selecting, _ => Ok (mkRelayer (blocks ++ [n]) Selecting ticker tick main handled)
  | RlTick, Selecting, _ =>
      if tick then
        Ok (mkRelayer blocks (if (0 <? length blocks)%nat then Sending else Selecting) ticker false main handled)
      else Ok r
  | RlSend, Sending, Idle => Ok (mkRelayer [] Stopping ticker tick (Handling blocks) handled)
  | RlStop, Stopping, _ => Ok (mkRelayer blocks Selecting false tick main handled)
  | RlHandled encoded ForceSubmit, _, Handling batch =>
      match (handleBlocks encoded ForceSubmit).2 with
      | Panic => Panic
      | res => Ok (mkRelayer blocks coll true tick Idle (handled ++ [(batch, is_ok res)]))
      end
  | RlSubscriptionError, Selecting, _ => Ok (mkRelayer blocks CollectorReturned ticker tick main handled)
  | RlCollectorDone, Selecting, _ => Ok (mkRelayer blocks CollectorReturned ticker tick main handled)
  | RlMainDone, _, Idle => Ok (mkRelayer blocks coll false tick MainReturned handled)
  | _, _, _ => Ok r
  end.

Fixpoint rl_run (r : Relayer) (evs : list RlEvent) : go Relayer :=
  match evs with
  | [] => Ok r
  | ev :: evs => let? r := rl_step r ev in rl_run r evs
  end.

(** The headers the collecting goroutine takes along a run. *)
Fixpoint taken (r : Relayer) (evs : list RlEvent) : list Z :=
  match evs with
  | [] => []
  | ev :: evs =>
      match rl_step r ev with
      | Ok r' =>
          match ev with
          | RlHeader n => if selecting r then n :: taken r' evs else taken r' evs
          | _ => taken r' evs
          end
      | _ => []
      end
  end.

(** ** Properties *)

Lemma submit_loop_spec ForceSubmit : ∀ n i out,
  (submit_loop n i ForceSubmit).2 = Ok out ↔
  ∃ k, (k < n)%nat ∧ ForceSubmit (i + k)%nat = inl out ∧
    ∀ j, (j < k)%nat → ∃ text m, ForceSubmit (i + j)%nat = inr text ∧ transient text = Some m.
Proof.
  induction n as [|n IH]; intros i out; cbn [submit_loop].
  { split; [done|]. intros (k & Hk & _). lia. }
  destruct (ForceSubmit i) as [o|text] eqn:Hi.
  - split.
    + intros [= <-]. exists 0%nat. rewrite Nat.add_0_r. split_and!; [lia|done|lia].
    + intros ([|k] & Hk & Ho & Hj); [rewrite Nat.add_0_r in Ho; simpl; congruence|].
      destruct (Hj 0%nat) as (t & m & Ht & _); [lia|]. rewrite Nat.add_0_r in Ht. congruence.
  - destruct (transient text) as [m|] eqn:Hm.
    + specialize (IH (S i) out). destruct (submit_loop n (S i) ForceSubmit) as [ms r]. simpl in IH |- *.
      rewrite IH. split.
      * intros (k & Hk & Ho & Hj). exists (S k). rewrite Nat.add_succ_r. split_and!; [lia|done|].
        intros [|j] Hlt; [rewrite Nat.add_0_r; eauto|]. rewrite Nat.add_succ_r. apply Hj. lia.
      * intros ([|k] & Hk & Ho & Hj); [rewrite Nat.add_0_r in Ho; congruence|].
        exists k. rewrite Nat.add_succ_r in Ho. split_and!; [lia|done|].
        intros j Hlt. destruct (Hj (S j)) as (t & m' & Ht & Hm'); [lia|].
        rewrite Nat.add_succ_r in Ht. eauto.
    + split; [done|]. intros ([|k] & Hk & Ho & Hj); [rewrite Nat.add_0_r in Ho; congruence|].
      destruct (Hj 0%nat) as (t & m & Ht & Hm'); [lia|]. rewrite Nat.add_0_r in Ht. congruence.
Qed.

(** A batch is submitted exactly when one of the first three attempts succeeds and every
    attempt before it failed with an error that is known to pass. *)
Theorem submission_spec bs ForceSubmit :
  (handleBlocks (Ok bs) ForceSubmit).2 = Ok tt ↔
  ∃ k out, (k < 3)%nat ∧ ForceSubmit k = inl out ∧
    ∀ j, (j < k)%nat → ∃ text m, ForceSubmit j = inr text ∧ transient text = Some m.
Proof.
  unfold handleBlocks, submitEncodedBlocks. pose proof (submit_loop_spec ForceSubmit SUBMIT_BLOCK_RETRIES 0) as Hspec.
  destruct (submit_loop _ _ _) as [ms r]. simpl in Hspec. split.
  - destruct r as [out| |]; intros Hr; simplify_eq/=. destruct (proj1 (Hspec out) eq_refl) as (k & ? & ? & ?).
    by exists k, out.
  - intros (k & out & Hk & Ho & Hj). assert (r = Ok out) as -> by (apply Hspec; by exists k). done.
Qed.

Definition in_work (r : Relayer) : list Z :=
  match rl_main r with Handling batch => batch | _ => [] end.

Definition batches (r : Relayer) : list Z := concat (rl_done r).*1 ++ in_work r ++ rl_blocks r.

Lemma rl_step_batches r ev r' :
  rl_step r ev = Ok r' →
  batches r' = batches r ++ match ev with RlHeader n => if selecting r then [n] else [] | _ => [] end.
Proof.
  unfold batches, in_work, selecting. destruct r as [blocks coll ticker tick main handled]. cbn [rl_step].
  destruct ev as [|n| | | |enc fs| | |], coll; try (destruct main); intros Hs;
    repeat match type of Hs with
      | context [if tick then _ else _] => destruct tick
      | context [match (handleBlocks ?e ?f).2 with _ => _ end] => destruct (handleBlocks e f).2
      end; try discriminate; injection Hs as <-; simpl;
    rewrite ?fmap_app, ?concat_app; simpl; by rewrite ?app_nil_r, <- ?app_assoc.
Qed.

(** The relayer loses and reorders nothing on the way to a submission.  Along any run
    the headers taken from the subscription are, in order, those of the batches handled
    so far, the batch in work and the collected blocks: every header is handed over
    exactly once.  (A batch whose submission fails is not submitted again.) *)
Theorem headers_handed_over_once evs r :
  rl_run rl_start evs = Ok r →
  taken rl_start evs = concat (rl_done r).*1 ++ in_work r ++ rl_blocks r.
Proof.
  fold (batches r). assert (batches rl_start = []) as H0 by done.
  intros Hrun. enough (batches r = batches rl_start ++ taken rl_start evs) as -> by (by rewrite H0).
  clear H0. revert Hrun. generalize rl_start. induction evs as [|ev evs IH]; intros r0 Hrun; cbn [rl_run taken] in Hrun |- *.
  { injection Hrun as <-. by rewrite app_nil_r. }
  apply res_bind_ok in Hrun as (r1 & Hs & Hrun). rewrite Hs.
  rewrite (IH r1 Hrun), (rl_step_batches _ _ _ Hs), <- app_assoc. f_equal.
  destruct ev; try done. by destruct (selecting r0).
Qed.

(** ** The shared ticker *)

(** No batch is on its way and nothing will start one: the ticker is stopped, its channel
    is empty, and only [handleBlocks] would reset it. *)
Definition stalled (r : Relayer) : Prop :=
  rl_ticker r = false ∧ rl_tick r = false ∧
  match rl_collector r with Selecting | CollectorReturned => True | _ => False end ∧
  match rl_main r with Handling _ => False | _ => True end.

Lemma stalled_step r ev r' :
  stalled r → rl_step r ev = Ok r' → stalled r' ∧ rl_done r' = rl_done r.
Proof.
  destruct r as [blocks coll ticker tick main handled]. unfold stalled. simpl. intros (-> & -> & Hc & Hm).
  destruct ev, coll; try done; destruct main; try done; intros [= <-]; done.
Qed.

(** [handleBlocks] resets the ticker before [listenToBlocks] has stopped it. *)
Definition reset_before_stop (r : Relayer) (ev : RlEvent) : bool :=
  match ev, rl_collector r, rl_main r with RlHandled _ _, Stopping, Handling _ => true | _, _, _ => false end.

Fixpoint stops_in_time (r : Relayer) (evs : list RlEvent) : bool :=
  match evs with
  | [] => true
  | ev :: evs =>
      negb (reset_before_stop r ev) &&
      match rl_step r ev with Ok r => stops_in_time r evs | _ => true end
  end.

Definition ticker_inv (r : Relayer) : Prop :=
  rl_main r = Idle → rl_ticker r = true ∧ rl_collector r ≠ Stopping.

Lemma ticker_inv_step r ev r' :
  ticker_inv r → reset_before_stop r ev = false → rl_step r ev = Ok r' → ticker_inv r'.
Proof.
  destruct r as [blocks coll ticker tick main handled]. unfold ticker_inv, reset_before_stop. simpl.
  intros Hinv Hlate Hs.
  destruct ev, coll; try discriminate; destruct main; try discriminate;
    repeat match type of Hs with
      | context [if tick then _ else _] => destruct tick
      | context [match (handleBlocks ?e ?f).2 with _ => _ end] => destruct (handleBlocks e f).2
      end; try discriminate; injection Hs as <-; simpl; intros Hm; try discriminate;
    destruct (Hinv eq_refl) as [-> ?] || idtac; (split; [done|]); by try destruct (_ <? _)%nat.
Qed.

Lemma ticker_inv_run evs : ∀ r r',
  ticker_inv r → stops_in_time r evs = true → rl_run r evs = Ok r' → ticker_inv r'.
Proof.
  induction evs as [|ev evs IH]; intros r r' Hinv Hint Hrun; cbn [rl_run stops_in_time] in Hint, Hrun.
  { by injection Hrun as <-. }
  apply res_bind_ok in Hrun as (r1 & Hs & Hrun). rewrite Hs in Hint.
  apply andb_true_iff in Hint as [Hl%negb_true_iff Hint]. eauto using ticker_inv_step.
Qed.

(** C35: collected headers can always be handed over, as long as the ticker is stopped
    before the batch that stopped it is done.  From every state reached that way, with
    both goroutines running, the collected blocks become the batch in work, all of them
    and in order, once the current batch is done and the ticker has fired. *)
Theorem headers_keep_flowing evs r encoded ForceSubmit :
  rl_run rl_start evs = Ok r → stops_in_time rl_start evs = true →
  rl_main r ≠ MainReturned → rl_collector r ≠ CollectorReturned → rl_blocks r ≠ [] →
  (handleBlocks encoded ForceSubmit).2 ≠ Panic →
  ∃ r', rl_run r [RlStop; RlHandled encoded ForceSubmit; RlFire; RlTick; RlSend] = Ok r' ∧
    rl_main r' = Handling (rl_blocks r).
Proof.
  intros Hrun Hint Hm Hc Hb Hp.
  assert (ticker_inv r) as Hinv by (eapply ticker_inv_run; [|done|done]; done).
  destruct r as [blocks coll ticker tick main handled]. unfold ticker_inv in Hinv. simpl in *.
  destruct blocks as [|b blocks]; [done|]. destruct main as [|batch|]; [| |done].
  - destruct (Hinv eq_refl) as [-> ?]. destruct coll; try done; destruct tick; cbn; eauto.
  - destruct coll; try done; cbn [rl_run rl_step res_bind];
      destruct (handleBlocks encoded ForceSubmit).2; try done; destruct tick; cbn; eauto.
Qed.

(** The shared ticker can be stopped for good.  If the main loop finishes a batch, and
    resets the ticker, before the collecting goroutine gets to stop it, the ticker stays
    stopped and nothing resets it again: from then on headers are collected and never
    handed over, whatever happens. *)
Theorem late_stop_wedges r enc fs evs r1 r2 :
  rl_collector r = Selecting → rl_tick r = true → rl_main r = Idle → rl_blocks r ≠ [] →
  rl_run r [RlTick; RlSend; RlHandled enc fs; RlStop] = Ok r1 →
  rl_run r1 evs = Ok r2 → rl_done r2 = rl_done r1 ∧ stalled r2.
Proof.
  intros Hc Ht Hm Hb Hrun1 Hrun2. assert (stalled r1) as Hw.
  { destruct r as [[|b blocks] coll ticker tick main handled]; simpl in *; subst; [done|]. cbn in Hrun1.
    destruct (handleBlocks enc fs).2; try done; injection Hrun1 as <-; done. }
  clear -Hw Hrun2. revert r1 Hw Hrun2.
  induction evs as [|ev evs IH]; intros r1 Hw Hrun; cbn [rl_run] in Hrun; [by injection Hrun as <-|].
  apply res_bind_ok in Hrun as (r3 & Hstep & Hrun).
  destruct (stalled_step _ _ _ Hw Hstep) as [Hw3 <-]. by apply IH.
Qed.

Module Examples.

Definition ok_submit (i : nat) : bytes + string := if (i =? 0)%nat then inr "Timeout"%string else inl [].
Definition evs : list RlEvent :=
  [RlHeader 1; RlHeader 2; RlFire; RlTick; RlSend; RlStop; RlHeader 3; RlFire; RlTick;
   RlHandled (Ok []) ok_submit; RlFire; RlTick; RlSend; RlStop; RlHeader 4].
Definition result : Relayer := res_or rl_start (rl_run rl_start evs).

Example result_eq : rl_done result = [([1; 2], true)] ∧ rl_main result = Handling [3] ∧ rl_blocks result = [4].
Proof. vm_compute. split_and!; reflexivity. Qed.

Lemma headers_handed_over_once_witness :
  taken rl_start evs = concat (rl_done result).*1 ++ in_work result ++ rl_blocks result.
Proof. apply (headers_handed_over_once evs result). vm_compute. reflexivity. Defined.

Lemma headers_keep_flowing_witness :
  ∃ r', rl_run result [RlStop; RlHandled (Ok []) ok_submit; RlFire; RlTick; RlSend] = Ok r' ∧
    rl_main r' = Handling (rl_blocks result).
Proof. apply (headers_keep_flowing evs result); vm_compute; (reflexivity || discriminate). Defined.

Definition collected : Relayer := mkRelayer [1] Selecting true true Idle [].
Definition wedged : Relayer := res_or rl_start (rl_run collected [RlTick; RlSend; RlHandled (Ok []) ok_submit; RlStop]).
Definition later : list RlEvent :=
  [RlHeader 2; RlFire; RlTick; RlSend; RlHandled (Ok []) ok_submit; RlStop; RlFire; RlTick; RlSend].
Definition still_wedged : Relayer := res_or rl_start (rl_run wedged later).

Example still_collecting : rl_blocks still_wedged = [2].
Proof. vm_compute. reflexivity. Qed.

Lemma late_stop_wedges_witness : rl_done still_wedged = rl_done wedged ∧ stalled still_wedged.
Proof.
  apply (late_stop_wedges collected (Ok []) ok_submit later); vm_compute; (reflexivity || discriminate).
Defined.

End Examples.
