(* ===== verification/Metrics.v ===== *)
(** * Metrics: the event listeners of the services and their Prometheus series

    Every service calls the methods of an event listener; the listener made by its
    [Make...Metrics] function turns a call into an operation on a collector that was
    registered under a name.  One module per source file:

    - [OperatorMetrics], [RpcClientMetrics]: operator/metrics.go;
    - [AttestorMetrics], [ConsumerMetrics]: the event_listener.go of operator/attestor/ and
      operator/consumer/;
    - [AggregatorMetrics], [DbMetrics], [RpcServerMetrics], [RestServerMetrics]:
      aggregator/metrics.go, database/event_listener.go, rpc_server/metrics.go,
      rest_server/metrics.go;
    - [RelayerMetrics]: relayer/metrics.go, with the server that exposes the series.

    A method of a listener interface is a constructor of an event type, a listener struct
    a record of optional callbacks.  The registry of the Prometheus client is an interface
    ([PromOps], [PromLaws]) with the documented rule: a collector is refused iff its
    description is not valid or its name is taken. *)

From stdpp Require Import pretty.
From S2P Require Import Prelude CoreTypes Messages RpcClient Servers Relayer.

(** ** Collectors and their samples *)

Inductive CollectorKind : Type := Counter | Gauge | Histogram.

(** Bucket bounds of a histogram are in [co_buckets], [None] being [math.Inf(0)]. *)
Record Collector := mkCollector {
  co_kind : CollectorKind;
  co_fqName : string;
  co_labels : list string;
  co_buckets : list (option Z) }.

(** [prometheus.BuildFQName]: the non-empty components joined by an underscore. *)
Definition BuildFQName (namespace subsystem name : string) : string :=
  let join a b := if decide (a = EmptyString) then b else a +:+ "_" +:+ b in
  if decide (name = EmptyString) then EmptyString else join namespace (join subsystem name).

Definition NewCounterVec (namespace subsystem name : string) (labels : list string) : Collector :=
  mkCollector Counter (BuildFQName namespace subsystem name) labels [].
Definition NewGaugeVec (namespace subsystem name : string) (labels : list string) : Collector :=
  mkCollector Gauge (BuildFQName namespace subsystem name) labels [].
Definition NewHistogram (namespace subsystem name : string) (buckets : list (option Z)) : Collector :=
  mkCollector Histogram (BuildFQName namespace subsystem name) [] buckets.
Definition NewCounter (namespace subsystem name : string) : Collector :=
  NewCounterVec namespace subsystem name [].
Definition NewGauge (namespace subsystem name : string) : Collector :=
  NewGaugeVec namespace subsystem name [].

(** Go's conversion of an integer to [float64]: to 53 significant bits, ties to even. *)
Definition float64 (z : Z) : Z :=
  let a := Z.abs z in
  let e := Z.log2 a - 52 in
  if e <=? 0 then z
  else
    let q := a / 2 ^ e in
    let r := a mod 2 ^ e in
    let q := if (2 ^ (e - 1) <? r) || ((r =? 2 ^ (e - 1)) && Z.odd q) then q + 1 else q in
    Z.sgn z * (q * 2 ^ e).

(** What a callback does to a collector, with the values of its labels. *)
Inductive MetricOp : Type :=
| Inc (c : Collector) (lvs : list string)
| SetTo (c : Collector) (lvs : list string) (v : Z)
| SetToCurrentTime (c : Collector) (lvs : list string)
| Observe (c : Collector) (lvs : list string) (v : Z).

Definition op_collector (o : MetricOp) : Collector :=
  match o with Inc c _ | SetTo c _ _ | SetToCurrentTime c _ | Observe c _ _ => c end.
Definition op_labels (o : MetricOp) : list string :=
  match o with Inc _ l | SetTo _ l _ | SetToCurrentTime _ l | Observe _ l _ => l end.

(** A series is a name with label values; a histogram's samples are its observations. *)
Definition Series : Type := string * list string.
Record Samples := mkSamples {
  sa_values : gmap Series Z;
  sa_observed : gmap Series (list Z) }.

Definition op_series (o : MetricOp) : Series := (co_fqName (op_collector o), op_labels o).
Definition value_of (s : Samples) (k : Series) : Z := default 0 (sa_values s !! k).
Definition observed (s : Samples) (k : Series) : list Z := default [] (sa_observed s !! k).

(** [WithLabelValues] panics when the number of values is not the number of labels. *)
Definition exec_op (now : Z) (s : Samples) (o : MetricOp) : go Samples :=
  if negb (bool_decide (length (op_labels o) = length (co_labels (op_collector o)))) then Panic
  else
    let k := op_series o in
    Ok match o with
       | Inc _ _ => mkSamples (<[k := value_of s k + 1]> (sa_values s)) (sa_observed s)
       | SetTo _ _ v => mkSamples (<[k := v]> (sa_values s)) (sa_observed s)
       | SetToCurrentTime _ _ => mkSamples (<[k := now]> (sa_values s)) (sa_observed s)
       | Observe _ _ v => mkSamples (sa_values s) (<[k := observed s k ++ [v]]> (sa_observed s))
       end.

(** The calls of a run, each with the time at which it happens. *)
Fixpoint exec_ops (s : Samples) (ops : list (Z * MetricOp)) : go Samples :=
  match ops with
  | [] => Ok s
  | (now, o) :: ops => let? s := exec_op now s o in exec_ops s ops
  end.

Definition no_samples : Samples := mkSamples ∅ ∅.

(** The cumulative count of a histogram bucket. *)
Definition in_bucket (bound : option Z) (v : Z) : bool :=
  match bound with Some b => v <=? b | None => true end.
Definition bucket_count (s : Samples) (k : Series) (bound : option Z) : nat :=
  length (filter (λ v, in_bucket bound v = true) (observed s k)).

(** ** The registry *)

Definition name_char (first : bool) (a : Ascii.ascii) : bool :=
  let n := Ascii.nat_of_ascii a in
  ((65 <=? n) && (n <=? 90) || (97 <=? n) && (n <=? 122) || (n =? 95))%nat
  || negb first && ((48 <=? n) && (n <=? 57))%nat.
Fixpoint name_chars (s : string) : bool :=
  match s with
  | EmptyString => true
  | String a s => name_char false a && name_chars s
  end.
Definition valid_name (s : string) : bool :=
  match s with
  | EmptyString => false
  | String a s => name_char true a && name_chars s
  end.
Definition reserved_label (s : string) : bool :=
  match s with
  | String a (String b _) => ((Ascii.nat_of_ascii a =? 95) && (Ascii.nat_of_ascii b =? 95))%nat
  | _ => false
  end.
Definition valid_collector (c : Collector) : bool :=
  valid_name (co_fqName c)
  && forallb (λ l, valid_name l && negb (reserved_label l)) (co_labels c)
  && bool_decide (NoDup (co_labels c)).

Class PromOps := {
  Registry : Type;
  NewRegistry : Registry;
  Register : Collector → Registry → option Registry;
  registered : Registry → gset string }.

Class PromLaws (O : PromOps) := {
  new_registered : registered NewRegistry = ∅;
  register_some c r r' : Register c r = Some r' → registered r' = {[co_fqName c]} ∪ registered r;
  register_refused c r :
    Register c r = None ↔ valid_collector c = false ∨ co_fqName c ∈ registered r }.

Section Registration.
Context `{PO : PromOps}.

(** [registry.Register] for each collector in turn; the first error is returned under the
    text of its [fmt.Errorf], the collectors before it stay registered. *)
Fixpoint register_all (cs : list (Collector * string)) (r : Registry) : Registry * go unit :=
  match cs with
  | [] => (r, Ok tt)
  | (c, text) :: cs =>
      match Register c r with
      | None => (r, Err (NewError text))
      | Some r => register_all cs r
      end
  end.

Definition make {L} (cs : list (Collector * string)) (listener : L) (r : Registry)
    : Registry * go L :=
  match register_all cs r with
  | (r, Ok _) => (r, Ok listener)
  | (r, Err e) => (r, Err e)
  | (r, Panic) => (r, Panic)
  end.

(** The body of the [EnableMetrics] methods: the new listener replaces the one in use if
    it could be made. *)
Definition install {L} (mk : Registry → Registry * go L) (current : L) (r : Registry)
    : Registry * L * go unit :=
  match mk r with
  | (r, Ok l) => (r, l, Ok tt)
  | (r, Err e) => (r, current, Err e)
  | (r, Panic) => (r, current, Panic)
  end.
End Registration.

(** The series a scrape of the registry shows. *)
Definition exposed `{PO : PromOps} (r : Registry) (s : Samples) (k : Series) : option Z :=
  if decide (k.1 ∈ registered r) then sa_values s !! k else None.

(** [fmt.Sprintf] of the label values: %t, %d and %x. *)
Definition fmt_t (b : bool) : string := if b then "true" else "false".
Definition fmt_d (z : Z) : string := pretty z.
Definition hex_digit (z : Z) : string :=
  String (Ascii.ascii_of_nat (Z.to_nat (if z <? 10 then 48 + z else 87 + z))) EmptyString.
Fixpoint fmt_x (b : bytes) : string :=
  match b with
  | [] => EmptyString
  | x :: b => hex_digit (x / 16) +:+ hex_digit (x mod 16) +:+ fmt_x b
  end.

(** A call of a listener method: nothing happens when the callback is nil. *)
Definition call0 (cb : option MetricOp) : list MetricOp :=
  match cb with Some o => [o] | None => [] end.
Definition call1 {A} (cb : option (A → MetricOp)) (a : A) : list MetricOp :=
  match cb with Some f => [f a] | None => [] end.
Definition call2 {A B} (cb : option (A → B → MetricOp)) (a : A) (b : B) : list MetricOp :=
  match cb with Some f => [f a b] | None => [] end.

(** ** operator/metrics.go *)

Definition OperatorNamespace : string := "sffl_operator".

Module OperatorMetrics.

Inductive Event : Type :=
| OnTasksReceived
| IncInitializationCount
| ObserveLastInitializedTime.

Record SelectiveOperatorListener := mkListener {
  OnTasksReceivedCb : option MetricOp;
  IncInitializationCountCb : option MetricOp;
  ObserveLastInitializedTimeCb : option MetricOp }.

Definition notify (l : SelectiveOperatorListener) (e : Event) : list MetricOp :=
  match e with
  | OnTasksReceived => call0 (OnTasksReceivedCb l)
  | IncInitializationCount => call0 (IncInitializationCountCb l)
  | ObserveLastInitializedTime => call0 (ObserveLastInitializedTimeCb l)
  end.

Definition numTasksReceived := NewCounter OperatorNamespace EmptyString "num_tasks_received".
Definition initializationCount := NewCounter OperatorNamespace EmptyString "initialization_count".
Definition lastInitializedTime := NewGauge OperatorNamespace EmptyString "last_initialized_time".

Definition collectors : list (Collector * string) := [
  (numTasksReceived, "error registering numTasksReceived counter");
  (lastInitializedTime, "error registering lastInitializedTime gauge");
  (initializationCount, "error registering initializationCount counter")]%string.

Definition listener : SelectiveOperatorListener :=
  mkListener (Some (Inc numTasksReceived [])) (Some (Inc initializationCount []))
    (Some (SetToCurrentTime lastInitializedTime [])).

Definition none : SelectiveOperatorListener := mkListener None None None.

Definition MakeOperatorMetrics `{PromOps} : Registry → Registry * go SelectiveOperatorListener :=
  make collectors listener.

End OperatorMetrics.

Module RpcClientMetrics.

Record SelectiveRpcClientListener := mkListener {
  OnMessagesReceivedCb : option MetricOp;
  ObserveResendQueueSizeCb : option (Z → MetricOp);
  ObserveLastCheckpointIdRespondedCb : option (TaskIndex → MetricOp);
  ObserveLastOperatorSetUpdateIdRespondedCb : option (OperatorSetUpdateId → MetricOp);
  IncStateRootUpdateSubmissionsCb : option (RollupId → bool → MetricOp);
  IncOperatorSetUpdateUpdateSubmissionsCb : option (bool → MetricOp);
  IncCheckpointTaskResponseSubmissionsCb : option (bool → MetricOp);
  IncErroredStateRootUpdateSubmissionsCb : option (RollupId → bool → MetricOp);
  IncErroredOperatorSetUpdateSubmissionsCb : option (bool → MetricOp);
  IncErroredCheckpointSubmissionsCb : option (bool → MetricOp) }.

(** The events are the calls made by the client, [RpcClient.ListenerEvent]. *)
Definition notify (l : SelectiveRpcClientListener) (e : ListenerEvent) : list MetricOp :=
  match e with
  | OnMessagesReceived => call0 (OnMessagesReceivedCb l)
  | ObserveResendQueueSize size => call1 (ObserveResendQueueSizeCb l) (Z.of_nat size)
  | ObserveLastCheckpointIdResponded i => call1 (ObserveLastCheckpointIdRespondedCb l) i
  | ObserveLastOperatorSetUpdateIdResponded i =>
      call1 (ObserveLastOperatorSetUpdateIdRespondedCb l) i
  | IncStateRootUpdateSubmissions rollupId resend =>
      call2 (IncStateRootUpdateSubmissionsCb l) rollupId resend
  | IncOperatorSetUpdateUpdateSubmissions resend =>
      call1 (IncOperatorSetUpdateUpdateSubmissionsCb l) resend
  | IncCheckpointTaskResponseSubmissions resend =>
      call1 (IncCheckpointTaskResponseSubmissionsCb l) resend
  | IncErroredStateRootUpdateSubmissions rollupId resend =>
      call2 (IncErroredStateRootUpdateSubmissionsCb l) rollupId resend
  | IncErroredCheckpointSubmissions resend => call1 (IncErroredCheckpointSubmissionsCb l) resend
  | IncErroredOperatorSetUpdateSubmissions resend =>
      call1 (IncErroredOperatorSetUpdateSubmissionsCb l) resend
  end.

Definition numMessagesReceived := NewCounter OperatorNamespace EmptyString "num_messages_received".
Definition resendQueueSize := NewGauge OperatorNamespace EmptyString "resend_queue_size".
Definition lastCheckpointIdResponded :=
  NewGauge OperatorNamespace EmptyString "last_checkpoint_id_responded".
Definition lastOperatorSetUpdateIdResponded :=
  NewGauge OperatorNamespace EmptyString "last_operator_set_update_id_responded".
Definition stateRootUpdateSubmissions :=
  NewCounterVec OperatorNamespace EmptyString "state_root_update_submissions" ["rollup_id"; "resend"]%string.
Definition operatorSetUpdateSubmissions :=
  NewCounterVec OperatorNamespace EmptyString "operator_set_update_submissions" ["resend"]%string.
Definition checkpointTaskResponseSubmissions :=
  NewCounterVec OperatorNamespace EmptyString "checkpoint_task_response_submissions" ["resend"]%string.
Definition erroredStateRootUpdateSubmissions :=
  NewCounterVec OperatorNamespace EmptyString "errored_state_root_update_submissions"
    ["rollup_id"; "resend"]%string.
Definition erroredCheckpointSubmissions :=
  NewCounterVec OperatorNamespace EmptyString "errored_checkpoint_submissions" ["resend"]%string.
Definition erroredOperatorSetUpdateSubmissions :=
  NewCounterVec OperatorNamespace EmptyString "errored_operator_set_update_submissions" ["resend"]%string.

(** [erroredStateRootUpdateSubmissions] is not among the collectors that are registered. *)
Definition collectors : list (Collector * string) := [
  (numMessagesReceived, "error registering numMessagesReceived counter");
  (resendQueueSize, "error registering resendQueueSize gauge");
  (lastCheckpointIdResponded, "error registering lastCheckpointIdResponded gauge");
  (lastOperatorSetUpdateIdResponded, "error registering lastOperatorSetUpdateIdResponded gauge");
  (stateRootUpdateSubmissions, "error registering stateRootUpdatesSent counter");
  (operatorSetUpdateSubmissions, "error registering operatorSetUpdateSubmissions counter");
  (checkpointTaskResponseSubmissions, "error registering checkpointTaskResponseSubmissions counter");
  (erroredCheckpointSubmissions, "error registering erroredCheckpointSubmissions counter");
  (erroredOperatorSetUpdateSubmissions,
     "error registering erroredOperatorSetUpdateSubmissions counter")]%string.

Definition listener : SelectiveRpcClientListener :=
  mkListener (Some (Inc numMessagesReceived []))
    (Some (λ size, SetTo resendQueueSize [] (float64 size)))
    (Some (λ i, SetTo lastCheckpointIdResponded [] (float64 i)))
    (Some (λ i, SetTo lastOperatorSetUpdateIdResponded [] (float64 i)))
    (Some (λ r resend, Inc stateRootUpdateSubmissions [fmt_d r; fmt_t resend]))
    (Some (λ resend, Inc operatorSetUpdateSubmissions [fmt_t resend]))
    (Some (λ resend, Inc checkpointTaskResponseSubmissions [fmt_t resend]))
    (Some (λ r resend, Inc erroredStateRootUpdateSubmissions [fmt_d r; fmt_t resend]))
    (Some (λ resend, Inc erroredOperatorSetUpdateSubmissions [fmt_t resend]))
    (Some (λ resend, Inc erroredCheckpointSubmissions [fmt_t resend])).

Definition none : SelectiveRpcClientListener :=
  mkListener None None None None None None None None None None.

Definition MakeRpcClientMetrics `{PromOps} : Registry → Registry * go SelectiveRpcClientListener :=
  make collectors listener.

End RpcClientMetrics.

(** ** operator/attestor/event_listener.go, operator/consumer/event_listener.go *)

Module AttestorMetrics.

Inductive Event : Type :=
| OnMissedMQBlock (rollupId : RollupId)
| OnBlockMismatch (rollupId : RollupId)
| OnBlockReceived (rollupId : RollupId)
| ObserveLastBlockReceived (rollupId : RollupId) (blockNumber : BlockNumber)
| ObserveLastBlockReceivedTimestamp (rollupId : RollupId) (timestamp : Timestamp)
| ObserveInitializationInitialBlockNumber (rollupId : RollupId) (blockNumber : BlockNumber).

Record SelectiveEventListener := mkListener {
  OnMissedMQBlockCb : option (RollupId → MetricOp);
  OnBlockMismatchCb : option (RollupId → MetricOp);
  OnBlockReceivedCb : option (RollupId → MetricOp);
  ObserveLastBlockReceivedCb : option (RollupId → BlockNumber → MetricOp);
  ObserveLastBlockReceivedTimestampCb : option (RollupId → Timestamp → MetricOp);
  ObserveInitializationInitialBlockNumberCb : option (RollupId → BlockNumber → MetricOp) }.

Definition notify (l : SelectiveEventListener) (e : Event) : list MetricOp :=
  match e with
  | OnMissedMQBlock r => call1 (OnMissedMQBlockCb l) r
  | OnBlockMismatch r => call1 (OnBlockMismatchCb l) r
  | OnBlockReceived r => call1 (OnBlockReceivedCb l) r
  | ObserveLastBlockReceived r n => call2 (ObserveLastBlockReceivedCb l) r n
  | ObserveLastBlockReceivedTimestamp r t => call2 (ObserveLastBlockReceivedTimestampCb l) r t
  | ObserveInitializationInitialBlockNumber r n =>
      call2 (ObserveInitializationInitialBlockNumberCb l) r n
  end.

Definition numMissedMqBlocks :=
  NewCounterVec OperatorNamespace "attestor" "num_of_missed_mq_blocks" ["rollup_id"]%string.
Definition numBlocksMismatched :=
  NewCounterVec OperatorNamespace "attestor" "num_of_mismatched_blocks" ["rollup_id"]%string.
Definition numBlocksReceived :=
  NewCounterVec OperatorNamespace "attestor" "num_of_received_blocks" ["rollup_id"]%string.
Definition lastBlockReceived :=
  NewGaugeVec OperatorNamespace EmptyString "last_block_received" ["rollup_id"]%string.
Definition lastBlockReceivedTimestamp :=
  NewGaugeVec OperatorNamespace EmptyString "last_block_received_timestamp" ["rollup_id"]%string.
Definition initializationInitialBlockNumber :=
  NewGaugeVec OperatorNamespace EmptyString "initialization_initial_block_number" ["rollup_id"]%string.

Definition collectors : list (Collector * string) := [
  (numMissedMqBlocks, "error registering numMissedMqBlocks counter");
  (numBlocksMismatched, "error registering numBlocksMismatched counter");
  (numBlocksReceived, "error registering numBlocksReceived counter");
  (lastBlockReceived, "error registering lastBlockReceived gauge");
  (lastBlockReceivedTimestamp, "error registering lastBlockReceivedTimestamp gauge");
  (initializationInitialBlockNumber, "error registering initializationInitialBlockNumber gauge")]%string.

(** The callback of [OnBlockReceived] is not set. *)
Definition listener : SelectiveEventListener :=
  mkListener (Some (λ r, Inc numMissedMqBlocks [fmt_d r]))
    (Some (λ r, Inc numBlocksMismatched [fmt_d r]))
    None
    (Some (λ r n, SetTo lastBlockReceived [fmt_d r] (float64 n)))
    (Some (λ r t, SetTo lastBlockReceivedTimestamp [fmt_d r] (float64 t)))
    (Some (λ r n, SetTo initializationInitialBlockNumber [fmt_d r] (float64 n))).

Definition none : SelectiveEventListener := mkListener None None None None None None.

Definition MakeAttestorMetrics `{PromOps} : Registry → Registry * go SelectiveEventListener :=
  make collectors listener.

End AttestorMetrics.

Module ConsumerMetrics.

Inductive Event : Type := OnArrival | OnFormatError.

Record SelectiveListener := mkListener {
  OnArrivalCb : option MetricOp;
  OnFormatErrorCb : option MetricOp }.

Definition notify (l : SelectiveListener) (e : Event) : list MetricOp :=
  match e with
  | OnArrival => call0 (OnArrivalCb l)
  | OnFormatError => call0 (OnFormatErrorCb l)
  end.

Definition numBlocksArrived := NewCounter OperatorNamespace "consumer" "num_of_mq_arrivals".
Definition numFormatErrors := NewCounter OperatorNamespace "consumer" "num_of_mismatched_blocks".

Definition collectors : list (Collector * string) := [
  (numBlocksArrived, "error registering numBlocksArrived counter");
  (numFormatErrors, "error registering numFormatErrors counter")]%string.

Definition listener : SelectiveListener :=
  mkListener (Some (Inc numBlocksArrived [])) (Some (Inc numFormatErrors [])).

Definition none : SelectiveListener := mkListener None None.

Definition MakeConsumerMetrics `{PromOps} : Registry → Registry * go SelectiveListener :=
  make collectors listener.

End ConsumerMetrics.

(** ** aggregator/metrics.go, database/event_listener.go *)

Definition AggregatorNamespace : string := "sffl_aggregator".

Module AggregatorMetrics.

Inductive Event : Type :=
| ObserveLastStateRootUpdateAggregated (rollupId : RollupId) (blockNumber : BlockNumber)
| ObserveLastStateRootUpdateReceived (rollupId : RollupId) (blockNumber : BlockNumber)
| ObserveLastOperatorSetUpdateAggregated (operatorSetUpdateId : OperatorSetUpdateId)
| ObserveLastOperatorSetUpdateReceived (operatorSetUpdateId : OperatorSetUpdateId)
| IncExpiredMessages
| IncExpiredTasks
| IncErroredSubmissions
| IncAggregatorInitializations
| ObserveLastCheckpointReferenceSent (referenceId : TaskIndex)
| ObserveLastCheckpointTaskReferenceReceived (referenceId : TaskIndex)
| ObserveLastCheckpointTaskReferenceAggregated (referenceId : TaskIndex).

Record SelectiveAggregatorListener := mkListener {
  ObserveLastStateRootUpdateAggregatedCb : option (RollupId → BlockNumber → MetricOp);
  ObserveLastStateRootUpdateReceivedCb : option (RollupId → BlockNumber → MetricOp);
  ObserveLastOperatorSetUpdateAggregatedCb : option (OperatorSetUpdateId → MetricOp);
  ObserveLastOperatorSetUpdateReceivedCb : option (OperatorSetUpdateId → MetricOp);
  IncExpiredMessagesCb : option MetricOp;
  IncExpiredTasksCb : option MetricOp;
  IncErroredSubmissionsCb : option MetricOp;
  IncAggregatorInitializationsCb : option MetricOp;
  ObserveLastCheckpointReferenceSentCb : option (TaskIndex → MetricOp);
  ObserveLastCheckpointTaskReferenceReceivedCb : option (TaskIndex → MetricOp);
  ObserveLastCheckpointTaskReferenceAggregatedCb : option (TaskIndex → MetricOp) }.

Definition notify (l : SelectiveAggregatorListener) (e : Event) : list MetricOp :=
  match e with
  | ObserveLastStateRootUpdateAggregated r n => call2 (ObserveLastStateRootUpdateAggregatedCb l) r n
  | ObserveLastStateRootUpdateReceived r n => call2 (ObserveLastStateRootUpdateReceivedCb l) r n
  | ObserveLastOperatorSetUpdateAggregated i => call1 (ObserveLastOperatorSetUpdateAggregatedCb l) i
  | ObserveLastOperatorSetUpdateReceived i => call1 (ObserveLastOperatorSetUpdateReceivedCb l) i
  | IncExpiredMessages => call0 (IncExpiredMessagesCb l)
  | IncExpiredTasks => call0 (IncExpiredTasksCb l)
  | IncErroredSubmissions => call0 (IncErroredSubmissionsCb l)
  | IncAggregatorInitializations => call0 (IncAggregatorInitializationsCb l)
  | ObserveLastCheckpointReferenceSent i => call1 (ObserveLastCheckpointReferenceSentCb l) i
  | ObserveLastCheckpointTaskReferenceReceived i =>
      call1 (ObserveLastCheckpointTaskReferenceReceivedCb l) i
  | ObserveLastCheckpointTaskReferenceAggregated i =>
      call1 (ObserveLastCheckpointTaskReferenceAggregatedCb l) i
  end.

Definition lastStateRootUpdateAggregated :=
  NewGaugeVec AggregatorNamespace EmptyString "last_state_root_update_aggregated" ["rollup_id"]%string.
Definition lastStateRootUpdateReceived :=
  NewGaugeVec AggregatorNamespace EmptyString "last_state_root_update_received" ["rollup_id"]%string.
Definition lastOperatorSetUpdateAggregated :=
  NewGauge AggregatorNamespace EmptyString "last_operator_set_update_aggregated".
Definition lastOperatorSetUpdateReceived :=
  NewGauge AggregatorNamespace EmptyString "last_operator_set_update_received".
Definition expiredMessages := NewCounter AggregatorNamespace EmptyString "expired_messages_total".
Definition expiredTasks := NewCounter AggregatorNamespace EmptyString "expired_tasks_total".
Definition erroredSubmissions := NewCounter AggregatorNamespace EmptyString "errored_submissions_total".
Definition aggregatorInitializations :=
  NewCounter AggregatorNamespace EmptyString "reinitializations_total".
Definition lastCheckpointReferenceSent :=
  NewGauge AggregatorNamespace EmptyString "last_checkpoint_reference_sent".
Definition lastCheckpointTaskReferenceReceived :=
  NewGauge AggregatorNamespace EmptyString "last_checkpoint_task_reference_received".
Definition lastCheckpointTaskReferenceAggregated :=
  NewGauge AggregatorNamespace EmptyString "last_checkpoint_task_reference_aggregated".

Definition collectors : list (Collector * string) := [
  (lastStateRootUpdateAggregated, "error registering lastStateRootUpdateAggregated gauge");
  (lastStateRootUpdateReceived, "error registering lastStateRootUpdateReceived gauge");
  (lastOperatorSetUpdateAggregated, "error registering lastOperatorSetUpdateAggregated gauge");
  (lastOperatorSetUpdateReceived, "error registering lastBlockReceived gauge");
  (expiredMessages, "error registering expiredMessages counter");
  (expiredTasks, "error registering expiredTasks counter");
  (erroredSubmissions, "error registering erroredSubmissions counter");
  (aggregatorInitializations, "error registering aggregatorInitializations counter");
  (lastCheckpointReferenceSent, "error registering lastCheckpointReferenceSent gauge");
  (lastCheckpointTaskReferenceReceived, "error registering lastCheckpointTaskReferenceReceived gauge");
  (lastCheckpointTaskReferenceAggregated,
     "error registering lastCheckpointTaskReferenceAggregated gauge")]%string.

Definition listener : SelectiveAggregatorListener :=
  mkListener (Some (λ r n, SetTo lastStateRootUpdateAggregated [fmt_d r] (float64 n)))
    (Some (λ r n, SetTo lastStateRootUpdateReceived [fmt_d r] (float64 n)))
    (Some (λ i, SetTo lastOperatorSetUpdateAggregated [] (float64 i)))
    (Some (λ i, SetTo lastOperatorSetUpdateReceived [] (float64 i)))
    (Some (Inc expiredMessages [])) (Some (Inc expiredTasks []))
    (Some (Inc erroredSubmissions [])) (Some (Inc aggregatorInitializations []))
    (Some (λ i, SetTo lastCheckpointReferenceSent [] (float64 i)))
    (Some (λ i, SetTo lastCheckpointTaskReferenceReceived [] (float64 i)))
    (Some (λ i, SetTo lastCheckpointTaskReferenceAggregated [] (float64 i))).

Definition none : SelectiveAggregatorListener :=
  mkListener None None None None None None None None None None None.

Definition MakeAggregatorMetrics `{PromOps} : Registry → Registry * go SelectiveAggregatorListener :=
  make collectors listener.

End AggregatorMetrics.

Module DbMetrics.

(** Durations are in nanoseconds; [Microseconds] divides towards zero. *)
Inductive Event : Type := OnStore (duration : Z) | OnFetch (duration : Z).

Record SelectiveListener := mkListener {
  OnStoreCb : option (Z → MetricOp);
  OnFetchCb : option (Z → MetricOp) }.

Definition notify (l : SelectiveListener) (e : Event) : list MetricOp :=
  match e with
  | OnStore d => call1 (OnStoreCb l) d
  | OnFetch d => call1 (OnFetchCb l) d
  end.

Definition latencyBuckets : list (option Z) :=
  (Some <$> [25; 50; 75; 100; 250; 500; 1000; 2000; 3000; 4000; 5000; 10000; 50000; 500000]) ++ [None].

Definition readLatencyHistogram :=
  NewHistogram AggregatorNamespace "db" "read_latency" latencyBuckets.
Definition writeLatencyHistogram :=
  NewHistogram AggregatorNamespace "db" "write_latency" latencyBuckets.

Definition collectors : list (Collector * string) := [
  (readLatencyHistogram, "error registering readLatencyHistogram");
  (writeLatencyHistogram, "error registering writeLatencyHistogram")]%string.

Definition listener : SelectiveListener :=
  mkListener (Some (λ d, Observe writeLatencyHistogram [] (float64 (Z.quot d 1000))))
    (Some (λ d, Observe readLatencyHistogram [] (float64 (Z.quot d 1000)))).

Definition none : SelectiveListener := mkListener None None.

Definition MakeDBMetrics `{PromOps} : Registry → Registry * go SelectiveListener :=
  make collectors listener.

End DbMetrics.

(** ** aggregator/rpc_server/metrics.go, aggregator/rest_server/metrics.go *)

Module RpcServerMetrics.

Record SelectiveRpcListener := mkListener {
  IncOperatorInitializationsCb : option (OperatorId → MetricOp);
  IncSignedCheckpointTaskResponseCb : option (OperatorId → bool → bool → MetricOp);
  IncSignedStateRootUpdateMessageCb : option (OperatorId → RollupId → bool → bool → MetricOp);
  IncSignedOperatorSetUpdateMessageCb : option (OperatorId → bool → MetricOp);
  IncTotalSignedCheckpointTaskResponseCb : option MetricOp;
  IncTotalSignedStateRootUpdateMessageCb : option MetricOp;
  IncTotalSignedOperatorSetUpdateMessageCb : option MetricOp;
  ObserveLastMessageReceivedTimeCb : option (OperatorId → string → MetricOp) }.

(** The events are the calls of the handlers, [Servers.RpcMetric]. *)
Definition notify (l : SelectiveRpcListener) (e : RpcMetric) : list MetricOp :=
  match e with
  | IncOperatorInitializations i => call1 (IncOperatorInitializationsCb l) i
  | IncSignedCheckpointTaskResponse i errored notFound =>
      match IncSignedCheckpointTaskResponseCb l with Some f => [f i errored notFound] | None => [] end
  | IncSignedStateRootUpdateMessage i r errored hasNearDa =>
      match IncSignedStateRootUpdateMessageCb l with Some f => [f i r errored hasNearDa] | None => [] end
  | IncSignedOperatorSetUpdateMessage i errored =>
      call2 (IncSignedOperatorSetUpdateMessageCb l) i errored
  | ObserveLastMessageReceivedTime i messageType =>
      call2 (ObserveLastMessageReceivedTimeCb l) i messageType
  | IncTotalSignedCheckpointTaskResponse => call0 (IncTotalSignedCheckpointTaskResponseCb l)
  | IncTotalSignedStateRootUpdateMessage => call0 (IncTotalSignedStateRootUpdateMessageCb l)
  | IncTotalSignedOperatorSetUpdateMessage => call0 (IncTotalSignedOperatorSetUpdateMessageCb l)
  end.

Definition operatorInitializationsTotal :=
  NewCounterVec AggregatorNamespace EmptyString "operator_initializations_total" ["operator_id"]%string.
Definition signedCheckpointTaskResponsesTotal :=
  NewCounterVec AggregatorNamespace EmptyString "signed_checkpoint_task_responses_total"
    ["operator_id"; "errored"; "not_found"]%string.
Definition signedStateRootUpdateMessagesTotal :=
  NewCounterVec AggregatorNamespace EmptyString "signed_state_root_update_messages_total"
    ["operator_id"; "rollup_id"; "errored"; "has_near_da"]%string.
Definition signedOperatorSetUpdateMessagesTotal :=
  NewCounterVec AggregatorNamespace EmptyString "signed_operator_set_update_messages_total"
    ["operator_id"; "errored"]%string.
Definition lastMessageReceivedTime :=
  NewGaugeVec AggregatorNamespace EmptyString "last_message_received_time"
    ["operator_id"; "message_type"]%string.

Definition collectors : list (Collector * string) := [
  (operatorInitializationsTotal, "error registering operatorInitializationsTotal counter");
  (signedCheckpointTaskResponsesTotal, "error registering signedCheckpointTaskResponsesTotal counter");
  (signedStateRootUpdateMessagesTotal, "error registering signedStateRootUpdateMessagesTotal counter");
  (signedOperatorSetUpdateMessagesTotal,
     "error registering signedOperatorSetUpdateMessagesTotal counter");
  (lastMessageReceivedTime, "error registering lastMessageReceivedTime gauge")]%string.

(** The three callbacks of the totals are not set. *)
Definition listener : SelectiveRpcListener :=
  mkListener (Some (λ i, Inc operatorInitializationsTotal [fmt_x i]))
    (Some (λ i errored expired,
       Inc signedCheckpointTaskResponsesTotal [fmt_x i; fmt_t errored; fmt_t expired]))
    (Some (λ i r errored hasNearDa,
       Inc signedStateRootUpdateMessagesTotal [fmt_x i; fmt_d r; fmt_t errored; fmt_t hasNearDa]))
    (Some (λ i errored, Inc signedOperatorSetUpdateMessagesTotal [fmt_x i; fmt_t errored]))
    None None None
    (Some (λ i messageType, SetToCurrentTime lastMessageReceivedTime [fmt_x i; messageType])).

Definition none : SelectiveRpcListener := mkListener None None None None None None None None.

Definition MakeRpcServerMetrics `{PromOps} : Registry → Registry * go SelectiveRpcListener :=
  make collectors listener.

End RpcServerMetrics.

Module RestServerMetrics.

Inductive Event : Type :=
| IncStateRootUpdateRequests
| IncOperatorSetUpdateRequests
| IncCheckpointMessagesRequests
| APIErrors.

Record SelectiveListener := mkListener {
  IncStateRootUpdateRequestsCb : option MetricOp;
  IncOperatorSetUpdateRequestsCb : option MetricOp;
  IncCheckpointMessagesRequestsCb : option MetricOp;
  APIErrorsCb : option MetricOp }.

Definition notify (l : SelectiveListener) (e : Event) : list MetricOp :=
  match e with
  | IncStateRootUpdateRequests => call0 (IncStateRootUpdateRequestsCb l)
  | IncOperatorSetUpdateRequests => call0 (IncOperatorSetUpdateRequestsCb l)
  | IncCheckpointMessagesRequests => call0 (IncCheckpointMessagesRequestsCb l)
  | APIErrors => call0 (APIErrorsCb l)
  end.

Definition stateRootUpdateRequests :=
  NewCounter AggregatorNamespace EmptyString "state_root_update_requests_total".
Definition operatorSetUpdateRequests :=
  NewCounter AggregatorNamespace EmptyString "operator_set_update_requests_total".
Definition checkpointMessagesRequests :=
  NewCounter AggregatorNamespace EmptyString "checkpoint_messages_requests_total".
Definition apiErrors := NewCounter AggregatorNamespace EmptyString "api_errors_total".

Definition collectors : list (Collector * string) := [
  (stateRootUpdateRequests, "error registering stateRootUpdateRequests counter");
  (operatorSetUpdateRequests, "error registering operatorSetUpdateRequests counter");
  (checkpointMessagesRequests, "error registering checkpointMessagesRequests counter");
  (apiErrors, "error registering apiErrors counter")]%string.

Definition listener : SelectiveListener :=
  mkListener (Some (Inc stateRootUpdateRequests [])) (Some (Inc operatorSetUpdateRequests []))
    (Some (Inc checkpointMessagesRequests [])) (Some (Inc apiErrors [])).

Definition none : SelectiveListener := mkListener None None None None.

Definition MakeServerMetrics `{PromOps} : Registry → Registry * go SelectiveListener :=
  make collectors listener.

End RestServerMetrics.

(** ** relayer/metrics.go *)

Definition RelayerNamespace : string := "sffl_relayer".

Module RelayerMetrics.

(** The calls of the relayer's goroutines; [OnDaSubmitted] carries the duration in
    nanoseconds. *)
Inductive Event : Type :=
| OnBlockReceived
| OnDaSubmissionFailed
| OnDaSubmitted (duration : Z)
| OnRetriesRequired (retries : nat)
| OnInvalidNonce
| OnExpiredTx
| OnTimeoutTx.

Record SelectiveListener := mkListener {
  OnBlockReceivedCb : option MetricOp;
  OnDaSubmissionFailedCb : option MetricOp;
  OnDaSubmittedCb : option (Z → MetricOp);
  OnRetriesRequiredCb : option (Z → MetricOp);
  OnInvalidNonceCb : option MetricOp;
  OnExpiredTxCb : option MetricOp;
  OnTimeoutTxCb : option MetricOp }.

Definition notify (l : SelectiveListener) (e : Event) : list MetricOp :=
  match e with
  | OnBlockReceived => call0 (OnBlockReceivedCb l)
  | OnDaSubmissionFailed => call0 (OnDaSubmissionFailedCb l)
  | OnDaSubmitted d => call1 (OnDaSubmittedCb l) d
  | OnRetriesRequired n => call1 (OnRetriesRequiredCb l) (Z.of_nat n)
  | OnInvalidNonce => call0 (OnInvalidNonceCb l)
  | OnExpiredTx => call0 (OnExpiredTxCb l)
  | OnTimeoutTx => call0 (OnTimeoutTxCb l)
  end.

Definition latencyBuckets : list (option Z) :=
  (Some <$> [1; 25; 50; 75; 100; 250; 500; 1000; 2000; 3000; 4000; 5000; 10000]) ++ [None].
(** [prometheus.LinearBuckets(0, 1, SUBMIT_BLOCK_RETRIES)]. *)
Definition retryBuckets : list (option Z) :=
  (λ i, Some (Z.of_nat i)) <$> seq 0 SUBMIT_BLOCK_RETRIES.

Definition numBlocksReceived := NewCounter RelayerNamespace EmptyString "num_blocks_received".
Definition numDaSubmissionsFailed := NewCounter RelayerNamespace EmptyString "num_da_submissions_failed".
Definition submissionDuration :=
  NewHistogram RelayerNamespace EmptyString "submission_duration_ms" latencyBuckets.
Definition retriesHistogram := NewHistogram RelayerNamespace EmptyString "retries_histogram" retryBuckets.
Definition numInvalidNonces := NewCounter RelayerNamespace EmptyString "num_of_invalid_nonces".
Definition numExpiredTxs := NewCounter RelayerNamespace EmptyString "num_of_expired_txs".
Definition numTimeoutTxs := NewCounter RelayerNamespace EmptyString "num_of_timeout_txs".

Definition collectors : list (Collector * string) := [
  (numBlocksReceived, "error registering numBlocksReceived counter");
  (numDaSubmissionsFailed, "error registering numDaSubmissionsFailed counter");
  (submissionDuration, "error registering submissionDuration histogram");
  (retriesHistogram, "error registering retriesHistogram histogram");
  (numInvalidNonces, "error registering numInvalidNonces count");
  (numExpiredTxs, "error registering numExpiredTxs count");
  (numTimeoutTxs, "error registering numTimeoutTxs count")]%string.

Definition listener : SelectiveListener :=
  mkListener (Some (Inc numBlocksReceived [])) (Some (Inc numDaSubmissionsFailed []))
    (Some (λ d, Observe submissionDuration [] (float64 (Z.quot d 1000000))))
    (Some (λ n, Observe retriesHistogram [] (float64 n)))
    (Some (Inc numInvalidNonces [])) (Some (Inc numExpiredTxs [])) (Some (Inc numTimeoutTxs [])).

Definition none : SelectiveListener := mkListener None None None None None None None.

Definition MakeRelayerMetrics `{PromOps} : Registry → Registry * go SelectiveListener :=
  make collectors listener.

(** *** The metrics server

    [http.Handle] registers on the process-wide mux and panics when the pattern is taken;
    [ListenAndServe] answers in the goroutine of [startMetrics]. *)
Record MetricsServer := mkMetricsServer {
  ms_mux : gset string;
  ms_retryCount : Z;
  ms_running : bool }.

Definition RetryCount : Z := 3.

Definition startMetrics (mux : gset string) : go (gset string) :=
  if decide ("/metrics"%string ∈ mux) then Panic else Ok ({["/metrics"%string]} ∪ mux).

Definition StartMetricsServer (mux : gset string) : go MetricsServer :=
  let? mux := startMetrics mux in Ok (mkMetricsServer mux 0 true).

(** One round of the select: an error of [ListenAndServe] with the answer of
    [server.Shutdown], or the end of the context. *)
Inductive MetricsServerEvent : Type :=
| MsError (shutdown : go unit)
| MsDone.

Definition ms_step (s : MetricsServer) (e : MetricsServerEvent) : go MetricsServer :=
  if negb (ms_running s) then Ok s
  else
    match e with
    | MsDone => Ok (mkMetricsServer (ms_mux s) (ms_retryCount s) false)
    | MsError shutdown =>
        if RetryCount <=? ms_retryCount s then Ok (mkMetricsServer (ms_mux s) (ms_retryCount s) false)
        else
          match shutdown with
          | Panic => Panic
          | Err _ => Ok (mkMetricsServer (ms_mux s) (ms_retryCount s) false)
          | Ok _ =>
              let? mux := startMetrics (ms_mux s) in
              Ok (mkMetricsServer mux (ms_retryCount s + 1) true)
          end
    end.

End RelayerMetrics.

(** ** EnableMetrics of the services *)

Section Enable.
Context `{PO : PromOps}.

(** The listeners of an operator process, attestor and consumer nested in it. *)
Record OperatorListeners := mkOperatorListeners {
  ol_operator : OperatorMetrics.SelectiveOperatorListener;
  ol_attestor : AttestorMetrics.SelectiveEventListener;
  ol_consumer : ConsumerMetrics.SelectiveListener;
  ol_rpcClient : RpcClientMetrics.SelectiveRpcClientListener }.

Definition Consumer_EnableMetrics (l : OperatorListeners) (r : Registry)
    : Registry * OperatorListeners * go unit :=
  let '(r, c, res) := install ConsumerMetrics.MakeConsumerMetrics (ol_consumer l) r in
  (r, mkOperatorListeners (ol_operator l) (ol_attestor l) c (ol_rpcClient l), res).

Definition RpcClient_EnableMetrics (l : OperatorListeners) (r : Registry)
    : Registry * OperatorListeners * go unit :=
  let '(r, c, res) := install RpcClientMetrics.MakeRpcClientMetrics (ol_rpcClient l) r in
  (r, mkOperatorListeners (ol_operator l) (ol_attestor l) (ol_consumer l) c, res).

Definition Attestor_EnableMetrics (l : OperatorListeners) (r : Registry)
    : Registry * OperatorListeners * go unit :=
  let '(r, a, res) := install AttestorMetrics.MakeAttestorMetrics (ol_attestor l) r in
  let l := mkOperatorListeners (ol_operator l) a (ol_consumer l) (ol_rpcClient l) in
  match res with
  | Ok _ => Consumer_EnableMetrics l r
  | res => (r, l, res)
  end.

Definition Operator_EnableMetrics (l : OperatorListeners) (r : Registry)
    : Registry * OperatorListeners * go unit :=
  let '(r, o, res) := install OperatorMetrics.MakeOperatorMetrics (ol_operator l) r in
  let l := mkOperatorListeners o (ol_attestor l) (ol_consumer l) (ol_rpcClient l) in
  match res with
  | Ok _ =>
      match Attestor_EnableMetrics l r with
      | (r, l, Ok _) => RpcClient_EnableMetrics l r
      | out => out
      end
  | res => (r, l, res)
  end.

(** The listeners of an aggregator process; [aggregatorMain] enables the metrics of the
    aggregator (in [NewAggregator]) and of its two servers on one registry. *)
Record AggregatorListeners := mkAggregatorListeners {
  al_aggregator : AggregatorMetrics.SelectiveAggregatorListener;
  al_database : DbMetrics.SelectiveListener;
  al_rpcServer : RpcServerMetrics.SelectiveRpcListener;
  al_restServer : RestServerMetrics.SelectiveListener }.

Definition Database_EnableMetrics (l : AggregatorListeners) (r : Registry)
    : Registry * AggregatorListeners * go unit :=
  let '(r, d, res) := install DbMetrics.MakeDBMetrics (al_database l) r in
  (r, mkAggregatorListeners (al_aggregator l) d (al_rpcServer l) (al_restServer l), res).

Definition Aggregator_EnableMetrics (l : AggregatorListeners) (r : Registry)
    : Registry * AggregatorListeners * go unit :=
  let '(r, a, res) := install AggregatorMetrics.MakeAggregatorMetrics (al_aggregator l) r in
  let l := mkAggregatorListeners a (al_database l) (al_rpcServer l) (al_restServer l) in
  match res with
  | Ok _ => Database_EnableMetrics l r
  | res => (r, l, res)
  end.

Definition RpcServer_EnableMetrics (l : AggregatorListeners) (r : Registry)
    : Registry * AggregatorListeners * go unit :=
  let '(r, s, res) := install RpcServerMetrics.MakeRpcServerMetrics (al_rpcServer l) r in
  (r, mkAggregatorListeners (al_aggregator l) (al_database l) s (al_restServer l), res).

Definition RestServer_EnableMetrics (l : AggregatorListeners) (r : Registry)
    : Registry * AggregatorListeners * go unit :=
  let '(r, s, res) := install RestServerMetrics.MakeServerMetrics (al_restServer l) r in
  (r, mkAggregatorListeners (al_aggregator l) (al_database l) (al_rpcServer l) s, res).

Definition aggregatorMain_EnableMetrics (l : AggregatorListeners) (r : Registry)
    : Registry * AggregatorListeners * go unit :=
  match Aggregator_EnableMetrics l r with
  | (r, l, Ok _) =>
      match RpcServer_EnableMetrics l r with
      | (r, l, Ok _) => RestServer_EnableMetrics l r
      | out => out
      end
  | out => out
  end.

Definition Relayer_EnableMetrics (l : RelayerMetrics.SelectiveListener) (r : Registry)
    : Registry * RelayerMetrics.SelectiveListener * go unit :=
  install RelayerMetrics.MakeRelayerMetrics l r.

End Enable.
