(* ===== verification/MetricsTheory.v ===== *)
(** * Properties of the metrics

    - the collectors of a process can be registered together, once ([metrics_enabled]);
    - a listener call never panics, and the counters of the table [counter_series] count
      exactly the calls listed there ([calls_counted]);
    - what the operator's client exports about its deliveries is what it delivered,
      except for the failed state root updates, which no scrape ever shows
      ([deliveries_exported]);
    - the relayer's metrics server cannot be restarted ([restart_panics]). *)

From stdpp Require Import pretty.
From S2P Require Import Prelude CoreTypes Instances Messages RpcClient Servers Relayer Metrics.

(** ** Registration *)

Notation names cs := (co_fqName ∘ fst <$> cs) (only parsing).

(** Collectors that a registry accepts together. *)
Definition registrable (cs : list (Collector * string)) : bool :=
  forallb (λ c, valid_collector c.1) cs && bool_decide (NoDup (names cs)).

Section Registration.
Context `{PO : PromOps} {PL : PromLaws PO}.

Lemma register_all_app cs cs' r :
  register_all (cs ++ cs') r =
  match register_all cs r with
  | (r, Ok _) => register_all cs' r
  | out => out
  end.
Proof.
  revert r; induction cs as [|[c text] cs IH]; intros r; simpl; [done|].
  destruct (Register c r); [apply IH|done].
Qed.

Lemma register_all_ok cs : ∀ r,
  registrable cs = true → registered r ## list_to_set (names cs) →
  ∃ r', register_all cs r = (r', Ok tt) ∧ registered r' = registered r ∪ list_to_set (names cs).
Proof.
  unfold registrable. induction cs as [|[c text] cs IH]; simpl; intros r Hreg Hdis.
  { exists r. split; [done|]. set_solver. }
  apply andb_prop in Hreg as [[Hv Hvs]%andb_prop [Hnot Hnd]%bool_decide_eq_true%NoDup_cons].
  destruct (Register c r) as [r1|] eqn:Hr.
  - apply register_some in Hr as Hnames. destruct (IH r1) as (r' & Hr' & Hn').
    + rewrite Hvs. by apply bool_decide_eq_true.
    + rewrite Hnames. rewrite <- (elem_of_list_to_set (C := gset string)) in Hnot. set_solver.
    + exists r'. split; [done|]. rewrite Hn', Hnames. set_solver.
  - apply register_refused in Hr as [Hr|Hr]; [congruence|set_solver].
Qed.

Lemma register_all_taken c text cs r :
  co_fqName c ∈ registered r → register_all ((c, text) :: cs) r = (r, Err (NewError text)).
Proof.
  intros Hin. simpl. destruct (Register c r) eqn:Hr; [|done].
  assert (Register c r = None) by (apply register_refused; by right). congruence.
Qed.

Lemma install_make {L} cs (l l0 : L) r :
  install (make cs l) l0 r =
  match register_all cs r with
  | (r, Ok _) => (r, l, Ok tt)
  | (r, Err e) => (r, l0, Err e)
  | (r, Panic) => (r, l0, Panic)
  end.
Proof. unfold install, make. by destruct (register_all cs r) as [? []]. Qed.

End Registration.

(** The collectors each process registers, and the listeners it then uses. *)
Definition operator_collectors : list (Collector * string) :=
  OperatorMetrics.collectors ++ AttestorMetrics.collectors ++ ConsumerMetrics.collectors ++
  RpcClientMetrics.collectors.
Definition aggregator_collectors : list (Collector * string) :=
  AggregatorMetrics.collectors ++ DbMetrics.collectors ++ RpcServerMetrics.collectors ++
  RestServerMetrics.collectors.
Definition operator_listeners : OperatorListeners :=
  mkOperatorListeners OperatorMetrics.listener AttestorMetrics.listener ConsumerMetrics.listener
    RpcClientMetrics.listener.
Definition aggregator_listeners : AggregatorListeners :=
  mkAggregatorListeners AggregatorMetrics.listener DbMetrics.listener RpcServerMetrics.listener
    RestServerMetrics.listener.

Section Enable.
Context `{PO : PromOps} {PL : PromLaws PO}.

(** Each composition of [EnableMetrics] is one registration of all its collectors. *)
Lemma Operator_EnableMetrics_all (l : OperatorListeners) r r' :
  register_all operator_collectors r = (r', Ok tt) →
  Operator_EnableMetrics l r = (r', operator_listeners, Ok tt).
Proof.
  unfold operator_collectors, Operator_EnableMetrics, Attestor_EnableMetrics,
    Consumer_EnableMetrics, RpcClient_EnableMetrics, OperatorMetrics.MakeOperatorMetrics,
    AttestorMetrics.MakeAttestorMetrics, ConsumerMetrics.MakeConsumerMetrics,
    RpcClientMetrics.MakeRpcClientMetrics.
  rewrite !register_all_app, install_make.
  destruct (register_all OperatorMetrics.collectors r) as [r1 [[]| |]]; try done. rewrite install_make, register_all_app.
  destruct (register_all AttestorMetrics.collectors r1) as [r2 [[]| |]]; try done. rewrite install_make, register_all_app.
  destruct (register_all ConsumerMetrics.collectors r2) as [r3 [[]| |]]; try done. rewrite install_make.
  destruct (register_all RpcClientMetrics.collectors r3) as [r4 [[]| |]]; try done. by intros [= ->].
Qed.

Lemma aggregatorMain_EnableMetrics_all (l : AggregatorListeners) r r' :
  register_all aggregator_collectors r = (r', Ok tt) →
  aggregatorMain_EnableMetrics l r = (r', aggregator_listeners, Ok tt).
Proof.
  unfold aggregator_collectors, aggregatorMain_EnableMetrics, Aggregator_EnableMetrics,
    Database_EnableMetrics, RpcServer_EnableMetrics, RestServer_EnableMetrics,
    AggregatorMetrics.MakeAggregatorMetrics, DbMetrics.MakeDBMetrics,
    RpcServerMetrics.MakeRpcServerMetrics, RestServerMetrics.MakeServerMetrics.
  rewrite !register_all_app, install_make.
  destruct (register_all AggregatorMetrics.collectors r) as [r1 [[]| |]]; try done. rewrite install_make, register_all_app.
  destruct (register_all DbMetrics.collectors r1) as [r2 [[]| |]]; try done. rewrite install_make, register_all_app.
  destruct (register_all RpcServerMetrics.collectors r2) as [r3 [[]| |]]; try done. rewrite install_make.
  destruct (register_all RestServerMetrics.collectors r3) as [r4 [[]| |]]; try done. by intros [= ->].
Qed.

Lemma operator_enable_lemma (l : OperatorListeners) r :
  registered r ## list_to_set (names operator_collectors) →
  ∃ r', Operator_EnableMetrics l r = (r', operator_listeners, Ok tt) ∧
        registered r' = registered r ∪ list_to_set (names operator_collectors).
Proof.
  intros Hdis. destruct (register_all_ok operator_collectors r) as (r' & Hr & Hn);
    [by vm_compute|done|].
  exists r'. split; [by apply Operator_EnableMetrics_all|done].
Qed.

(** The metrics of an operator (with its attestor, consumer and client), of an
    aggregator (with its database and servers) and of a relayer can be enabled on a
    registry that has none of their names: every collector is valid and all names are
    distinct, so every registration succeeds, the registry gains exactly these names, and
    the listeners with their callbacks are installed.  Enabling the operator's metrics
    again on this registry fails and changes neither registry nor listeners. *)
Theorem metrics_enabled (r : Registry) (ol : OperatorListeners) (al : AggregatorListeners)
    (rl : RelayerMetrics.SelectiveListener) :
  registered r ## list_to_set (names (operator_collectors ++ aggregator_collectors ++
    RelayerMetrics.collectors)) →
  (∃ r', Operator_EnableMetrics ol r = (r', operator_listeners, Ok tt) ∧
     registered r' = registered r ∪ list_to_set (names operator_collectors) ∧
     Operator_EnableMetrics operator_listeners r' =
       (r', operator_listeners, Err (NewError "error registering numTasksReceived counter"))) ∧
  (∃ r', aggregatorMain_EnableMetrics al r = (r', aggregator_listeners, Ok tt) ∧
     registered r' = registered r ∪ list_to_set (names aggregator_collectors)) ∧
  (∃ r', Relayer_EnableMetrics rl r = (r', RelayerMetrics.listener, Ok tt) ∧
     registered r' = registered r ∪ list_to_set (names RelayerMetrics.collectors)).
Proof.
  rewrite !fmap_app, !list_to_set_app, !disjoint_union_r. intros (Hd1 & Hd2 & Hd3). split_and!.
  - destruct (operator_enable_lemma ol r) as (r' & Heq & Hn); [done|].
    exists r'. split_and!; [done..|].
    unfold Operator_EnableMetrics, OperatorMetrics.MakeOperatorMetrics.
    rewrite install_make. unfold OperatorMetrics.collectors.
    rewrite register_all_taken; [done|]. rewrite Hn. apply elem_of_union_r, elem_of_list_to_set.
    left.
  - destruct (register_all_ok aggregator_collectors r) as (r' & Hr & Hn); [by vm_compute|done|].
    exists r'. split; [by apply aggregatorMain_EnableMetrics_all|done].
  - destruct (register_all_ok RelayerMetrics.collectors r) as (r' & Hr & Hn); [by vm_compute|done|].
    exists r'. split; [|done].
    unfold Relayer_EnableMetrics, RelayerMetrics.MakeRelayerMetrics. rewrite install_make. by rewrite Hr.
Qed.

End Enable.

(** ** Calls *)

(** A listener call of any of the services. *)
Inductive Call : Type :=
| CallOperator (e : OperatorMetrics.Event)
| CallRpcClient (e : ListenerEvent)
| CallAttestor (e : AttestorMetrics.Event)
| CallConsumer (e : ConsumerMetrics.Event)
| CallAggregator (e : AggregatorMetrics.Event)
| CallDb (e : DbMetrics.Event)
| CallRpcServer (e : RpcMetric)
| CallRestServer (e : RestServerMetrics.Event)
| CallRelayer (e : RelayerMetrics.Event).

#[export] Instance operator_event_eq_dec : EqDecision OperatorMetrics.Event.
Proof. solve_decision. Defined.
#[export] Instance client_event_eq_dec : EqDecision ListenerEvent.
Proof. solve_decision. Defined.
#[export] Instance attestor_event_eq_dec : EqDecision AttestorMetrics.Event.
Proof. solve_decision. Defined.
#[export] Instance consumer_event_eq_dec : EqDecision ConsumerMetrics.Event.
Proof. solve_decision. Defined.
#[export] Instance aggregator_event_eq_dec : EqDecision AggregatorMetrics.Event.
Proof. solve_decision. Defined.
#[export] Instance db_event_eq_dec : EqDecision DbMetrics.Event.
Proof. solve_decision. Defined.
#[export] Instance rpc_metric_eq_dec : EqDecision RpcMetric.
Proof. solve_decision. Defined.
#[export] Instance rest_event_eq_dec : EqDecision RestServerMetrics.Event.
Proof. solve_decision. Defined.
#[export] Instance relayer_event_eq_dec : EqDecision RelayerMetrics.Event.
Proof. solve_decision. Defined.
#[export] Instance call_eq_dec : EqDecision Call.
Proof. solve_decision. Defined.

(** What the installed listeners do on a call. *)
Definition call_ops (c : Call) : list MetricOp :=
  match c with
  | CallOperator e => OperatorMetrics.notify (ol_operator operator_listeners) e
  | CallRpcClient e => RpcClientMetrics.notify (ol_rpcClient operator_listeners) e
  | CallAttestor e => AttestorMetrics.notify (ol_attestor operator_listeners) e
  | CallConsumer e => ConsumerMetrics.notify (ol_consumer operator_listeners) e
  | CallAggregator e => AggregatorMetrics.notify (al_aggregator aggregator_listeners) e
  | CallDb e => DbMetrics.notify (al_database aggregator_listeners) e
  | CallRpcServer e => RpcServerMetrics.notify (al_rpcServer aggregator_listeners) e
  | CallRestServer e => RestServerMetrics.notify (al_restServer aggregator_listeners) e
  | CallRelayer e => RelayerMetrics.notify RelayerMetrics.listener e
  end.

Definition calls_ops (calls : list (Z * Call)) : list (Z * MetricOp) :=
  calls ≫= (λ c, pair c.1 <$> call_ops c.2).

(** The operator ids in a call are 32 bytes. *)
Definition wf_id (i : OperatorId) : Prop := length i = 32%nat ∧ Forall is_u8 i.
Definition wf_call (c : Call) : Prop :=
  match c with
  | CallRpcServer (IncOperatorInitializations i)
  | CallRpcServer (IncSignedCheckpointTaskResponse i _ _)
  | CallRpcServer (IncSignedStateRootUpdateMessage i _ _ _)
  | CallRpcServer (IncSignedOperatorSetUpdateMessage i _)
  | CallRpcServer (ObserveLastMessageReceivedTime i _) => wf_id i
  | _ => True
  end.

Definition is_inc (o : MetricOp) : bool := match o with Inc _ _ => true | _ => false end.
Definition fits (o : MetricOp) : Prop := length (op_labels o) = length (co_labels (op_collector o)).

(** *** Label values tell their arguments apart *)

Lemma fmt_t_inj b b' : fmt_t b = fmt_t b' → b = b'.
Proof. by destruct b, b'. Qed.

Lemma fmt_d_inj z z' : fmt_d z = fmt_d z' → z = z'.
Proof. apply (inj pretty). Qed.

Lemma hex_digit_inj a b : 0 ≤ a < 16 → 0 ≤ b < 16 → hex_digit a = hex_digit b → a = b.
Proof.
  intros Ha Hb [= Heq]. apply (f_equal Ascii.nat_of_ascii) in Heq.
  rewrite !Ascii.nat_ascii_embedding in Heq by (repeat case_match; lia).
  repeat case_match; lia.
Qed.

Lemma fmt_x_inj (b b' : bytes) :
  length b = length b' → Forall is_u8 b → Forall is_u8 b' → fmt_x b = fmt_x b' → b = b'.
Proof.
  revert b'; induction b as [|x b IH]; intros [|y b'] Hlen Hb Hb' Heq; try done.
  inversion Hb as [|?? Hx]; inversion Hb' as [|?? Hy]; subst. unfold is_u8 in *.
  pose proof (Z.mod_pos_bound x 16 ltac:(lia)). pose proof (Z.mod_pos_bound y 16 ltac:(lia)).
  assert (0 ≤ x / 16 < 16 ∧ 0 ≤ y / 16 < 16) as [? ?].
  { split; (split; [apply Z.div_pos; lia|apply Z.div_lt_upper_bound; lia]). }
  assert (hex_digit (x / 16) = hex_digit (y / 16) ∧ hex_digit (x mod 16) = hex_digit (y mod 16) ∧
          fmt_x b = fmt_x b') as (E1 & E2 & E3).
  { unfold hex_digit in *. cbn [fmt_x String.append] in Heq. unfold hex_digit in Heq.
    cbn [String.append] in Heq. injection Heq as F1 F2 F3. by rewrite F1, F2. }
  apply hex_digit_inj in E1; [|lia..]. apply hex_digit_inj in E2; [|lia..].
  f_equal; [rewrite (Z.div_mod x 16), (Z.div_mod y 16) by lia; lia|]. apply IH; auto.
Qed.

Lemma wf_id_inj i i' : wf_id i → wf_id i' → fmt_x i = fmt_x i' → i = i'.
Proof. intros [] []. apply fmt_x_inj; congruence || done. Qed.

(** *** A series belongs to one kind of call *)

(** The names behind the calls, in the order of [call_code]; calls without callback have
    codes past the end. *)
Definition all_collectors : list Collector :=
  [OperatorMetrics.numTasksReceived; OperatorMetrics.initializationCount;
   OperatorMetrics.lastInitializedTime;
   RpcClientMetrics.numMessagesReceived; RpcClientMetrics.resendQueueSize;
   RpcClientMetrics.lastCheckpointIdResponded; RpcClientMetrics.lastOperatorSetUpdateIdResponded;
   RpcClientMetrics.stateRootUpdateSubmissions; RpcClientMetrics.operatorSetUpdateSubmissions;
   RpcClientMetrics.checkpointTaskResponseSubmissions;
   RpcClientMetrics.erroredStateRootUpdateSubmissions; RpcClientMetrics.erroredCheckpointSubmissions;
   RpcClientMetrics.erroredOperatorSetUpdateSubmissions;
   AttestorMetrics.numMissedMqBlocks; AttestorMetrics.numBlocksMismatched;
   AttestorMetrics.lastBlockReceived; AttestorMetrics.lastBlockReceivedTimestamp;
   AttestorMetrics.initializationInitialBlockNumber;
   ConsumerMetrics.numBlocksArrived; ConsumerMetrics.numFormatErrors;
   AggregatorMetrics.lastStateRootUpdateAggregated; AggregatorMetrics.lastStateRootUpdateReceived;
   AggregatorMetrics.lastOperatorSetUpdateAggregated; AggregatorMetrics.lastOperatorSetUpdateReceived;
   AggregatorMetrics.expiredMessages; AggregatorMetrics.expiredTasks;
   AggregatorMetrics.erroredSubmissions; AggregatorMetrics.aggregatorInitializations;
   AggregatorMetrics.lastCheckpointReferenceSent;
   AggregatorMetrics.lastCheckpointTaskReferenceReceived;
   AggregatorMetrics.lastCheckpointTaskReferenceAggregated;
   DbMetrics.writeLatencyHistogram; DbMetrics.readLatencyHistogram;
   RpcServerMetrics.operatorInitializationsTotal; RpcServerMetrics.signedCheckpointTaskResponsesTotal;
   RpcServerMetrics.signedStateRootUpdateMessagesTotal;
   RpcServerMetrics.signedOperatorSetUpdateMessagesTotal; RpcServerMetrics.lastMessageReceivedTime;
   RestServerMetrics.stateRootUpdateRequests; RestServerMetrics.operatorSetUpdateRequests;
   RestServerMetrics.checkpointMessagesRequests; RestServerMetrics.apiErrors;
   RelayerMetrics.numBlocksReceived; RelayerMetrics.numDaSubmissionsFailed;
   RelayerMetrics.submissionDuration; RelayerMetrics.retriesHistogram;
   RelayerMetrics.numInvalidNonces; RelayerMetrics.numExpiredTxs; RelayerMetrics.numTimeoutTxs].

Definition call_code (c : Call) : nat :=
  match c with
  | CallOperator OperatorMetrics.OnTasksReceived => 0
  | CallOperator OperatorMetrics.IncInitializationCount => 1
  | CallOperator OperatorMetrics.ObserveLastInitializedTime => 2
  | CallRpcClient OnMessagesReceived => 3
  | CallRpcClient (ObserveResendQueueSize _) => 4
  | CallRpcClient (ObserveLastCheckpointIdResponded _) => 5
  | CallRpcClient (ObserveLastOperatorSetUpdateIdResponded _) => 6
  | CallRpcClient (IncStateRootUpdateSubmissions _ _) => 7
  | CallRpcClient (IncOperatorSetUpdateUpdateSubmissions _) => 8
  | CallRpcClient (IncCheckpointTaskResponseSubmissions _) => 9
  | CallRpcClient (IncErroredStateRootUpdateSubmissions _ _) => 10
  | CallRpcClient (IncErroredCheckpointSubmissions _) => 11
  | CallRpcClient (IncErroredOperatorSetUpdateSubmissions _) => 12
  | CallAttestor (AttestorMetrics.OnMissedMQBlock _) => 13
  | CallAttestor (AttestorMetrics.OnBlockMismatch _) => 14
  | CallAttestor (AttestorMetrics.ObserveLastBlockReceived _ _) => 15
  | CallAttestor (AttestorMetrics.ObserveLastBlockReceivedTimestamp _ _) => 16
  | CallAttestor (AttestorMetrics.ObserveInitializationInitialBlockNumber _ _) => 17
  | CallAttestor (AttestorMetrics.OnBlockReceived _) => 49
  | CallConsumer ConsumerMetrics.OnArrival => 18
  | CallConsumer ConsumerMetrics.OnFormatError => 19
  | CallAggregator (AggregatorMetrics.ObserveLastStateRootUpdateAggregated _ _) => 20
  | CallAggregator (AggregatorMetrics.ObserveLastStateRootUpdateReceived _ _) => 21
  | CallAggregator (AggregatorMetrics.ObserveLastOperatorSetUpdateAggregated _) => 22
  | CallAggregator (AggregatorMetrics.ObserveLastOperatorSetUpdateReceived _) => 23
  | CallAggregator AggregatorMetrics.IncExpiredMessages => 24
  | CallAggregator AggregatorMetrics.IncExpiredTasks => 25
  | CallAggregator AggregatorMetrics.IncErroredSubmissions => 26
  | CallAggregator AggregatorMetrics.IncAggregatorInitializations => 27
  | CallAggregator (AggregatorMetrics.ObserveLastCheckpointReferenceSent _) => 28
  | CallAggregator (AggregatorMetrics.ObserveLastCheckpointTaskReferenceReceived _) => 29
  | CallAggregator (AggregatorMetrics.ObserveLastCheckpointTaskReferenceAggregated _) => 30
  | CallDb (DbMetrics.OnStore _) => 31
  | CallDb (DbMetrics.OnFetch _) => 32
  | CallRpcServer (IncOperatorInitializations _) => 33
  | CallRpcServer (IncSignedCheckpointTaskResponse _ _ _) => 34
  | CallRpcServer (IncSignedStateRootUpdateMessage _ _ _ _) => 35
  | CallRpcServer (IncSignedOperatorSetUpdateMessage _ _) => 36
  | CallRpcServer (ObserveLastMessageReceivedTime _ _) => 37
  | CallRpcServer IncTotalSignedCheckpointTaskResponse => 50
  | CallRpcServer IncTotalSignedStateRootUpdateMessage => 51
  | CallRpcServer IncTotalSignedOperatorSetUpdateMessage => 52
  | CallRestServer RestServerMetrics.IncStateRootUpdateRequests => 38
  | CallRestServer RestServerMetrics.IncOperatorSetUpdateRequests => 39
  | CallRestServer RestServerMetrics.IncCheckpointMessagesRequests => 40
  | CallRestServer RestServerMetrics.APIErrors => 41
  | CallRelayer RelayerMetrics.OnBlockReceived => 42
  | CallRelayer RelayerMetrics.OnDaSubmissionFailed => 43
  | CallRelayer (RelayerMetrics.OnDaSubmitted _) => 44
  | CallRelayer (RelayerMetrics.OnRetriesRequired _) => 45
  | CallRelayer RelayerMetrics.OnInvalidNonce => 46
  | CallRelayer RelayerMetrics.OnExpiredTx => 47
  | CallRelayer RelayerMetrics.OnTimeoutTx => 48
  end.

Lemma names_distinct : NoDup (co_fqName <$> all_collectors).
Proof. apply (bool_decide_unpack _). by vm_compute. Qed.

(** A call has at most one operation, on the collector of its code, with a value per label. *)
Lemma call_ops_spec c :
  call_ops c = [] ∨
  ∃ o, call_ops c = [o] ∧ all_collectors !! call_code c = Some (op_collector o) ∧ fits o.
Proof.
  destruct c as [[]|[]|[]|[]|[]|[]|[]|[]|[]];
    first [by left | right; eexists; split_and!; [done|done|done]].
Qed.

Lemma same_series_same_code c c' o o' :
  call_ops c = [o] → call_ops c' = [o'] → op_series o = op_series o' → call_code c = call_code c'.
Proof.
  destruct (call_ops_spec c) as [->|(? & -> & Hc & _)]; [done|].
  destruct (call_ops_spec c') as [->|(? & -> & Hc' & _)]; [done|].
  intros [= ->] [= ->] [= Hname _].
  apply (NoDup_lookup _ _ _ (co_fqName (op_collector o)) names_distinct).
  - by rewrite list_lookup_fmap, Hc.
  - rewrite list_lookup_fmap, Hc'. simpl. by rewrite Hname.
Qed.

(** Counting calls are told apart by their series. *)
Lemma inc_call_inj c c' o o' :
  wf_call c → wf_call c' → call_ops c = [o] → call_ops c' = [o'] → is_inc o = true →
  op_series o = op_series o' → c = c' ∧ is_inc o' = true.
Proof.
  intros Hwf Hwf' Hc Hc' Hinc Hs. pose proof (same_series_same_code _ _ _ _ Hc Hc' Hs) as Hcode.
  destruct c as [[]|[]|[]|[]|[]|[]|[]|[]|[]], c' as [[]|[]|[]|[]|[]|[]|[]|[]|[]];
    try discriminate Hcode; simpl in Hc, Hc'; try discriminate Hc;
    injection Hc as <-; try discriminate Hinc; injection Hc' as <-;
    (split; [|done]); try done;
    unfold op_series in Hs; cbn [op_collector op_labels] in Hs; injection Hs;
    intros; f_equal; f_equal;
    eauto using fmt_t_inj, fmt_d_inj, wf_id_inj.
Qed.

(** *** Execution *)

Lemma exec_ops_ok ops : ∀ s, Forall (λ o, fits o.2) ops → ∃ s', exec_ops s ops = Ok s'.
Proof.
  induction ops as [|[now o] ops IH]; intros s Hfit; simpl; [eauto|].
  inversion Hfit as [|?? Ho Hrest]; subst. unfold exec_op.
  rewrite bool_decide_eq_true_2 by done. simpl. by apply IH.
Qed.

(** The operations on a series. *)
Definition ops_on (k : Series) (ops : list (Z * MetricOp)) : list (Z * MetricOp) :=
  filter (λ o, op_series o.2 = k) ops.

Lemma exec_op_value now s o s' k :
  exec_op now s o = Ok s' →
  value_of s' k = if decide (op_series o = k) then
                    match o with
                    | Inc _ _ => value_of s k + 1
                    | SetTo _ _ v => v
                    | SetToCurrentTime _ _ => now
                    | Observe _ _ _ => value_of s k
                    end
                  else value_of s k.
Proof.
  unfold exec_op. destruct (negb _); [done|]. intros [= <-].
  destruct (decide (op_series o = k)) as [<-|Hk]; destruct o; unfold value_of; simpl;
    by rewrite ?lookup_insert_eq, ?lookup_insert_ne.
Qed.

Lemma exec_ops_count k ops : ∀ s s',
  exec_ops s ops = Ok s' → Forall (λ o, is_inc o.2 = true) (ops_on k ops) →
  value_of s' k = value_of s k + Z.of_nat (length (ops_on k ops)).
Proof.
  unfold ops_on. induction ops as [|[now o] ops IH]; intros s s' Hrun Hinc; simpl in Hrun.
  { injection Hrun as <-. simpl. lia. }
  apply res_bind_ok in Hrun as (s1 & Hs1 & Hrun). apply (exec_op_value _ _ _ _ k) in Hs1.
  rewrite filter_cons in Hinc |- *. simpl in *. case_decide as Hk.
  - inversion Hinc as [|?? Ho Hrest]; subst. rewrite (IH s1 s' Hrun Hrest), Hs1.
    destruct o; try discriminate Ho. simpl length. lia.
  - by rewrite (IH s1 s' Hrun Hinc), Hs1.
Qed.

(** The number of times a call is made. *)
Definition times_called (c : Call) (calls : list (Z * Call)) : nat :=
  length (filter (λ x, x.2 = c) calls).

Lemma calls_ops_fit calls : Forall (λ o, fits o.2) (calls_ops calls).
Proof.
  apply Forall_forall. unfold calls_ops. intros [now o] Ho.
  apply list_elem_of_bind in Ho as ([t c] & Ho & _). simpl in Ho.
  destruct (call_ops_spec c) as [Hc|(o' & Hc & _ & Hf)]; rewrite Hc in Ho; simpl in Ho.
  - by apply not_elem_of_nil in Ho.
  - apply list_elem_of_singleton in Ho. by injection Ho as -> ->.
Qed.

Lemma calls_ops_on c o calls :
  wf_call c → Forall (λ x, wf_call x.2) calls → call_ops c = [o] → is_inc o = true →
  Forall (λ o', is_inc o'.2 = true) (ops_on (op_series o) (calls_ops calls)) ∧
  length (ops_on (op_series o) (calls_ops calls)) = times_called c calls.
Proof.
  intros Hwf Hwfs Hc Hinc. unfold ops_on, times_called.
  induction Hwfs as [|[t c'] calls Hwf' Hwfs [IH1 IH2]]; [done|].
  unfold calls_ops in *. simpl in *. rewrite filter_app, filter_cons, length_app. simpl.
  destruct (call_ops_spec c') as [Hc'|(o' & Hc' & _)]; rewrite Hc'; simpl.
  - rewrite decide_False by congruence. done.
  - rewrite filter_cons, filter_nil. simpl. case_decide as Hs.
    + destruct (inc_call_inj c c' o o') as [-> Hi]; try done. rewrite decide_True by done.
      simpl. split; [by constructor|exact (f_equal S IH2)].
    + rewrite decide_False; [done|]. intros ->. rewrite Hc in Hc'. by injection Hc' as <-.
Qed.

Lemma calls_counted_lemma (s : Samples) (calls : list (Z * Call)) :
  Forall (λ x, wf_call x.2) calls →
  ∃ s', exec_ops s (calls_ops calls) = Ok s' ∧
    ∀ c o, wf_call c → call_ops c = [o] → is_inc o = true →
      value_of s' (op_series o) = value_of s (op_series o) + Z.of_nat (times_called c calls).
Proof.
  intros Hwfs. destruct (exec_ops_ok (calls_ops calls) s (calls_ops_fit calls)) as [s' Hrun].
  exists s'. split; [done|]. intros c o Hwf Hc Hinc.
  destruct (calls_ops_on c o calls) as [Hall Hlen]; try done.
  by rewrite (exec_ops_count _ _ _ _ Hrun Hall), Hlen.
Qed.

(** The counter each counting call is meant for, by the name and the label values under
    which it is scraped. *)
Definition counter_series (c : Call) : option Series :=
  match c with
  | CallOperator OperatorMetrics.OnTasksReceived => Some ("sffl_operator_num_tasks_received", [])
  | CallOperator OperatorMetrics.IncInitializationCount => Some ("sffl_operator_initialization_count", [])
  | CallRpcClient OnMessagesReceived => Some ("sffl_operator_num_messages_received", [])
  | CallRpcClient (IncStateRootUpdateSubmissions rollupId resend) =>
      Some ("sffl_operator_state_root_update_submissions", [fmt_d rollupId; fmt_t resend])
  | CallRpcClient (IncOperatorSetUpdateUpdateSubmissions resend) =>
      Some ("sffl_operator_operator_set_update_submissions", [fmt_t resend])
  | CallRpcClient (IncCheckpointTaskResponseSubmissions resend) =>
      Some ("sffl_operator_checkpoint_task_response_submissions", [fmt_t resend])
  | CallRpcClient (IncErroredStateRootUpdateSubmissions rollupId resend) =>
      Some ("sffl_operator_errored_state_root_update_submissions", [fmt_d rollupId; fmt_t resend])
  | CallRpcClient (IncErroredCheckpointSubmissions resend) =>
      Some ("sffl_operator_errored_checkpoint_submissions", [fmt_t resend])
  | CallRpcClient (IncErroredOperatorSetUpdateSubmissions resend) =>
      Some ("sffl_operator_errored_operator_set_update_submissions", [fmt_t resend])
  | CallAttestor (AttestorMetrics.OnMissedMQBlock rollupId) =>
      Some ("sffl_operator_attestor_num_of_missed_mq_blocks", [fmt_d rollupId])
  | CallAttestor (AttestorMetrics.OnBlockMismatch rollupId) =>
      Some ("sffl_operator_attestor_num_of_mismatched_blocks", [fmt_d rollupId])
  | CallConsumer ConsumerMetrics.OnArrival => Some ("sffl_operator_consumer_num_of_mq_arrivals", [])
  | CallConsumer ConsumerMetrics.OnFormatError => Some ("sffl_operator_consumer_num_of_mismatched_blocks", [])
  | CallAggregator AggregatorMetrics.IncExpiredMessages => Some ("sffl_aggregator_expired_messages_total", [])
  | CallAggregator AggregatorMetrics.IncExpiredTasks => Some ("sffl_aggregator_expired_tasks_total", [])
  | CallAggregator AggregatorMetrics.IncErroredSubmissions => Some ("sffl_aggregator_errored_submissions_total", [])
  | CallAggregator AggregatorMetrics.IncAggregatorInitializations =>
      Some ("sffl_aggregator_reinitializations_total", [])
  | CallRpcServer (IncOperatorInitializations operatorId) =>
      Some ("sffl_aggregator_operator_initializations_total", [fmt_x operatorId])
  | CallRpcServer (IncSignedCheckpointTaskResponse operatorId errored expired) =>
      Some ("sffl_aggregator_signed_checkpoint_task_responses_total", [fmt_x operatorId; fmt_t errored; fmt_t expired])
  | CallRpcServer (IncSignedStateRootUpdateMessage operatorId rollupId errored hasNearDa) =>
      Some ("sffl_aggregator_signed_state_root_update_messages_total",
            [fmt_x operatorId; fmt_d rollupId; fmt_t errored; fmt_t hasNearDa])
  | CallRpcServer (IncSignedOperatorSetUpdateMessage operatorId errored) =>
      Some ("sffl_aggregator_signed_operator_set_update_messages_total", [fmt_x operatorId; fmt_t errored])
  | CallRestServer RestServerMetrics.IncStateRootUpdateRequests =>
      Some ("sffl_aggregator_state_root_update_requests_total", [])
  | CallRestServer RestServerMetrics.IncOperatorSetUpdateRequests =>
      Some ("sffl_aggregator_operator_set_update_requests_total", [])
  | CallRestServer RestServerMetrics.IncCheckpointMessagesRequests =>
      Some ("sffl_aggregator_checkpoint_messages_requests_total", [])
  | CallRestServer RestServerMetrics.APIErrors => Some ("sffl_aggregator_api_errors_total", [])
  | CallRelayer RelayerMetrics.OnBlockReceived => Some ("sffl_relayer_num_blocks_received", [])
  | CallRelayer RelayerMetrics.OnDaSubmissionFailed => Some ("sffl_relayer_num_da_submissions_failed", [])
  | CallRelayer RelayerMetrics.OnInvalidNonce => Some ("sffl_relayer_num_of_invalid_nonces", [])
  | CallRelayer RelayerMetrics.OnExpiredTx => Some ("sffl_relayer_num_of_expired_txs", [])
  | CallRelayer RelayerMetrics.OnTimeoutTx => Some ("sffl_relayer_num_of_timeout_txs", [])
  | _ => None
  end%string.

(** The installed callbacks count on these series, and on no others. *)
Lemma counter_series_ops c :
  match counter_series c with
  | Some k => ∃ o, call_ops c = [o] ∧ is_inc o = true ∧ op_series o = k
  | None => Forall (λ o, is_inc o = false) (call_ops c)
  end.
Proof.
  destruct c as [[]|[]|[]|[]|[]|[]|[]|[]|[]]; cbn [counter_series];
    first [eexists; split_and!; [reflexivity..] | repeat constructor].
Qed.

Definition received_blocks (rollupId : RollupId) : Series :=
  ("sffl_operator_attestor_num_of_received_blocks"%string, [fmt_d rollupId]).

Lemma received_blocks_untouched r calls : ops_on (received_blocks r) (calls_ops calls) = [].
Proof.
  destruct (ops_on (received_blocks r) (calls_ops calls)) as [|[t o] ops] eqn:Hops; [done|exfalso].
  assert ((t, o) ∈ ops_on (received_blocks r) (calls_ops calls)) as Ho by (rewrite Hops; left).
  apply list_elem_of_filter in Ho as [Hs Ho]. simpl in Hs. unfold calls_ops in Ho.
  apply list_elem_of_bind in Ho as ([t' c] & Ho & _). simpl in Ho.
  destruct (call_ops_spec c) as [Hc|(o' & Hc & Hl & _)]; rewrite Hc in Ho; simpl in Ho; [by apply not_elem_of_nil in Ho|].
  apply list_elem_of_singleton in Ho. injection Ho as -> ->. injection Hs as Hname _.
  assert ("sffl_operator_attestor_num_of_received_blocks"%string ∈ co_fqName <$> all_collectors) as Hin.
  { rewrite <- Hname. apply list_elem_of_fmap. exists (op_collector o'). split; [done|]. by eapply list_elem_of_lookup_2. }
  revert Hin. apply (bool_decide_unpack (_ ∉ _)). vm_compute. exact I.
Qed.

(** C37: the label values of every callback fit the labels of its collector, so no
    listener call panics, and the counters count.  In any sequence of calls by any of the
    services, for every counting call of [counter_series] the counter of that name, at the
    label values of the call's arguments, grows by exactly the number of times this very
    call, with these arguments, was made.  The other calls increment no counter: they set
    gauges, observe latencies, or have no callback, as [OnBlockReceived] of the attestor,
    whose counter never moves, and the three totals of the RPC server. *)
Theorem calls_counted (s : Samples) (calls : list (Z * Call)) :
  Forall (λ x, wf_call x.2) calls →
  ∃ s', exec_ops s (calls_ops calls) = Ok s' ∧
    (∀ c k, wf_call c → counter_series c = Some k →
       value_of s' k = value_of s k + Z.of_nat (times_called c calls)) ∧
    (∀ c, counter_series c = None → Forall (λ o, is_inc o = false) (call_ops c)) ∧
    (∀ rollupId, value_of s' (received_blocks rollupId) = value_of s (received_blocks rollupId)).
Proof.
  intros Hwfs. destruct (calls_counted_lemma s calls Hwfs) as (s' & Hrun & Hcount). exists s'. split_and!; [done|..].
  - intros c k Hwf Hk. pose proof (counter_series_ops c) as Hc. rewrite Hk in Hc. destruct Hc as (o & Ho & Hinc & <-).
    by apply Hcount.
  - intros c Hk. pose proof (counter_series_ops c) as Hc. by rewrite Hk in Hc.
  - intros r. rewrite (exec_ops_count (received_blocks r) _ _ _ Hrun); rewrite received_blocks_untouched; [simpl; lia|done].
Qed.

(** ** What the operator exports about its deliveries *)

Section Deliveries.
Context `{B : BlsOps} (HexToAddress : string → Address).
Context `{PO : PromOps} {PL : PromLaws PO}.

Definition is_update (r : RollupId) (m : RpcMessage) : bool :=
  match m with RpcStateRootUpdate m => bool_decide (sru_RollupId (ssru_Message m) = r) | _ => false end.
Definition is_submission (r : RollupId) (e : ListenerEvent) : bool :=
  match e with IncStateRootUpdateSubmissions r' _ => bool_decide (r' = r) | _ => false end.

Notation count p l := (length (filter (λ x, p x = true) l)) (only parsing).

(** The listener has heard of every accepted update once. *)
Definition counted (ef : Effect) : Prop :=
  ∀ r, count (is_submission r) (ef_events ef) = count (is_update r) (ef_delivered ef).

Lemma counted_app d d' x x' y y' :
  counted (mkEffect d x y) → counted (mkEffect d' x' y') →
  counted (mkEffect (d ++ d') (x ++ x') (y ++ y')).
Proof. intros H1 H2 r. specialize (H1 r); specialize (H2 r). simpl in *. rewrite !filter_app, !length_app. lia. Qed.

Lemma counted_events m err resend :
  counted (mkEffect (if err is None then [m] else []) [] (listener_events m err resend)).
Proof.
  intros r. destruct m as [m|m|m], err; unfold listener_events; cbn [ef_events ef_delivered];
    rewrite ?filter_cons, ?filter_nil; cbn [is_submission is_update]; repeat case_decide; try done.
Qed.

Lemma counted_add d x y x' m err resend :
  counted (mkEffect d x y) →
  counted (mkEffect (d ++ (if err is None then [m] else [])) x' (y ++ listener_events m err resend)).
Proof.
  intros Hc r. specialize (Hc r). pose proof (counted_events m err resend r) as He.
  simpl in *. rewrite !filter_app, !length_app. lia.
Qed.

Lemma resend_loop_counted calls n : ∀ i p q ef,
  counted ef → counted (resend_loop calls n i p q ef).2.
Proof.
  induction n as [|n IH]; intros i p q [d x y] Hc; simpl; [done|].
  destruct (q !! i) as [e|]; [|done].
  pose proof (λ x', counted_add d x y x' (um_Message e) (calls i) true Hc) as Ha.
  destruct (calls i) as [err|]; [|by apply IH, Ha].
  destruct (isShutdownOrNetworkError err).
  - specialize (Ha x). rewrite app_nil_r in Ha. destruct (p =? 0)%nat; [done|].
    by destruct (copy_loop _ _ _ _).
  - setoid_rewrite app_nil_r in Ha. case_match; by apply IH, Ha.
Qed.

Lemma counted_quiet d x y es :
  counted (mkEffect d x y) → (∀ r, count (is_submission r) es = 0%nat) → counted (mkEffect d x (y ++ es)).
Proof. intros Hc He r. specialize (Hc r). simpl in *. rewrite filter_app, length_app, He, Hc. lia. Qed.

Lemma cl_step_counted c ev c' ef : cl_step HexToAddress c ev = Ok (c', ef) → counted ef.
Proof.
  destruct ev as [m call|env|calls|]; simpl; intros Hstep.
  - injection Hstep as Hstep. unfold sendOperatorMessage, appendProtected in Hstep.
    pose proof (counted_events m call false) as He.
    destruct (rc_rpcClient c), call; injection Hstep as _ <-; first [by intros r | by apply counted_quiet].
  - case_match; [by simplify_eq|]. by apply res_bind_ok in Hstep as (c1 & Hc1 & [= <- <-]).
  - case_match; [|by simplify_eq]. unfold onTick_resend, tryResendFromDeque in Hstep.
    apply res_bind_ok in Hstep as ([c1 ef1] & Heq & [= _ <-]). simpl.
    pose proof (resend_loop_counted calls (length (rc_unsentMessages c)) 0 0 (rc_unsentMessages c) no_effect
      ltac:(done)) as Hc.
    destruct (resend_loop _ _ _ _ _ _) as [[early q'] [d x y]]. simpl in *.
    assert (ef1 = if early then mkEffect d x y else mkEffect d x (y ++ [ObserveResendQueueSize (length q')]))
      as ->.
    { repeat case_match; simplify_eq/=; done. }
    destruct early; [done|]. by apply counted_quiet.
  - case_match; by simplify_eq/=.
Qed.

Lemma cl_run_counted evs : ∀ c c' ef, cl_run HexToAddress c evs = Ok (c', ef) → counted ef.
Proof.
  induction evs as [|ev evs IH]; intros c c' ef; simpl; [by intros [= <- <-]|].
  intros ([c1 [d x y]] & Hstep & ([c2 [d' x' y']] & Hrun & [= <- <-])%res_bind_ok)%res_bind_ok; simpl in *.
  apply counted_app; [by eapply cl_step_counted|by eapply IH].
Qed.

(** The sum of the two series of a rollup that a scrape shows. *)
Definition shown_submissions (reg : Registry) (s : Samples) (r : RollupId) : Z :=
  let name := co_fqName RpcClientMetrics.stateRootUpdateSubmissions in
  default 0 (exposed reg s (name, [fmt_d r; "true"])) +
  default 0 (exposed reg s (name, [fmt_d r; "false"])).

Lemma times_called_submissions r (evs : list (Z * ListenerEvent)) :
  (times_called (CallRpcClient (IncStateRootUpdateSubmissions r true)) (prod_map id CallRpcClient <$> evs) +
   times_called (CallRpcClient (IncStateRootUpdateSubmissions r false)) (prod_map id CallRpcClient <$> evs) =
   count (is_submission r) evs.*2)%nat.
Proof.
  unfold times_called. induction evs as [|[t e] evs IH]; [done|].
  rewrite !fmap_cons, !filter_cons. cbn [prod_map fst snd].
  destruct e as [| | | |r' []| | | | |]; cbn [is_submission];
    repeat (case_decide; [try by simplify_eq|]); try (simplify_eq; done); try done;
    try case_bool_decide; simplify_eq/=; lia || done.
Qed.

(** Once the operator's metrics are enabled on a new registry, the number of state
    root update submissions a scrape shows for a rollup is, after any run of the client,
    exactly the number of updates of that rollup the aggregator has accepted, first sends
    and resends together; and no scrape ever shows an errored state root update, because
    its collector is never registered. *)
Theorem deliveries_exported (l ls : OperatorListeners) (reg : Registry) (addr : Address)
    (evs : list ClientEvent) (c : Client) (ef : Effect) (calls : list (Z * ListenerEvent)) :
  Operator_EnableMetrics l NewRegistry = (reg, ls, Ok tt) →
  cl_run HexToAddress (NewAggregatorRpcClient addr) evs = Ok (c, ef) →
  calls.*2 = ef_events ef →
  ∃ s, exec_ops no_samples (calls ≫= λ e, pair e.1 <$> RpcClientMetrics.notify (ol_rpcClient ls) e.2) = Ok s ∧
    (∀ r, shown_submissions reg s r = Z.of_nat (count (is_update r) (ef_delivered ef))) ∧
    (∀ lvs, exposed reg s (co_fqName RpcClientMetrics.erroredStateRootUpdateSubmissions, lvs) = None).
Proof.
  intros Hen Hrun Hcalls.
  destruct (operator_enable_lemma l NewRegistry) as (reg' & Hen' & Hreg);
    [rewrite new_registered; apply disjoint_empty_l|].
  rewrite Hen' in Hen. injection Hen as -> <-. rewrite new_registered, union_empty_l_L in Hreg.
  set (all := prod_map id CallRpcClient <$> calls).
  assert (calls ≫= (λ e, pair e.1 <$> RpcClientMetrics.notify (ol_rpcClient operator_listeners) e.2) =
          calls_ops all) as ->.
  { unfold calls_ops, all. clear. induction calls as [|[t e] calls IH]; [done|]. simpl. f_equal. exact IH. }
  destruct (calls_counted_lemma no_samples all) as (s & Hs & Hcount).
  { apply Forall_forall. unfold all. intros x ([t e] & -> & _)%list_elem_of_fmap. done. }
  exists s. split; [done|]. split.
  - intros r. rewrite <- (cl_run_counted _ _ _ _ Hrun r), <- Hcalls, <- times_called_submissions.
    pose proof (λ b, Hcount (CallRpcClient (IncStateRootUpdateSubmissions r b)) _ I eq_refl eq_refl) as Hv.
    pose proof (Hv true) as Ht. pose proof (Hv false) as Hf.
    change (value_of no_samples _) with 0 in Ht, Hf.
    unfold shown_submissions, exposed. rewrite decide_True; [|by rewrite Hreg; apply elem_of_list_to_set;
      apply (bool_decide_unpack _); vm_compute].
    rewrite decide_True; [|by rewrite Hreg; apply elem_of_list_to_set; apply (bool_decide_unpack _); vm_compute].
    unfold value_of in Ht, Hf. unfold op_series in Ht, Hf. cbn [op_collector op_labels] in Ht, Hf.
    unfold fmt_t in Ht, Hf. rewrite Ht, Hf. fold all. lia.
  - intros lvs. unfold exposed. rewrite decide_False; [done|]. simpl fst. rewrite Hreg, elem_of_list_to_set.
    apply (bool_decide_unpack _). by vm_compute.
Qed.
End Deliveries.

(** ** The relayer's metrics server *)

Section MetricsServer.
Import RelayerMetrics.

Fixpoint ms_run (s : MetricsServer) (evs : list MetricsServerEvent) : go MetricsServer :=
  match evs with
  | [] => Ok s
  | e :: evs => let? s := ms_step s e in ms_run s evs
  end.

Lemma ms_run_inv evs : ∀ s st,
  "/metrics"%string ∈ ms_mux s → ms_retryCount s = 0 → ms_run s evs = Ok st →
  ms_retryCount st = 0 ∧ (ms_running st = true → evs = []).
Proof.
  induction evs as [|e evs IH]; intros s st Hmux Hcount; simpl; [by intros [= <-]|].
  intros (s1 & Hstep & Hrun)%res_bind_ok. unfold ms_step in Hstep.
  assert (∀ evs st, ms_run (mkMetricsServer (ms_mux s) 0 false) evs = Ok st →
            st = mkMetricsServer (ms_mux s) 0 false) as Hstop.
  { clear. intros evs. induction evs as [|e evs IH]; simpl; [by intros ? [= <-]|done]. }
  destruct s as [mux count []]; simpl in *; subst count.
  - destruct e as [[[]| |]|]; simpl in Hstep; try done.
    + unfold startMetrics in Hstep. by rewrite decide_True in Hstep.
    + injection Hstep as <-. by apply Hstop in Hrun as ->.
    + injection Hstep as <-. by apply Hstop in Hrun as ->.
  - injection Hstep as <-. by apply Hstop in Hrun as ->.
Qed.

(** The metrics server of the relayer is never restarted, although it is meant to be
    up to three times: the first error of the server whose shutdown succeeds ends the
    process, because the handler is registered again on the same mux; in a run without
    this no restart is ever counted, and the goroutine has stopped after its first
    event. *)
Theorem restart_panics (mux : gset string) (s : MetricsServer) :
  StartMetricsServer mux = Ok s →
  ms_step s (MsError (Ok tt)) = Panic ∧
  ∀ evs st, ms_run s evs = Ok st → ms_retryCount st = 0 ∧ (ms_running st = true → evs = []).
Proof.
  unfold StartMetricsServer, startMetrics. case_decide; [done|]. intros [= <-]. split.
  - unfold ms_step, startMetrics. simpl. by rewrite decide_True by set_solver.
  - intros evs st. apply ms_run_inv; [set_solver|done].
Qed.
End MetricsServer.

(** ** Examples *)

Module Examples.

(** A registry that keeps the set of its names. *)
#[local] Instance ToyProm : PromOps := {
  Registry := gset string;
  NewRegistry := ∅;
  Register c r := if decide (valid_collector c = true ∧ co_fqName c ∉ r)
                  then Some ({[co_fqName c]} ∪ r) else None;
  registered r := r }.

#[local] Instance ToyPromLaws : PromLaws ToyProm.
Proof.
  split; simpl; [done|intros ???; by case_decide; intros [= <-]|].
  intros c r. case_decide as Hd; [naive_solver congruence|].
  split; [intros _|done]. destruct (valid_collector c); [right|by left].
  destruct (decide (co_fqName c ∈ r)); naive_solver.
Qed.

Definition no_operator : OperatorListeners :=
  mkOperatorListeners OperatorMetrics.none AttestorMetrics.none ConsumerMetrics.none RpcClientMetrics.none.
Definition no_aggregator : AggregatorListeners :=
  mkAggregatorListeners AggregatorMetrics.none DbMetrics.none RpcServerMetrics.none
    RestServerMetrics.none.

Lemma metrics_enabled_witness :
  ∃ r', Operator_EnableMetrics no_operator NewRegistry = (r', operator_listeners, Ok tt).
Proof.
  destruct (metrics_enabled NewRegistry no_operator no_aggregator RelayerMetrics.none
    (disjoint_empty_l _)) as ((r' & Heq & _) & _).
  exists r'. exact Heq.
Defined.

(** A client that delivers one update at once and one at the next tick; its listener
    calls happen at times 0, 1, ... *)
#[local] Existing Instances ToyBls.ops.

Definition update (h : Z) : RpcMessage :=
  RpcStateRootUpdate (mkSignedStateRootUpdate
    (mkStateRootUpdate 3 h 0 (replicate 32 0) (replicate 32 0) (replicate 32 0)) None (replicate 32 1)).
Definition evs : list ClientEvent :=
  [CTick RpcClient.Examples.answers; CSend (update 7) None; CSend (update 8) (Some (ExternalError "refused"));
   CTick RpcClient.Examples.answers; CResend (λ _, None)].
Definition result := res_or (NewAggregatorRpcClient 8, no_effect)
  (cl_run RpcClient.Examples.to_address (NewAggregatorRpcClient 8) evs).

Lemma deliveries_run :
  cl_run RpcClient.Examples.to_address (NewAggregatorRpcClient 8) evs = Ok (result.1, result.2).
Proof. rewrite <- surjective_pairing. apply res_or_ok. by vm_compute. Qed.

Lemma deliveries_exported_witness :
  ef_delivered result.2 = [update 7; update 8] ∧
  ∃ reg s, registered reg = list_to_set (names operator_collectors) ∧ shown_submissions reg s 3 = 2.
Proof.
  split; [reflexivity|].
  destruct (operator_enable_lemma no_operator NewRegistry (disjoint_empty_l _)) as (reg & Hen & Hreg).
  destruct (deliveries_exported RpcClient.Examples.to_address no_operator operator_listeners reg 8
    evs result.1 result.2 (imap (λ i e, (Z.of_nat i, e)) (ef_events result.2))
    Hen deliveries_run) as (s & _ & Hs & _).
  { rewrite fmap_imap. apply list_eq. intros i. rewrite list_lookup_imap. by destruct (_ !! i). }
  exists reg, s. split; [rewrite Hreg; apply union_empty_l_L|exact (Hs 3)].
Defined.

(** Two submissions for rollup 3 and one for rollup 4 by the client of the operator. *)
Definition three_calls : list (Z * Call) :=
  [(1, CallRpcClient (IncStateRootUpdateSubmissions 3 false));
   (2, CallRpcClient (IncStateRootUpdateSubmissions 4 false));
   (3, CallRpcClient (IncStateRootUpdateSubmissions 3 false))].

Lemma calls_counted_witness :
  ∃ s', exec_ops no_samples (calls_ops three_calls) = Ok s' ∧
    value_of s' (co_fqName RpcClientMetrics.stateRootUpdateSubmissions, ["3"; "false"]%string) = 2.
Proof.
  destruct (calls_counted no_samples three_calls) as (s' & Hs & Hc & _); [repeat constructor|].
  exists s'. split; [exact Hs|].
  exact (Hc (CallRpcClient (IncStateRootUpdateSubmissions 3 false)) _ I eq_refl).
Defined.

Lemma restart_panics_witness :
  RelayerMetrics.ms_step (RelayerMetrics.mkMetricsServer ({["/metrics"%string]} ∪ ∅) 0 true)
    (RelayerMetrics.MsError (Ok tt)) = Panic.
Proof.
  apply (restart_panics ∅ (RelayerMetrics.mkMetricsServer ({["/metrics"%string]} ∪ ∅) 0 true)).
  reflexivity.
Defined.

End Examples.
