(* ===== verification/Chainio.v ===== *)
(** * Contract access: core/chainio/

    - [NewAvsManagersBindings] and the builders of readers, writers and subscribers, which
      find the contracts from the address of the registry coordinator;
    - the AVS writer ([SendNewCheckpointTask], [SendAggregatedResponse], [RaiseChallenge])
      over a model of the task manager contract, translated from
      contracts/evm/src/eth/SFFLTaskManager.sol as far as the writer depends on it;
    - the reads of the AVS reader that touch this contract.

    What the chain and the transaction manager answer are arguments: [EthView] for contract
    reads, [TxEnv] and [TxAnswer] for a transaction (not sent, or mined in a block, with a
    receipt or an error reported).  The composition with the aggregator's ticker and
    response handler is the world of [Checkpoints]. *)

From S2P Require Import Prelude CoreTypes Instances Messages BlsAgg OperatorRegistrations Database Aggregator.

(** ** Contract bindings *)

(** The reads through which the contracts are found.  [ev_bind] is the answer of the
    generated constructors, which only parse the contract's ABI. *)
Record EthView := mkEthView {
  ev_bind : string → Address → go unit;
  ev_ServiceManager : Address → go Address;
  ev_TaskManager : Address → go Address;
  ev_OperatorSetUpdateRegistry : Address → go Address;
  ev_BlsApkRegistry : Address → go Address;
  ev_AvsRegistryReader : Address → Address → go unit;
  ev_AvsRegistryWriter : Address → Address → go unit;
  ev_AvsRegistrySubscriber : Address → Address → go unit;
  ev_AVSRegistryContractBindings : Address → Address → go (Address * Address);
  ev_Delegation : Address → go Address;
  ev_AvsDirectory : Address → go Address;
  ev_EigenlayerContractBindings : Address → Address → go unit }.

(** The addresses the bindings talk to. *)
Record AvsManagersBindings := mkBindings {
  amb_RegistryCoordinator : Address;
  amb_SFFLRegistryCoordinator : Address;
  amb_OperatorSetUpdateRegistry : Address;
  amb_TaskManager : Address;
  amb_ServiceManager : Address;
  amb_BlsApkRegistry : Address }.

Definition NewAvsManagersBindings (registryCoordinatorAddr operatorStateRetrieverAddr : Address)
    (eth : EthView) : go AvsManagersBindings :=
  let? _ := ev_bind eth "SFFLRegistryCoordinator" registryCoordinatorAddr in
  let? _ := ev_bind eth "RegistryCoordinator" registryCoordinatorAddr in
  let? serviceManagerAddr := ev_ServiceManager eth registryCoordinatorAddr in
  let? _ := ev_bind eth "SFFLServiceManager" serviceManagerAddr in
  let? taskManagerAddr := ev_TaskManager eth serviceManagerAddr in
  let? _ := ev_bind eth "SFFLTaskManager" taskManagerAddr in
  let? operatorSetUpdateRegistryAddr := ev_OperatorSetUpdateRegistry eth registryCoordinatorAddr in
  let? _ := ev_bind eth "SFFLOperatorSetUpdateRegistry" operatorSetUpdateRegistryAddr in
  let? blsApkRegistryAddr := ev_BlsApkRegistry eth registryCoordinatorAddr in
  let? _ := ev_bind eth "BLSApkRegistry" blsApkRegistryAddr in
  Ok (mkBindings registryCoordinatorAddr registryCoordinatorAddr operatorSetUpdateRegistryAddr
        taskManagerAddr serviceManagerAddr blsApkRegistryAddr).

Definition GetErc20Mock (eth : EthView) (tokenAddr : Address) : go Address :=
  let? _ := ev_bind eth "ERC20Mock" tokenAddr in Ok tokenAddr.

(** The reader, the writer and the subscriber keep their bindings. *)
Definition BuildAvsReader (registryCoordinatorAddr operatorStateRetrieverAddr : Address)
    (eth : EthView) : go AvsManagersBindings :=
  let? bindings := NewAvsManagersBindings registryCoordinatorAddr operatorStateRetrieverAddr eth in
  let? _ := ev_AvsRegistryReader eth registryCoordinatorAddr operatorStateRetrieverAddr in
  Ok bindings.

Definition BuildAvsWriter (registryCoordinatorAddr operatorStateRetrieverAddr : Address)
    (eth : EthView) : go AvsManagersBindings :=
  let? bindings := NewAvsManagersBindings registryCoordinatorAddr operatorStateRetrieverAddr eth in
  let? _ := ev_AvsRegistryWriter eth registryCoordinatorAddr operatorStateRetrieverAddr in
  Ok bindings.

Definition BuildAvsSubscriber (registryCoordinatorAddr blsOperatorStateRetrieverAddr : Address)
    (eth : EthView) : go AvsManagersBindings :=
  let? bindings := NewAvsManagersBindings registryCoordinatorAddr blsOperatorStateRetrieverAddr eth in
  let? _ := ev_AvsRegistrySubscriber eth (amb_RegistryCoordinator bindings) (amb_BlsApkRegistry bindings) in
  Ok bindings.

(** The EigenLayer contracts are found through the stake registry and the service
    manager, whose addresses the middleware's bindings give. *)
Definition BuildElReader (registryCoordinatorAddress operatorStateRetrieverAddress : Address)
    (eth : EthView) : go (Address * Address) :=
  let? regs := ev_AVSRegistryContractBindings eth registryCoordinatorAddress operatorStateRetrieverAddress in
  let? delegationManagerAddr := ev_Delegation eth regs.1 in
  let? avsDirectoryAddr := ev_AvsDirectory eth regs.2 in
  let? _ := ev_EigenlayerContractBindings eth delegationManagerAddr avsDirectoryAddr in
  Ok (delegationManagerAddr, avsDirectoryAddr).

Definition BuildElWriter (registryCoordinatorAddress operatorStateRetrieverAddress : Address)
    (eth : EthView) : go (Address * Address) :=
  let? regs := ev_AVSRegistryContractBindings eth registryCoordinatorAddress operatorStateRetrieverAddress in
  let? delegationManagerAddr := ev_Delegation eth regs.1 in
  let? avsDirectoryAddr := ev_AvsDirectory eth regs.2 in
  let? _ := ev_EigenlayerContractBindings eth delegationManagerAddr avsDirectoryAddr in
  Ok (delegationManagerAddr, avsDirectoryAddr).

(** ** The task manager contract *)

(** The EVM's part: the hash of a task's ABI encoding, the hash of a response, the
    agreement stored for it, and the signature check of the middleware. *)
Section Contract.
Context `{B : BlsOps}.
Context (task_hash : CheckpointTask → bytes) (response_hash : CheckpointTaskResponse → bytes).
Context (agreement : CheckpointTaskResponse → Z → bytes → bytes).
Context (checkSignatures : bytes → bytes → Z → NonSignerStakesAndSignature → option (list (Z * Z) * bytes)).

Record TaskManager := mkTaskManager {
  tm_TASK_RESPONSE_WINDOW_BLOCK : Z;
  tm_owner : Address;
  tm_generator : Address;
  tm_aggregator : Address;
  tm_paused : Z → bool;
  tm_nextCheckpointTaskNum : TaskIndex;
  tm_lastCheckpointToTimestamp : Timestamp;
  tm_allCheckpointTaskHashes : gmap TaskIndex bytes;
  tm_allCheckpointTaskResponses : gmap TaskIndex bytes }.

Record Block := mkBlock { blk_number : Z; blk_timestamp : Timestamp }.

(** Events of the contract; [LogOther] stands for logs of other contracts. *)
Inductive Log : Type :=
| CheckpointTaskCreated (taskIndex : TaskIndex) (task : CheckpointTask)
| CheckpointTaskResponded (taskResponse : CheckpointTaskResponse)
| CheckpointTaskChallengedUnsuccessfully (taskIndex : TaskIndex)
| LogOther.

Definition THRESHOLD_DENOMINATOR : Z := 100.

(** A [require] that fails reverts with its text. *)
Definition require {A} (c : bool) (text : string) (k : res string A) : res string A :=
  if c then k else Err text.

Definition createCheckpointTask (sender : Address) (blk : Block) (fromTimestamp toTimestamp : Timestamp)
    (quorumThreshold : Z) (quorumNumbers : bytes) (tm : TaskManager) : res string (TaskManager * list Log) :=
  require (bool_decide (sender = tm_generator tm)) "Task generator must be the caller" (
  require (negb (tm_paused tm 0)) "Pausable: index is paused" (
  require (quorumThreshold <=? THRESHOLD_DENOMINATOR) "Quorum threshold greater than denominator" (
  require (fromTimestamp <=? toTimestamp) "fromTimestamp greater than toTimestamp" (
  require (toTimestamp <=? blk_timestamp blk) "toTimestamp greater than current timestamp" (
  require ((fromTimestamp =? 0) || (tm_lastCheckpointToTimestamp tm <? fromTimestamp))
    "fromTimestamp not greater than last checkpoint toTimestamp" (
  let newTask := mkCheckpointTask (u32 (blk_number blk)) fromTimestamp toTimestamp quorumThreshold quorumNumbers in
  let num := tm_nextCheckpointTaskNum tm in
  require (num + 1 <? 2 ^ 32) "arithmetic overflow" (
  Ok (mkTaskManager (tm_TASK_RESPONSE_WINDOW_BLOCK tm) (tm_owner tm) (tm_generator tm) (tm_aggregator tm) (tm_paused tm)
        (num + 1) toTimestamp (<[num := task_hash newTask]> (tm_allCheckpointTaskHashes tm))
        (tm_allCheckpointTaskResponses tm),
      [CheckpointTaskCreated num newTask])))))))).

(** The checked product of a uint96 stake and a uint32: it has type uint96, and one that
    does not fit reverts. *)
Definition mul96 (stake factor : Z) : option Z :=
  let product := stake * factor in if bool_decide (0 ≤ product < 2 ^ 96) then Some product else None.

(** The loop over the quorums, on the pairs of signed and total stake that
    [checkSignatures] returns for them. *)
Fixpoint quorumsMet (totals : list (Z * Z)) (quorumThreshold : Z) : option bool :=
  match totals with
  | [] => Some true
  | (signedStake, totalStake) :: totals =>
      match mul96 signedStake THRESHOLD_DENOMINATOR, mul96 totalStake quorumThreshold with
      | Some signed, Some needed => if signed <? needed then Some false else quorumsMet totals quorumThreshold
      | _, _ => None
      end
  end.

Definition checkQuorum (messageHash quorumNumbers : bytes) (referenceBlockNumber : Z)
    (nss : NonSignerStakesAndSignature) (quorumThreshold : Z) : option (bool * bytes) :=
  match checkSignatures messageHash quorumNumbers referenceBlockNumber nss with
  | None => None
  | Some (totals, hashOfNonSigners) =>
      match quorumsMet totals quorumThreshold with
      | None => None
      | Some success => Some (success, hashOfNonSigners)
      end
  end.

Definition respondToCheckpointTask (sender : Address) (blk : Block) (task : CheckpointTask)
    (taskResponse : CheckpointTaskResponse) (nss : NonSignerStakesAndSignature) (tm : TaskManager)
    : res string (TaskManager * list Log) :=
  let i := ctr_ReferenceTaskIndex taskResponse in
  require (bool_decide (sender = tm_aggregator tm)) "Aggregator must be the caller" (
  require (negb (tm_paused tm 1)) "Pausable: index is paused" (
  require (bool_decide (task_hash task = default (replicate 32 0) (tm_allCheckpointTaskHashes tm !! i)))
    "Wrong task hash" (
  require (bool_decide (default (replicate 32 0) (tm_allCheckpointTaskResponses tm !! i) = replicate 32 0))
    "Task already responded" (
  require (ct_TaskCreatedBlock task + tm_TASK_RESPONSE_WINDOW_BLOCK tm <? 2 ^ 32) "arithmetic overflow" (
  require (u32 (blk_number blk) <=? ct_TaskCreatedBlock task + tm_TASK_RESPONSE_WINDOW_BLOCK tm)
    "Response time exceeded" (
  match checkQuorum (response_hash taskResponse) (ct_QuorumNumbers task) (ct_TaskCreatedBlock task) nss
          (ct_QuorumThreshold task) with
  | None => Err "signature check reverted"%string
  | Some (success, hashOfNonSigners) =>
      require success "Quorum not met" (
      Ok (mkTaskManager (tm_TASK_RESPONSE_WINDOW_BLOCK tm) (tm_owner tm) (tm_generator tm) (tm_aggregator tm) (tm_paused tm)
            (tm_nextCheckpointTaskNum tm) (tm_lastCheckpointToTimestamp tm) (tm_allCheckpointTaskHashes tm)
            (<[i := agreement taskResponse (u32 (blk_number blk)) hashOfNonSigners]>
               (tm_allCheckpointTaskResponses tm)),
          [CheckpointTaskResponded taskResponse]))
  end)))))).

(** [_validateChallenge] answers false, so a challenge only emits an event. *)
Definition raiseAndResolveCheckpointChallenge (taskResponse : CheckpointTaskResponse) (tm : TaskManager)
    : res string (TaskManager * list Log) :=
  require (negb (tm_paused tm 2)) "Pausable: index is paused" (
  Ok (tm, [CheckpointTaskChallengedUnsuccessfully (ctr_ReferenceTaskIndex taskResponse)])).

Definition tm_setAggregator (sender _aggregator : Address) (tm : TaskManager) : res string (TaskManager * list Log) :=
  require (bool_decide (sender = tm_owner tm)) "Ownable: caller is not the owner" (
  Ok (mkTaskManager (tm_TASK_RESPONSE_WINDOW_BLOCK tm) (tm_owner tm) (tm_generator tm) _aggregator (tm_paused tm)
        (tm_nextCheckpointTaskNum tm) (tm_lastCheckpointToTimestamp tm) (tm_allCheckpointTaskHashes tm)
        (tm_allCheckpointTaskResponses tm), [])).

Definition tm_setGenerator (sender _generator : Address) (tm : TaskManager) : res string (TaskManager * list Log) :=
  require (bool_decide (sender = tm_owner tm)) "Ownable: caller is not the owner" (
  Ok (mkTaskManager (tm_TASK_RESPONSE_WINDOW_BLOCK tm) (tm_owner tm) _generator (tm_aggregator tm) (tm_paused tm)
        (tm_nextCheckpointTaskNum tm) (tm_lastCheckpointToTimestamp tm) (tm_allCheckpointTaskHashes tm)
        (tm_allCheckpointTaskResponses tm), [])).

(** The storage after [initialize], nothing being paused. *)
Definition tm_initialize (taskResponseWindowBlock : Z) (initialOwner _aggregator _generator : Address) : TaskManager :=
  mkTaskManager taskResponseWindowBlock initialOwner _generator _aggregator (λ _, false) 0 0 ∅ ∅.

(** ** Transactions *)

Inductive Tx : Type :=
| TxCreateCheckpointTask (fromTimestamp toTimestamp : Timestamp) (quorumThreshold : Z) (quorumNumbers : bytes)
| TxRespondToCheckpointTask (task : CheckpointTask) (taskResponse : CheckpointTaskResponse)
    (nss : NonSignerStakesAndSignature)
| TxRaiseAndResolveCheckpointChallenge (task : CheckpointTask) (taskResponse : CheckpointTaskResponse)
| TxTmSetAggregator (aggregator : Address)
| TxTmSetGenerator (generator : Address).

Definition exec_tx (sender : Address) (blk : Block) (tx : Tx) (tm : TaskManager)
    : res string (TaskManager * list Log) :=
  match tx with
  | TxCreateCheckpointTask f t q n => createCheckpointTask sender blk f t q n tm
  | TxRespondToCheckpointTask task resp nss => respondToCheckpointTask sender blk task resp nss tm
  | TxRaiseAndResolveCheckpointChallenge _ resp => raiseAndResolveCheckpointChallenge resp tm
  | TxTmSetAggregator a => tm_setAggregator sender a tm
  | TxTmSetGenerator g => tm_setGenerator sender g tm
  end.

(** A transaction's effect: one that reverts changes nothing and logs nothing. *)
Definition mine (sender : Address) (blk : Block) (tx : Tx) (tm : TaskManager) : TaskManager * list Log :=
  match exec_tx sender blk tx tm with Ok r => r | _ => (tm, []) end.

(** What becomes of a sent transaction: the manager gives up before it is mined, or it is
    mined and the manager returns its receipt or an error. *)
Inductive TxAnswer : Type :=
| NotMined (e : GoError)
| Mined (blk : Block) (err : option GoError).

Record TxEnv := mkTxEnv {
  te_sender : Address;
  te_GetNoSendTxOpts : go unit;
  te_assemble : go unit;
  te_Send : TxAnswer }.

(** [TxMgr.Send], yielding the logs of the receipt. *)
Definition Send (env : TxEnv) (tx : Tx) (tm : TaskManager) : TaskManager * go (list Log) :=
  match te_Send env with
  | NotMined e => (tm, Err e)
  | Mined blk err =>
      let '(tm, logs) := mine (te_sender env) blk tx tm in
      (tm, match err with Some e => Err e | None => Ok logs end)
  end.

(** ** AvsWriter *)

(** [*receipt.Logs[0]] panics on a receipt without logs. *)
Definition SendNewCheckpointTask (env : TxEnv) (fromTimestamp toTimestamp : Timestamp)
    (quorumThreshold : Z) (quorumNumbers : list QuorumNum) (tm : TaskManager)
    : TaskManager * go (CheckpointTask * TaskIndex) :=
  match (let? _ := te_GetNoSendTxOpts env in te_assemble env) with
  | Err e => (tm, Err e)
  | Panic => (tm, Panic)
  | Ok _ =>
      let '(tm, receipt) :=
        Send env (TxCreateCheckpointTask fromTimestamp toTimestamp (u32 quorumThreshold) quorumNumbers) tm in
      (tm, let? logs := receipt in
           match logs with
           | [] => Panic
           | CheckpointTaskCreated taskIndex task :: _ => Ok (task, taskIndex)
           | _ :: _ => Err (ExternalError "event signature mismatch")
           end)
  end.

(** [ToBinding] of a checkpoint response keeps its fields. *)
Definition ctr_ToBinding (msg : CheckpointTaskResponse) : CheckpointTaskResponse := msg.

(** The name [SendAggregatedResponse] is an effect of [Aggregator]. *)
Definition writer_SendAggregatedResponse (env : TxEnv) (task : CheckpointTask)
    (taskResponse : CheckpointTaskResponse) (aggregation : MessageBlsAggregation) (tm : TaskManager)
    : TaskManager * go (list Log) :=
  match (let? _ := te_GetNoSendTxOpts env in
         let? nss := ExtractBindingMainnet aggregation in
         let? _ := te_assemble env in Ok nss) with
  | Err e => (tm, Err e)
  | Panic => (tm, Panic)
  | Ok nss => Send env (TxRespondToCheckpointTask task (ctr_ToBinding taskResponse) nss) tm
  end.

(** The metadata and the public keys are passed through to the contract, which ignores
    them. *)
Definition RaiseChallenge (env : TxEnv) (task : CheckpointTask) (taskResponse : CheckpointTaskResponse)
    (tm : TaskManager) : TaskManager * go (list Log) :=
  match (let? _ := te_GetNoSendTxOpts env in te_assemble env) with
  | Err e => (tm, Err e)
  | Panic => (tm, Panic)
  | Ok _ => Send env (TxRaiseAndResolveCheckpointChallenge task (ctr_ToBinding taskResponse)) tm
  end.

(** ** AvsReader and AvsSubscriber *)

(** The first result of the contract's [checkSignatures]: the block number is cut to 32
    bits. *)
Definition CheckSignatures (quorumNumbers : bytes) (aggregation : MessageBlsAggregation) : go (list (Z * Z)) :=
  let? nss := ExtractBindingMainnet aggregation in
  match checkSignatures (mba_MessageDigest aggregation) quorumNumbers
          (u32 (mba_EthBlockNumber aggregation)) nss with
  | None => Err (ExternalError "execution reverted")
  | Some (totals, _) => Ok totals
  end.

(** [answer] is the outcome of the call to the node. *)
Definition GetLastCheckpointToTimestamp (answer : go unit) (tm : TaskManager) : go Timestamp :=
  let? _ := answer in Ok (tm_lastCheckpointToTimestamp tm).

(** The subscriptions only pass on the answer of the generated watchers. *)
Definition ParseCheckpointTaskResponded (rawLog : Log) : go CheckpointTaskResponse :=
  match rawLog with
  | CheckpointTaskResponded resp => Ok resp
  | _ => Err (ExternalError "event signature mismatch")
  end.

End Contract.

(** ** Checkpoints: the aggregator and the contract *)

Section Checkpoints.
Context `{B : BlsOps} `{H : HashOps} `{A : AbiOps}.
Context {G1 : GormOps StateRootUpdateModel} {G2 : GormOps OperatorSetUpdateModel}.
Context {S : Type} `{OI : !OperatorsInfo S}.
Context (task_hash : CheckpointTask → bytes) (response_hash : CheckpointTaskResponse → bytes).
Context (agreement : CheckpointTaskResponse → Z → bytes → bytes).
Context (checkSignatures : bytes → bytes → Z → NonSignerStakesAndSignature → option (list (Z * Z) * bytes)).

#[local] Notation AggEnv := (AggEnv (S := S)).
#[local] Notation mine := (mine task_hash response_hash agreement checkSignatures).
#[local] Notation SendNewCheckpointTask :=
  (SendNewCheckpointTask task_hash response_hash agreement checkSignatures).
#[local] Notation writer_SendAggregatedResponse :=
  (writer_SendAggregatedResponse task_hash response_hash agreement checkSignatures).

(** The aggregator's environment when its reader and writer talk to the contract:
    [read] is the outcome of the read. *)
Definition over_contract (env : AggEnv) (read : go unit) (tx : TxEnv) (tm : TaskManager) : AggEnv :=
  mkAggEnv (ae_avs env) (ae_now env) (ae_operatorRegistrationsService env) (ae_GetOperatorSetUpdateBlock env)
    (ae_BlockNumber env) (ae_BlockTime env) (GetLastCheckpointToTimestamp read tm)
    (λ f t q n, (SendNewCheckpointTask tx f t q n tm).2).

(** The contract after a tick: the writer was called iff the three reads answered. *)
Definition tick_contract (env : AggEnv) (read : go unit) (tx : TxEnv) (agg : Aggregator) (tm : TaskManager)
    : TaskManager :=
  match (let? n := ae_BlockNumber env in
         let? b := ae_BlockTime env n in
         let? last := GetLastCheckpointToTimestamp read tm in
         Ok (checkpoint_window b last (ag_checkpointInterval agg))) with
  | Ok w => (SendNewCheckpointTask tx w.1 w.2 TASK_QUORUM_THRESHOLD QUORUM_NUMBERS tm).1
  | _ => tm
  end.

(** The effects of the aggregator that reach the contract, each with its own answers. *)
Fixpoint submit_all (txs : nat → TxEnv) (i : nat) (effects : list AggEffect) (tm : TaskManager) : TaskManager :=
  match effects with
  | [] => tm
  | SendAggregatedResponse task resp aggregation :: effects =>
      submit_all txs (Datatypes.S i) effects (writer_SendAggregatedResponse (txs i) task resp aggregation tm).1
  | _ :: effects => submit_all txs i effects tm
  end.

(** A step of the whole: the aggregator's ticker, another event of its loop, an RPC handler
    (which leaves the task map alone), a transaction of anybody, or a change of the owner and
    the pause flags, which the inherited library contracts keep. *)
Inductive WorldEvent : Type :=
| WTick (env : AggEnv) (read : go unit) (tx : TxEnv)
| WDeliver (env : AggEnv) (ev : AggEvent) (txs : nat → TxEnv)
| WTx (sender : Address) (blk : Block) (tx : Tx)
| WInherited (owner : Address) (paused : Z → bool).

Definition world_step (w : Aggregator * TaskManager) (ev : WorldEvent) : go (Aggregator * TaskManager) :=
  let '(agg, tm) := w in
  match ev with
  | WTick env read tx =>
      let? r := agg_deliver (over_contract env read tx tm) agg TickerC in
      Ok (r.1, tick_contract env read tx agg tm)
  | WDeliver env ev txs =>
      match ev with
      | TickerC => Ok (agg, tm)
      | ev => let? r := agg_deliver env agg ev in Ok (r.1, submit_all txs 0 r.2 tm)
      end
  | WTx sender blk tx => Ok (agg, (mine sender blk tx tm).1)
  | WInherited owner paused =>
      Ok (agg, mkTaskManager (tm_TASK_RESPONSE_WINDOW_BLOCK tm) owner (tm_generator tm) (tm_aggregator tm) paused
                 (tm_nextCheckpointTaskNum tm) (tm_lastCheckpointToTimestamp tm) (tm_allCheckpointTaskHashes tm)
                 (tm_allCheckpointTaskResponses tm))
  end.

Fixpoint world_run (w : Aggregator * TaskManager) (evs : list WorldEvent) : go (Aggregator * TaskManager) :=
  match evs with
  | [] => Ok w
  | ev :: evs => let? w := world_step w ev in world_run w evs
  end.

End Checkpoints.
