(* ===== verification/ChainioTheory.v ===== *)
(** * Checkpoints from the aggregator's ticker to the task manager contract

    - [checkpoint_tasks_match]: the tasks the aggregator remembers are those whose hashes
      the contract holds, in every reachable state of the two;
    - [checkpoint_created]: a tick creates a task whose window follows the last one;
    - [checkpoint_answered]: a final response is accepted in time, and none after it;
    - [large_stake_reverts]: stakes whose products do not fit in uint96 make it revert. *)

From S2P Require Import Prelude CoreTypes Instances Messages MessagesTheory BlsAgg OperatorRegistrations Database.
From S2P Require Import Aggregator AggregatorTheory Chainio.

Section Theory.
Context `{B : BlsOps} `{H : HashOps} `{A : AbiOps}.
Context {G1 : GormOps StateRootUpdateModel} {G2 : GormOps OperatorSetUpdateModel}.
Context {S : Type} `{OI : !OperatorsInfo S}.
Context (task_hash : CheckpointTask → bytes) (response_hash : CheckpointTaskResponse → bytes).
Context (agreement : CheckpointTaskResponse → Z → bytes → bytes).
Context (checkSignatures : bytes → bytes → Z → NonSignerStakesAndSignature → option (list (Z * Z) * bytes)).

#[local] Notation AggEnv := (AggEnv (S := S)).
#[local] Notation BlsResponse := (MessageBlsAggregationServiceResponse (M := ServiceMessage)).
#[local] Notation mine := (mine task_hash response_hash agreement checkSignatures).
#[local] Notation exec_tx := (exec_tx task_hash response_hash agreement checkSignatures).
#[local] Notation Send := (Send task_hash response_hash agreement checkSignatures).
#[local] Notation SendNewCheckpointTask :=
  (SendNewCheckpointTask task_hash response_hash agreement checkSignatures).
#[local] Notation writer_SendAggregatedResponse :=
  (writer_SendAggregatedResponse task_hash response_hash agreement checkSignatures).
#[local] Notation over_contract := (over_contract task_hash response_hash agreement checkSignatures).
#[local] Notation tick_contract := (tick_contract task_hash response_hash agreement checkSignatures).
#[local] Notation submit_all := (submit_all task_hash response_hash agreement checkSignatures).
#[local] Notation world_step := (world_step (S := S) task_hash response_hash agreement checkSignatures).
#[local] Notation world_run := (world_run (S := S) task_hash response_hash agreement checkSignatures).
#[local] Notation WorldEvent := (WorldEvent (S := S)).

(** ** The contract *)

(** The contract numbers its tasks consecutively. *)
Definition numbered (tm : TaskManager) : Prop :=
  ∀ i h, tm_allCheckpointTaskHashes tm !! i = Some h → i < tm_nextCheckpointTaskNum tm.

(** The responses that are stored, other than zero, stay. *)
Definition keeps_responses (tm tm' : TaskManager) : Prop :=
  ∀ i a, a ≠ replicate 32 0 → tm_allCheckpointTaskResponses tm !! i = Some a →
    tm_allCheckpointTaskResponses tm' !! i = Some a.

(** What any transaction leaves true: numbering, and the hashes and responses stored
    before. *)
Definition grows (tm tm' : TaskManager) : Prop :=
  numbered tm → numbered tm' ∧ tm_allCheckpointTaskHashes tm ⊆ tm_allCheckpointTaskHashes tm' ∧
    keeps_responses tm tm'.

Lemma grows_refl tm : grows tm tm.
Proof. intros ?. split_and!; [done..|]. by intros i a. Qed.

Lemma grows_trans tm1 tm2 tm3 : grows tm1 tm2 → grows tm2 tm3 → grows tm1 tm3.
Proof.
  intros H12 H23 Hn. destruct (H12 Hn) as (Hn2 & ? & Hr). destruct (H23 Hn2) as (? & ? & Hr').
  split_and!; [done|by etransitivity|]. intros i a Ha Hi. by apply Hr', Hr.
Qed.

Lemma tm_require_ok {X} c text (k : res string X) x : require c text k = Ok x → c = true ∧ k = Ok x.
Proof. unfold require. by destruct c. Qed.

(** Takes the conditions of a transaction that did not revert apart. *)
Ltac requires H :=
  repeat match type of H with
         | require _ _ _ = Ok _ => let Hc := fresh "Hc" in apply tm_require_ok in H as [Hc H]
         end.

Lemma exec_tx_grows sender blk tx tm tm' logs :
  exec_tx sender blk tx tm = Ok (tm', logs) → grows tm tm'.
Proof.
  destruct tx as [f t q n|task resp nss|task resp|a|g]; simpl; intros Hx.
  - unfold createCheckpointTask in Hx. requires Hx. injection Hx as <- <-. intros Hn. unfold numbered. simpl.
    split_and!; [| |by intros i a].
    + intros i h Hi. apply lookup_insert_Some in Hi as [[<- _]|[_ Hi]]; [lia|]. apply Hn in Hi. lia.
    + apply insert_subseteq. destruct (_ !! _) eqn:Hi; [|done]. apply Hn in Hi. lia.
  - unfold respondToCheckpointTask in Hx. requires Hx. destruct (checkQuorum _ _ _ _ _) as [[]|]; [|done].
    requires Hx. injection Hx as <- <-. intros Hn. split_and!; [done..|]. intros i a Ha Hi. simpl.
    apply lookup_insert_Some. right. split; [|done]. intros <-. rewrite Hi in Hc2.
    by apply bool_decide_eq_true in Hc2.
  - unfold raiseAndResolveCheckpointChallenge in Hx. requires Hx. injection Hx as <- <-. apply grows_refl.
  - unfold tm_setAggregator in Hx. requires Hx. injection Hx as <- <-. intros Hn. by split_and!; [..|intros i r].
  - unfold tm_setGenerator in Hx. requires Hx. injection Hx as <- <-. intros Hn. by split_and!; [..|intros i r].
Qed.

Lemma initialized_numbered window owner aggregator generator :
  numbered (tm_initialize window owner aggregator generator).
Proof. intros i h Hi. cbn [tm_allCheckpointTaskHashes tm_initialize] in Hi. by rewrite lookup_empty in Hi. Qed.

Lemma mine_grows sender blk tx tm : grows tm (mine sender blk tx tm).1.
Proof.
  unfold Chainio.mine. destruct (exec_tx sender blk tx tm) as [[tm' logs]| |] eqn:Hx; simpl;
    [by eapply exec_tx_grows|apply grows_refl..].
Qed.

Lemma Send_grows env tx tm : grows tm (Send env tx tm).1.
Proof.
  unfold Chainio.Send. destruct (te_Send env) as [e|blk err]; [apply grows_refl|].
  pose proof (mine_grows (te_sender env) blk tx tm). by destruct (mine _ _ _ _).
Qed.

Lemma SendAggregatedResponse_grows env task resp ag tm :
  grows tm (writer_SendAggregatedResponse env task resp ag tm).1.
Proof.
  unfold Chainio.writer_SendAggregatedResponse. destruct (res_bind _ _); [apply Send_grows|apply grows_refl..].
Qed.

Lemma submit_all_grows effects : ∀ txs i tm, grows tm (submit_all txs i effects tm).
Proof.
  induction effects as [|[] effects IH]; intros txs i tm; simpl; try apply IH; [apply grows_refl|].
  eapply grows_trans; [apply SendAggregatedResponse_grows|apply IH].
Qed.

(** A created task is the one the contract stores under its index. *)
Lemma SendNewCheckpointTask_spec env f t q n tm :
  grows tm (SendNewCheckpointTask env f t q n tm).1 ∧
  ∀ task i, (SendNewCheckpointTask env f t q n tm).2 = Ok (task, i) →
    tm_allCheckpointTaskHashes (SendNewCheckpointTask env f t q n tm).1 !! i = Some (task_hash task).
Proof.
  unfold Chainio.SendNewCheckpointTask. destruct (res_bind _ _); [|split; [apply grows_refl|done]..].
  set (tx := TxCreateCheckpointTask _ _ _ _). pose proof (Send_grows env tx tm) as Hg.
  unfold Chainio.Send, Chainio.mine in *. destruct (te_Send env) as [e|blk err]; [done|].
  destruct (exec_tx (te_sender env) blk tx tm) as [[tm' logs]| |] eqn:Hx; simpl in *;
    [|split; [done|by destruct err]..].
  split; [done|]. destruct err; [done|]. unfold tx in Hx. simpl in Hx.
  unfold createCheckpointTask in Hx. requires Hx. injection Hx as <- <-. simpl.
  intros task i [= <- <-]. apply lookup_insert_eq.
Qed.

(** ** The aggregator's task map *)

Lemma agg_deliver_tasks (env : AggEnv) agg ev agg' effects :
  ev ≠ TickerC → agg_deliver env agg ev = Ok (agg', effects) → ag_tasks agg' ⊆ ag_tasks agg.
Proof.
  intros Hev Hd. destruct ev as [resp|resp|resp| |e]; simpl in Hd; [| | |done|by injection Hd as <- <-].
  - destruct (resp_Finished resp); [|by injection Hd as <- <-].
    unfold sendAggregatedResponseToContract in Hd. repeat case_match; simplify_eq; apply delete_subseteq.
  - unfold handleStateRootUpdateReachedQuorum in Hd. repeat case_match; simplify_eq; done.
  - unfold handleOperatorSetUpdateReachedQuorum in Hd.
    repeat (case_match; simplify_eq/=; try done);
    apply res_bind_ok in Hd as (? & ? & [= <- <-]); done.
Qed.

(** A tick either leaves the map alone or adds the task that was created. *)
Lemma tick_tasks (env : AggEnv) read tx tm agg agg' effects :
  agg_deliver (over_contract env read tx tm) agg TickerC = Ok (agg', effects) →
  ag_tasks agg' = ag_tasks agg ∨
  ∃ task i, ag_tasks agg' = <[i := task]> (ag_tasks agg) ∧
    tm_allCheckpointTaskHashes (tick_contract env read tx agg tm) !! i = Some (task_hash task).
Proof.
  simpl. unfold sendNewCheckpointTask. cbn [Chainio.over_contract ae_BlockNumber ae_BlockTime
    ae_GetLastCheckpointToTimestamp ae_SendNewCheckpointTask]. unfold Chainio.tick_contract.
  destruct (ae_BlockNumber env) as [n| |]; cbn [res_bind]; [|by intros [= <- <-]; left|done].
  destruct (ae_BlockTime env n) as [b| |]; cbn [res_bind]; [|by intros [= <- <-]; left|done].
  destruct (GetLastCheckpointToTimestamp read tm) as [last| |]; cbn [res_bind]; [|by intros [= <- <-]; left|done].
  set (w := checkpoint_window _ _ _).
  destruct (SendNewCheckpointTask_spec tx w.1 w.2 TASK_QUORUM_THRESHOLD QUORUM_NUMBERS tm) as [_ Hs].
  destruct (SendNewCheckpointTask _ _ _ _ _ _) as [tm' [[task i]| |]]; simpl in *; [|by intros [= <- <-]; left|done].
  destruct (InitializeMessageIfNotExists _ _ _ _ _ _) as [sv [| |]]; [| |done]; intros [= <- <-]; right;
    exists task, i; eauto.
Qed.

Lemma tick_contract_grows (env : AggEnv) read tx agg tm : grows tm (tick_contract env read tx agg tm).
Proof.
  unfold Chainio.tick_contract. destruct (res_bind _ _); [apply SendNewCheckpointTask_spec|apply grows_refl..].
Qed.

(** ** The two together *)

(** The contract numbers its tasks, and holds the hash of every task in the aggregator's
    map under its index. *)
Record world_ok (w : Aggregator * TaskManager) : Prop := {
  wo_numbered : numbered w.2;
  wo_tasks i t : ag_tasks w.1 !! i = Some t → tm_allCheckpointTaskHashes w.2 !! i = Some (task_hash t) }.

(** An event of the loop that is not the ticker. *)
Lemma world_deliver env ev txs agg tm w' :
  world_step (agg, tm) (WDeliver env ev txs) = Ok w' →
  w' = (agg, tm) ∨ ∃ agg' effects, ev ≠ TickerC ∧ agg_deliver env agg ev = Ok (agg', effects) ∧
    w' = (agg', submit_all txs 0 effects tm).
Proof.
  intros Hs. destruct ev; cbn [Chainio.world_step] in Hs;
    try (apply res_bind_ok in Hs as ([agg' effects] & Hd & [= <-]); right; eauto).
  left. by injection Hs as <-.
Qed.

Lemma world_step_grows w (ev : WorldEvent) w' : world_step w ev = Ok w' → grows w.2 w'.2.
Proof.
  destruct w as [agg tm]. intros Hs. destruct ev as [env read tx|env ev txs|sender blk tx|owner paused].
  - simpl in Hs. apply res_bind_ok in Hs as ([agg' effects] & Hd & [= <-]). apply tick_contract_grows.
  - apply world_deliver in Hs as [->|(agg' & effects & _ & _ & ->)]; [apply grows_refl|apply submit_all_grows].
  - injection Hs as <-. apply mine_grows.
  - injection Hs as <-. intros Hn. by split_and!; [..|intros i a].
Qed.

Lemma world_step_ok w (ev : WorldEvent) w' : world_ok w → world_step w ev = Ok w' → world_ok w'.
Proof.
  intros [Hn Ht] Hs. destruct (world_step_grows _ _ _ Hs Hn) as (Hn' & Hsub & _). split; [done|].
  destruct w as [agg tm]. intros i t Hi. cbn [fst snd] in *.
  assert (ag_tasks agg !! i = Some t → tm_allCheckpointTaskHashes w'.2 !! i = Some (task_hash t)) as Hold.
  { intros Hi'. eapply lookup_weaken; [by apply Ht|done]. }
  destruct ev as [env read tx|env ev txs|sender blk tx|owner paused].
  - simpl in Hs. apply res_bind_ok in Hs as ([agg' effects] & Hd & [= <-]).
    destruct (tick_tasks _ _ _ _ _ _ _ Hd) as [Heq|(task & j & Heq & Hj)]; simpl in Hi; rewrite Heq in Hi; [by apply Hold|].
    apply lookup_insert_Some in Hi as [[<- <-]|[_ Hi]]; [done|by apply Hold].
  - apply world_deliver in Hs as [->|(agg' & effects & Hne & Hd & ->)]; [by apply Hold|]. apply Hold.
    eapply lookup_weaken; [done|by eapply agg_deliver_tasks].
  - injection Hs as <-. by apply Hold.
  - injection Hs as <-. by apply Hold.
Qed.

Lemma world_run_ok (evs : list WorldEvent) : ∀ w w', world_ok w → world_run w evs = Ok w' → world_ok w'.
Proof.
  induction evs as [|ev evs IH]; intros w w' Hw; simpl; [by intros [= <-]|].
  intros (w1 & Hs & Hrun)%res_bind_ok. eapply IH; [|done]. by eapply world_step_ok.
Qed.

Lemma world_run_grows (evs : list WorldEvent) : ∀ w w', world_run w evs = Ok w' → grows w.2 w'.2.
Proof.
  induction evs as [|ev evs IH]; intros w w'; simpl; [intros [= <-]; apply grows_refl|].
  intros (w1 & Hs & Hrun)%res_bind_ok. eapply grows_trans; [by eapply world_step_grows|by eapply IH].
Qed.

(** C23: the aggregator's tasks are the contract's.  Start an aggregator without tasks on
    any task manager contract that numbers its tasks; then, whatever its ticker, its
    aggregation responses, its transactions and those of others do, in any order and with
    any answers, every task the aggregator remembers is the one whose hash the contract
    holds under the same index, so that a response is never submitted with a wrong
    task. *)
Theorem checkpoint_tasks_match (agg : Aggregator) (tm : TaskManager) (evs : list WorldEvent) w :
  ag_tasks agg = ∅ → numbered tm → world_run (agg, tm) evs = Ok w →
  ∀ i task, ag_tasks w.1 !! i = Some task → tm_allCheckpointTaskHashes w.2 !! i = Some (task_hash task).
Proof.
  intros Hempty Hn Hrun. apply (wo_tasks w). apply (world_run_ok evs (agg, tm)); [|done].
  split; [done|]. intros i t Hi. simpl in Hi. by rewrite Hempty in Hi.
Qed.

(** A transaction manager that gets its transaction mined and reports it. *)
Definition reports (tx : TxEnv) (blk : Block) : Prop :=
  te_GetNoSendTxOpts tx = Ok tt ∧ te_assemble tx = Ok tt ∧ te_Send tx = Mined blk None.

Lemma create_mined sender blk f t tm :
  sender = tm_generator tm → tm_paused tm 0 = false → f ≤ t → t ≤ blk_timestamp blk →
  tm_lastCheckpointToTimestamp tm < f → tm_nextCheckpointTaskNum tm + 1 < 2 ^ 32 →
  let task := mkCheckpointTask (u32 (blk_number blk)) f t TASK_QUORUM_THRESHOLD QUORUM_NUMBERS in
  exec_tx sender blk (TxCreateCheckpointTask f t (u32 TASK_QUORUM_THRESHOLD) QUORUM_NUMBERS) tm =
  Ok (mkTaskManager (tm_TASK_RESPONSE_WINDOW_BLOCK tm) (tm_owner tm) (tm_generator tm) (tm_aggregator tm) (tm_paused tm)
        (tm_nextCheckpointTaskNum tm + 1) t
        (<[tm_nextCheckpointTaskNum tm := task_hash task]> (tm_allCheckpointTaskHashes tm))
        (tm_allCheckpointTaskResponses tm),
      [CheckpointTaskCreated (tm_nextCheckpointTaskNum tm) task]).
Proof.
  intros Hs Hp Hft Ht Hl Hn task. simpl. unfold createCheckpointTask, require.
  rewrite bool_decide_true, Hp by done. simpl negb. cbv iota.
  change (u32 TASK_QUORUM_THRESHOLD) with TASK_QUORUM_THRESHOLD.
  rewrite (proj2 (Z.leb_le f t)), (proj2 (Z.leb_le t _)), (proj2 (Z.ltb_lt _ f)) by done.
  rewrite orb_true_r, (proj2 (Z.ltb_lt (_ + 1) _)) by done. done.
Qed.

(** A tick creates the next checkpoint.  When the chain answers, the contract is not
    paused, the aggregator is its task generator, more than 91 seconds have passed since
    the last checkpoint and the transaction is mined after the block the aggregator looked
    at, then the contract accepts the task: its window starts one second after the last
    one and ends 90 seconds before that block, the contract moves its last timestamp to
    the end of the window, and the aggregator remembers exactly the created task under the
    contract's index. *)
Theorem checkpoint_created (env : AggEnv) (tx : TxEnv) (agg : Aggregator) (tm : TaskManager) n b blk :
  let last := tm_lastCheckpointToTimestamp tm in
  let i := tm_nextCheckpointTaskNum tm in
  let task := mkCheckpointTask (u32 (blk_number blk)) (last + 1) (b - 90) TASK_QUORUM_THRESHOLD QUORUM_NUMBERS in
  ae_BlockNumber env = Ok n → ae_BlockTime env n = Ok b → reports tx blk →
  0 < last → last + 91 ≤ b < 2 ^ 64 → b - 90 ≤ blk_timestamp blk → i + 1 < 2 ^ 32 →
  te_sender tx = tm_generator tm → tm_paused tm 0 = false →
  (InitializeMessageIfNotExists (ae_avs env) (ag_taskBlsAggregationService agg)
     (ctr_Key (mkCheckpointTaskResponse i (replicate 32 0) (replicate 32 0)))
     (ConvertBytesToQuorumNumbers QUORUM_NUMBERS) [TASK_AGGREGATION_QUORUM_THRESHOLD]
     (u32 (blk_number blk))).2 ≠ Panic →
  ∃ agg' tm', world_step (agg, tm) (WTick env (Ok tt) tx) = Ok (agg', tm') ∧
    ag_tasks agg' = <[i := task]> (ag_tasks agg) ∧
    tm_allCheckpointTaskHashes tm' = <[i := task_hash task]> (tm_allCheckpointTaskHashes tm) ∧
    tm_lastCheckpointToTimestamp tm' = b - 90 ∧ tm_nextCheckpointTaskNum tm' = i + 1.
Proof.
  intros last i task Hn Hb (Ho & Ha & Hsend) Hl Hlb Hts Hi Hs Hp Hinit.
  assert (checkpoint_window b last (ag_checkpointInterval agg) = (last + 1, b - 90)) as Hw.
  { apply checkpoint_window_eq; lia. }
  pose proof (create_mined (te_sender tx) blk (last + 1) (b - 90) tm Hs Hp ltac:(lia) Hts ltac:(lia) Hi) as Hx.
  cbv zeta in Hx. fold task i in Hx.
  assert (∀ tm', exec_tx (te_sender tx) blk (TxCreateCheckpointTask (last + 1) (b - 90)
             (u32 TASK_QUORUM_THRESHOLD) QUORUM_NUMBERS) tm = Ok (tm', [CheckpointTaskCreated i task]) →
     SendNewCheckpointTask tx (last + 1) (b - 90) TASK_QUORUM_THRESHOLD QUORUM_NUMBERS tm = (tm', Ok (task, i)))
    as Hsent.
  { intros tm' Htm. unfold Chainio.SendNewCheckpointTask, Chainio.Send, Chainio.mine.
    rewrite Ho, Ha, Hsend. cbn [res_bind]. by rewrite Htm. }
  apply Hsent in Hx. clear Hsent. cbn [Chainio.world_step agg_deliver]. unfold sendNewCheckpointTask, Chainio.tick_contract.
  cbn [Chainio.over_contract ae_BlockNumber ae_BlockTime ae_GetLastCheckpointToTimestamp ae_SendNewCheckpointTask ae_avs].
  rewrite Hn. cbn [res_bind]. rewrite Hb. cbn [res_bind GetLastCheckpointToTimestamp]. fold last. rewrite Hw.
  cbn [fst snd]. rewrite Hx. cbn [fst snd ct_QuorumNumbers ct_TaskCreatedBlock task].
  change (ag_taskBlsAggregationService (set_tasks agg _)) with (ag_taskBlsAggregationService agg).
  change ((λ _, TASK_AGGREGATION_QUORUM_THRESHOLD) <$> QUORUM_NUMBERS) with [TASK_AGGREGATION_QUORUM_THRESHOLD].
  destruct (InitializeMessageIfNotExists _ _ _ _ _ _) as [sv [| |]]; [| |done];
    do 2 eexists; (split; [reflexivity|done]).
Qed.

(** A transaction that is mined but reverts has a receipt without logs; if the transaction
    manager returns it without an error, the writer indexes the empty slice and the
    aggregator stops. *)
Theorem reverted_task_panics (tx : TxEnv) (f t q : Z) (n : bytes) (tm : TaskManager) blk reason :
  reports tx blk → exec_tx (te_sender tx) blk (TxCreateCheckpointTask f t (u32 q) n) tm = Err reason →
  SendNewCheckpointTask tx f t q n tm = (tm, Panic).
Proof.
  intros (Ho & Ha & Hs) Hx. unfold Chainio.SendNewCheckpointTask, Chainio.Send, Chainio.mine.
  rewrite Ho, Ha, Hs. cbn [res_bind]. by rewrite Hx.
Qed.

(** The stakes the contract's signature check finds reach the threshold in each quorum, and
    the products it compares fit in 96 bits. *)
Definition quorum_signed (threshold : Z) (totals : list (Z * Z)) : Prop :=
  Forall (λ t, 0 ≤ t.2 * threshold ≤ t.1 * THRESHOLD_DENOMINATOR ∧ t.1 * THRESHOLD_DENOMINATOR < 2 ^ 96) totals.

Lemma quorum_signed_met threshold totals : quorum_signed threshold totals → quorumsMet totals threshold = Some true.
Proof.
  induction 1 as [|[s t] totals [Hle Hfit] _ IH]; simpl in *; [done|]. unfold mul96.
  rewrite !bool_decide_true by lia. by rewrite (proj2 (Z.ltb_ge _ _)) by lia.
Qed.

Lemma respond_mined sender blk task tr nss tm totals h :
  sender = tm_aggregator tm → tm_paused tm 1 = false →
  tm_allCheckpointTaskHashes tm !! ctr_ReferenceTaskIndex tr = Some (task_hash task) →
  tm_allCheckpointTaskResponses tm !! ctr_ReferenceTaskIndex tr = None →
  ct_TaskCreatedBlock task + tm_TASK_RESPONSE_WINDOW_BLOCK tm < 2 ^ 32 →
  u32 (blk_number blk) ≤ ct_TaskCreatedBlock task + tm_TASK_RESPONSE_WINDOW_BLOCK tm →
  checkSignatures (response_hash tr) (ct_QuorumNumbers task) (ct_TaskCreatedBlock task) nss = Some (totals, h) →
  quorum_signed (ct_QuorumThreshold task) totals →
  exec_tx sender blk (TxRespondToCheckpointTask task tr nss) tm =
  Ok (mkTaskManager (tm_TASK_RESPONSE_WINDOW_BLOCK tm) (tm_owner tm) (tm_generator tm) (tm_aggregator tm) (tm_paused tm)
        (tm_nextCheckpointTaskNum tm) (tm_lastCheckpointToTimestamp tm) (tm_allCheckpointTaskHashes tm)
        (<[ctr_ReferenceTaskIndex tr := agreement tr (u32 (blk_number blk)) h]> (tm_allCheckpointTaskResponses tm)),
      [CheckpointTaskResponded tr]).
Proof.
  intros Hs Hp Hh Hr Hov Hin Hc Hq. simpl. unfold respondToCheckpointTask, checkQuorum, require.
  rewrite bool_decide_true, Hp, Hh, Hr by done. simpl negb. cbv iota. rewrite !bool_decide_true by done.
  rewrite (proj2 (Z.ltb_lt _ _)), (proj2 (Z.leb_le _ _)), Hc by done. by rewrite (quorum_signed_met _ _ Hq).
Qed.

(** The comparison is on uint96 although the stakes are: once a hundred times the signed
    stake of the first quorum does not fit in 96 bits, no response is recorded, even if
    every operator signs. *)
Theorem large_stake_reverts sender blk task tr nss tm signed total totals h :
  checkSignatures (response_hash tr) (ct_QuorumNumbers task) (ct_TaskCreatedBlock task) nss =
    Some ((signed, total) :: totals, h) →
  2 ^ 96 ≤ signed * THRESHOLD_DENOMINATOR →
  ∃ reason, exec_tx sender blk (TxRespondToCheckpointTask task tr nss) tm = Err reason.
Proof.
  intros Hc Hbig. simpl. unfold respondToCheckpointTask, checkQuorum. rewrite Hc. cbn [quorumsMet].
  assert (mul96 signed THRESHOLD_DENOMINATOR = None) as ->.
  { unfold mul96. rewrite bool_decide_false; [done|]. cbv zeta. lia. }
  unfold require. repeat case_match; eauto.
Qed.

(** An answered task cannot be answered again. *)
Lemma respond_again sender blk task tr nss tm a :
  tm_allCheckpointTaskResponses tm !! ctr_ReferenceTaskIndex tr = Some a → a ≠ replicate 32 0 →
  ∃ reason, exec_tx sender blk (TxRespondToCheckpointTask task tr nss) tm = Err reason.
Proof.
  intros Hr Ha. simpl. unfold respondToCheckpointTask, require. rewrite Hr. simpl default.
  rewrite (bool_decide_false (a = _)) by done. repeat case_match; eauto.
Qed.

(** C8: a checkpoint is answered on the contract, once and in time.  Take a reachable state
    of the aggregator and the contract with the response window of the deployment, a task
    the aggregator remembers that has no response yet, and its final aggregation without
    error, reported before the aggregation's time is over.  If the contract is not paused,
    the writer's transaction is mined within the submission buffer, and the contract's
    signature check accepts the signature and finds stakes that reach the task's
    threshold, with products that fit in uint96, then the contract records the response
    and the aggregator forgets the task.  From then on, whatever the aggregator, the
    owner and others do, every response for this task index, whatever it says and
    whoever sends it, is refused. *)
Theorem checkpoint_answered (env : AggEnv) agg tm (resp : BlsResponse) tr task n blk nss totals h elapsed
    (txs : nat → TxEnv) :
  let i := ctr_ReferenceTaskIndex tr in
  let a := agreement tr (u32 (blk_number blk)) h in
  world_ok (agg, tm) → ag_tasks agg !! i = Some task →
  tm_allCheckpointTaskResponses tm !! i = None → a ≠ replicate 32 0 →
  resp_Err resp = None → resp_Finished resp = true → resp_Message resp = Some (MsgCheckpointTaskResponse tr) →
  resp_MessageKey resp = ctr_Key tr → is_u32 i → ae_BlockNumber env = Ok n →
  ExtractBindingMainnet (resp_Aggregation resp) = Ok nss → reports (txs 0%nat) blk →
  te_sender (txs 0%nat) = tm_aggregator tm → tm_paused tm 1 = false →
  tm_TASK_RESPONSE_WINDOW_BLOCK tm = taskChallengeWindowBlock → 0 ≤ ct_TaskCreatedBlock task < 2 ^ 32 - 100 →
  0 ≤ elapsed ≤ taskTimeToExpiry + taskAggregationTimeout →
  0 ≤ blk_number blk ≤ ct_TaskCreatedBlock task + elapsed / blockTime + taskResponseSubmissionBufferBlock →
  checkSignatures (response_hash tr) (ct_QuorumNumbers task) (ct_TaskCreatedBlock task) nss = Some (totals, h) →
  quorum_signed (ct_QuorumThreshold task) totals →
  ∃ agg' tm', world_step (agg, tm) (WDeliver env (TaskResponseC resp) txs) = Ok (agg', tm') ∧
    tm_allCheckpointTaskResponses tm' = <[i := a]> (tm_allCheckpointTaskResponses tm) ∧
    ag_tasks agg' = delete i (ag_tasks agg) ∧
    ∀ evs agg2 tm2, world_run (agg', tm') evs = Ok (agg2, tm2) →
      ∀ sender blk' task' tr' nss', ctr_ReferenceTaskIndex tr' = i → ∃ reason,
        exec_tx sender blk' (TxRespondToCheckpointTask task' tr' nss') tm2 = Err reason.
Proof.
  intros i a [Hn Hok] Ht Hr Ha He Hf Hm Hk Hu Hb Hnss (Ho & Has & Hsend) Hs Hp Hw Hc Hel Hblk Hsig Hq.
  assert (elapsed / blockTime ≤ 85) as Hdiv.
  { unfold taskTimeToExpiry, taskAggregationTimeout, taskChallengeWindowBlock,
      taskResponseSubmissionBufferBlock, blockTime in *. transitivity (1020 / 12); [apply Z.div_le_mono; lia|done]. }
  unfold taskResponseSubmissionBufferBlock, taskChallengeWindowBlock in *.
  assert (u32 (blk_number blk) = blk_number blk) as Hu32 by (apply u32_small; unfold is_u32; lia).
  pose proof (respond_mined (te_sender (txs 0%nat)) blk task tr nss tm totals h Hs Hp (Hok _ _ Ht) Hr
    ltac:(lia) ltac:(lia) Hsig Hq) as Hx. fold i a in Hx.
  cbn [Chainio.world_step agg_deliver]. rewrite Hf. unfold sendAggregatedResponseToContract.
  rewrite He, Hm, Hb, Hk, ctr_Key_roundtrip_lemma by done. fold i. rewrite Ht.
  change (default zeroTask (Some task)) with task. cbn [res_bind fst snd Chainio.submit_all]. unfold Chainio.writer_SendAggregatedResponse, ctr_ToBinding.
  rewrite Ho, Hnss. cbn [res_bind]. rewrite Has. cbn [res_bind]. unfold Chainio.Send, Chainio.mine.
  rewrite Hsend. cbn [res_bind]. rewrite Hx. do 2 eexists. split; [reflexivity|]. split_and!; [done..|].
  intros evs agg2 tm2 Hrun sender blk' task' tr' nss' Hi. apply (respond_again _ _ _ _ _ _ a); [|done].
  rewrite Hi. destruct (world_run_grows _ _ _ Hrun Hn) as (_ & _ & Hkeep). apply (Hkeep i a Ha). apply lookup_insert_eq.
Qed.

End Theory.
