(* ===== verification/ChainioExamples.v ===== *)
(** * Concrete runs of the aggregator with the task manager contract *)

From S2P Require Import Prelude CoreTypes Instances Messages MessagesTheory BlsAgg BlsAggExamples.
From S2P Require Import OperatorRegistrations Database DatabaseTheory Aggregator AggregatorTheory.
From S2P Require Import AggregatorExamples Chainio ChainioTheory.

#[local] Existing Instances ToyBls.ops ToyHash.ops ToyAbi.ops.
#[local] Existing Instances DatabaseTheory.Examples.G1 DatabaseTheory.Examples.G2.
#[local] Notation empty_db := DatabaseTheory.Examples.empty_db.

(** Hashes that keep the fields of what they hash, and a signature check in which two of
    three equal stakes have signed. *)
Definition toy_task_hash (t : CheckpointTask) : bytes :=
  [ct_TaskCreatedBlock t; ct_FromTimestamp t; ct_ToTimestamp t; ct_QuorumThreshold t] ++ ct_QuorumNumbers t.
Definition toy_response_hash (r : CheckpointTaskResponse) : bytes := ctr_Key r.
Definition toy_agreement (r : CheckpointTaskResponse) (blk : Z) (h : bytes) : bytes := 1 :: blk :: h.
Definition toy_check (d q : bytes) (blk : Z) (nss : NonSignerStakesAndSignature)
    : option (list (Z * Z) * bytes) := Some ([(20, 30)], [7]).

(** A contract with four tasks behind it; 1 is its generator, 2 its aggregator. *)
Definition ex_contract : TaskManager :=
  mkTaskManager 100 9 1 2 (λ _, false) 5 1600000000 ∅ ∅.
Definition ex_block : Block := mkBlock 90 1700000012.
Definition ex_tx (sender : Address) (blk : Block) : TxEnv := mkTxEnv sender (Ok tt) (Ok tt) (Mined blk None).
Definition ex_agg : Aggregator :=
  mkAggregator 60 NewMessageBlsAggregatorService NewMessageBlsAggregatorService
    NewMessageBlsAggregatorService ∅ empty_db.

Definition ex_tick : WorldEvent (S := Ors) := WTick (ex_agg_env 1700000000) (Ok tt) (ex_tx 1 ex_block).
Definition ex_world : Aggregator * TaskManager :=
  res_or (ex_agg, ex_contract)
    (world_run toy_task_hash toy_response_hash toy_agreement toy_check (ex_agg, ex_contract) [ex_tick]).

Lemma ex_contract_numbered : numbered ex_contract.
Proof. intros i h Hi. cbn [tm_allCheckpointTaskHashes ex_contract] in Hi. by rewrite lookup_empty in Hi. Qed.

Lemma checkpoint_tasks_match_witness :
  ag_tasks ex_world.1 !! 5 = Some task5 ∧
  tm_allCheckpointTaskHashes ex_world.2 !! 5 = Some (toy_task_hash task5).
Proof.
  split; [reflexivity|].
  apply (checkpoint_tasks_match toy_task_hash toy_response_hash toy_agreement toy_check
    ex_agg ex_contract [ex_tick] ex_world eq_refl ex_contract_numbered); [|reflexivity].
  apply res_or_ok. reflexivity.
Defined.

Lemma checkpoint_created_witness :
  ∃ agg' tm',
    world_step toy_task_hash toy_response_hash toy_agreement toy_check (ex_agg, ex_contract) ex_tick
      = Ok (agg', tm') ∧
    ag_tasks agg' = {[ 5 := task5 ]} ∧ tm_lastCheckpointToTimestamp tm' = 1699999910.
Proof.
  destruct (checkpoint_created toy_task_hash toy_response_hash toy_agreement toy_check
    (ex_agg_env 1700000000) (ex_tx 1 ex_block) ex_agg ex_contract 1000 1700000000 ex_block)
    as (agg' & tm' & Hs & Ht & _ & Hl & _);
    [reflexivity | reflexivity | repeat split | simpl; lia | simpl; lia | simpl; lia | simpl; lia
    | reflexivity | reflexivity | discriminate |].
  exists agg', tm'. split; [exact Hs|]. split; [exact Ht|exact Hl].
Defined.

(** The final response of [AggregatorExamples] arrives 120 seconds after the task was
    created and is mined ten blocks later. *)
Definition ex_nss : NonSignerStakesAndSignature :=
  res_or (mkNonSignerStakes [] [] [] (ConvertToBN254G2Point (ex_pk 1)) (ConvertToBN254G1Point (ex_sig 1 1)) [] [] [])
    (ExtractBindingMainnet (ex_aggregation 9)).

Lemma ex_world_ok : world_ok toy_task_hash ex_world.
Proof.
  apply (world_run_ok toy_task_hash toy_response_hash toy_agreement toy_check [ex_tick] (ex_agg, ex_contract)).
  - split; [exact ex_contract_numbered|]. intros i t Hi. cbn [fst ag_tasks ex_agg] in Hi. by rewrite lookup_empty in Hi.
  - apply res_or_ok. reflexivity.
Qed.

Lemma checkpoint_answered_witness :
  ∃ agg' tm',
    world_step toy_task_hash toy_response_hash toy_agreement toy_check ex_world
      (WDeliver (ex_agg_env 1700000000) (TaskResponseC ex_task_response) (λ _, ex_tx 2 (mkBlock 110 1700000252)))
      = Ok (agg', tm') ∧
    tm_allCheckpointTaskResponses tm' = {[ 5 := [1; 110; 7] ]} ∧ ag_tasks agg' = delete 5 {[ 5 := task5 ]}.
Proof.
  destruct (checkpoint_answered toy_task_hash toy_response_hash toy_agreement toy_check
    (ex_agg_env 1700000000) ex_world.1 ex_world.2 ex_task_response (ex_msg 1) task5 1000
    (mkBlock 110 1700000252) ex_nss [(20, 30)] [7] 120 (λ _, ex_tx 2 (mkBlock 110 1700000252)))
    as (agg' & tm' & Hs & Hr & Ht & _);
    [exact ex_world_ok | reflexivity | reflexivity | discriminate | reflexivity | reflexivity | reflexivity
    | reflexivity | unfold is_u32; simpl; lia | reflexivity | reflexivity | repeat split | reflexivity
    | reflexivity | reflexivity | simpl; lia | vm_compute; split; discriminate | vm_compute; split; discriminate
    | reflexivity | constructor; [vm_compute; repeat split; discriminate|constructor] |].
  exists agg', tm'. split; [exact Hs|]. split; [exact Hr|exact Ht].
Defined.

(** All of a stake of 2^90 has signed. *)
Lemma large_stake_reverts_witness : ∃ reason,
  exec_tx toy_task_hash toy_response_hash toy_agreement (λ _ _ _ _, Some ([(2 ^ 90, 2 ^ 90)], [7])) 2 ex_block
    (TxRespondToCheckpointTask task5 (ex_msg 1) ex_nss) ex_world.2 = Err reason.
Proof.
  apply (large_stake_reverts toy_task_hash toy_response_hash toy_agreement (λ _ _ _ _, Some ([(2 ^ 90, 2 ^ 90)], [7]))
    2 ex_block task5 (ex_msg 1) ex_nss ex_world.2 (2 ^ 90) (2 ^ 90) [] [7]).
  - reflexivity.
  - vm_compute. discriminate.
Defined.
