(* ===== verification/ServiceManager.v ===== *)
(** * Mainnet's service manager: contracts/evm/src/eth/SFFLServiceManager.sol

    The AVS's entry point on mainnet.  It keeps state roots as the rollup registries do
    (SFFLRegistryBase), checks them with the task manager's [checkQuorum] against the stakes
    at the previous block, and lets the registry coordinator register only operators that the
    operator set update registry has on its whitelist.

    What other contracts answer during a transaction is an argument of it ([SmEnv]): the
    pause flags, the middleware's signature check, the whitelist and the AVS directory.
    [initialize] writes only to the inherited library contracts.

    [storage_values_attested] is about any history of transactions, reverted ones included:
    storage values are only answered under roots that a quorum signed, and only operators
    from the whitelist are forwarded.  [conflicting_roots_accountable] is the quorum
    intersection: whoever gets two roots accepted for one block had double signatures of
    operators with at least 32% of the stake. *)

From S2P Require Import Prelude CoreTypes Instances Messages MessagesTheory Chainio.
From S2P Require Import AvsReader RegistryContract RegistryContractTheory OperatorSetRegistry BlsAggProgress Inclusion.

Record SmEnv := mkSmEnv {
  se_number : Z;
  se_paused : Z → bool;
  se_checkSignatures : bytes → bytes → Z → NonSignerStakesAndSignature → option (list (Z * Z) * bytes);
  se_operatorSetUpdateRegistry : UpdateRegistry;
  se_registerOperatorToAVS : Address → evm unit }.

Record ServiceManager := mkServiceManager {
  sm_taskManager : Address;
  sm_registryCoordinator : Address;
  sm_stateRootBuffers : gmap (RollupId * BlockNumber) bytes }.

(** The event of SFFLRegistryBase, and the call that [registerOperatorToAVS] forwards. *)
Inductive SmEffect : Type :=
| StateRootUpdated (rollupId : RollupId) (blockHeight : BlockNumber) (stateRoot : bytes)
| OperatorForwarded (operator : Address).

(** The storage after the constructor and [initialize]. *)
Definition sm_deploy (_taskManager _registryCoordinator : Address) : ServiceManager :=
  mkServiceManager _taskManager _registryCoordinator ∅.

Section Contract.
Context `{H : HashOps} `{A : AbiOps}.

Definition sm_getStateRoot (sm : ServiceManager) (rollupId : RollupId) (blockHeight : BlockNumber) : bytes :=
  default (replicate 32 0) (sm_stateRootBuffers sm !! (rollupId, blockHeight)).

Definition sm_pushStateRoot (sm : ServiceManager) (rollupId : RollupId) (blockHeight : BlockNumber)
    (stateRoot : bytes) : ServiceManager * list SmEffect :=
  (mkServiceManager (sm_taskManager sm) (sm_registryCoordinator sm)
     (<[(rollupId, blockHeight) := stateRoot]> (sm_stateRootBuffers sm)),
   [StateRootUpdated rollupId blockHeight stateRoot]).

Definition sm_PAUSED_UPDATE_STATE_ROOT : Z := 0.

(** [2 * taskManager.THRESHOLD_DENOMINATOR() / 3]. *)
Definition sm_threshold : Z := 2 * Chainio.THRESHOLD_DENOMINATOR / 3.

(** The agreement is read from the calldata, and a malformed one reverts. *)
Definition _verifyStateRootUpdate (env : SmEnv) (message : StateRootUpdateMessage)
    (nss : evm NonSignerStakesAndSignature) : evm bool :=
  let? hash := sru_hashCalldata message in
  let? reference := checked 256 (se_number env - 1) in
  let? nss := nss in
  match checkQuorum (se_checkSignatures env) hash [0] (u32 reference) nss sm_threshold with
  | None => Err "signature check reverted"%string
  | Some (success, _) => Ok success
  end.

Definition sm_updateStateRoot (env : SmEnv) (sm : ServiceManager) (message : StateRootUpdateMessage)
    (nss : evm NonSignerStakesAndSignature) : evm (ServiceManager * list SmEffect) :=
  let? _ := require (negb (se_paused env sm_PAUSED_UPDATE_STATE_ROOT)) "Pausable: index is paused" in
  let? met := _verifyStateRootUpdate env message nss in
  let? _ := require met "Quorum not met" in
  Ok (sm_pushStateRoot sm (sru_RollupId message) (sru_BlockHeight message) (sru_StateRoot message)).

Definition sm_getStorageValue (sm : ServiceManager) (message : StateRootUpdateMessage) (proof : bytes → evm bytes)
    : evm bytes :=
  let stateRoot := sm_getStateRoot sm (sru_RollupId message) (sru_BlockHeight message) in
  let? _ := require (bool_decide (stateRoot = sru_StateRoot message)) "Mismatching state roots" in
  proof stateRoot.

(** [agreement] is [None] for empty bytes, and what the bytes decode to otherwise. *)
Definition sm_updateAndGetStorageValue (env : SmEnv) (sm : ServiceManager) (message : StateRootUpdateMessage)
    (proof : bytes → evm bytes) (agreement : option (evm NonSignerStakesAndSignature))
    : evm (ServiceManager * list SmEffect * bytes) :=
  let? _ := require (HasNearDaCommitment message) "Empty NEAR DA commitment" in
  let? r :=
    (if bool_decide (sm_getStateRoot sm (sru_RollupId message) (sru_BlockHeight message) = replicate 32 0)
     then match agreement with
          | None => Err "Empty agreement"%string
          | Some nss => sm_updateStateRoot env sm message nss
          end
     else Ok (sm, [])) in
  let? value := sm_getStorageValue r.1 message proof in
  Ok (r, value).

Definition sm_isWhitelisted (r : UpdateRegistry) (operator : Address) : bool :=
  default false (ur_isOperatorWhitelisted r !! operator).

Definition sm_registerOperatorToAVS (env : SmEnv) (sender : Address) (sm : ServiceManager) (operator : Address)
    : evm (ServiceManager * list SmEffect) :=
  let? _ := require (bool_decide (sender = sm_registryCoordinator sm)) "caller is not the registry coordinator" in
  let? _ := require (sm_isWhitelisted (se_operatorSetUpdateRegistry env) operator) "Not whitelisted" in
  let? _ := se_registerOperatorToAVS env operator in
  Ok (sm, [OperatorForwarded operator]).

Definition sm_freezeOperator (sender : Address) (sm : ServiceManager) (operatorAddr : Address)
    : evm (ServiceManager * list SmEffect) :=
  let? _ := require (bool_decide (sender = sm_taskManager sm)) "Task manager must be the caller" in
  Ok (sm, []).

Inductive SmTx : Type :=
| SmUpdateStateRoot (message : StateRootUpdateMessage) (nss : evm NonSignerStakesAndSignature)
| SmUpdateAndGetStorageValue (message : StateRootUpdateMessage) (proof : bytes → evm bytes)
    (agreement : option (evm NonSignerStakesAndSignature))
| SmRegisterOperatorToAVS (operator : Address)
| SmFreezeOperator (operatorAddr : Address).

Definition sm_accept (env : SmEnv) (sender : Address) (sm : ServiceManager) (tx : SmTx)
    : evm (ServiceManager * list SmEffect) :=
  match tx with
  | SmUpdateStateRoot message nss => sm_updateStateRoot env sm message nss
  | SmUpdateAndGetStorageValue message proof agreement =>
      let? r := sm_updateAndGetStorageValue env sm message proof agreement in Ok r.1
  | SmRegisterOperatorToAVS operator => sm_registerOperatorToAVS env sender sm operator
  | SmFreezeOperator operatorAddr => sm_freezeOperator sender sm operatorAddr
  end.

(** A history of transactions, with the effects of those that do not revert. *)
Notation history := (list (SmEnv * Address * SmTx)).

Fixpoint sm_run (sm : ServiceManager) (txs : history) : ServiceManager * list SmEffect :=
  match txs with
  | [] => (sm, [])
  | (env, sender, tx) :: txs =>
      let '(sm1, now) := res_or (sm, []) (sm_accept env sender sm tx) in
      let '(sm2, later) := sm_run sm1 txs in
      (sm2, now ++ later)
  end.

(** ** Accepted updates *)

(** The contract of this transaction accepts the update: updates are not paused, and of each
    quorum's stake at the previous block at least 66% signed its hash. *)
Definition attested (env : SmEnv) (m : StateRootUpdateMessage) : Prop :=
  se_paused env sm_PAUSED_UPDATE_STATE_ROOT = false ∧ 1 ≤ se_number env ∧
  ∃ hash nss totals nonSigners,
    sru_Digest m = Ok hash ∧
    se_checkSignatures env hash [0] (u32 (se_number env - 1)) nss = Some (totals, nonSigners) ∧
    Forall (λ t, 66 * t.2 ≤ 100 * t.1) totals.

Context {HL : HashLaws H}.

Lemma checkQuorum_met cs hash q b nss ns :
  checkQuorum cs hash q b nss sm_threshold = Some (true, ns) →
  ∃ totals, cs hash q b nss = Some (totals, ns) ∧ Forall (λ t, 66 * t.2 ≤ 100 * t.1) totals.
Proof.
  unfold checkQuorum. destruct (cs _ _ _ _) as [[totals ns']|]; [|done].
  destruct (quorumsMet totals sm_threshold) as [success|] eqn:Hmet; [|done]. intros [= -> ->].
  exists totals. split; [done|]. induction totals as [|[s t] totals IH]; [done|]. cbn [quorumsMet] in Hmet.
  unfold mul96 in Hmet. repeat (case_bool_decide; [|done]).
  destruct (Z.ltb_spec (s * Chainio.THRESHOLD_DENOMINATOR) (t * sm_threshold)) as [|Hle]; [done|].
  constructor; [|by apply IH]. change (t * 66 ≤ s * 100) in Hle. simpl. lia.
Qed.

Lemma sm_updateStateRoot_ok env sm m nss r :
  sm_updateStateRoot env sm m nss = Ok r →
  attested env m ∧ r = sm_pushStateRoot sm (sru_RollupId m) (sru_BlockHeight m) (sru_StateRoot m).
Proof.
  unfold sm_updateStateRoot.
  intros (? & Hp%require_ok%negb_true_iff & (met & Hmet & (? & ->%require_ok & [= <-])%res_bind_ok)%res_bind_ok)%res_bind_ok.
  split; [|done]. unfold _verifyStateRootUpdate in Hmet.
  apply res_bind_ok in Hmet as (hash & Hh & (b & Hb & (n & _ & Hq)%res_bind_ok)%res_bind_ok).
  destruct (checkQuorum _ _ _ _ _ _) as [[success ns]|] eqn:Hcq; [|done]. injection Hq as ->.
  unfold checked in Hb. case_bool_decide as Hb'; [|done]. injection Hb as <-.
  apply checkQuorum_met in Hcq as (totals & Hcs & Hall).
  split_and!; [done|lia|]. exists hash, n, totals, ns. split_and!; [|done|done]. by apply sru_hash_digest.
Qed.

(** ** Histories *)

(** The store after these events. *)
Definition sm_apply (store : gmap (RollupId * BlockNumber) bytes) (e : SmEffect)
    : gmap (RollupId * BlockNumber) bytes :=
  match e with
  | StateRootUpdated rollupId blockHeight stateRoot => <[(rollupId, blockHeight) := stateRoot]> store
  | OperatorForwarded _ => store
  end.

Definition tx_message (tx : SmTx) : option StateRootUpdateMessage :=
  match tx with
  | SmUpdateStateRoot m _ | SmUpdateAndGetStorageValue m _ _ => Some m
  | _ => None
  end.

(** What a transaction with this effect must have been. *)
Definition justified (coordinator : Address) (e : SmEffect) (t : SmEnv * Address * SmTx) : Prop :=
  let '(env, sender, tx) := t in
  match e with
  | StateRootUpdated rollupId blockHeight stateRoot =>
      ∃ m, tx_message tx = Some m ∧ attested env m ∧
        sru_RollupId m = rollupId ∧ sru_BlockHeight m = blockHeight ∧ sru_StateRoot m = stateRoot
  | OperatorForwarded operator =>
      tx = SmRegisterOperatorToAVS operator ∧ sender = coordinator ∧
      sm_isWhitelisted (se_operatorSetUpdateRegistry env) operator = true
  end.

(** A storage value is read under the root of the message, which the call stores or finds. *)
Lemma sm_storage_ok env sm m proof agreement sm' now v :
  sm_updateAndGetStorageValue env sm m proof agreement = Ok (sm', now, v) →
  HasNearDaCommitment m = true ∧ proof (sru_StateRoot m) = Ok v ∧
  ((attested env m ∧ (sm', now) = sm_pushStateRoot sm (sru_RollupId m) (sru_BlockHeight m) (sru_StateRoot m)) ∨
   (sm' = sm ∧ now = [] ∧ sm_stateRootBuffers sm !! (sru_RollupId m, sru_BlockHeight m) = Some (sru_StateRoot m))).
Proof.
  unfold sm_updateAndGetStorageValue, sm_getStorageValue.
  intros (? & Hda%require_ok & (r & Hr & (v' & (? & Heq%require_ok & Hv)%res_bind_ok & [= -> ->])%res_bind_ok)%res_bind_ok)%res_bind_ok.
  apply bool_decide_eq_true in Heq. cbn [fst] in *. split; [done|]. split; [by rewrite <- Heq|].
  case_bool_decide as Hz.
  - left. destruct agreement as [nss|]; [|done]. by apply sm_updateStateRoot_ok in Hr.
  - right. injection Hr as <- <-. split_and!; [done..|]. unfold sm_getStateRoot in *.
    destruct (sm_stateRootBuffers sm !! _); simpl in *; congruence.
Qed.

Lemma sm_accept_ok env sender sm tx sm' now :
  sm_accept env sender sm tx = Ok (sm', now) →
  sm_registryCoordinator sm' = sm_registryCoordinator sm ∧
  sm_stateRootBuffers sm' = foldl sm_apply (sm_stateRootBuffers sm) now ∧
  Forall (λ e, justified (sm_registryCoordinator sm) e (env, sender, tx)) now.
Proof.
  destruct tx as [m nss|m proof agreement|op|op]; simpl.
  - intros [Ha [= -> ->]]%sm_updateStateRoot_ok. rewrite Forall_singleton. split_and!; [done..|]. by exists m.
  - intros ([[sm1 now1] v] & Hx & [= -> ->])%res_bind_ok. apply sm_storage_ok in Hx as (_ & _ & [[Ha [= -> ->]]|(-> & -> & _)]).
    + rewrite Forall_singleton. split_and!; [done..|]. by exists m.
    + done.
  - unfold sm_registerOperatorToAVS.
    intros (? & Hs%require_ok%bool_decide_eq_true & (? & Hw%require_ok & (? & _ & [= <- <-])%res_bind_ok)%res_bind_ok)%res_bind_ok.
    by rewrite Forall_singleton.
  - unfold sm_freezeOperator. by intros (? & _ & [= <- <-])%res_bind_ok.
Qed.

Lemma sm_run_ok txs sm sm' effs :
  sm_run sm txs = (sm', effs) →
  sm_stateRootBuffers sm' = foldl sm_apply (sm_stateRootBuffers sm) effs ∧
  Forall (λ e, Exists (justified (sm_registryCoordinator sm) e) txs) effs.
Proof.
  revert sm effs. induction txs as [|[[env sender] tx] txs IH]; intros sm effs; simpl; [by intros [= <- <-]|].
  destruct (res_or _ _) as [sm1 now] eqn:H1. destruct (sm_run sm1 txs) as [sm2 later] eqn:H2. intros [= <- <-].
  destruct (IH _ _ H2) as [Hst Hj]. rewrite foldl_app, Forall_app.
  assert (sm_registryCoordinator sm1 = sm_registryCoordinator sm ∧
    sm_stateRootBuffers sm1 = foldl sm_apply (sm_stateRootBuffers sm) now ∧
    Forall (λ e, justified (sm_registryCoordinator sm) e (env, sender, tx)) now) as (Hc & Hs & Hn).
  { destruct (sm_accept env sender sm tx) as [[? ?]| |] eqn:Hx; simpl in H1; injection H1 as <- <-; [|done..].
    by apply sm_accept_ok in Hx. }
  rewrite Hc in Hj. rewrite Hst, Hs. split_and!; [done| |].
  - eapply Forall_impl; [exact Hn|]. intros e He. by left.
  - eapply Forall_impl; [exact Hj|]. intros e He. by right.
Qed.

(** A root in the store was announced. *)
Lemma sm_stored_announced effs store k root :
  foldl sm_apply store effs !! k = Some root →
  store !! k = Some root ∨ StateRootUpdated k.1 k.2 root ∈ effs.
Proof.
  revert store. induction effs as [|e effs IH]; intros store; simpl; [by left|].
  intros [Hs|Hin]%IH; [|right; by right]. destruct e as [r h s|op]; simpl in Hs; [|by left].
  apply lookup_insert_Some in Hs as [[<- <-]|[_ ?]]; [right; left|by left].
Qed.

(** C13: on mainnet, storage values are only answered under roots that a quorum signed.  Over
    any history of transactions since deployment, whoever sent them and whatever the other
    contracts answered: the store is the replay of the events; every event comes from a
    transaction whose message has this rollup, height and root, sent while updates were not
    paused, with signatures of at least 66% of the stake at the previous block over the
    message's digest; every operator forwarded to the AVS directory was whitelisted, the
    caller being the coordinator; and when [updateAndGetStorageValue] answers, the message
    has a NEAR DA commitment and the value is the one proved under its root, which this
    very transaction or an earlier one had signed by such a quorum. *)
Theorem storage_values_attested taskManager coordinator txs sm effs :
  sm_run (sm_deploy taskManager coordinator) txs = (sm, effs) →
  sm_stateRootBuffers sm = foldl sm_apply ∅ effs ∧
  Forall (λ e, Exists (justified coordinator e) txs) effs ∧
  ∀ env m proof agreement sm' now v,
    sm_updateAndGetStorageValue env sm m proof agreement = Ok (sm', now, v) →
    HasNearDaCommitment m = true ∧ proof (sru_StateRoot m) = Ok v ∧
    (attested env m ∨
     Exists (justified coordinator (StateRootUpdated (sru_RollupId m) (sru_BlockHeight m) (sru_StateRoot m))) txs).
Proof.
  intros [Hst Hj]%sm_run_ok. split_and!; [done|done|].
  intros env m proof agreement sm' now v (Hda & Hv & Hcase)%sm_storage_ok. split_and!; [done|done|].
  destruct Hcase as [[Ha _]|(_ & _ & Hin)]; [by left|right]. rewrite Hst in Hin.
  apply sm_stored_announced in Hin as [Hin|Hin]; [unfold sm_deploy in Hin; cbn [sm_stateRootBuffers] in Hin; by rewrite lookup_empty in Hin|].
  rewrite Forall_forall in Hj. exact (Hj _ Hin).
Qed.

End Contract.

(** ** Conflicting updates *)

(** Two parts of a whole overlap in what they exceed it by. *)
Lemma set_zsum_overlap {K} `{Countable K} (f : K → Z) (X Y U : gset K) :
  (∀ k, k ∈ U → 0 ≤ f k) → X ⊆ U → Y ⊆ U → set_zsum f X + set_zsum f Y ≤ set_zsum f U + set_zsum f (X ∩ Y).
Proof.
  intros Hpos HX HY. assert (set_zsum f (X ∪ Y) ≤ set_zsum f U) as Hle by (apply set_zsum_mono; set_solver).
  assert (set_zsum f (X ∪ Y) = set_zsum f (X ∖ Y) + set_zsum f Y) as Hu.
  { rewrite <- set_zsum_union by set_solver. f_equal. apply set_eq. intros k. destruct (decide (k ∈ Y)); set_solver. }
  assert (set_zsum f X = set_zsum f (X ∖ Y) + set_zsum f (X ∩ Y)) as Hx; [|lia].
  rewrite <- set_zsum_union by set_solver. f_equal. apply set_eq. intros k. destruct (decide (k ∈ Y)); set_solver.
Qed.

Section Accountability.
Context `{B : BlsOps} {BL : BlsLaws B} `{H : HashOps} {HL : HashLaws H} `{A : AbiOps} {AL : AbiLaws A}.

(** The operators of quorum 0 at a block, their stakes, and whose signatures exist. *)
Context (operators : Z → gset Address) (stake : Z → Address → Z) (signed : Address → bytes → Prop).

(** What the middleware documents of [checkSignatures]: it answers the stake at the block of
    operators that signed the hash, and the total stake, for the quorum asked for. *)
Definition checks_stakes (env : SmEnv) : Prop :=
  ∀ hash b nss totals nonSigners,
    se_checkSignatures env hash [0] b nss = Some (totals, nonSigners) →
    ∃ S, S ⊆ operators b ∧ totals = [(set_zsum (stake b) S, set_zsum (stake b) (operators b))] ∧
      ∀ o, o ∈ S → signed o hash.

(** An operator that signed the digests of two updates of one rollup block whose roots differ. *)
Definition equivocated (o : Address) : Prop :=
  ∃ m1 m2 d1 d2,
    sru_RollupId m1 = sru_RollupId m2 ∧ sru_BlockHeight m1 = sru_BlockHeight m2 ∧
    sru_StateRoot m1 ≠ sru_StateRoot m2 ∧ d1 ≠ d2 ∧
    sru_Digest m1 = Ok d1 ∧ sru_Digest m2 = Ok d2 ∧ signed o d1 ∧ signed o d2.

(** A transaction before whose block the operators [U] have the stakes [w]. *)
Record steady (U : gset Address) (w : Address → Z) (t : SmEnv * Address * SmTx) : Prop := {
  st_checks : checks_stakes t.1.1;
  st_operators : operators (u32 (se_number t.1.1 - 1)) = U;
  st_stake : ∀ o, stake (u32 (se_number t.1.1 - 1)) o = w o;
  st_typed : ∀ m, tx_message t.2 = Some m → sru_wf m }.

(** Where an update is attested, operators with 66% of the stake signed its digest. *)
Lemma attested_signers U w t m :
  steady U w t → attested t.1.1 m →
  ∃ d S, sru_Digest m = Ok d ∧ S ⊆ U ∧ (∀ o, o ∈ S → signed o d) ∧ 66 * set_zsum w U ≤ 100 * set_zsum w S.
Proof.
  intros [Hcs HU Hw _] (_ & _ & d & nss & totals & ns & Hd & Hc & Hall).
  destruct (Hcs _ _ _ _ _ Hc) as (S & HS & -> & Hsig). rewrite Forall_singleton in Hall. cbn [fst snd] in Hall.
  assert (∀ X, set_zsum (stake (u32 (se_number t.1.1 - 1))) X = set_zsum w X) as Heq.
  { intros X. unfold set_zsum. f_equal. by apply list_fmap_ext. }
  rewrite !Heq, HU in Hall. rewrite HU in HS. by exists d, S.
Qed.

Lemma conflict_signers U w t1 t2 m1 m2 :
  (∀ o, 0 ≤ w o) → steady U w t1 → steady U w t2 → attested t1.1.1 m1 → attested t2.1.1 m2 →
  sru_wf m1 → sru_wf m2 →
  sru_RollupId m1 = sru_RollupId m2 → sru_BlockHeight m1 = sru_BlockHeight m2 → sru_StateRoot m1 ≠ sru_StateRoot m2 →
  ¬ Exists keccak_collision (hashed_pairs (MsgStateRootUpdate m1) (MsgStateRootUpdate m2)) →
  ∃ S, S ⊆ U ∧ (∀ o, o ∈ S → equivocated o) ∧ 32 * set_zsum w U ≤ 100 * set_zsum w S.
Proof.
  intros Hpos Ht1 Ht2 Ha1 Ha2 Hw1 Hw2 Hr Hh Hroot Hcol.
  destruct (attested_signers U w t1 m1 Ht1 Ha1) as (d1 & S1 & Hd1 & HS1 & Hsig1 & Hq1).
  destruct (attested_signers U w t2 m2 Ht2 Ha2) as (d2 & S2 & Hd2 & HS2 & Hsig2 & Hq2).
  exists (S1 ∩ S2). split_and!; [set_solver| |].
  - intros o [? ?]%elem_of_intersection. exists m1, m2, d1, d2. split_and!; auto. intros ->.
    destruct (digest_determines (B:=B) (MsgStateRootUpdate m1) (MsgStateRootUpdate m2) d2 Hw1 Hw2 Hd1 Hd2) as [[= ->]|?]; done.
  - pose proof (set_zsum_overlap w S1 S2 U ltac:(auto) HS1 HS2). lia.
Qed.

(** C14: accountability on mainnet.  Take any history of transactions since deployment during
    which the operators and their stakes stay the same, and let Keccak have no collision
    among the strings hashed for its messages.  If two events of the history announce
    different roots for one rollup block, then operators with at least 32% of the stake
    signed conflicting updates, with different digests.  So while less than 32% of the stake
    equivocates, a root in the store is never replaced by another. *)
Theorem conflicting_roots_accountable taskManager coordinator txs sm effs U w rollupId blockHeight root1 root2 :
  (∀ o, 0 ≤ w o) → Forall (steady U w) txs →
  (∀ t1 t2 m1 m2, t1 ∈ txs → t2 ∈ txs → tx_message t1.2 = Some m1 → tx_message t2.2 = Some m2 →
    ¬ Exists keccak_collision (hashed_pairs (MsgStateRootUpdate m1) (MsgStateRootUpdate m2))) →
  sm_run (sm_deploy taskManager coordinator) txs = (sm, effs) →
  StateRootUpdated rollupId blockHeight root1 ∈ effs → StateRootUpdated rollupId blockHeight root2 ∈ effs →
  root1 ≠ root2 →
  ∃ S, S ⊆ U ∧ (∀ o, o ∈ S → equivocated o) ∧ 32 * set_zsum w U ≤ 100 * set_zsum w S.
Proof.
  intros Hpos Hst Hcol [_ Hj]%sm_run_ok Hin1 Hin2 Hne. rewrite Forall_forall in Hj. rewrite Forall_forall in Hst.
  apply Hj, Exists_exists in Hin1 as ([[env1 s1] tx1] & Ht1 & m1 & Hm1 & Ha1 & Hr1 & Hh1 & Hs1).
  apply Hj, Exists_exists in Hin2 as ([[env2 s2] tx2] & Ht2 & m2 & Hm2 & Ha2 & Hr2 & Hh2 & Hs2).
  apply (conflict_signers U w (env1, s1, tx1) (env2, s2, tx2) m1 m2); try done; try congruence; try (by apply Hst).
  - by apply (st_typed _ _ _ (Hst _ Ht1)).
  - by apply (st_typed _ _ _ (Hst _ Ht2)).
  - by apply (Hcol _ _ _ _ Ht1 Ht2).
Qed.

End Accountability.

Module Examples.

#[local] Existing Instances ToyBls.ops ToyBls.bls_laws ToyAbi.ops ToyAbi.abi_laws.
#[local] Existing Instances Inclusion.Examples.Mix.ops Inclusion.Examples.Mix.mix_laws.

Definition ex_message (r : Z) : StateRootUpdateMessage :=
  mkStateRootUpdate 3 7 1700000000 (replicate 32 1) (replicate 32 2) (replicate 32 r).
Definition ex_nss (signers : Z) : evm NonSignerStakesAndSignature :=
  Ok (mkNonSignerStakes [] [] [] (mkBN254G2Point (0, 0) (0, 0)) (mkBN254G1Point signers 0) [] [] []).

(** Operator 1 has 40 of 100, operators 2 and 3 have 30 each. *)
Definition ex_operators (b : Z) : gset Address := {[ 1; 2; 3 ]}.
Definition ex_stake (b : Z) (o : Address) : Z := if o =? 1 then 40 else 30.
Definition ex_signed (o : Address) (h : bytes) : Prop := o ∈ ex_operators 0.
Definition ex_signers (nss : NonSignerStakesAndSignature) : gset Address :=
  if bn_X (nss_Sigma nss) =? 12 then {[ 1; 2 ]} else if bn_X (nss_Sigma nss) =? 13 then {[ 1; 3 ]} else {[ 2; 3 ]}.
Definition ex_check (h q : bytes) (b : Z) (nss : NonSignerStakesAndSignature) : option (list (Z * Z) * bytes) :=
  Some ([(set_zsum (ex_stake b) (ex_signers nss), set_zsum (ex_stake b) (ex_operators b))], []).
Definition ex_env (number : Z) : SmEnv :=
  mkSmEnv number (λ _, false) ex_check (mkUpdateRegistry [] {[ 5 := true ]}) (λ _, Ok tt).

Definition ex_history : list (SmEnv * Address * SmTx) :=
  [(ex_env 1000, 8, SmRegisterOperatorToAVS 5);
   (ex_env 1000, 8, SmRegisterOperatorToAVS 6);
   (ex_env 1001, 77, SmUpdateStateRoot (ex_message 4) (ex_nss 23));
   (ex_env 1001, 77, SmUpdateStateRoot (ex_message 4) (ex_nss 12));
   (ex_env 1002, 77, SmUpdateStateRoot (ex_message 9) (ex_nss 13))].
Definition ex_after : ServiceManager := (sm_run (sm_deploy 1 8) ex_history).1.

(** Operator 6 is not on the whitelist, and operators 2 and 3 have only 60%. *)
Example ex_effects : (sm_run (sm_deploy 1 8) ex_history).2 =
  [OperatorForwarded 5; StateRootUpdated 3 7 (replicate 32 4); StateRootUpdated 3 7 (replicate 32 9)].
Proof. vm_compute. reflexivity. Qed.
Example ex_read :
  sm_updateAndGetStorageValue (ex_env 1003) ex_after (ex_message 9) (λ root, Ok [1]) None = Ok (ex_after, [], [1]).
Proof. vm_compute. reflexivity. Qed.

Lemma storage_values_attested_witness :
  attested (ex_env 1003) (ex_message 9) ∨
  Exists (justified 8 (StateRootUpdated 3 7 (replicate 32 9))) ex_history.
Proof.
  destruct (storage_values_attested 1 8 ex_history ex_after (sm_run (sm_deploy 1 8) ex_history).2) as (_ & _ & Hread).
  - apply surjective_pairing.
  - destruct (Hread (ex_env 1003) (ex_message 9) (λ root, Ok [1]) None ex_after [] [1] ex_read) as (_ & _ & Hr).
    exact Hr.
Defined.

Lemma ex_message_wf r : 0 ≤ r < 256 → sru_wf (ex_message r).
Proof.
  intros Hr. unfold sru_wf, is_bytes32, is_u32, is_u64, ex_message; simpl.
  assert (∀ x, 0 ≤ x < 256 → Forall is_u8 (replicate 32 x)) as Hb
    by (intros x Hx; apply Forall_replicate; unfold is_u8; lia).
  split_and!; try done; try lia; apply Hb; lia.
Qed.

Lemma ex_checks number : checks_stakes ex_operators ex_stake ex_signed (ex_env number).
Proof.
  intros h b nss totals ns [= <- <-]. exists (ex_signers nss).
  assert (ex_signers nss ⊆ ex_operators 0) as Hs by (unfold ex_signers, ex_operators; repeat case_match; set_solver).
  split_and!; [exact Hs|done|]. intros o Ho. by apply Hs.
Qed.

Lemma ex_steady : Forall (steady ex_operators ex_stake ex_signed (ex_operators 0) (ex_stake 0)) ex_history.
Proof.
  repeat (apply Forall_cons_2; [split; [apply ex_checks|done|done|]|]); [..|apply Forall_nil_2]; simpl;
    intros m [= <-]; apply ex_message_wf; lia.
Qed.

#[local] Instance keccak_collision_dec p : Decision (keccak_collision p).
Proof. unfold keccak_collision. apply _. Defined.

Lemma ex_no_collision t1 t2 m1 m2 :
  t1 ∈ ex_history → t2 ∈ ex_history → tx_message t1.2 = Some m1 → tx_message t2.2 = Some m2 →
  ¬ Exists keccak_collision (hashed_pairs (MsgStateRootUpdate m1) (MsgStateRootUpdate m2)).
Proof.
  assert (∀ t m, t ∈ ex_history → tx_message t.2 = Some m → m ∈ [ex_message 4; ex_message 9]) as Hm.
  { intros t m Ht. unfold ex_history in Ht. rewrite !elem_of_cons in Ht.
    destruct Ht as [->|[->|[->|[->|[->|Ht]]]]]; simpl; [..|by apply not_elem_of_nil in Ht]; intros [= <-];
      rewrite !elem_of_cons; auto. }
  intros Ht1 Ht2 H1%(Hm _ _ Ht1) H2%(Hm _ _ Ht2). rewrite !elem_of_cons in H1, H2.
  destruct H1 as [->|[->|H1]]; [..|by apply not_elem_of_nil in H1];
    (destruct H2 as [->|[->|H2]]; [..|by apply not_elem_of_nil in H2]);
    apply (bool_decide_unpack (¬ _)); vm_compute; exact I.
Qed.

Lemma conflicting_roots_accountable_witness :
  ∃ S, S ⊆ ex_operators 0 ∧ (∀ o, o ∈ S → equivocated ex_signed o) ∧
    32 * set_zsum (ex_stake 0) (ex_operators 0) ≤ 100 * set_zsum (ex_stake 0) S.
Proof.
  apply (conflicting_roots_accountable ex_operators ex_stake ex_signed 1 8 ex_history ex_after
    (sm_run (sm_deploy 1 8) ex_history).2 (ex_operators 0) (ex_stake 0) 3 7 (replicate 32 4) (replicate 32 9)).
  - intros o. unfold ex_stake. destruct (o =? 1); lia.
  - exact ex_steady.
  - exact ex_no_collision.
  - apply surjective_pairing.
  - rewrite ex_effects. right. left.
  - rewrite ex_effects. right. right. left.
  - discriminate.
Defined.

End Examples.
