(* ===== verification/Config.v ===== *)
(** * Configuration: core/config/config.go, operator/types/types.go, relayer/config/config.go
    and the flags of relayer/cmd/main.go

    - [CompileRollupsInfo] and [NewConfig] build the aggregator's configuration from the
      files and flags; what the files, the key library and the clock of the node answer are
      arguments;
    - [CompileCMD] renders the relayer's configuration as a command line, which
      [relayerMainFromArgs] parses again: the flag parser is an interface ([CliOps],
      [CliLaws]), and [GoFlags] is Go's own flag package, which satisfies it. *)

From S2P Require Import Prelude CoreTypes.

(** ** core/config *)

Record RollupInfo := mkRollupInfo {
  ri_SFFLRegistryRollupAddr : Address;
  ri_RpcUrl : string }.

#[export] Instance RollupInfo_eq_dec : EqDecision RollupInfo.
Proof. solve_decision. Defined.

Record ConfigRaw := mkConfigRaw {
  raw_Environment : string;
  raw_EthRpcUrl : string;
  raw_EthWsUrl : string;
  raw_AggregatorServerIpPortAddr : string;
  raw_AggregatorRestServerIpPortAddr : string;
  raw_AggregatorDatabasePath : string;
  raw_AggregatorCheckpointInterval : Z;
  raw_RegisterOperatorOnStartup : bool;
  raw_RollupIdsToRpcUrls : gmap RollupId string;
  raw_RollupIdsToRegistryAddresses : gmap RollupId string;
  raw_EnableMetrics : bool;
  raw_MetricsIpPortAddress : string }.

Record SFFLContractsRaw := mkContractsRaw {
  cr_RegistryCoordinatorAddr : string;
  cr_OperatorStateRetrieverAddr : string }.

(** Intervals are in nanoseconds, as [time.Duration]. *)
Record Config (Key : Type) := mkConfig {
  cfg_EcdsaPrivateKey : Key;
  cfg_EthHttpRpcUrl : string;
  cfg_EthWsRpcUrl : string;
  cfg_RollupsInfo : gmap RollupId RollupInfo;
  cfg_OperatorStateRetrieverAddr : Address;
  cfg_SFFLRegistryCoordinatorAddr : Address;
  cfg_AggregatorServerIpPortAddr : string;
  cfg_AggregatorRestServerIpPortAddr : string;
  cfg_AggregatorDatabasePath : string;
  cfg_AggregatorCheckpointInterval : Z;
  cfg_RegisterOperatorOnStartup : bool;
  cfg_AggregatorAddress : Address;
  cfg_EnableMetrics : bool;
  cfg_MetricsIpPortAddress : string }.
Arguments mkConfig {Key}.
Arguments cfg_EcdsaPrivateKey {Key}.
Arguments cfg_EthHttpRpcUrl {Key}.
Arguments cfg_EthWsRpcUrl {Key}.
Arguments cfg_RollupsInfo {Key}.
Arguments cfg_OperatorStateRetrieverAddr {Key}.
Arguments cfg_SFFLRegistryCoordinatorAddr {Key}.
Arguments cfg_AggregatorServerIpPortAddr {Key}.
Arguments cfg_AggregatorRestServerIpPortAddr {Key}.
Arguments cfg_AggregatorDatabasePath {Key}.
Arguments cfg_AggregatorCheckpointInterval {Key}.
Arguments cfg_RegisterOperatorOnStartup {Key}.
Arguments cfg_AggregatorAddress {Key}.
Arguments cfg_EnableMetrics {Key}.
Arguments cfg_MetricsIpPortAddress {Key}.

Section Config.
Context (HexToAddress : string → Address).

(** [ReadYaml] is the answer of [ReadYamlConfig] for the path. *)
Definition NewConfigRaw (configFilePath : string) (ReadYaml : string → go ConfigRaw) : go ConfigRaw :=
  if decide (configFilePath = EmptyString) then Err (NewError "config file path is empty")
  else ReadYaml configFilePath.

(** The loop over the map of registry addresses, whose iteration order Go leaves open. *)
Fixpoint compile_loop (urls : gmap RollupId string) (entries : list (RollupId * string))
    (acc : gmap RollupId RollupInfo) : go (gmap RollupId RollupInfo) :=
  match entries with
  | [] => Ok acc
  | (chainId, registryAddress) :: entries =>
      match urls !! chainId with
      | None => Panic
      | Some url => compile_loop urls entries (<[chainId := mkRollupInfo (HexToAddress registryAddress) url]> acc)
      end
  end.

Definition CompileRollupsInfo (order : gmap RollupId string → list (RollupId * string)) (configRaw : ConfigRaw)
    : go (gmap RollupId RollupInfo) :=
  if negb (size (raw_RollupIdsToRpcUrls configRaw) =? size (raw_RollupIdsToRegistryAddresses configRaw))%nat
  then Panic
  else compile_loop (raw_RollupIdsToRpcUrls configRaw) (order (raw_RollupIdsToRegistryAddresses configRaw)) ∅.

Context {Key : Type} (HexToECDSA : string → go Key) (EcdsaPrivateKeyToAddress : Key → go Address).

Definition validate (c : Config Key) : go unit :=
  if decide (cfg_OperatorStateRetrieverAddr c = HexToAddress EmptyString) then Panic
  else if decide (cfg_SFFLRegistryCoordinatorAddr c = HexToAddress EmptyString) then Panic
  else if decide (cfg_MetricsIpPortAddress c = EmptyString) then Panic
  else Ok tt.

(** [s[:2] == "0x"] and [s[2:]]: slicing a string of less than two bytes panics. *)
Definition strip0x (s : string) : go string :=
  match s with
  | String a (String b s') =>
      if decide (String a (String b EmptyString) = "0x"%string) then Ok s' else Ok s
  | _ => Panic
  end.

Definition millisecond : Z := 1000000.

(** [exists_] is whether [os.Stat] finds the deployment file, [ReadJson] the answer of
    [ReadJsonConfig], [ecdsaFlag] the value of the key flag. *)
Definition NewConfig (order : gmap RollupId string → list (RollupId * string)) (configRaw : ConfigRaw)
    (exists_ : bool) (ReadJson : go SFFLContractsRaw) (ecdsaFlag : string) : go (Config Key) :=
  let? rollupsInfo := CompileRollupsInfo order configRaw in
  if negb exists_ then Panic
  else
    let? deployment := ReadJson in
    let? ecdsaPrivateKeyString := strip0x ecdsaFlag in
    let? ecdsaPrivateKey := HexToECDSA ecdsaPrivateKeyString in
    let? aggregatorAddr := EcdsaPrivateKeyToAddress ecdsaPrivateKey in
    let config := mkConfig ecdsaPrivateKey (raw_EthRpcUrl configRaw) (raw_EthWsUrl configRaw) rollupsInfo
      (HexToAddress (cr_OperatorStateRetrieverAddr deployment))
      (HexToAddress (cr_RegistryCoordinatorAddr deployment))
      (raw_AggregatorServerIpPortAddr configRaw) (raw_AggregatorRestServerIpPortAddr configRaw)
      (raw_AggregatorDatabasePath configRaw)
      (i64 (raw_AggregatorCheckpointInterval configRaw * millisecond))
      (raw_RegisterOperatorOnStartup configRaw) aggregatorAddr (raw_EnableMetrics configRaw)
      (raw_MetricsIpPortAddress configRaw) in
    let? _ := validate config in Ok config.

(** ** Properties *)

Lemma compile_loop_spec urls entries : ∀ acc,
  NoDup entries.*1 → (∀ id, is_Some (acc !! id) → id ∉ entries.*1) →
  match compile_loop urls entries acc with
  | Ok m => (∀ id, id ∈ entries.*1 → is_Some (urls !! id)) ∧
            ∀ id, m !! id = match list_to_map (M := gmap RollupId string) entries !! id, urls !! id with
                            | Some a, Some u => Some (mkRollupInfo (HexToAddress a) u)
                            | _, _ => acc !! id
                            end
  | Panic => ∃ id, id ∈ entries.*1 ∧ urls !! id = None
  | Err _ => False
  end.
Proof.
  induction entries as [|[id a] entries IH]; intros acc Hnd Hacc; simpl.
  { split; [intros id Hid; by apply not_elem_of_nil in Hid|]. intros id. by rewrite lookup_empty. }
  simpl in Hnd. apply NoDup_cons in Hnd as [Hid Hnd].
  destruct (urls !! id) as [u|] eqn:Hu; [|exists id; split; [left|done]].
  assert (∀ j, is_Some (<[id := mkRollupInfo (HexToAddress a) u]> acc !! j) → j ∉ entries.*1) as Hacc'.
  { intros j [? Hj] Hin. destruct (decide (j = id)) as [->|Hne]; [done|]. rewrite lookup_insert_ne in Hj by done.
    apply (Hacc j); [eauto|by right]. }
  specialize (IH _ Hnd Hacc'). destruct (compile_loop _ _ _) as [m|e|]; [|done|].
  - destruct IH as [Hall Hm]. split.
    + intros j [->|Hj]%elem_of_cons; [by rewrite Hu|auto].
    + intros j. rewrite Hm. destruct (decide (j = id)) as [->|Hne].
      * rewrite !lookup_insert_eq, Hu, not_elem_of_list_to_map_1 by done. done.
      * by rewrite !lookup_insert_ne by done.
  - destruct IH as (j & Hj & Hnone). exists j. split; [by right|done].
Qed.

Lemma CompileRollupsInfo_spec order raw :
  (∀ m : gmap RollupId string, order m ≡ₚ map_to_list m) →
  match CompileRollupsInfo order raw with
  | Ok m => dom (raw_RollupIdsToRpcUrls raw) = dom (raw_RollupIdsToRegistryAddresses raw) ∧
      ∀ id, m !! id = match raw_RollupIdsToRegistryAddresses raw !! id, raw_RollupIdsToRpcUrls raw !! id with
                      | Some a, Some u => Some (mkRollupInfo (HexToAddress a) u)
                      | _, _ => None
                      end
  | Panic => dom (raw_RollupIdsToRpcUrls raw) ≠ dom (raw_RollupIdsToRegistryAddresses raw)
  | Err _ => False
  end.
Proof.
  intros Horder. unfold CompileRollupsInfo.
  set (urls := raw_RollupIdsToRpcUrls raw). set (addrs := raw_RollupIdsToRegistryAddresses raw).
  destruct (Nat.eqb_spec (size urls) (size addrs)) as [Hsize|Hsize]; simpl negb; cbv iota.
  2: { intros Hdom. apply Hsize. by rewrite <- !size_dom, Hdom. }
  assert (NoDup (order addrs).*1) as Hnd by (rewrite Horder; apply NoDup_fst_map_to_list).
  assert (list_to_map (order addrs) = addrs) as Hmap.
  { rewrite <- (list_to_map_to_list addrs) at 2. by apply list_to_map_proper. }
  pose proof (compile_loop_spec urls (order addrs) ∅ Hnd) as Hloop.
  specialize (Hloop ltac:(intros id [? Hid]; by rewrite lookup_empty in Hid)).
  assert (∀ id, id ∈ (order addrs).*1 ↔ id ∈ dom addrs) as Hin.
  { intros id. rewrite <- Hmap at 2. rewrite dom_list_to_map_L, elem_of_list_to_set. done. }
  destruct (compile_loop urls (order addrs) ∅) as [m|e|].
  - destruct Hloop as [Hall Hm]. split.
    + symmetry. apply set_subseteq_size_eq.
      * intros id Hid. apply elem_of_dom, Hall. by apply Hin.
      * rewrite !size_dom. lia.
    + intros id. rewrite Hm, Hmap. destruct (addrs !! id), (urls !! id); done.
  - done.
  - destruct Hloop as (id & Hid & Hnone). apply Hin in Hid.
    intros Hdom. rewrite <- Hdom in Hid. by apply elem_of_dom in Hid as [? ?]; congruence.
Qed.

(** What an accepted configuration takes from the file. *)
Lemma NewConfig_ok order raw exists_ ReadJson ecdsaFlag c :
  is_u32 (raw_AggregatorCheckpointInterval raw) →
  NewConfig order raw exists_ ReadJson ecdsaFlag = Ok c →
  ∃ info, CompileRollupsInfo order raw = Ok info ∧ cfg_RollupsInfo c = info ∧
    cfg_AggregatorCheckpointInterval c = raw_AggregatorCheckpointInterval raw * 1000000 ∧
    cfg_AggregatorDatabasePath c = raw_AggregatorDatabasePath raw ∧
    cfg_EnableMetrics c = raw_EnableMetrics raw.
Proof.
  unfold is_u32. intros Hint Hc. unfold NewConfig in Hc.
  apply res_bind_ok in Hc as (info & Hinfo & Hc). destruct exists_; simpl in Hc; [|done].
  do 4 (apply res_bind_ok in Hc as (? & _ & Hc)). apply res_bind_ok in Hc as ([] & _ & [= <-]).
  exists info. simpl. unfold millisecond. by rewrite i64_small by lia.
Qed.

(** A configuration that is accepted says what the files say.  Whatever order Go
    visits the maps in, [NewConfig] yields a configuration only if the same rollups have
    an RPC URL and a registry address, and then holds for each of them exactly that URL and
    address and for no other rollup anything; the checkpoint interval is the configured
    number of milliseconds without overflow; the key flag has at least two characters;
    and the contract addresses and the metrics address are set. *)
Theorem new_config_spec order (raw : ConfigRaw) (exists_ : bool) (ReadJson : go SFFLContractsRaw)
    (ecdsaFlag : string) (c : Config Key) :
  (∀ m : gmap RollupId string, order m ≡ₚ map_to_list m) → is_u32 (raw_AggregatorCheckpointInterval raw) →
  NewConfig order raw exists_ ReadJson ecdsaFlag = Ok c →
  dom (raw_RollupIdsToRpcUrls raw) = dom (raw_RollupIdsToRegistryAddresses raw) ∧
  (∀ id, cfg_RollupsInfo c !! id =
     match raw_RollupIdsToRegistryAddresses raw !! id, raw_RollupIdsToRpcUrls raw !! id with
     | Some a, Some u => Some (mkRollupInfo (HexToAddress a) u)
     | _, _ => None
     end) ∧
  cfg_AggregatorCheckpointInterval c = raw_AggregatorCheckpointInterval raw * 1000000 ∧
  0 ≤ cfg_AggregatorCheckpointInterval c < 2 ^ 63 ∧
  (2 ≤ String.length ecdsaFlag)%nat ∧
  cfg_OperatorStateRetrieverAddr c ≠ HexToAddress EmptyString ∧
  cfg_SFFLRegistryCoordinatorAddr c ≠ HexToAddress EmptyString ∧
  cfg_MetricsIpPortAddress c ≠ EmptyString.
Proof.
  unfold is_u32. intros Horder Hint Hc. unfold NewConfig in Hc.
  apply res_bind_ok in Hc as (info & Hinfo & Hc). pose proof (CompileRollupsInfo_spec order raw Horder) as Hspec.
  rewrite Hinfo in Hspec. destruct Hspec as [Hdom Hlookup].
  destruct exists_; simpl in Hc; [|done]. apply res_bind_ok in Hc as (dep & _ & Hc).
  apply res_bind_ok in Hc as (s & Hs & (key & _ & (addr & _ & ([] & Hv & [= <-])%res_bind_ok)%res_bind_ok)%res_bind_ok).
  unfold validate in Hv. simpl in *. unfold millisecond. rewrite i64_small by lia.
  do 3 (case_decide; [done|]). split_and!; try done; try lia.
  destruct ecdsaFlag as [|? [|]]; simpl in *; [done..|lia].
Qed.

End Config.

(** ** Command line flags

    [urfave/cli] hands the arguments after a command's name to the flags of that command.
    A flag is given as [--name] (a bool) or as [--name value]; a command fails unless its
    required flags are given. *)

Record FlagSpec := mkFlag {
  fl_name : string;
  fl_bool : bool;
  fl_required : bool;
  fl_default : string }.

(** The values of the flags after parsing, a bool as its text. *)
Notation Context := (gmap string string) (only parsing).

Class CliOps := { cli_run : list (string * list FlagSpec) → list string → go (string * Context) }.

Definition ctx_String (ctx : Context) (name : string) : string := default EmptyString (ctx !! name).
Definition ctx_Bool (ctx : Context) (name : string) : bool := bool_decide (ctx !! name = Some "true"%string).

(** How flags are given. *)
Definition render_flag (g : string * option string) : list string :=
  match g.2 with
  | None => [("--" +:+ g.1)%string]
  | Some v => [("--" +:+ g.1)%string; v]
  end.
Definition render (gs : list (string * option string)) : list string := gs ≫= render_flag.

Definition starts_with_dash (s : string) : bool :=
  match s with String a _ => (Ascii.nat_of_ascii a =? 45)%nat | EmptyString => false end.
Fixpoint has_equals (s : string) : bool :=
  match s with EmptyString => false | String a s => (Ascii.nat_of_ascii a =? 61)%nat || has_equals s end.
Definition name_ok (s : string) : bool :=
  negb (bool_decide (s = EmptyString)) && negb (starts_with_dash s) && negb (has_equals s).

(** [gs] gives flags of [flags] in their form, with values that cannot be taken for flags. *)
Definition gives (flags : list FlagSpec) (gs : list (string * option string)) : Prop :=
  Forall (λ g, ∃ f, f ∈ flags ∧ fl_name f = g.1 ∧
            match g.2 with None => fl_bool f = true | Some v => fl_bool f = false ∧ starts_with_dash v = false end) gs.

Definition given_value (g : option string) : string := default "true"%string g.

(** The documented behaviour: the last value given, else the default; an error if a
    required flag is missing. *)
Definition parsed (flags : list FlagSpec) (gs : list (string * option string)) (name : string) : option string :=
  match list_find (λ g, g.1 = name) (reverse gs) with
  | Some (_, g) => Some (given_value g.2)
  | None => fl_default <$> (snd <$> list_find (λ f, fl_name f = name) flags)
  end.

Class CliLaws (O : CliOps) := {
  cli_run_given commands command flags gs :
    NoDup commands.*1 → (command, flags) ∈ commands → NoDup (fl_name <$> flags) →
    Forall (λ f, name_ok (fl_name f) = true) flags → gives flags gs →
    (∀ f, f ∈ flags → fl_required f = true → fl_name f ∈ gs.*1) →
    ∃ ctx, cli_run commands (command :: render gs) = Ok (command, ctx) ∧
      ∀ f, f ∈ flags → ctx !! fl_name f = parsed flags gs (fl_name f) }.

(** ** relayer/config/config.go and relayer/cmd/main.go *)

Record RelayerConfig := mkRelayerConfig {
  rc_Production : bool;
  rc_RpcUrl : string;
  rc_DaAccountId : string;
  rc_KeyPath : string;
  rc_Network : string;
  rc_MetricsIpPortAddr : string }.

Definition CompileCMD (c : RelayerConfig) : list string :=
  ["run-args"%string] ++
  (if rc_Production c then ["--production"%string] else []) ++
  ["--key-path"%string; rc_KeyPath c] ++
  ["--rpc-url"%string; rc_RpcUrl c] ++
  ["--da-account-id"%string; rc_DaAccountId c] ++
  ["--network"%string; rc_Network c] ++
  (if negb (bool_decide (rc_MetricsIpPortAddr c = EmptyString))
   then ["--metrics-ip-port-address"%string; rc_MetricsIpPortAddr c] else []).

Definition run_args_flags : list FlagSpec :=
  [mkFlag "production" true false "false"; mkFlag "rpc-url" false true EmptyString;
   mkFlag "da-account-id" false true EmptyString; mkFlag "key-path" false true EmptyString;
   mkFlag "network" false false "http://127.0.0.1:3030";
   mkFlag "metrics-ip-port-address" false false EmptyString].

(** The flag [path, p] has a second name. *)
Definition relayer_commands : list (string * list FlagSpec) :=
  [("run-args"%string, run_args_flags);
   ("run-config"%string, [mkFlag "path" false true EmptyString; mkFlag "p" false false EmptyString])].

Definition relayerMainFromArgs (ctx : Context) : RelayerConfig :=
  mkRelayerConfig (ctx_Bool ctx "production") (ctx_String ctx "rpc-url") (ctx_String ctx "da-account-id")
    (ctx_String ctx "key-path") (ctx_String ctx "network") (ctx_String ctx "metrics-ip-port-address").

(** The configuration with which [relayerMain] is started. *)
Definition relayer_main `{CliOps} (ReadYaml : string → go RelayerConfig) (args : list string) : go RelayerConfig :=
  let? r := cli_run relayer_commands args in
  if decide (r.1 = "run-args"%string) then Ok (relayerMainFromArgs r.2)
  else ReadYaml (ctx_String r.2 "path").

Section Relayer.
Context `{CO : CliOps} {CL : CliLaws CO}.

Definition cmd_flags (c : RelayerConfig) : list (string * option string) :=
  (if rc_Production c then [("production"%string, None)] else []) ++
  [("key-path"%string, Some (rc_KeyPath c)); ("rpc-url"%string, Some (rc_RpcUrl c));
   ("da-account-id"%string, Some (rc_DaAccountId c)); ("network"%string, Some (rc_Network c))] ++
  (if negb (bool_decide (rc_MetricsIpPortAddr c = EmptyString))
   then [("metrics-ip-port-address"%string, Some (rc_MetricsIpPortAddr c))] else []).

Lemma CompileCMD_render c : CompileCMD c = "run-args"%string :: render (cmd_flags c).
Proof. unfold CompileCMD, cmd_flags, render. by destruct (rc_Production c), (negb _). Qed.

(** Finds a flag by its position in the list. *)
Ltac in_flags := repeat (first [left | right]).

Lemma cmd_flags_given c :
  Forall (λ v, starts_with_dash v = false)
    [rc_RpcUrl c; rc_DaAccountId c; rc_KeyPath c; rc_Network c; rc_MetricsIpPortAddr c] →
  gives run_args_flags (cmd_flags c).
Proof.
  rewrite !Forall_cons. intros (H1 & H2 & H3 & H4 & H5 & _). unfold gives, cmd_flags.
  apply Forall_app; split; [destruct (rc_Production c); repeat constructor|apply Forall_app; split].
  - exists (mkFlag "production" true false "false"). split; [in_flags|done].
  - constructor; [exists (mkFlag "key-path" false true EmptyString); split; [in_flags|done]|].
    constructor; [exists (mkFlag "rpc-url" false true EmptyString); split; [in_flags|done]|].
    constructor; [exists (mkFlag "da-account-id" false true EmptyString); split; [in_flags|done]|].
    constructor; [exists (mkFlag "network" false false "http://127.0.0.1:3030"); split; [in_flags|done]|done].
  - destruct (negb _); repeat constructor.
    exists (mkFlag "metrics-ip-port-address" false false EmptyString). split; [in_flags|done].
Qed.

Lemma cmd_flags_required c f :
  f ∈ run_args_flags → fl_required f = true → fl_name f ∈ (cmd_flags c).*1.
Proof.
  unfold run_args_flags, cmd_flags. rewrite !elem_of_cons, elem_of_nil. intros Hf Hr.
  rewrite !fmap_app, !elem_of_app. right. left. simpl.
  destruct_or! Hf; subst f; try discriminate Hr; simpl; in_flags.
Qed.

Lemma cmd_flags_read c (ctx : Context) :
  (∀ f, f ∈ run_args_flags → ctx !! fl_name f = parsed run_args_flags (cmd_flags c) (fl_name f)) →
  relayerMainFromArgs ctx = c.
Proof.
  intros Hctx. unfold relayerMainFromArgs, ctx_Bool, ctx_String.
  pose proof (Hctx (mkFlag "production" true false "false") ltac:(in_flags)) as H1.
  pose proof (Hctx (mkFlag "rpc-url" false true EmptyString) ltac:(in_flags)) as H2.
  pose proof (Hctx (mkFlag "da-account-id" false true EmptyString) ltac:(in_flags)) as H3.
  pose proof (Hctx (mkFlag "key-path" false true EmptyString) ltac:(in_flags)) as H4.
  pose proof (Hctx (mkFlag "network" false false "http://127.0.0.1:3030") ltac:(in_flags)) as H5.
  pose proof (Hctx (mkFlag "metrics-ip-port-address" false false EmptyString) ltac:(in_flags)) as H6.
  cbn [fl_name] in *. rewrite H1, H2, H3, H4, H5, H6. unfold cmd_flags.
  destruct c as [p u d k n m]; cbn [rc_Production rc_KeyPath rc_RpcUrl rc_DaAccountId rc_Network rc_MetricsIpPortAddr].
  destruct (bool_decide (m = EmptyString)) eqn:Hm; destruct p; try reflexivity;
    apply bool_decide_eq_true in Hm; by subst m.
Qed.

Lemma compile_cmd_lemma (c : RelayerConfig) (ReadYaml : string → go RelayerConfig) :
  Forall (λ v, starts_with_dash v = false)
    [rc_RpcUrl c; rc_DaAccountId c; rc_KeyPath c; rc_Network c; rc_MetricsIpPortAddr c] →
  relayer_main ReadYaml (CompileCMD c) = Ok c.
Proof.
  intros Hv. rewrite CompileCMD_render. unfold relayer_main.
  destruct (cli_run_given relayer_commands "run-args" run_args_flags (cmd_flags c)) as (ctx & Hr & Hctx).
  - apply (bool_decide_unpack _). by vm_compute.
  - left.
  - apply (bool_decide_unpack _). by vm_compute.
  - by repeat constructor.
  - by apply cmd_flags_given.
  - by apply cmd_flags_required.
  - rewrite Hr. cbn [res_bind fst snd]. rewrite decide_True by done. f_equal. by apply cmd_flags_read.
Qed.

(** A relayer started with the command line compiled from a configuration runs with
    that configuration, whatever optional parts it has, as long as no value looks like a
    flag. *)
Theorem compile_cmd_roundtrip (c : RelayerConfig) (ReadYaml : string → go RelayerConfig) :
  Forall (λ v, starts_with_dash v = false)
    [rc_RpcUrl c; rc_DaAccountId c; rc_KeyPath c; rc_Network c; rc_MetricsIpPortAddr c] →
  relayer_main ReadYaml (CompileCMD c) = Ok c.
Proof. apply compile_cmd_lemma. Qed.

End Relayer.

(** ** Go's flag package

    [FlagSet.Parse] as an executable definition: a flag may begin with one or two dashes
    and carry its value after an equals sign; parsing stops at the first argument that is
    not a flag.  The command and the required flags are looked up as [urfave/cli] does. *)
Module GoFlags.

Definition is_char (n : nat) (a : Ascii.ascii) : bool := (Ascii.nat_of_ascii a =? n)%nat.

(** The part of a name before the first equals sign and the value after it. *)
Fixpoint split_equals (s : string) : string * option string :=
  match s with
  | EmptyString => (EmptyString, None)
  | String a s =>
      if is_char 61 a then (EmptyString, Some s)
      else let '(n, v) := split_equals s in (String a n, v)
  end.

(** [strconv.ParseBool]. *)
Definition ParseBool (s : string) : option bool :=
  if decide (s ∈ ["1"; "t"; "T"; "TRUE"; "true"; "True"]%string) then Some true
  else if decide (s ∈ ["0"; "f"; "F"; "FALSE"; "false"; "False"]%string) then Some false
  else None.

(** What an argument is: the end of the flags, a malformed flag, or a name with perhaps a
    value. *)
Inductive ArgKind : Type :=
| NotAFlag
| BadSyntax
| AFlag (name : string) (value : option string).

Definition starts_with_equals (s : string) : bool :=
  match s with String a _ => is_char 61 a | EmptyString => false end.

Definition flag_of_name (name : string) : ArgKind :=
  if bool_decide (name = EmptyString) || starts_with_dash name || starts_with_equals name
  then BadSyntax
  else let '(n, v) := split_equals name in AFlag n v.

Definition classify (s : string) : ArgKind :=
  match s with
  | String a (String b s') =>
      if negb (is_char 45 a) then NotAFlag
      else if is_char 45 b then (if decide (s' = EmptyString) then NotAFlag else flag_of_name s')
      else flag_of_name (String b s')
  | _ => NotAFlag
  end.

Definition find_flag (flags : list FlagSpec) (name : string) : option FlagSpec :=
  snd <$> list_find (λ f, fl_name f = name) flags.

Fixpoint parse (flags : list FlagSpec) (args : list string) (set : Context) : go Context :=
  match args with
  | [] => Ok set
  | s :: args =>
      match classify s with
      | NotAFlag => Ok set
      | BadSyntax => Err (NewError "bad flag syntax")
      | AFlag name value =>
          match find_flag flags name with
          | None => Err (NewError "flag provided but not defined")
          | Some f =>
              if fl_bool f then
                match value with
                | None => parse flags args (<[name := "true"%string]> set)
                | Some v =>
                    match ParseBool v with
                    | None => Err (NewError "invalid boolean value")
                    | Some b => parse flags args (<[name := if b then "true"%string else "false"%string]> set)
                    end
                end
              else
                match value, args with
                | Some v, _ => parse flags args (<[name := v]> set)
                | None, v :: args => parse flags args (<[name := v]> set)
                | None, [] => Err (NewError "flag needs an argument")
                end
          end
      end
  end.

(** The defaults under the values that were set. *)
Definition with_defaults (flags : list FlagSpec) (set : Context) : Context :=
  set ∪ list_to_map ((λ f, (fl_name f, fl_default f)) <$> flags).

Definition run (commands : list (string * list FlagSpec)) (args : list string) : go (string * Context) :=
  match args with
  | [] => Err (NewError "no command")
  | command :: args =>
      match list_find (λ c, c.1 = command) commands with
      | None => Err (NewError "no such command")
      | Some (_, (_, flags)) =>
          let? set := parse flags args ∅ in
          if forallb (λ f, negb (fl_required f) || bool_decide (is_Some (set !! fl_name f))) flags
          then Ok (command, with_defaults flags set)
          else Err (NewError "required flags not set")
      end
  end.

#[export] Instance ops : CliOps := { cli_run := run }.

Lemma split_equals_none s : has_equals s = false → split_equals s = (s, None).
Proof.
  induction s as [|a s IH]; simpl; [done|]. unfold is_char. intros [Ha Hs]%orb_false_elim.
  rewrite Ha. by rewrite IH.
Qed.

Lemma classify_flag name : name_ok name = true → classify ("--" +:+ name) = AFlag name None.
Proof.
  unfold name_ok. intros [[Hne Hd]%andb_prop He]%andb_prop.
  apply negb_true_iff in Hd, He. apply negb_true_iff, bool_decide_eq_false in Hne.
  assert (flag_of_name name = AFlag name None) as Hflag.
  { unfold flag_of_name. rewrite Hd, bool_decide_false by done.
    replace (starts_with_equals name) with false; [by rewrite split_equals_none|].
    destruct name as [|a name]; [done|]. simpl in *. unfold is_char. by apply orb_false_elim in He as [-> _]. }
  change (classify ("--" +:+ name)) with (if decide (name = EmptyString) then NotAFlag else flag_of_name name).
  by rewrite decide_False.
Qed.

Lemma find_flag_in flags f : NoDup (fl_name <$> flags) → f ∈ flags → find_flag flags (fl_name f) = Some f.
Proof.
  intros Hnd [i Hi]%list_elem_of_lookup. unfold find_flag.
  assert (list_find (λ g, fl_name g = fl_name f) flags = Some (i, f)) as ->; [|done].
  apply list_find_Some. split_and!; [done..|]. intros j g Hg Hlt Heq.
  assert (i = j); [|lia]. apply (NoDup_lookup _ _ _ (fl_name f) Hnd); rewrite list_lookup_fmap.
  - by rewrite Hi.
  - rewrite Hg. simpl. by rewrite Heq.
Qed.

Definition set_all (gs : list (string * option string)) (set : Context) : Context :=
  foldl (λ s g, <[g.1 := given_value g.2]> s) set gs.

Lemma parse_render flags gs : ∀ set,
  NoDup (fl_name <$> flags) → Forall (λ f, name_ok (fl_name f) = true) flags → gives flags gs →
  parse flags (render gs) set = Ok (set_all gs set).
Proof.
  intros set Hnd Hok Hg. revert set. induction Hg as [|[n v] gs (f & Hf & Hn & Hv) _ IH]; intros set; [done|].
  simpl in Hn. subst n. assert (name_ok (fl_name f) = true) as Hname by by eapply Forall_forall in Hok.
  pose proof (classify_flag (fl_name f) Hname) as Hc.
  destruct v as [v|]; unfold render in *; cbn [mbind list_bind render_flag snd fst app parse] in *;
    rewrite Hc, find_flag_in by done.
  - destruct Hv as [-> _]. apply IH.
  - rewrite Hv. apply IH.
Qed.

Lemma set_all_lookup gs name : ∀ set : Context,
  set_all gs set !! name =
  match list_find (λ g, g.1 = name) (reverse gs) with
  | Some (_, g) => Some (given_value g.2)
  | None => set !! name
  end.
Proof.
  unfold set_all. induction gs as [|[n v] gs IH] using rev_ind; intros set; simpl; [done|].
  rewrite foldl_app, reverse_app. simpl. case_decide as Hn.
  - subst n. by rewrite lookup_insert_eq.
  - rewrite lookup_insert_ne, IH by done. destruct (list_find _ (reverse gs)) as [[]|]; done.
Qed.

#[export] Instance laws : CliLaws ops.
Proof.
  split. intros commands command flags gs Hnd Hin Hnames Hok Hg Hreq. simpl.
  assert (∃ i, list_find (λ c, c.1 = command) commands = Some (i, (command, flags))) as [i ->].
  { apply list_elem_of_lookup in Hin as [i Hi]. exists i. apply list_find_Some. split_and!; [done..|].
    intros j [c' fs] Hj Hlt Heq. simpl in Heq. subst c'. assert (i = j); [|lia].
    apply (NoDup_lookup _ _ _ command Hnd); rewrite list_lookup_fmap; [by rewrite Hi|by rewrite Hj]. }
  rewrite parse_render by done. cbn [res_bind].
  rewrite (proj2 (forallb_forall _ _)).
  2: { intros f Hf%list_elem_of_In. destruct (fl_required f) eqn:Hr; [|done]. simpl.
       apply bool_decide_eq_true. rewrite set_all_lookup.
       destruct (list_find _ (reverse gs)) as [[]|] eqn:Hl; [eauto|].
       apply list_find_None in Hl. exfalso.
       apply Hreq in Hr; [|done]. apply list_elem_of_fmap in Hr as (g & Heq & Hgin).
       eapply Forall_forall in Hl; [by apply Hl|]. by apply elem_of_reverse. }
  eexists. split; [done|]. intros f Hf. unfold with_defaults, parsed.
  rewrite lookup_union, set_all_lookup. fold (find_flag flags (fl_name f)). rewrite (find_flag_in flags f) by done.
  destruct (list_find _ (reverse gs)) as [[]|]; [by rewrite union_Some_l|].
  rewrite lookup_empty, (left_id_L None union). apply elem_of_list_to_map.
  - rewrite <- list_fmap_compose. done.
  - apply list_elem_of_fmap. eauto.
Qed.

End GoFlags.

(** ** operator/types/types.go, cli/actions/utils.go *)

Record NodeConfig := mkNodeConfig {
  nc_Production : bool;
  nc_OperatorAddress : string;
  nc_OperatorStateRetrieverAddress : string;
  nc_AVSRegistryCoordinatorAddress : string;
  nc_TokenStrategyAddr : string;
  nc_EthRpcUrl : string;
  nc_EthWsUrl : string;
  nc_BlsPrivateKeyStorePath : string;
  nc_EcdsaPrivateKeyStorePath : string;
  nc_AggregatorServerIpPortAddress : string;
  nc_RegisterOperatorOnStartup : bool;
  nc_EigenMetricsIpPortAddress : string;
  nc_EnableMetrics : bool;
  nc_NodeApiIpPortAddress : string;
  nc_EnableNodeApi : bool;
  nc_NearDaIndexerRmqIpPortAddress : string;
  nc_NearDaIndexerRollupIds : list RollupId;
  nc_RollupIdsToRpcUrls : gmap RollupId string;
  nc_TaskResponseWaitMs : Z }.

Definition set_RegisterOperatorOnStartup (c : NodeConfig) (b : bool) : NodeConfig :=
  mkNodeConfig (nc_Production c) (nc_OperatorAddress c) (nc_OperatorStateRetrieverAddress c)
    (nc_AVSRegistryCoordinatorAddress c) (nc_TokenStrategyAddr c) (nc_EthRpcUrl c) (nc_EthWsUrl c)
    (nc_BlsPrivateKeyStorePath c) (nc_EcdsaPrivateKeyStorePath c) (nc_AggregatorServerIpPortAddress c) b
    (nc_EigenMetricsIpPortAddress c) (nc_EnableMetrics c) (nc_NodeApiIpPortAddress c) (nc_EnableNodeApi c)
    (nc_NearDaIndexerRmqIpPortAddress c) (nc_NearDaIndexerRollupIds c) (nc_RollupIdsToRpcUrls c)
    (nc_TaskResponseWaitMs c).

(** The command line tools never register the operator as a side effect; printing the
    configuration as JSON cannot fail for this type. *)
Definition readNodeConfig (ReadYaml : string → go NodeConfig) (configPath : string) : go NodeConfig :=
  let? nodeConfig := ReadYaml configPath in Ok (set_RegisterOperatorOnStartup nodeConfig false).

(** operator/consumer/cmd/main.go: the ids of the flag, which are int64, as uint32. *)
Fixpoint consumer_rollupIds (rollupIdsArg : list Z) : go (list RollupId) :=
  match rollupIdsArg with
  | [] => Ok []
  | el :: rest =>
      if el <? 0 then Err (NewError "Rollup IDs should not be < 0")
      else let? ids := consumer_rollupIds rest in Ok (u32 el :: ids)
  end.

(** An id over 32 bits is accepted and listens to the queue of another rollup. *)
Theorem consumer_ids_truncated (id : Z) :
  is_u32 id → consumer_rollupIds [id + 2 ^ 32] = Ok [id].
Proof.
  unfold is_u32. intros Hid. simpl. rewrite (proj2 (Z.ltb_ge _ _)) by lia. simpl. unfold u32.
  do 2 f_equal. rewrite <- (Z.mod_small id (2 ^ 32)) at 2 by lia.
  rewrite Z.add_mod, Z.mod_same, Z.add_0_r, Z.mod_mod by lia. done.
Qed.

Module Examples.

#[local] Existing Instance GoFlags.ops.
#[local] Existing Instance GoFlags.laws.

Definition hex (s : string) : Address := Z.of_nat (String.length s).
Definition parse_key (s : string) : go Z :=
  if (String.length s =? 4)%nat then Ok 1 else Err (NewError "invalid length").

Definition raw : ConfigRaw :=
  mkConfigRaw "production" "http://eth" "ws://eth" ":8090" ":9092" "db" 1800000 false
    {[ 3 := "http://rollup3"%string ]} {[ 3 := "0xabcd"%string ]} true ":9091".

Definition config : Config Z :=
  mkConfig 1 "http://eth" "ws://eth" {[ 3 := mkRollupInfo 6 "http://rollup3" ]} 4 3 ":8090" ":9092" "db"
    1800000000000 false 77 true ":9091".

Definition deployment : SFFLContractsRaw := mkContractsRaw "0xa" "0xab".

Lemma new_config_spec_witness :
  NewConfig hex parse_key (λ _, Ok 77) map_to_list raw true (Ok deployment) "0xbeef" = Ok config ∧
  cfg_AggregatorCheckpointInterval config = 1800000 * 1000000.
Proof.
  split; [reflexivity|].
  apply (new_config_spec hex parse_key (λ _, Ok 77) map_to_list raw true (Ok deployment) "0xbeef" config
    (λ _, reflexivity _)); [unfold is_u32; simpl; lia|reflexivity].
Defined.

(** A key of one character stops the process. *)
Example short_key :
  NewConfig hex parse_key (λ _, Ok 77) map_to_list raw true (Ok deployment) "b" = Panic.
Proof. reflexivity. Qed.

Definition relayer_config : RelayerConfig :=
  mkRelayerConfig true "ws://rollup" "da.testnet" "key.json" EmptyString EmptyString.

Lemma compile_cmd_roundtrip_witness :
  CompileCMD relayer_config =
    ["run-args"; "--production"; "--key-path"; "key.json"; "--rpc-url"; "ws://rollup"; "--da-account-id";
     "da.testnet"; "--network"; EmptyString]%string ∧
  relayer_main (λ _, Err (NewError "no file")) (CompileCMD relayer_config) = Ok relayer_config.
Proof.
  split; [reflexivity|]. apply (compile_cmd_roundtrip relayer_config). repeat constructor.
Defined.

End Examples.
