(* ===== verification/OperatorStartup.v ===== *)
(** * Construction of the operator and its command line tools

    - the options and the constructor of the resilient Ethereum client
      (core/safeclient/client.go), [CreateEthClientWithCollector] (core/metricable.go);
    - [NewAttestor], [Attestor.Start], the header loop and [Close]
      (operator/attestor/attestor.go);
    - [NewAvsManager] (operator/avs_manager.go), [NewOperatorFromConfig], [PrintOperatorStatus]
      and [Close] (operator/operator.go);
    - the tools of cli/actions/ and plugin/cmd/, which build an operator or an AVS manager
      and make chain calls.

    Files, nodes, key stores and the environment answer through [StartEnv]; the calls that
    change the chain are those of [Operator.ChainCall]. *)

From S2P Require Import Prelude CoreTypes Instances Messages Smt RpcClient OperatorRegistrations.
From S2P Require Import Database DatabaseTheory Aggregator Attestor Consumer Operator SafeClient Metrics MetricsTheory Chainio Config.

(** ** The Ethereum client *)

Definition BLOCK_CHUNK_SIZE : Z := 100.
Definition BLOCK_MAX_RANGE : Z := 100.
(** Durations in nanoseconds. *)
Definition LOG_RESUB_INTERVAL : Z := 300000000000.
Definition HEADER_TIMEOUT : Z := 30000000000.

(** Which function creates the underlying client. *)
Inductive CreateClient : Type :=
| createDefaultClient
| createInstrumentedClient (collector : string)
| createCustomClient (answer : string → go unit).

Record SafeEthClient := mkSafeEthClient {
  ec_rpcUrl : string;
  ec_headerTimeout : Z;
  ec_logResubInterval : Z;
  ec_blockChunkSize : Z;
  ec_blockMaxRange : Z;
  ec_createClient : CreateClient }.

Inductive SafeEthClientOption : Type :=
| WithLogResubInterval (interval : Z)
| WithHeaderTimeout (timeout : Z)
| WithLogFilteringParams (chunkSize maxRange : Z)
| WithInstrumentedCreateClient (collector : string)
| WithCustomCreateClient (createClient : string → go unit).

Definition apply_option (c : SafeEthClient) (opt : SafeEthClientOption) : SafeEthClient :=
  match opt with
  | WithLogResubInterval i =>
      mkSafeEthClient (ec_rpcUrl c) (ec_headerTimeout c) i (ec_blockChunkSize c) (ec_blockMaxRange c) (ec_createClient c)
  | WithHeaderTimeout t =>
      mkSafeEthClient (ec_rpcUrl c) t (ec_logResubInterval c) (ec_blockChunkSize c) (ec_blockMaxRange c) (ec_createClient c)
  | WithLogFilteringParams s r =>
      mkSafeEthClient (ec_rpcUrl c) (ec_headerTimeout c) (ec_logResubInterval c) s r (ec_createClient c)
  | WithInstrumentedCreateClient col =>
      mkSafeEthClient (ec_rpcUrl c) (ec_headerTimeout c) (ec_logResubInterval c) (ec_blockChunkSize c)
        (ec_blockMaxRange c) (createInstrumentedClient col)
  | WithCustomCreateClient f =>
      mkSafeEthClient (ec_rpcUrl c) (ec_headerTimeout c) (ec_logResubInterval c) (ec_blockChunkSize c)
        (ec_blockMaxRange c) (createCustomClient f)
  end.

(** [dial] is the answer of [eth.NewClient] and [eth.NewInstrumentedClient]. *)
Definition NewSafeEthClient (dial : string → go unit) (rpcUrl : string) (opts : list SafeEthClientOption)
    : go SafeEthClient :=
  let safeClient := foldl apply_option
    (mkSafeEthClient rpcUrl HEADER_TIMEOUT LOG_RESUB_INTERVAL BLOCK_CHUNK_SIZE BLOCK_MAX_RANGE createDefaultClient)
    opts in
  let? _ := match ec_createClient safeClient with
            | createCustomClient f => f rpcUrl
            | _ => dial rpcUrl
            end in
  Ok safeClient.

(** [NewCollector] is that of eigensdk's rpc_calls, which registers its series and panics
    when it cannot. *)
Definition CreateEthClientWithCollector `{PO : PromOps} (dial : string → go unit)
    (NewCollector : string → Registry → go Registry) (id url : string) (enableMetrics : bool) (reg : Registry)
    : go (SafeEthClient * Registry) :=
  if enableMetrics then
    let? reg := NewCollector (id +:+ url) reg in
    let? client := NewSafeEthClient dial url [WithInstrumentedCreateClient (id +:+ url)] in Ok (client, reg)
  else let? client := NewSafeEthClient dial url [] in Ok (client, reg).

(** ** The attestor *)

Section Attestor.
Context `{B : BlsOps} `{PO : PromOps}.

Record AttestorProcess := mkAttestorProcess {
  ap_clients : gmap RollupId SafeEthClient;
  ap_consumer : Consumer;
  ap_consumerId : string;
  ap_blsKeypair : KeyPair;
  ap_operatorId : OperatorId }.

Definition AttestorSubsystem : string := "attestor".

Fixpoint attestor_clients (dial : string → go unit) (NewCollector : string → Registry → go Registry)
    (enableMetrics : bool) (operatorAddress : string) (urls : list (RollupId * string)) (reg : Registry)
    (clients : gmap RollupId SafeEthClient) : go (gmap RollupId SafeEthClient * Registry) :=
  match urls with
  | [] => Ok (clients, reg)
  | (rollupId, url) :: urls =>
      let id := operatorAddress +:+ AttestorSubsystem in
      let? reg := (if enableMetrics then NewCollector (id +:+ url) reg else Ok reg) in
      let clientOpts := if enableMetrics then [WithInstrumentedCreateClient (id +:+ url)] else [] in
      let? client := NewSafeEthClient dial url clientOpts in
      attestor_clients dial NewCollector enableMetrics operatorAddress urls reg (<[rollupId := client]> clients)
  end.

(** [order] is the iteration order of the map of URLs. *)
Definition NewAttestor (dial : string → go unit) (NewCollector : string → Registry → go Registry)
    (order : gmap RollupId string → list (RollupId * string)) (config : NodeConfig) (blsKeypair : KeyPair)
    (operatorId : OperatorId) (reg : Registry) : go (AttestorProcess * Registry) :=
  let? r := attestor_clients dial NewCollector (nc_EnableMetrics config) (nc_OperatorAddress config)
              (order (nc_RollupIdsToRpcUrls config)) reg ∅ in
  Ok (mkAttestorProcess r.1 (NewConsumer (nc_NearDaIndexerRollupIds config)) (fmt_x operatorId)
        blsKeypair operatorId, r.2).

(** [Start]: the subscriptions and the first block numbers in the iteration order of the
    clients; [logger.Fatal] ends the process.  Yields the rollups whose header loops are
    started and the listener calls. *)
Fixpoint attestor_subscribe (subscribe : RollupId → go unit) (blockNumber : RollupId → go Z)
    (rollups : list RollupId) : go (list AttestorMetrics.Event) :=
  match rollups with
  | [] => Ok []
  | r :: rollups =>
      match subscribe r, blockNumber r with
      | Ok _, Ok n =>
          let? evs := attestor_subscribe subscribe blockNumber rollups in
          Ok (AttestorMetrics.ObserveInitializationInitialBlockNumber r n :: evs)
      | _, _ => Panic
      end
  end.

Definition attestor_Start (order : gmap RollupId SafeEthClient → list RollupId) (subscribe : RollupId → go unit)
    (blockNumber : RollupId → go Z) (a : AttestorProcess) : go (list RollupId * list AttestorMetrics.Event) :=
  let rollups := order (ap_clients a) in
  let? evs := attestor_subscribe subscribe blockNumber rollups in Ok (rollups, evs).

(** [Close]: the consumer first; if that fails the clients stay open. *)
Definition attestor_Close (order : gmap RollupId SafeEthClient → list RollupId) (closeConsumer : go unit)
    (a : AttestorProcess) : list RollupId * go unit :=
  match closeConsumer with
  | Ok _ => (order (ap_clients a), Ok tt)
  | r => ([], r)
  end.

End Attestor.

(** *** The header loop

    [processRollupHeaders] shares [headersC] with the goroutine of the client's head
    subscription ([SafeClient.head_step]), which sends into it. *)
Record HeaderLoop := mkHeaderLoop {
  hl_head : HeadSub;
  hl_taken : nat;
  hl_closed : bool;
  hl_running : bool }.

Inductive LoopEvent : Type :=
| LHead (ev : HeadEvent)
| LReceive
| LSubErr
| LDone.

(** The header the loop takes next; sends beyond the buffer block, which only delays
    them. *)
Definition hl_next (l : HeaderLoop) : option Z := hs_sent (hl_head l) !! hl_taken l.

(** A send on a closed channel panics. *)
Definition hl_step (l : HeaderLoop) (ev : LoopEvent) : go (HeaderLoop * list Z) :=
  match ev with
  | LHead ev =>
      let? head := head_step (hl_head l) ev in
      if hl_closed l && (length (hs_sent (hl_head l)) <? length (hs_sent head))%nat then Panic
      else Ok (mkHeaderLoop head (hl_taken l) (hl_closed l) (hl_running l), [])
  | _ =>
  if negb (hl_running l) then Ok (l, [])
  else
    match ev with
    | LReceive =>
        match hl_next l with
        | Some h => Ok (mkHeaderLoop (hl_head l) (S (hl_taken l)) (hl_closed l) true, [h])
        | None => Ok (l, [])
        end
    | LSubErr =>
        if ss_unsubscribed (hs_sub (hl_head l)) then
          let? head := head_step (hl_head l) HdUnsubscribe in
          Ok (mkHeaderLoop head (hl_taken l) true false, [])
        else Ok (l, [])
    | LDone =>
        let? head := head_step (hl_head l) HdUnsubscribe in
        Ok (mkHeaderLoop head (hl_taken l) true false, [])
    | LHead _ => Ok (l, [])
    end
  end.

Fixpoint hl_run (l : HeaderLoop) (evs : list LoopEvent) : go (HeaderLoop * list Z) :=
  match evs with
  | [] => Ok (l, [])
  | ev :: evs =>
      let? r := hl_step l ev in
      let? r' := hl_run r.1 evs in Ok (r'.1, r.2 ++ r'.2)
  end.

(** *** Properties of the header loop *)

(** The node's answers do not panic, and only the loop ends the subscription. *)
Definition loop_event_ok (ev : LoopEvent) : Prop :=
  match ev with
  | LHead (HdTicker Panic) | LHead (HdUnderlyingErr Panic) | LHead HdUnsubscribe => False
  | _ => True
  end.

(** Nothing is sent any more once the channel is closed, and what was taken are the first
    headers that were sent. *)
Record loop_ok (l : HeaderLoop) : Prop := {
  lo_closed : hl_closed l = true → hs_running (hl_head l) = false;
  lo_unsubscribed : ss_unsubscribed (hs_sub (hl_head l)) = true → hs_running (hl_head l) = false;
  lo_taken : (hl_taken l ≤ length (hs_sent (hl_head l)))%nat }.

(** How an event changes the head goroutine: a stopped one stays as it is, sent headers
    stay sent, and it only ends the subscription when it stops. *)
Record evolves (st st' : HeadSub) : Prop := {
  ev_stopped : hs_running st = false → st' = st;
  ev_sent : hs_sent st `prefix_of` hs_sent st';
  ev_unsubscribed : ss_unsubscribed (hs_sub st') = true →
    ss_unsubscribed (hs_sub st) = true ∨ hs_running st' = false }.

Lemma evolves_refl st : evolves st st.
Proof. split; [done..|by left]. Qed.

Lemma evolves_live st st' :
  hs_running st = true → ss_unsubscribed (hs_sub st') = ss_unsubscribed (hs_sub st) →
  hs_sent st `prefix_of` hs_sent st' → evolves st st'.
Proof. intros Hr Hs Hp. split; [congruence|done|rewrite Hs; by left]. Qed.

Lemma evolves_stop st st' :
  hs_running st = true → hs_running st' = false → hs_sent st `prefix_of` hs_sent st' → evolves st st'.
Proof. intros Hr Hs Hp. split; [congruence|done|by right]. Qed.

Lemma head_resub_evolves st answer :
  hs_running st = true → answer ≠ Panic → ∃ st', head_resub st answer = Ok st' ∧ evolves st st'.
Proof.
  intros Hr Ha. destruct answer; [|by eexists; split; [|apply evolves_refl]|done].
  eexists. split; [done|]. by apply evolves_live.
Qed.

Lemma head_step_evolves (st : HeadSub) ev :
  loop_event_ok (LHead ev) → ∃ st', head_step st ev = Ok st' ∧ evolves st st'.
Proof.
  pose proof (evolves_refl st) as Hrefl. intros Hok. unfold head_step.
  destruct (hs_running st) eqn:Hr; cbn [negb]; [|destruct ev; try done; eauto].
  destruct (hs_pending st) as [sub|], ev as [h|answer|answer| | | |]; try done; eauto.
  - eexists. split; [done|]. by apply evolves_live.
  - eexists. split; [done|]. apply evolves_live; [done..|]. by apply prefix_app_r.
  - destruct (hs_receivedBlock st).
    + eexists. split; [done|]. by apply evolves_live.
    + apply head_resub_evolves; [done|]. by destruct answer.
  - apply head_resub_evolves; [done|]. by destruct answer.
  - destruct (ss_unsubscribed _); [|eauto]. eexists. split; [done|]. by apply evolves_stop.
  - eexists. split; [done|]. by apply evolves_stop.
Qed.

Lemma hl_step_ok l ev :
  loop_ok l → loop_event_ok ev → ev ≠ LDone →
  ∃ l' taken, hl_step l ev = Ok (l', taken) ∧ loop_ok l' ∧
    hs_sent (hl_head l) `prefix_of` hs_sent (hl_head l') ∧
    taken = take (hl_taken l' - hl_taken l) (drop (hl_taken l) (hs_sent (hl_head l'))) ∧
    (hl_taken l ≤ hl_taken l')%nat.
Proof.
  intros [Hc Hu Ht] Hok Hev.
  assert (∃ l' taken, (Ok (l, []) : go (HeaderLoop * list Z)) = Ok (l', taken) ∧ loop_ok l' ∧
    hs_sent (hl_head l) `prefix_of` hs_sent (hl_head l') ∧
    taken = take (hl_taken l' - hl_taken l) (drop (hl_taken l) (hs_sent (hl_head l'))) ∧
    (hl_taken l ≤ hl_taken l')%nat) as Hstay.
  { exists l, []. rewrite Nat.sub_diag. done. }
  destruct ev as [hev| | |]; [| | |done]; simpl.
  - destruct (head_step_evolves (hl_head l) hev Hok) as (st' & -> & [Hstop Hsent Hun]). cbn [res_bind].
    pose proof (prefix_length _ _ Hsent) as Hlen.
    destruct (hl_closed l) eqn:Hclosed; cbn [andb].
    + rewrite (Hstop (Hc eq_refl)), (proj2 (Nat.ltb_ge _ _)) by lia.
      do 2 eexists. split; [done|]. rewrite Nat.sub_diag. by split_and!.
    + do 2 eexists. split; [done|]. rewrite Nat.sub_diag. split_and!; [|done..].
      split; simpl; [done| |lia]. intros Hunsub. destruct (Hun Hunsub) as [Ho|Ho]; [|done].
      by rewrite (Hstop (Hu Ho)), (Hu Ho).
  - destruct (hl_running l); cbn [negb]; [|done]. unfold hl_next.
    destruct (hs_sent (hl_head l) !! hl_taken l) as [h|] eqn:Hh; [|done].
    do 2 eexists. split; [done|]. split_and!; simpl; [|done| |lia].
    + split; simpl; [done..|]. by apply lookup_lt_Some in Hh.
    + replace (S (hl_taken l) - hl_taken l)%nat with 1%nat by lia. by rewrite (drop_S _ h) by done.
  - destruct (hl_running l); cbn [negb]; [|done].
    destruct (ss_unsubscribed (hs_sub (hl_head l))) eqn:Hun; [|done].
    cbn [head_step res_bind]. do 2 eexists. split; [done|]. rewrite Nat.sub_diag. split_and!; [|done..].
    split; simpl; auto.
Qed.

Lemma hl_run_ok evs : ∀ l,
  loop_ok l → Forall (λ ev, loop_event_ok ev ∧ ev ≠ LDone) evs →
  ∃ l' taken, hl_run l evs = Ok (l', taken) ∧ loop_ok l' ∧
    hs_sent (hl_head l) `prefix_of` hs_sent (hl_head l') ∧
    taken = take (hl_taken l' - hl_taken l) (drop (hl_taken l) (hs_sent (hl_head l'))) ∧
    (hl_taken l ≤ hl_taken l')%nat.
Proof.
  induction evs as [|ev evs IH]; intros l Hl Hevs; simpl.
  { exists l, []. rewrite Nat.sub_diag. done. }
  inversion Hevs as [|?? [Hok Hne] Hrest]; subst.
  destruct (hl_step_ok l ev Hl Hok Hne) as (l1 & t1 & -> & Hl1 & Hs1 & -> & Hle1). cbn [res_bind fst snd].
  destruct (IH l1 Hl1 Hrest) as (l2 & t2 & -> & Hl2 & Hs2 & -> & Hle2). cbn [res_bind fst snd].
  do 2 eexists. split; [done|]. split_and!; [done|by etransitivity| |lia].
  destruct Hs2 as [rest Hrest2]. destruct Hl1 as [_ _ Ht1].
  rewrite Hrest2. rewrite (drop_app_le (hs_sent (hl_head l1))) by lia.
  rewrite drop_app_le by lia.
  replace (hl_taken l2 - hl_taken l)%nat with ((hl_taken l1 - hl_taken l) + (hl_taken l2 - hl_taken l1))%nat by lia.
  rewrite <- take_take_drop, drop_app_le by (rewrite length_drop; lia).
  rewrite drop_drop. replace (hl_taken l + (hl_taken l1 - hl_taken l))%nat with (hl_taken l1) by lia.
  f_equal. rewrite take_app_le by (rewrite length_drop; lia). done.
Qed.

Lemma hl_run_app l evs evs' :
  hl_run l (evs ++ evs') =
  (let? r := hl_run l evs in let? r' := hl_run r.1 evs' in Ok (r'.1, r.2 ++ r'.2)).
Proof.
  revert l. induction evs as [|ev evs IH]; intros l; cbn [app hl_run res_bind fst snd].
  - by destruct (hl_run l evs') as [[]| |].
  - destruct (hl_step l ev) as [[l1 t1]| |]; [|done..]. cbn [res_bind fst snd]. rewrite IH.
    destruct (hl_run l1 evs) as [[l2 t2]| |]; [|done..]. cbn [res_bind fst snd].
    destruct (hl_run l2 evs') as [[l3 t3]| |]; [|done..]. cbn [res_bind fst snd]. by rewrite app_assoc.
Qed.

(** A loop with its subscription, right after [Attestor.Start]. *)
Definition new_loop (head : HeadSub) : HeaderLoop := mkHeaderLoop head 0 false true.

(** C34: until the process shuts down, a header loop never panics, whatever the node and the
    client's goroutine do: it closes the channel only after that goroutine has stopped
    sending.  The headers it hands to [processHeader] are the first ones that were sent, in
    order and none twice.  At shutdown it closes the channel at once, and a header that
    arrives before the goroutine has seen the end of its subscription panics the process. *)
Theorem headers_in_order (subscribed : go unit) (head : HeadSub) (evs : list LoopEvent) (h : Z) :
  SubscribeNewHead subscribed = Ok head → Forall (λ ev, loop_event_ok ev ∧ ev ≠ LDone) evs →
  ∃ l taken, hl_run (new_loop head) evs = Ok (l, taken) ∧
    taken = take (hl_taken l) (hs_sent (hl_head l)) ∧
    (hl_closed l = true → hs_running (hl_head l) = false) ∧
    (hl_running l = true → hs_running (hl_head l) = true → hs_pending (hl_head l) = None →
     hl_run (new_loop head) (evs ++ [LDone; LHead (HdHeader h)]) = Panic).
Proof.
  intros Hsub Hevs. apply res_bind_ok in Hsub as (_ & _ & [= <-]).
  destruct (hl_run_ok evs (new_loop (mkHeadSub NewSafeSubscription false [] None true)))
    as (l & taken & Hrun & Hl & Hsent & Htaken & _); [by split|done|].
  exists l, taken. split_and!; [done| |apply Hl|].
  { rewrite Htaken. simpl. by rewrite Nat.sub_0_r, drop_0. }
  intros Hr Hhr Hp. rewrite hl_run_app, Hrun. cbn [res_bind fst hl_run hl_step]. rewrite Hr.
  cbn [negb head_step res_bind fst hl_run hl_step hl_head hs_running hs_pending hl_closed].
  rewrite Hhr, Hp. cbn [negb hs_sent res_bind andb].
  by rewrite (proj2 (Nat.ltb_lt _ _)) by (rewrite length_app; simpl; lia).
Qed.

(** ** The operator process *)

(** The calls made on the chain so far, with the outcome. *)
Definition chain (A : Type) : Type := list ChainCall * go A.
Definition chain_pure {A} (r : go A) : chain A := ([], r).
Definition chain_bind {A C} (m : chain A) (k : A → chain C) : chain C :=
  match m with
  | (cs, Ok a) => let r := k a in (cs ++ r.1, r.2)
  | (cs, Err e) => (cs, Err e)
  | (cs, Panic) => (cs, Panic)
  end.
Notation "'let*' x := m 'in' k" := (chain_bind m (λ x, k)) (at level 200, x binder, m at level 100, k at level 200).

Section Startup.
Context `{B : BlsOps} `{PO : PromOps}.

(** What the constructors ask of the environment, the key stores, the nodes and the
    libraries.  [se_eth] answers the reads through the HTTP client, [se_ethWs] those through
    the websocket client. *)
Record StartEnv := mkStartEnv {
  se_HexToAddress : string → Address;
  se_LookupEnv : string → option string;
  se_NewZapLogger : bool → go unit;
  se_ReadPrivateKeyFromFile : string → string → go KeyPair;
  se_ReadKey : string → string → go unit;
  se_dial : string → go unit;
  se_NewCollector : string → Registry → go Registry;
  se_ChainID : go Z;
  se_SignerFromConfig : string → string → Z → go unit;
  se_NewPrivateKeyWallet : Address → go unit;
  se_eth : EthView;
  se_ethWs : EthView;
  se_MustRegisterEconomic : Registry → go Registry;
  se_NewEigenMetrics : Registry → go Registry;
  se_manager : ManagerEnv;
  se_urls : gmap RollupId string → list (RollupId * string) }.

(** [os.LookupEnv] with a warning and the empty string when the variable is not set. *)
Definition env_password (env : StartEnv) (name : string) : string := default EmptyString (se_LookupEnv env name).

Record AvsManager := mkAvsManager {
  am_avsWriter : AvsManagersBindings;
  am_avsReader : AvsManagersBindings;
  am_avsSubscriber : AvsManagersBindings }.

Definition NewAvsManager (env : StartEnv) (config : NodeConfig) : go AvsManager :=
  let registryCoordinator := se_HexToAddress env (nc_AVSRegistryCoordinatorAddress config) in
  let operatorStateRetriever := se_HexToAddress env (nc_OperatorStateRetrieverAddress config) in
  let? avsWriter := BuildAvsWriter registryCoordinator operatorStateRetriever (se_eth env) in
  let? avsReader := BuildAvsReader registryCoordinator operatorStateRetriever (se_eth env) in
  let? avsSubscriber := BuildAvsSubscriber registryCoordinator operatorStateRetriever (se_ethWs env) in
  Ok (mkAvsManager avsWriter avsReader avsSubscriber).

Record OperatorProcess := mkOperatorProcess {
  po_config : NodeConfig;
  po_ethClient : SafeEthClient;
  po_metricsReg : Registry;
  po_listeners : OperatorListeners;
  po_blsKeypair : KeyPair;
  po_operatorId : OperatorId;
  po_operatorAddr : Address;
  po_registryCoordinatorAddr : Address;
  po_aggregatorRpcClient : Client;
  po_attestor : AttestorProcess;
  po_avsManager : AvsManager;
  po_taskResponseWait : Z }.

Definition no_listeners : OperatorListeners :=
  mkOperatorListeners OperatorMetrics.none AttestorMetrics.none ConsumerMetrics.none RpcClientMetrics.none.

Definition OperatorSubsytem : string := "operator".

(** An error of the signer panics; [MustRegister] panics on its own. *)
Definition or_panic {A} (r : go A) : go A :=
  match r with Err _ => Panic | r => r end.

(** [NewOperatorFromConfig] up to the registration: the keys, the clients, the readers and
    writers, the manager. *)
Record OperatorParts := mkOperatorParts {
  pa_blsKeyPair : KeyPair;
  pa_ethHttpClient : SafeEthClient;
  pa_avsManager : AvsManager;
  pa_reg : Registry }.

Definition operator_parts (env : StartEnv) (c : NodeConfig) : go OperatorParts :=
  let? _ := se_NewZapLogger env (nc_Production c) in
  let? blsKeyPair := se_ReadPrivateKeyFromFile env (nc_BlsPrivateKeyStorePath c)
                       (env_password env "OPERATOR_BLS_KEY_PASSWORD") in
  let ecdsaKeyPassword := env_password env "OPERATOR_ECDSA_KEY_PASSWORD" in
  let id := nc_OperatorAddress c +:+ OperatorSubsytem in
  let? http := CreateEthClientWithCollector (se_dial env) (se_NewCollector env) id (nc_EthRpcUrl c)
                 (nc_EnableMetrics c) NewRegistry in
  let? ws := CreateEthClientWithCollector (se_dial env) (se_NewCollector env) id (nc_EthWsUrl c)
               (nc_EnableMetrics c) http.2 in
  let? chainId := se_ChainID env in
  let? _ := or_panic (se_SignerFromConfig env (nc_EcdsaPrivateKeyStorePath c) ecdsaKeyPassword chainId) in
  let? _ := se_NewPrivateKeyWallet env (se_HexToAddress env (nc_OperatorAddress c)) in
  let registryCoordinatorAddress := se_HexToAddress env (nc_AVSRegistryCoordinatorAddress c) in
  let operatorStateRetrieverAddress := se_HexToAddress env (nc_OperatorStateRetrieverAddress c) in
  let? _ := BuildAvsReader registryCoordinatorAddress operatorStateRetrieverAddress (se_eth env) in
  let? _ := BuildElReader registryCoordinatorAddress operatorStateRetrieverAddress (se_eth env) in
  let? _ := BuildElWriter registryCoordinatorAddress operatorStateRetrieverAddress (se_eth env) in
  let? avsManager := NewAvsManager env c in
  let? reg := or_panic (se_MustRegisterEconomic env ws.2) in
  let? reg := (if nc_EnableMetrics c then se_NewEigenMetrics env reg else Ok reg) in
  Ok (mkOperatorParts blsKeyPair http.1 avsManager reg).

(** The registration, which sends transactions. *)
Definition operator_registration (env : StartEnv) (c : NodeConfig) (blsKeyPair : KeyPair) : chain unit :=
  if nc_RegisterOperatorOnStartup c then
    let* _ := chain_pure (se_ReadKey env (nc_EcdsaPrivateKeyStorePath c)
                            (env_password env "OPERATOR_ECDSA_KEY_PASSWORD")) in
    registerOperatorOnStartup (se_manager env) blsKeyPair (se_HexToAddress env (nc_OperatorAddress c))
      (se_HexToAddress env (nc_TokenStrategyAddr c))
  else chain_pure (Ok tt).

(** The attestor and the metrics. *)
Definition operator_finish (env : StartEnv) (c : NodeConfig) (p : OperatorParts) : go OperatorProcess :=
  let operatorId := OperatorIdFromG1Pubkey (GetPubKeyG1 (pa_blsKeyPair p)) in
  let registryCoordinatorAddress := se_HexToAddress env (nc_AVSRegistryCoordinatorAddress c) in
  let? a := NewAttestor (se_dial env) (se_NewCollector env) (se_urls env) c (pa_blsKeyPair p) operatorId (pa_reg p) in
  let? m := (if nc_EnableMetrics c then
               match Operator_EnableMetrics no_listeners a.2 with
               | (reg, listeners, Ok _) => Ok (reg, listeners)
               | (_, _, Err e) => Err e
               | (_, _, Panic) => Panic
               end
             else Ok (a.2, no_listeners)) in
  Ok (mkOperatorProcess c (pa_ethHttpClient p) m.1 m.2 (pa_blsKeyPair p) operatorId
        (se_HexToAddress env (nc_OperatorAddress c)) registryCoordinatorAddress
        (NewAggregatorRpcClient registryCoordinatorAddress) a.1 (pa_avsManager p)
        (nc_TaskResponseWaitMs c * 1000000)).

Definition NewOperatorFromConfig (env : StartEnv) (c : NodeConfig) : chain OperatorProcess :=
  let* p := chain_pure (operator_parts env c) in
  let* _ := operator_registration env c (pa_blsKeyPair p) in
  chain_pure (operator_finish env c p).

(** [OperatorStatus]: the printed record; strings of points and addresses are left to the
    libraries. *)
Record OperatorStatus := mkOperatorStatus {
  os_EcdsaAddress : Address;
  os_PubkeysRegistered : bool;
  os_G1Pubkey : G1Point;
  os_G2Pubkey : G2Point;
  os_RegisteredWithAvs : bool;
  os_OperatorId : string }.

Definition zero_id : OperatorId := replicate 32 0.

Definition PrintOperatorStatus (GetOperatorId : Address → go OperatorId) (o : OperatorProcess) : go OperatorStatus :=
  let? operatorId := GetOperatorId (po_operatorAddr o) in
  Ok (mkOperatorStatus (po_operatorAddr o) (negb (bool_decide (operatorId = zero_id)))
        (GetPubKeyG1 (po_blsKeypair o)) (GetPubKeyG2 (po_blsKeypair o))
        (negb (bool_decide (po_operatorId o = zero_id))) (fmt_x (po_operatorId o))).

(** [Close]: yields the clients it closes (the attestor's, then the HTTP client). *)
Definition operator_Close (order : gmap RollupId SafeEthClient → list RollupId) (closeConsumer : go unit)
    (o : OperatorProcess) : list RollupId * option SafeEthClient * go unit :=
  match attestor_Close order closeConsumer (po_attestor o) with
  | (closed, Ok _) => (closed, Some (po_ethClient o), Ok tt)
  | (closed, r) => (closed, None, r)
  end.

(** The answers [Operator.Start] needs, and the iteration order of the attestor's clients. *)
Record RunEnv := mkRunEnv {
  re_IsOperatorRegistered : Address → go bool;
  re_SubscribeToNewTasks : go unit;
  re_SubscribeToOperatorSetUpdates : go unit;
  re_SubscribeNewHead : RollupId → go unit;
  re_BlockNumber : RollupId → go Z;
  re_order : gmap RollupId SafeEthClient → list RollupId;
  re_closeConsumer : go unit }.

(** What a run has done: the calls of the listeners, the rollups that are followed, the
    messages handed to the client, and the clients closed with the error returned if the
    loop has ended. *)
Record RunOutcome := mkRunOutcome {
  ro_operatorEvents : list OperatorMetrics.Event;
  ro_attestorEvents : list AttestorMetrics.Event;
  ro_rollups : list RollupId;
  ro_actions : list OpAction;
  ro_closed : option (list RollupId * option SafeEthClient * go unit) }.

Definition ends_loop (ev : OpEvent) : bool :=
  match ev with
  | OeCtxDone | OeCheckpointTaskChanClosed | OeOperatorSetUpdateChanClosed => true
  | _ => false
  end.

Context `{H : HashOps} `{A : AbiOps} `{T : SmtOps}.

(** [Operator.Start] along the events its select takes. *)
Definition operator_Start (re : RunEnv) (o : OperatorProcess) (evs : list OpEvent) : go RunOutcome :=
  let operatorEvents := [OperatorMetrics.IncInitializationCount; OperatorMetrics.ObserveLastInitializedTime] in
  let? _ := manager_Start (re_IsOperatorRegistered re (po_operatorAddr o)) (re_SubscribeToNewTasks re)
              (re_SubscribeToOperatorSetUpdates re) in
  let? a := attestor_Start (re_order re) (re_SubscribeNewHead re) (re_BlockNumber re) (po_attestor o) in
  let? actions := op_run (po_blsKeypair o) (po_operatorId o) evs in
  Ok (mkRunOutcome operatorEvents a.2 a.1 actions
        (if existsb ends_loop evs then Some (operator_Close (re_order re) (re_closeConsumer re) o) else None)).

(** operator/cmd/main.go. *)
Definition operatorMain (env : StartEnv) (ReadYaml : string → go NodeConfig) (configPath : string) (re : RunEnv)
    (evs : list OpEvent) : chain RunOutcome :=
  let* nodeConfig := chain_pure (ReadYaml configPath) in
  let* operator := NewOperatorFromConfig env nodeConfig in
  chain_pure (operator_Start re operator evs).

(** ** cli/actions/

    [GlobalString] and [String] read the flags; [ReadYaml] reads the configuration. *)
Record CliContext := mkCliContext {
  cx_GlobalString : string → string;
  cx_String : string → string }.

Section Actions.
Context (env : StartEnv) (ReadYaml : string → go NodeConfig) (ctx : CliContext).

Definition action_operator : chain (NodeConfig * OperatorProcess) :=
  let* nodeConfig := chain_pure (readNodeConfig ReadYaml (cx_GlobalString ctx "config")) in
  let* operator := NewOperatorFromConfig env nodeConfig in
  chain_pure (Ok (nodeConfig, operator)).

Definition action_RegisterOperatorWithEigenlayer : chain unit :=
  let* o := action_operator in
  RegisterOperatorWithEigenlayer (se_manager env) (po_operatorAddr o.2).

(** [SetString] is [big.Int.SetString] in base ten.  On a bad amount the [err] returned is
    the one of the construction, which is nil. *)
Definition action_DepositIntoStrategy (SetString : string → option Z) : chain unit :=
  let* o := action_operator in
  match SetString (cx_String ctx "amount") with
  | None => chain_pure (Ok tt)
  | Some amount =>
      DepositIntoStrategy (se_manager env) (po_operatorAddr o.2)
        (se_HexToAddress env (cx_String ctx "strategy-addr")) amount
  end.

Definition action_RegisterOperatorWithAvs : chain unit :=
  let* o := action_operator in
  let* _ := chain_pure (se_ReadKey env (nc_EcdsaPrivateKeyStorePath o.1)
                          (env_password env "OPERATOR_ECDSA_KEY_PASSWORD")) in
  RegisterOperatorWithAvs (se_manager env) (po_blsKeypair o.2).

Definition action_PrintOperatorStatus (GetOperatorId : Address → go OperatorId) : chain OperatorStatus :=
  let* o := action_operator in chain_pure (PrintOperatorStatus GetOperatorId o.2).

(** ** plugin/cmd/ *)

Definition NewOperatorPluginFromCLIContext : go NodeConfig :=
  let? avsConfig := ReadYaml (cx_GlobalString ctx "config") in
  let ecdsaKeyPassword := cx_GlobalString ctx "ecdsa-key-password" in
  let? _ := NewSafeEthClient (se_dial env) (nc_EthRpcUrl avsConfig) [] in
  let? _ := NewSafeEthClient (se_dial env) (nc_EthWsUrl avsConfig) [] in
  let? chainID := se_ChainID env in
  let? _ := se_SignerFromConfig env (nc_EcdsaPrivateKeyStorePath avsConfig) ecdsaKeyPassword chainID in
  let avsRegistryCoordinatorAddress := se_HexToAddress env (nc_AVSRegistryCoordinatorAddress avsConfig) in
  let operatorStateRetrieverAddress := se_HexToAddress env (nc_OperatorStateRetrieverAddress avsConfig) in
  let? _ := BuildAvsReader avsRegistryCoordinatorAddress operatorStateRetrieverAddress (se_eth env) in
  let? _ := se_NewPrivateKeyWallet env (se_HexToAddress env (nc_OperatorAddress avsConfig)) in
  let? _ := BuildAvsWriter avsRegistryCoordinatorAddress operatorStateRetrieverAddress (se_eth env) in
  let? _ := BuildElReader avsRegistryCoordinatorAddress operatorStateRetrieverAddress (se_eth env) in
  let? _ := BuildElWriter avsRegistryCoordinatorAddress operatorStateRetrieverAddress (se_eth env) in
  let? _ := NewAvsManager env avsConfig in
  Ok avsConfig.

Definition OptIn (avsConfig : NodeConfig) : chain unit :=
  let* blsKeypair := chain_pure (se_ReadPrivateKeyFromFile env (nc_BlsPrivateKeyStorePath avsConfig)
                                   (cx_GlobalString ctx "bls-key-password")) in
  let* _ := chain_pure (se_ReadKey env (nc_EcdsaPrivateKeyStorePath avsConfig)
                          (cx_GlobalString ctx "ecdsa-key-password")) in
  RegisterOperatorWithAvs (se_manager env) blsKeypair.

Definition OptOut (avsConfig : NodeConfig) : chain unit :=
  let* blsKeypair := chain_pure (se_ReadPrivateKeyFromFile env (nc_BlsPrivateKeyStorePath avsConfig)
                                   (cx_GlobalString ctx "bls-key-password")) in
  DeregisterOperator (se_manager env) blsKeypair.

(** The plugin has its own copy of the manager's deposit. *)
Definition Deposit (avsConfig : NodeConfig) : chain unit :=
  let strategy := cx_GlobalString ctx "strategy-addr" in
  if bool_decide (strategy = EmptyString)
  then chain_pure (Err (NewError "strategy address is required for deposit operation"))
  else
    let m := se_manager env in
    let* _ := chain_pure (me_GetStrategyAndUnderlyingToken m) in
    let* _ := chain_pure (me_GetErc20Mock m) in
    let* _ := chain_pure (me_GetNoSendTxOpts m) in
    let* _ := chain_pure (me_assembleMint m) in
    let* _ := call (CallMint (se_HexToAddress env (nc_OperatorAddress avsConfig)) 1000) (me_SendMint m) in
    call (CallDeposit (se_HexToAddress env strategy) 1000) (me_Deposit m).

Definition plugin_main : chain unit :=
  let* avsConfig := chain_pure NewOperatorPluginFromCLIContext in
  let operationType := cx_GlobalString ctx "operation-type" in
  if decide (operationType = "opt-in"%string) then OptIn avsConfig
  else if decide (operationType = "opt-out"%string) then OptOut avsConfig
  else if decide (operationType = "deposit"%string) then Deposit avsConfig
  else chain_pure (Err (NewError ("Invalid operation type: " +:+ operationType))).

End Actions.
End Startup.

(** ** Properties of the construction *)

Lemma chain_bind_ok {A C} (m : chain A) (k : A → chain C) cs r :
  chain_bind m k = (cs, Ok r) ↔
  ∃ cs1 a cs2, m = (cs1, Ok a) ∧ k a = (cs2, Ok r) ∧ cs = cs1 ++ cs2.
Proof.
  unfold chain_bind. destruct m as [cs1 [a|e|]]; split.
  - destruct (k a) as [cs2 r2] eqn:Hk. simpl. intros [= <- ->]. eauto 10.
  - intros (? & ? & ? & [= <- <-] & -> & ->). done.
  - done.
  - by intros (? & ? & ? & ? & _).
  - done.
  - by intros (? & ? & ? & ? & _).
Qed.

Lemma chain_bind_pure {A C} (a : A) (k : A → chain C) : chain_bind (chain_pure (Ok a)) k = k a.
Proof. simpl. by destruct (k a). Qed.

Section Theory.
Context `{B : BlsOps} `{PO : PromOps}.

Lemma chain_pure_ok {A} (r : go A) cs a : chain_pure r = (cs, Ok a) ↔ cs = [] ∧ r = Ok a.
Proof. unfold chain_pure. split; [by intros [= <- ->]|by intros [-> ->]]. Qed.

Lemma NewSafeEthClient_url dial url opts c : NewSafeEthClient dial url opts = Ok c → ec_rpcUrl c = url.
Proof.
  intros (_ & _ & [= <-])%res_bind_ok.
  assert (∀ c0, ec_rpcUrl (foldl apply_option c0 opts) = ec_rpcUrl c0) as Hfold.
  { induction opts as [|o opts IH]; intros c0; simpl; [done|]. rewrite IH. by destruct o. }
  apply Hfold.
Qed.

(** The URLs of the clients made so far. *)
Definition client_urls (clients : gmap RollupId SafeEthClient) : gmap RollupId string := ec_rpcUrl <$> clients.

Lemma attestor_clients_urls dial NewCollector metrics addr urls : ∀ reg clients clients' reg',
  attestor_clients dial NewCollector metrics addr urls reg clients = Ok (clients', reg') →
  client_urls clients' = foldl (λ m u, <[u.1 := u.2]> m) (client_urls clients) urls.
Proof.
  induction urls as [|[r url] urls IH]; intros reg clients clients' reg'; cbn [attestor_clients foldl fst snd].
  { by intros [= <- _]. }
  intros (reg1 & _ & (c & Hc & Hrec)%res_bind_ok)%res_bind_ok. apply IH in Hrec. rewrite Hrec.
  unfold client_urls. rewrite fmap_insert. by rewrite (NewSafeEthClient_url _ _ _ _ Hc).
Qed.

Lemma foldl_insert_lookup (urls : list (RollupId * string)) r : ∀ m : gmap RollupId string,
  NoDup urls.*1 →
  foldl (λ m u, <[u.1 := u.2]> m) m urls !! r =
  match (list_to_map urls : gmap RollupId string) !! r with Some u => Some u | None => m !! r end.
Proof.
  induction urls as [|[r' u] urls IH]; intros m; simpl; [done|].
  intros [Hn Hnd]%NoDup_cons. rewrite IH by done.
  destruct (decide (r = r')) as [->|Hr].
  - rewrite lookup_insert_eq. by rewrite not_elem_of_list_to_map_1, lookup_insert_eq.
  - by rewrite !lookup_insert_ne.
Qed.

Lemma attestor_clients_all dial NewCollector metrics addr (config : gmap RollupId string) urls reg clients' reg' :
  urls ≡ₚ map_to_list config →
  attestor_clients dial NewCollector metrics addr urls reg ∅ = Ok (clients', reg') →
  client_urls clients' = config.
Proof.
  intros Hperm Hc. apply attestor_clients_urls in Hc. rewrite Hc. apply map_eq. intros r.
  assert (NoDup urls.*1) as Hnd. { rewrite Hperm. apply NoDup_fst_map_to_list. }
  rewrite foldl_insert_lookup by done.
  rewrite (list_to_map_proper urls (map_to_list config)) by done. rewrite list_to_map_to_list.
  unfold client_urls. rewrite lookup_fmap, lookup_empty. by destruct (config !! r).
Qed.

(** Success installs every listener. *)
Lemma Operator_EnableMetrics_ok l reg reg' l' :
  Operator_EnableMetrics l reg = (reg', l', Ok tt) → l' = operator_listeners.
Proof.
  unfold Operator_EnableMetrics, Attestor_EnableMetrics, Consumer_EnableMetrics, RpcClient_EnableMetrics,
    OperatorMetrics.MakeOperatorMetrics, AttestorMetrics.MakeAttestorMetrics,
    ConsumerMetrics.MakeConsumerMetrics, RpcClientMetrics.MakeRpcClientMetrics.
  rewrite install_make. destruct (register_all _ _) as [r1 [[]| |]]; try done.
  rewrite install_make. destruct (register_all _ r1) as [r2 [[]| |]]; try done.
  rewrite install_make. destruct (register_all _ r2) as [r3 [[]| |]]; try done.
  rewrite install_make. destruct (register_all _ r3) as [r4 [[]| |]]; try done. by intros [= _ <-].
Qed.

(** The registration only registers the given key. *)
Lemma then_calls r k c : c ∈ (then_ r k).1 → c ∈ r.1 ∨ c ∈ k.1.
Proof. destruct r as [cs [[]| |]]; simpl; [rewrite elem_of_app; tauto|tauto..]. Qed.

Lemma registration_calls menv kp addr strategy c :
  c ∈ (registerOperatorOnStartup menv kp addr strategy).1 →
  match c with
  | CallRegisterWithAvs id _ => id = OperatorIdFromG1Pubkey (GetPubKeyG1 kp)
  | CallRegisterAsOperator a | CallMint a _ => a = addr
  | CallDeposit s _ => s = strategy ∧ strategy ≠ 0
  | CallDeregister _ _ => False
  end.
Proof.
  unfold registerOperatorOnStartup. intros [Hc|[Hc|Hc]%then_calls]%then_calls.
  - unfold RegisterOperatorWithEigenlayer, call in Hc.
    destruct (me_RegisterAsOperator menv); apply list_elem_of_singleton in Hc; by subst c.
  - case_bool_decide as Hs; simpl in Hc; [by apply elem_of_nil in Hc|].
    unfold DepositIntoStrategy in Hc. destruct (res_bind _ _) as [?| |]; simpl in Hc; try by apply elem_of_nil in Hc.
    unfold call in Hc. destruct (me_SendMint menv), (me_Deposit menv); simpl in Hc;
      rewrite ?elem_of_cons, ?elem_of_nil in Hc; destruct_or? Hc; by try subst c.
  - destruct (me_IsOperatorRegistered menv) as [[]| |]; simpl in Hc; try by apply elem_of_nil in Hc.
    unfold RegisterOperatorWithAvs in Hc. destruct (res_bind _ _) as [?| |]; simpl in Hc; try by apply elem_of_nil in Hc.
    destruct (me_RegisterWithAvs menv); simpl in Hc; apply list_elem_of_singleton in Hc; by subst c.
Qed.

Lemma operator_registration_calls env c kp calls r x :
  operator_registration env c kp = (calls, r) → x ∈ calls →
  nc_RegisterOperatorOnStartup c = true ∧
  ∀ id e, x = CallRegisterWithAvs id e → id = OperatorIdFromG1Pubkey (GetPubKeyG1 kp).
Proof.
  unfold operator_registration. intros Hreg Hx.
  destruct (nc_RegisterOperatorOnStartup c); [|injection Hreg as <- _; by apply elem_of_nil in Hx].
  split; [done|]. intros id e ->. unfold chain_bind, chain_pure in Hreg.
  destruct (se_ReadKey env _ _); [|injection Hreg as <- _; by apply elem_of_nil in Hx..].
  simpl in Hreg. injection Hreg as <- _. by apply registration_calls in Hx.
Qed.

Lemma operator_finish_ok env c p op :
  (∀ m, se_urls env m ≡ₚ map_to_list m) → operator_finish env c p = Ok op →
  let id := OperatorIdFromG1Pubkey (GetPubKeyG1 (pa_blsKeyPair p)) in
  po_blsKeypair op = pa_blsKeyPair p ∧ po_operatorId op = id ∧
  ap_blsKeypair (po_attestor op) = pa_blsKeyPair p ∧ ap_operatorId (po_attestor op) = id ∧
  client_urls (ap_clients (po_attestor op)) = nc_RollupIdsToRpcUrls c ∧
  cs_rollupIds (ap_consumer (po_attestor op)) = nc_NearDaIndexerRollupIds c ∧
  po_avsManager op = pa_avsManager p ∧
  po_listeners op = if nc_EnableMetrics c then operator_listeners else no_listeners.
Proof.
  intros Hurls ([a reg] & Ha & ([reg' ls] & Hm & [= <-])%res_bind_ok)%res_bind_ok.
  apply res_bind_ok in Ha as ([clients reg1] & Hc & [= <- <-]). apply (attestor_clients_all _ _ _ _ _ _ _ _ _ (Hurls _)) in Hc.
  split_and!; [done..|exact Hc|done|done|]. cbn [po_listeners fst snd] in *.
  destruct (nc_EnableMetrics c); [|by injection Hm as _ <-].
  destruct (Operator_EnableMetrics _ _) as [[r l] [[]| |]] eqn:He; [|done..]. injection Hm as _ <-.
  by apply Operator_EnableMetrics_ok in He.
Qed.

Lemma operator_parts_ok env c p :
  operator_parts env c = Ok p →
  se_ReadPrivateKeyFromFile env (nc_BlsPrivateKeyStorePath c) (env_password env "OPERATOR_BLS_KEY_PASSWORD") =
    Ok (pa_blsKeyPair p) ∧
  NewAvsManager env c = Ok (pa_avsManager p).
Proof.
  unfold operator_parts. intros Hp.
  apply res_bind_ok in Hp as (_ & _ & Hp). apply res_bind_ok in Hp as (kp & Hkp & Hp).
  repeat (apply res_bind_ok in Hp as (? & ? & Hp)). injection Hp as <-. done.
Qed.

Lemma NewOperatorFromConfig_ok env c calls op :
  NewOperatorFromConfig env c = (calls, Ok op) →
  ∃ p, operator_parts env c = Ok p ∧ operator_finish env c p = Ok op ∧
    operator_registration env c (pa_blsKeyPair p) = (calls, Ok tt).
Proof.
  intros (cs1 & p & cs2 & Hp & Hrest & ->)%chain_bind_ok. apply chain_pure_ok in Hp as [-> Hp].
  apply chain_bind_ok in Hrest as (cs3 & [] & cs4 & Hreg & Hfin & ->). apply chain_pure_ok in Hfin as [-> Hfin].
  exists p. by rewrite app_nil_r.
Qed.

End Theory.

(** *** A started operator and its aggregator *)
Section Accepted.
Context `{B : BlsOps} `{H : HashOps} `{A : AbiOps} `{T : SmtOps} `{PO : PromOps}.
Context {BL : BlsLaws B}.
Context {G1 : GormOps StateRootUpdateModel} {G2 : GormOps OperatorSetUpdateModel}.
Context {S : Type} `{OI : !OperatorsInfo S}.

(** The aggregator knows the holder of [kp] under the id of its public key. *)
Definition knows (env : AggEnv (S := S)) (kp : KeyPair) : Prop :=
  Operator.registered kp (OperatorIdFromG1Pubkey (GetPubKeyG1 kp)) env.

(** C10: an operator built from a configuration signs with the key in its key store
    everywhere.  If [NewOperatorFromConfig] succeeds, then the operator, its attestor and
    the registration it sent all use the key pair read from the configured store, under the
    id derived from it; the attestor has a client for exactly the configured rollups, each
    with its URL; the metrics listeners are installed if and only if metrics are enabled;
    no transaction was sent unless registration on startup was asked for.  It runs only if
    the chain says that its address is registered; then it follows all its rollups, and
    whatever it sends passes the signature check of every aggregator that knows this key. *)
Theorem operator_from_config (env : StartEnv) (c : NodeConfig) calls (op : OperatorProcess) :
  (∀ m, se_urls env m ≡ₚ map_to_list m) → NewOperatorFromConfig env c = (calls, Ok op) →
  ∃ kp, let id := OperatorIdFromG1Pubkey (GetPubKeyG1 kp) in
    let attested := from_attestor (ap_blsKeypair (po_attestor op)) (ap_operatorId (po_attestor op)) in
    se_ReadPrivateKeyFromFile env (nc_BlsPrivateKeyStorePath c) (env_password env "OPERATOR_BLS_KEY_PASSWORD") = Ok kp ∧
    po_blsKeypair op = kp ∧ po_operatorId op = id ∧
    ap_blsKeypair (po_attestor op) = kp ∧ ap_operatorId (po_attestor op) = id ∧
    client_urls (ap_clients (po_attestor op)) = nc_RollupIdsToRpcUrls c ∧
    po_listeners op = (if nc_EnableMetrics c then operator_listeners else no_listeners) ∧
    (∀ x, x ∈ calls → nc_RegisterOperatorOnStartup c = true ∧
       ∀ id' e, x = CallRegisterWithAvs id' e → id' = id) ∧
    (∀ (agg : AggEnv (S := S)) re evs out, knows agg kp → Forall attested evs →
       operator_Start re op evs = Ok out →
       re_IsOperatorRegistered re (po_operatorAddr op) = Ok true ∧
       ro_rollups out = re_order re (ap_clients (po_attestor op)) ∧ Forall (accepted agg) (ro_actions out)).
Proof.
  intros Hurls (p & Hp & Hfin & Hreg)%NewOperatorFromConfig_ok.
  apply operator_parts_ok in Hp as [Hkp _].
  apply operator_finish_ok in Hfin as (H1 & H2 & H3 & H4 & H5 & _ & _ & H6); [|done].
  exists (pa_blsKeyPair p). split_and!; [done..| |].
  - intros x Hx. by eapply operator_registration_calls.
  - intros agg re evs out Hk Hatt Hrun.
    apply res_bind_ok in Hrun as (u & Hman & (a & Ha & (actions & Hrun & [= <-])%res_bind_ok)%res_bind_ok).
    apply res_bind_ok in Ha as (es & _ & [= <-]). apply res_bind_ok in Hman as ([] & Hreg' & Hman); [|done].
    split_and!; [done..|]. rewrite H1, H2, H3, H4 in *. by eapply op_run_accepted.
Qed.

End Accepted.

(** *** The tools *)
Section Tools.
Context `{B : BlsOps} `{PO : PromOps}.
Context (env : StartEnv) (ReadYaml : string → go NodeConfig) (ctx : CliContext).

(** The tools build their operator without sending anything. *)
Lemma action_operator_calls : (action_operator env ReadYaml ctx).1 = [].
Proof.
  unfold action_operator, readNodeConfig. destruct (ReadYaml _) as [c| |]; [|done..].
  cbn [res_bind]. rewrite chain_bind_pure. unfold NewOperatorFromConfig.
  destruct (operator_parts _ _) as [p| |]; [|done..]. rewrite chain_bind_pure.
  unfold operator_registration. cbn [nc_RegisterOperatorOnStartup set_RegisterOperatorOnStartup].
  rewrite chain_bind_pure. by destruct (operator_finish _ _ _).
Qed.

Lemma action_operator_then {C} (k : NodeConfig * OperatorProcess → chain C) :
  chain_bind (action_operator env ReadYaml ctx) k =
  match (action_operator env ReadYaml ctx).2 with
  | Ok o => k o
  | Err e => ([], Err e)
  | Panic => ([], Panic)
  end.
Proof.
  pose proof action_operator_calls as Hc. destruct (action_operator _ _ _) as [cs r]. simpl in *. subst cs.
  destruct r; simpl; [by destruct (k _)|done..].
Qed.

(** The operator of a tool holds the key of the store and the configured address. *)
Lemma action_operator_parts c o :
  (action_operator env ReadYaml ctx).2 = Ok (c, o) →
  ∃ kp, se_ReadPrivateKeyFromFile env (nc_BlsPrivateKeyStorePath c)
      (env_password env "OPERATOR_BLS_KEY_PASSWORD") = Ok kp ∧ po_blsKeypair o = kp ∧
    po_operatorAddr o = se_HexToAddress env (nc_OperatorAddress c).
Proof.
  destruct (action_operator env ReadYaml ctx) as [cs r] eqn:Ha. simpl. intros ->.
  apply chain_bind_ok in Ha as (cs1 & c' & cs2 & _ & (cs3 & o' & cs4 & Hop & Hp & _)%chain_bind_ok & _).
  apply chain_pure_ok in Hp as [_ [= <- <-]].
  apply NewOperatorFromConfig_ok in Hop as (p & Hp & Hfin & _). apply operator_parts_ok in Hp as [Hkp _].
  exists (pa_blsKeyPair p). unfold operator_finish in Hfin.
  apply res_bind_ok in Hfin as (? & _ & (? & _ & [= <-])%res_bind_ok). done.
Qed.

(** The transactions a deposit sends: the mint, and the deposit if the mint went through. *)
Lemma deposit_calls menv a s amount :
  (DepositIntoStrategy menv a s amount).1 `prefix_of` [CallMint a amount; CallDeposit s amount] ∧
  ((DepositIntoStrategy menv a s amount).2 = Ok tt →
   (DepositIntoStrategy menv a s amount).1 = [CallMint a amount; CallDeposit s amount]).
Proof.
  unfold DepositIntoStrategy. destruct (res_bind _ _) as [?| |]; simpl; [|split; [apply prefix_nil|done]..].
  destruct (me_SendMint menv) as [[]| |]; simpl; split; try done; by apply (prefix_cons_alt _ _ _ _ eq_refl), prefix_nil.
Qed.

(** What the command line tools do to the chain.  Each tool builds the operator
    without registering it, whatever the configuration file says, and then sends at most the
    transactions it is named after: registering with EigenLayer only that registration of
    the configured address, a deposit only the mint and the deposit of the given amount, in
    this order and the second only after the first succeeded, registering with the AVS only
    the registration of the key in the key store, printing the status nothing.  A deposit
    whose amount is not a decimal number sends nothing and still reports success. *)
Theorem cli_actions_calls (SetString : string → option Z) (GetOperatorId : Address → go OperatorId) :
  let addr c := se_HexToAddress env (nc_OperatorAddress c) in
  (action_operator env ReadYaml ctx).1 = [] ∧
  (∀ c o, (action_operator env ReadYaml ctx).2 = Ok (c, o) →
     action_RegisterOperatorWithEigenlayer env ReadYaml ctx =
       ([CallRegisterAsOperator (addr c)], me_RegisterAsOperator (se_manager env)) ∧
     (SetString (cx_String ctx "amount") = None →
        action_DepositIntoStrategy env ReadYaml ctx SetString = ([], Ok tt)) ∧
     (∀ amount, SetString (cx_String ctx "amount") = Some amount →
        let calls := [CallMint (addr c) amount;
                      CallDeposit (se_HexToAddress env (cx_String ctx "strategy-addr")) amount] in
        (action_DepositIntoStrategy env ReadYaml ctx SetString).1 `prefix_of` calls ∧
        ((action_DepositIntoStrategy env ReadYaml ctx SetString).2 = Ok tt →
         (action_DepositIntoStrategy env ReadYaml ctx SetString).1 = calls)) ∧
     (∀ x, x ∈ (action_RegisterOperatorWithAvs env ReadYaml ctx).1 →
        ∃ kp e, se_ReadPrivateKeyFromFile env (nc_BlsPrivateKeyStorePath c)
                  (env_password env "OPERATOR_BLS_KEY_PASSWORD") = Ok kp ∧
          x = CallRegisterWithAvs (OperatorIdFromG1Pubkey (GetPubKeyG1 kp)) e) ∧
     (action_PrintOperatorStatus env ReadYaml ctx GetOperatorId).1 = []).
Proof.
  intros addr. split; [apply action_operator_calls|]. intros c o Ho.
  assert (∃ kp, se_ReadPrivateKeyFromFile env (nc_BlsPrivateKeyStorePath c)
      (env_password env "OPERATOR_BLS_KEY_PASSWORD") = Ok kp ∧ po_blsKeypair o = kp ∧
      po_operatorAddr o = addr c) as (kp & Hkp & Hok & Haddr) by by apply action_operator_parts.
  split_and!.
  - unfold action_RegisterOperatorWithEigenlayer. rewrite action_operator_then, Ho. simpl. by rewrite Haddr.
  - intros Hs. unfold action_DepositIntoStrategy. by rewrite action_operator_then, Ho, Hs.
  - intros amount Hs. unfold action_DepositIntoStrategy. rewrite action_operator_then, Ho, Hs. cbn [snd].
    rewrite Haddr. apply deposit_calls.
  - intros x. unfold action_RegisterOperatorWithAvs. rewrite action_operator_then, Ho. cbn [fst snd].
    unfold chain_bind, chain_pure. destruct (se_ReadKey _ _ _); [|intros Hx; by apply elem_of_nil in Hx..].
    cbn [app fst]. unfold RegisterOperatorWithAvs. destruct (res_bind _ _) as [t| |]; cbn [fst snd];
      [|intros Hx; by apply elem_of_nil in Hx..].
    intros ->%list_elem_of_singleton. rewrite Hok. eauto.
  - unfold action_PrintOperatorStatus. rewrite action_operator_then, Ho. done.
Qed.

(** The deposit of the plugin is that of the manager with a fixed amount. *)
Lemma Deposit_manager avsConfig :
  cx_GlobalString ctx "strategy-addr" ≠ EmptyString →
  Deposit env ctx avsConfig =
  DepositIntoStrategy (se_manager env) (se_HexToAddress env (nc_OperatorAddress avsConfig))
    (se_HexToAddress env (cx_GlobalString ctx "strategy-addr")) 1000.
Proof.
  intros Hs. unfold Deposit, DepositIntoStrategy. rewrite bool_decide_false by done.
  destruct (me_GetStrategyAndUnderlyingToken _); [|done..]. rewrite chain_bind_pure. cbn [res_bind].
  destruct (me_GetErc20Mock _); [|done..]. rewrite chain_bind_pure. cbn [res_bind].
  destruct (me_GetNoSendTxOpts _); [|done..]. rewrite chain_bind_pure. cbn [res_bind].
  destruct (me_assembleMint _); [|done..]. rewrite chain_bind_pure.
  unfold then_, call, chain_bind. by destruct (me_SendMint _) as [[]| |].
Qed.

(** The plugin's copies of the manager's operations do what the manager does.  Once the
    plugin is set up, its deposit is the manager's with the amount 1000, call for call and
    error for error; opting in registers, and opting out deregisters from quorum 0, the same
    key of the key store, so that what one adds the other removes; a deposit without a
    strategy and any other operation fail without a transaction. *)
Theorem plugin_equivalent (avsConfig : NodeConfig) (kp : KeyPair) :
  NewOperatorPluginFromCLIContext env ReadYaml ctx = Ok avsConfig →
  se_ReadPrivateKeyFromFile env (nc_BlsPrivateKeyStorePath avsConfig) (cx_GlobalString ctx "bls-key-password") = Ok kp →
  se_ReadKey env (nc_EcdsaPrivateKeyStorePath avsConfig) (cx_GlobalString ctx "ecdsa-key-password") = Ok tt →
  let operation := cx_GlobalString ctx "operation-type" in
  let strategy := cx_GlobalString ctx "strategy-addr" in
  plugin_main env ReadYaml ctx =
    if decide (operation = "opt-in"%string) then RegisterOperatorWithAvs (se_manager env) kp
    else if decide (operation = "opt-out"%string) then DeregisterOperator (se_manager env) kp
    else if decide (operation = "deposit"%string ∧ strategy ≠ EmptyString)
      then DepositIntoStrategy (se_manager env) (se_HexToAddress env (nc_OperatorAddress avsConfig))
             (se_HexToAddress env strategy) 1000
    else ([], Err (NewError (if decide (operation = "deposit"%string)
                             then "strategy address is required for deposit operation"
                             else "Invalid operation type: " +:+ operation))).
Proof.
  intros Hplugin Hkp Hkey operation strategy. unfold plugin_main. rewrite Hplugin, chain_bind_pure.
  unfold OptIn, OptOut. rewrite Hkp, Hkey, !chain_bind_pure. fold operation.
  destruct (decide (operation = "opt-in"%string)); [done|].
  destruct (decide (operation = "opt-out"%string)); [done|].
  destruct (decide (operation = "deposit"%string)) as [Hd|Hd]; destruct (decide (_ ∧ _)) as [Hs|Hs]; try tauto; [|].
  - apply Deposit_manager, Hs.
  - unfold Deposit. rewrite bool_decide_true; [done|]. fold strategy.
    destruct (decide (strategy = EmptyString)); [done|]. tauto.
Qed.

(** The status says that the operator is registered with the AVS whatever the chain
    answers: it compares the operator's own id. *)
Theorem status_ignores_chain (GetOperatorId : Address → go OperatorId) (o : OperatorProcess) id status :
  GetOperatorId (po_operatorAddr o) = Ok id → po_operatorId o ≠ zero_id →
  PrintOperatorStatus GetOperatorId o = Ok status →
  os_RegisteredWithAvs status = true ∧ os_PubkeysRegistered status = negb (bool_decide (id = zero_id)).
Proof.
  unfold PrintOperatorStatus. intros -> Hid [= <-]. simpl. by rewrite bool_decide_false.
Qed.

End Tools.

Module Examples.

#[local] Existing Instances ToyBls.ops ToyHash.ops ToyAbi.ops ToySmt.ops ToyBls.bls_laws.
#[local] Existing Instances DatabaseTheory.Examples.G1 DatabaseTheory.Examples.G2.
#[local] Existing Instance MetricsTheory.Examples.ToyProm.

Definition eth : EthView := {|
  ev_bind _ _ := Ok tt;
  ev_ServiceManager _ := Ok 11;
  ev_TaskManager _ := Ok 12;
  ev_OperatorSetUpdateRegistry _ := Ok 13;
  ev_BlsApkRegistry _ := Ok 14;
  ev_AvsRegistryReader _ _ := Ok tt;
  ev_AvsRegistryWriter _ _ := Ok tt;
  ev_AvsRegistrySubscriber _ _ := Ok tt;
  ev_AVSRegistryContractBindings _ _ := Ok (15, 16);
  ev_Delegation _ := Ok 17;
  ev_AvsDirectory _ := Ok 18;
  ev_EigenlayerContractBindings _ _ := Ok tt |}.

(** EigenLayer already has the operator, the AVS does not. *)
Definition manager : ManagerEnv := {|
  me_GetStrategyAndUnderlyingToken := Ok 20;
  me_GetErc20Mock := Ok tt;
  me_GetNoSendTxOpts := Ok tt;
  me_assembleMint := Ok tt;
  me_SendMint := Ok tt;
  me_Deposit := Ok tt;
  me_RegisterAsOperator := Err (NewError "already registered");
  me_IsOperatorRegistered := Ok false;
  me_BlockNumber := Ok 100;
  me_BlockTime _ := Ok 1700000000;
  me_RegisterWithAvs := Ok tt;
  me_Deregister := Ok tt |}.

(** The key store holds secret key 1. *)
Definition env : StartEnv := {|
  se_HexToAddress s := Z.of_nat (String.length s);
  se_LookupEnv name := if decide (name = "OPERATOR_BLS_KEY_PASSWORD"%string) then Some "bls"%string else None;
  se_NewZapLogger _ := Ok tt;
  se_ReadPrivateKeyFromFile path password :=
    if decide (path = "keys/bls"%string ∧ password = "bls"%string) then Ok (1 : Z)
    else Err (NewError "could not decrypt key with given password");
  se_ReadKey _ _ := Ok tt;
  se_dial _ := Ok tt;
  se_NewCollector _ reg := Ok reg;
  se_ChainID := Ok 31337;
  se_SignerFromConfig _ _ _ := Ok tt;
  se_NewPrivateKeyWallet _ := Ok tt;
  se_eth := eth;
  se_ethWs := eth;
  se_MustRegisterEconomic reg := Ok reg;
  se_NewEigenMetrics reg := Ok reg;
  se_manager := manager;
  se_urls := map_to_list |}.

Definition config : NodeConfig :=
  mkNodeConfig false "0xop" "0xretr" "0xreg" "0x1" "http://eth" "ws://eth" "keys/bls" "keys/ecdsa" ":8090" true
    ":9090" true ":9010" false "amqp://mq" [3; 4] (<[3 := "ws://rollup3"%string]> {[ 4 := "ws://rollup4"%string ]}) 500.

Definition calls : list ChainCall := (NewOperatorFromConfig env config).1.

(** Registration goes on after EigenLayer's error. *)
Example calls_sent :
  calls = [CallRegisterAsOperator 4; CallMint 4 1000; CallDeposit 3 1000;
           CallRegisterWithAvs Operator.Examples.id1 1701000000].
Proof. by vm_compute. Qed.

Lemma built : ∃ op, NewOperatorFromConfig env config = (calls, Ok op).
Proof.
  unfold calls. destruct (NewOperatorFromConfig env config) as [cs r] eqn:Hop. simpl.
  assert (match r with Ok _ => true | _ => false end = true) as Hr.
  { change r with (cs, r).2. rewrite <- Hop. by vm_compute. }
  destruct r; [eauto|done..].
Qed.

Definition run_env : RunEnv := {|
  re_IsOperatorRegistered _ := Ok true;
  re_SubscribeToNewTasks := Ok tt;
  re_SubscribeToOperatorSetUpdates := Ok tt;
  re_SubscribeNewHead _ := Ok tt;
  re_BlockNumber _ := Ok 7;
  re_order clients := (map_to_list clients).*1;
  re_closeConsumer := Ok tt |}.

Lemma subscribed rollups :
  ∃ es, attestor_subscribe (λ _, Ok tt) (λ _, Ok 7) rollups = Ok es.
Proof. induction rollups as [|r rollups [es IH]]; simpl; [eauto|]. rewrite IH. simpl. eauto. Qed.

(** The operator starts and sends what its main loop sends. *)
Lemma started (op : OperatorProcess) :
  po_blsKeypair op = (1 : Z) → po_operatorId op = Operator.Examples.id1 →
  ∃ out, operator_Start run_env op Operator.Examples.ex_events = Ok out ∧
    ro_actions out = Operator.Examples.ex_actions 1.
Proof.
  intros Hkp Hid. unfold operator_Start, attestor_Start. cbn [run_env re_IsOperatorRegistered
    re_SubscribeToNewTasks re_SubscribeToOperatorSetUpdates manager_Start res_bind negb re_SubscribeNewHead
    re_BlockNumber]. destruct (subscribed (re_order run_env (ap_clients (po_attestor op)))) as [es ->].
  cbn [res_bind]. rewrite Hkp, Hid. eexists. split; [reflexivity|]. reflexivity.
Qed.

Lemma operator_from_config_witness :
  ∃ op kp, NewOperatorFromConfig env config = (calls, Ok op) ∧ po_blsKeypair op = kp ∧
    client_urls (ap_clients (po_attestor op)) = nc_RollupIdsToRpcUrls config ∧
    po_listeners op = operator_listeners ∧
    (knows Operator.Examples.agg_env (1 : Z) →
     Forall (accepted Operator.Examples.agg_env) (Operator.Examples.ex_actions 1)).
Proof.
  destruct built as [op Hop].
  destruct (operator_from_config (B := ToyBls.ops) (T := ToySmt.ops) (S := Ors) env config calls op)
    as (kp & Hread & Hkp & Hid & Hakp & Haid & Hurls & Hls & _ & Hacc); [reflexivity|exact Hop|].
  exists op, kp. split_and!; [exact Hop|exact Hkp|exact Hurls|exact Hls|]. intros Hk.
  assert (kp = (1 : Z)) as -> by (vm_compute in Hread; congruence).
  destruct (started op Hkp Hid) as (out & Hout & <-).
  apply (Hacc Operator.Examples.agg_env run_env Operator.Examples.ex_events); [exact Hk| |exact Hout].
  rewrite Hakp, Haid. repeat constructor; exists 3, (mkHeader 100 (replicate 32 7) 1700000000), None; reflexivity.
Defined.

Definition loop_events : list LoopEvent :=
  [LHead (HdHeader 7); LReceive; LHead (HdHeader 8); LHead (HdTicker (Err ContextCanceled)); LReceive; LReceive].

Lemma headers_in_order_witness :
  hl_run (new_loop (mkHeadSub NewSafeSubscription false [] None true))
    (loop_events ++ [LDone; LHead (HdHeader 9)]) = Panic.
Proof.
  destruct (headers_in_order (Ok tt) (mkHeadSub NewSafeSubscription false [] None true) loop_events 9)
    as (l & taken & Hrun & _ & _ & Hpanic); [reflexivity|by repeat constructor|].
  vm_compute in Hrun. injection Hrun as <- _. apply Hpanic; reflexivity.
Defined.

Definition ctx (operation : string) : CliContext := {|
  cx_GlobalString name :=
    if decide (name = "operation-type"%string) then operation
    else if decide (name = "bls-key-password"%string) then "bls"%string
    else if decide (name = "strategy-addr"%string) then "0xstrat"%string else "config.yaml"%string;
  cx_String _ := "12 tokens"%string |}.

Definition opt_out : list ChainCall * go unit := ([CallDeregister [0] (mkBN254G1Point 1 0)], Ok tt).

(** Opting out, and a deposit of what is no number. *)
Lemma plugin_equivalent_witness : plugin_main env (λ _, Ok config) (ctx "opt-out") = opt_out.
Proof.
  rewrite (plugin_equivalent env (λ _, Ok config) (ctx "opt-out") config (1 : Z)); by vm_compute.
Defined.

Lemma cli_actions_calls_witness :
  action_DepositIntoStrategy env (λ _, Ok config) (ctx EmptyString) (λ _, None) = ([], Ok tt).
Proof.
  destruct (cli_actions_calls env (λ _, Ok config) (ctx EmptyString) (λ _, None) (λ _, Ok zero_id)) as [_ Hacts].
  assert (match (action_operator env (λ _, Ok config) (ctx EmptyString)).2 with Ok _ => true | _ => false end = true)
    as Hok by by vm_compute.
  destruct (action_operator env (λ _, Ok config) (ctx EmptyString)).2 as [[c o]| |]; [|discriminate Hok..].
  destruct (Hacts c o eq_refl) as (_ & Hbad & _). exact (Hbad eq_refl).
Defined.

End Examples.
