(* ===== verification/AggregatorStartup.v ===== *)
(** * Construction of the aggregator and of the relayer

    - [NewRollupWriter] (aggregator/rollup_writer.go) and [NewRollupBroadcaster]
      (aggregator/rollup_broadcaster.go) with the goroutines that initialize the rollups;
    - [NewDatabase] and [Close] (aggregator/database/database.go);
    - [NewAggregator], the entry of [Start], and [Close] (aggregator/aggregator.go);
    - [aggregatorMain] (aggregator/cmd/main.go);
    - [NewRelayerFromConfig] (relayer/relayer.go) and [relayerMain] (relayer/cmd/main.go).

    Nodes, the database file and the libraries answer through [AggStartEnv].  The theorems
    follow the configuration file to the process: the rollups it serves, its first state,
    and what each rollup's registry holds after initialization. *)

From S2P Require Import Prelude CoreTypes Instances Messages AvsReader RegistryContract RegistryContractTheory BlsAgg OperatorRegistrations.
From S2P Require Import Database DatabaseTheory Aggregator Rollups Metrics MetricsTheory Chainio Config OperatorStartup.

Section Aggregator.
Context `{B : BlsOps} `{H : HashOps} `{A : AbiOps} `{PO : PromOps}.
Context {G1 : GormOps StateRootUpdateModel} {G2 : GormOps OperatorSetUpdateModel}.
Context {Key : Type}.

(** Answers by the URL of the node that is asked.  [as_open] is what the database at a path
    holds, [as_rollups] the iteration order of the map of rollups. *)
Record AggStartEnv := mkAggStartEnv {
  as_dial : string → go unit;
  as_NewCollector : string → Registry → go Registry;
  as_eth : EthView;
  as_ethWs : EthView;
  as_ChainID : string → go Z;
  as_SignerFromConfig : Key → Z → go unit;
  as_NewPrivateKeyWallet : string → Address → go unit;
  as_NewContractSFFLRegistryRollup : string → Address → go unit;
  as_open : string → go Database;
  as_AutoMigrate : go unit;
  as_sqlDB : go unit;
  as_closeDB : go unit;
  as_GetNextOperatorSetUpdateId : go Z;
  as_operatorRegistrations : go Ors;
  as_NewEigenMetrics : Registry → go Registry;
  as_rollups : gmap RollupId RollupInfo → list (RollupId * RollupInfo) }.

(** ** Rollup writers and the broadcaster *)

Record RollupWriter := mkRollupWriter {
  rw_rollupId : RollupId;
  rw_client : SafeEthClient;
  rw_sfflRegistryRollup : Address }.

Definition NewRollupWriter (env : AggStartEnv) (rollupId : RollupId) (rollupInfo : RollupInfo) (signer : Key)
    (address : Address) : go RollupWriter :=
  let url := ri_RpcUrl rollupInfo in
  let? client := NewSafeEthClient (as_dial env) url [] in
  let? chainId := as_ChainID env url in
  let? _ := or_panic (as_SignerFromConfig env signer chainId) in
  let? _ := as_NewPrivateKeyWallet env url address in
  let? _ := as_NewContractSFFLRegistryRollup env url (ri_SFFLRegistryRollupAddr rollupInfo) in
  Ok (mkRollupWriter rollupId client (ri_SFFLRegistryRollupAddr rollupInfo)).

(** The goroutines that initialize the rollups: one that waits for mainnet's first update,
    or one for each writer. *)
Inductive InitMode : Type :=
| InitOnUpdate
| InitEach (mainnetNextOperatorSetUpdateId : Z).

Record RollupBroadcaster := mkRollupBroadcaster {
  rb_writers : list RollupWriter;
  rb_init : InitMode }.

Fixpoint new_writers (env : AggStartEnv) (rollups : list (RollupId * RollupInfo)) (signer : Key) (address : Address)
    : go (list RollupWriter) :=
  match rollups with
  | [] => Ok []
  | (id, info) :: rollups =>
      let? writer := NewRollupWriter env id info signer address in
      let? writers := new_writers env rollups signer address in Ok (writer :: writers)
  end.

Definition NewRollupBroadcaster (env : AggStartEnv) (rollupsInfo : gmap RollupId RollupInfo) (signer : Key)
    (address : Address) : go RollupBroadcaster :=
  let? writers := new_writers env (as_rollups env rollupsInfo) signer address in
  let? mainnetNextOperatorSetUpdateId := as_GetNextOperatorSetUpdateId env in
  Ok (mkRollupBroadcaster writers
        (if bool_decide (mainnetNextOperatorSetUpdateId = 0) then InitOnUpdate
         else InitEach mainnetNextOperatorSetUpdateId)).

(** ** The database *)

Definition NewDatabase (env : AggStartEnv) (dbPath : string) : go (Database * string) :=
  let dbPath := if decide (dbPath = EmptyString) then "file::memory:?cache=shared"%string else dbPath in
  let? db := as_open env dbPath in
  let? _ := as_AutoMigrate env in
  let? _ := as_sqlDB env in
  Ok (db, dbPath).

(** [Database.Close]. *)
Definition database_Close (env : AggStartEnv) : go unit :=
  let? _ := as_sqlDB env in as_closeDB env.

(** ** The aggregator *)

Record AggregatorProcess := mkAggregatorProcess {
  pg_state : Aggregator;
  pg_dbPath : string;
  pg_checkpointInterval : Z;
  pg_httpClient : SafeEthClient;
  pg_wsClient : SafeEthClient;
  pg_rollupBroadcaster : RollupBroadcaster;
  pg_operatorRegistrationsService : Ors;
  pg_listeners : AggregatorListeners;
  pg_registry : Registry;
  pg_events : list AggregatorMetrics.Event }.

Definition no_agg_listeners : AggregatorListeners :=
  mkAggregatorListeners AggregatorMetrics.none DbMetrics.none RpcServerMetrics.none RestServerMetrics.none.

(** [uint64(d.Seconds())] of a duration in nanoseconds. *)
Definition Seconds (d : Z) : Z := d / 1000000000.

(** [pg_events] are the calls of the new listener.  Without metrics the registry is nil,
    and not used.  Signers and the registry contract
    take the key and the addresses of the configuration. *)
Definition NewAggregator (env : AggStartEnv) (config : Config Key) (registry : Registry) : go AggregatorProcess :=
  let? http := CreateEthClientWithCollector (as_dial env) (as_NewCollector env) AggregatorNamespace
                 (cfg_EthHttpRpcUrl config) (cfg_EnableMetrics config) registry in
  let? ws := CreateEthClientWithCollector (as_dial env) (as_NewCollector env) AggregatorNamespace
               (cfg_EthWsRpcUrl config) (cfg_EnableMetrics config) http.2 in
  let? _ := BuildAvsReader (cfg_SFFLRegistryCoordinatorAddr config) (cfg_OperatorStateRetrieverAddr config) (as_eth env) in
  let? chainId := as_ChainID env (cfg_EthHttpRpcUrl config) in
  let? _ := or_panic (as_SignerFromConfig env (cfg_EcdsaPrivateKey config) chainId) in
  let? _ := as_NewPrivateKeyWallet env (cfg_EthHttpRpcUrl config) (cfg_AggregatorAddress config) in
  let? _ := BuildAvsWriter (cfg_SFFLRegistryCoordinatorAddr config) (cfg_OperatorStateRetrieverAddr config) (as_eth env) in
  let? _ := BuildAvsSubscriber (cfg_SFFLRegistryCoordinatorAddr config) (cfg_OperatorStateRetrieverAddr config)
              (as_ethWs env) in
  let? msgDb := NewDatabase env (cfg_AggregatorDatabasePath config) in
  let? rollupBroadcaster := NewRollupBroadcaster env (cfg_RollupsInfo config) (cfg_EcdsaPrivateKey config)
                              (cfg_AggregatorAddress config) in
  let? operatorRegistrationsService := as_operatorRegistrations env in
  let state := mkAggregator (Seconds (cfg_AggregatorCheckpointInterval config)) NewMessageBlsAggregatorService
    NewMessageBlsAggregatorService NewMessageBlsAggregatorService ∅ msgDb.1 in
  let? m := (if cfg_EnableMetrics config then
               let? reg := as_NewEigenMetrics env ws.2 in
               match Aggregator_EnableMetrics no_agg_listeners reg with
               | (reg, listeners, Ok _) => Ok (reg, listeners)
               | (_, _, Err e) => Err e
               | (_, _, Panic) => Panic
               end
             else Ok (ws.2, no_agg_listeners)) in
  Ok (mkAggregatorProcess state msgDb.2 (cfg_AggregatorCheckpointInterval config) http.1 ws.1 rollupBroadcaster
        operatorRegistrationsService m.2 m.1 [AggregatorMetrics.IncAggregatorInitializations]).

(** [Start] up to its loop, whose iterations are those of [agg_deliver]:
    [time.NewTicker] panics unless the interval is positive. *)
Definition aggregator_Start (p : AggregatorProcess) : go unit :=
  if pg_checkpointInterval p <=? 0 then Panic else Ok tt.

(** [Close]: the database first, then the clients and the writers' clients; yields the URLs
    of the clients closed. *)
Definition aggregator_Close (env : AggStartEnv) (p : AggregatorProcess) : list string * go unit :=
  match database_Close env with
  | Ok _ => ([ec_rpcUrl (pg_httpClient p); ec_rpcUrl (pg_wsClient p)] ++
             ((λ w, ec_rpcUrl (rw_client w)) <$> rb_writers (pg_rollupBroadcaster p)), Ok tt)
  | r => ([], r)
  end.

(** [aggregatorMain] until the aggregator runs: the configuration, the aggregator, and the
    two servers with their metrics on the aggregator's registry. *)
Definition aggregatorMain (HexToAddress : string → Address) (HexToECDSA : string → go Key)
    (EcdsaPrivateKeyToAddress : Key → go Address) (order : gmap RollupId string → list (RollupId * string))
    (env : AggStartEnv) (path : string) (ReadYaml : string → go ConfigRaw) (NewZapLogger : string → go unit)
    (exists_ : bool) (ReadJson : go SFFLContractsRaw) (ecdsaFlag : string) : go AggregatorProcess :=
  let? configRaw := NewConfigRaw path ReadYaml in
  let? _ := NewZapLogger (raw_Environment configRaw) in
  let? config := NewConfig HexToAddress HexToECDSA EcdsaPrivateKeyToAddress order configRaw exists_ ReadJson ecdsaFlag in
  let? agg := NewAggregator env config NewRegistry in
  let? m := (if cfg_EnableMetrics config then
               match RpcServer_EnableMetrics (pg_listeners agg) (pg_registry agg) with
               | (reg, listeners, Ok _) =>
                   match RestServer_EnableMetrics listeners reg with
                   | (reg, listeners, Ok _) => Ok (reg, listeners)
                   | (_, _, Err e) => Err e
                   | (_, _, Panic) => Panic
                   end
               | (_, _, Err e) => Err e
               | (_, _, Panic) => Panic
               end
             else Ok (pg_registry agg, pg_listeners agg)) in
  let? _ := aggregator_Start agg in
  Ok (mkAggregatorProcess (pg_state agg) (pg_dbPath agg) (pg_checkpointInterval agg) (pg_httpClient agg)
        (pg_wsClient agg) (pg_rollupBroadcaster agg) (pg_operatorRegistrationsService agg) m.2 m.1 (pg_events agg)).

End Aggregator.

(** ** The goroutines of the broadcaster

    [init_rollup] is what they do to one rollup: [getSet] answers the fetches of its own
    goroutine, [first] is what the shared one found when it waited for the first update. *)
Definition init_rollup `{B : BlsOps} `{H : HashOps} `{A : AbiOps} {N : Bn254Ops} (address : Address)
    (mode : InitMode) (nextId : go unit) (getSet : nat → Z → go (list RegistryOperator) * bool)
    (first : option (list RollupOperatorsOperator * Z)) (script : nat → Attempt) (c : Chain)
    : go (Chain * list GoError) :=
  match mode with
  | InitEach n => tryInitializeRollupOperatorSet address nextId getSet script n c
  | InitOnUpdate =>
      match first with
      | None => Ok (c, [])
      | Some (operators, id) =>
          match InitializeOperatorSet address script operators id c with
          | (_, Panic) => Panic
          | (c, Err e) => Ok (c, [e])
          | (c, Ok _) => Ok (c, [])
          end
      end
  end.

(** ** Properties *)

Section Theory.
Context `{B : BlsOps} `{H : HashOps} `{A : AbiOps} `{PO : PromOps}.
Context {G1 : GormOps StateRootUpdateModel} {G2 : GormOps OperatorSetUpdateModel}.
Context {Key : Type}.

#[local] Notation AggStartEnv := (AggStartEnv (Key := Key)).

(** The rollups of a broadcaster, each with the URL and the contract of its writer. *)
Definition served (b : RollupBroadcaster) : list (RollupId * RollupInfo) :=
  (λ w, (rw_rollupId w, mkRollupInfo (rw_sfflRegistryRollup w) (ec_rpcUrl (rw_client w)))) <$> rb_writers b.

Lemma new_writers_served (env : AggStartEnv) rollups signer address : ∀ ws mode,
  new_writers env rollups signer address = Ok ws → served (mkRollupBroadcaster ws mode) = rollups.
Proof.
  induction rollups as [|[id [addr url]] rollups IH]; intros ws mode; cbn [new_writers]; [by intros [= <-]|].
  intros (w & Hw & (ws' & Hws & [= <-])%res_bind_ok)%res_bind_ok.
  cbn [served rb_writers fmap list_fmap]. f_equal; [|exact (IH ws' mode Hws)].
  apply res_bind_ok in Hw as (client & Hc & Hw). repeat (apply res_bind_ok in Hw as (? & _ & Hw)).
  injection Hw as <-. cbn [rw_rollupId rw_sfflRegistryRollup rw_client ri_SFFLRegistryRollupAddr].
  by rewrite (NewSafeEthClient_url _ _ _ _ Hc).
Qed.

Lemma NewRollupBroadcaster_ok (env : AggStartEnv) rollups signer address b :
  (∀ m, as_rollups env m ≡ₚ map_to_list m) → NewRollupBroadcaster env rollups signer address = Ok b →
  served b ≡ₚ map_to_list rollups ∧
  ∃ n, as_GetNextOperatorSetUpdateId env = Ok n ∧
    rb_init b = if bool_decide (n = 0) then InitOnUpdate else InitEach n.
Proof.
  intros Hr (ws & Hws & (n & Hn & [= <-])%res_bind_ok)%res_bind_ok. split; [|eauto].
  apply new_writers_served with (mode := if bool_decide (n = 0) then InitOnUpdate else InitEach n) in Hws.
  by rewrite Hws.
Qed.

Lemma Aggregator_EnableMetrics_ok l reg reg' l' :
  Aggregator_EnableMetrics l reg = (reg', l', Ok tt) →
  l' = mkAggregatorListeners AggregatorMetrics.listener DbMetrics.listener (al_rpcServer l) (al_restServer l).
Proof.
  unfold Aggregator_EnableMetrics, Database_EnableMetrics, AggregatorMetrics.MakeAggregatorMetrics,
    DbMetrics.MakeDBMetrics.
  rewrite install_make. destruct (register_all _ _) as [r1 [[]| |]]; try done.
  rewrite install_make. destruct (register_all _ r1) as [r2 [[]| |]]; try done. by intros [= _ <-].
Qed.

Lemma NewAggregator_ok (env : AggStartEnv) config registry p :
  (∀ m, as_rollups env m ≡ₚ map_to_list m) → NewAggregator env config registry = Ok p →
  let path := if decide (cfg_AggregatorDatabasePath config = EmptyString) then "file::memory:?cache=shared"%string
              else cfg_AggregatorDatabasePath config in
  ∃ db n, as_open env path = Ok db ∧ as_GetNextOperatorSetUpdateId env = Ok n ∧
    pg_state p = mkAggregator (Seconds (cfg_AggregatorCheckpointInterval config)) NewMessageBlsAggregatorService
      NewMessageBlsAggregatorService NewMessageBlsAggregatorService ∅ db ∧
    served (pg_rollupBroadcaster p) ≡ₚ map_to_list (cfg_RollupsInfo config) ∧
    rb_init (pg_rollupBroadcaster p) = (if bool_decide (n = 0) then InitOnUpdate else InitEach n) ∧
    pg_checkpointInterval p = cfg_AggregatorCheckpointInterval config ∧
    pg_listeners p =
      (if cfg_EnableMetrics config
       then mkAggregatorListeners AggregatorMetrics.listener DbMetrics.listener RpcServerMetrics.none RestServerMetrics.none
       else no_agg_listeners).
Proof.
  intros Hr Hp path. unfold NewAggregator in Hp. do 8 (apply res_bind_ok in Hp as (? & _ & Hp)).
  apply res_bind_ok in Hp as ([db path'] & Hdb & Hp). apply res_bind_ok in Hp as (b & Hb & Hp).
  apply res_bind_ok in Hp as (ors & _ & Hp). apply res_bind_ok in Hp as ([reg ls] & Hm & [= <-]).
  apply NewRollupBroadcaster_ok in Hb as (Hserved & n & Hn & Hinit); [|done].
  apply res_bind_ok in Hdb as (db' & Hopen & (? & _ & (? & _ & [= <- <-])%res_bind_ok)%res_bind_ok).
  exists db', n. split_and!; try done. simpl.
  destruct (cfg_EnableMetrics config); [|by injection Hm as _ <-].
  apply res_bind_ok in Hm as (r & _ & Hm).
  destruct (Aggregator_EnableMetrics _ _) as [[r' l] [[]| |]] eqn:He; [|done..]. injection Hm as _ <-.
  by apply Aggregator_EnableMetrics_ok in He.
Qed.

Lemma servers_EnableMetrics_ok l reg reg1 l1 reg2 l2 :
  RpcServer_EnableMetrics l reg = (reg1, l1, Ok tt) → RestServer_EnableMetrics l1 reg1 = (reg2, l2, Ok tt) →
  l2 = mkAggregatorListeners (al_aggregator l) (al_database l) RpcServerMetrics.listener RestServerMetrics.listener.
Proof.
  unfold RpcServer_EnableMetrics, RestServer_EnableMetrics, RpcServerMetrics.MakeRpcServerMetrics,
    RestServerMetrics.MakeServerMetrics.
  rewrite install_make. destruct (register_all _ reg) as [r1 [[]| |]]; intros [= <- <-].
  rewrite install_make. destruct (register_all _ r1) as [r2 [[]| |]]; by intros [= _ <-].
Qed.

(** An aggregator that runs serves what its configuration file says.  If [aggregatorMain]
    gets as far as its loop, then the configured checkpoint interval is positive (an
    interval of zero passes the validation of the configuration and panics here); there is
    exactly one writer for each rollup that has an RPC URL and a registry address, with that
    URL and address, and no other; no rollup has only one of the two; the aggregation
    services and the task map are empty, and the database is the one at the configured path,
    or in memory if none is configured; the window of the first checkpoint is the configured
    number of milliseconds in whole seconds; and with metrics enabled all listeners are
    installed. *)
Theorem aggregator_from_config (HexToAddress : string → Address) HexToECDSA EcdsaPrivateKeyToAddress order
    (env : AggStartEnv) path ReadYaml NewZapLogger exists_ ReadJson flag (raw : ConfigRaw) p :
  (∀ m : gmap RollupId string, order m ≡ₚ map_to_list m) → (∀ m, as_rollups env m ≡ₚ map_to_list m) →
  ReadYaml path = Ok raw → is_u32 (raw_AggregatorCheckpointInterval raw) →
  aggregatorMain HexToAddress HexToECDSA EcdsaPrivateKeyToAddress order env path ReadYaml NewZapLogger exists_
    ReadJson flag = Ok p →
  let interval := raw_AggregatorCheckpointInterval raw in
  let dbPath := if decide (raw_AggregatorDatabasePath raw = EmptyString) then "file::memory:?cache=shared"%string
                else raw_AggregatorDatabasePath raw in
  0 < interval ∧
  dom (raw_RollupIdsToRpcUrls raw) = dom (raw_RollupIdsToRegistryAddresses raw) ∧
  NoDup (served (pg_rollupBroadcaster p)).*1 ∧
  (∀ id addr url, (id, mkRollupInfo addr url) ∈ served (pg_rollupBroadcaster p) ↔
     raw_RollupIdsToRpcUrls raw !! id = Some url ∧
     HexToAddress <$> raw_RollupIdsToRegistryAddresses raw !! id = Some addr) ∧
  (∃ db, as_open env dbPath = Ok db ∧
     pg_state p = mkAggregator (interval / 1000) NewMessageBlsAggregatorService NewMessageBlsAggregatorService
       NewMessageBlsAggregatorService ∅ db) ∧
  pg_listeners p = (if raw_EnableMetrics raw then aggregator_listeners else no_agg_listeners).
Proof.
  intros Ho Hr Hyaml Hint Hmain interval dbPath. unfold aggregatorMain, NewConfigRaw in Hmain.
  destruct (decide (path = EmptyString)) as [|_]; [done|]. rewrite Hyaml in Hmain. cbn [res_bind] in Hmain.
  apply res_bind_ok in Hmain as (? & _ & Hmain). apply res_bind_ok in Hmain as (config & Hc & Hmain).
  apply res_bind_ok in Hmain as (agg & Hagg & Hmain). apply res_bind_ok in Hmain as ([reg ls] & Hm & Hmain).
  apply res_bind_ok in Hmain as (u & Hs & [= <-]). cbn [pg_rollupBroadcaster pg_state pg_listeners fst snd].
  apply NewConfig_ok in Hc as (info & Hinfo & Hroll & Hi & Hdb & Hen); [|done].
  pose proof (CompileRollupsInfo_spec HexToAddress order raw Ho) as Hspec. rewrite Hinfo in Hspec.
  destruct Hspec as [Hdom Hlook].
  apply NewAggregator_ok in Hagg as (db & n & Hopen & _ & Hst & Hserved & _ & Hpi & Hls); [|done].
  rewrite Hdb in Hopen. rewrite Hroll in Hserved.
  split_and!.
  - unfold aggregator_Start in Hs. rewrite Hpi, Hi in Hs. fold interval in Hs.
    destruct (Z.leb_spec (interval * 1000000) 0); [done|lia].
  - done.
  - rewrite Hserved. apply NoDup_fst_map_to_list.
  - intros id addr url. rewrite Hserved, elem_of_map_to_list, Hlook.
    destruct (raw_RollupIdsToRegistryAddresses raw !! id), (raw_RollupIdsToRpcUrls raw !! id); naive_solver.
  - exists db. split; [done|]. rewrite Hst, Hi. f_equal.
    unfold Seconds. change 1000000000 with (1000 * 1000000). by rewrite Z.div_mul_cancel_r.
  - rewrite Hen in *. destruct (raw_EnableMetrics raw); [|by injection Hm as _ <-].
    destruct (RpcServer_EnableMetrics _ _) as [[r1 l1] [[]| |]] eqn:H1; [|done..].
    destruct (RestServer_EnableMetrics _ _) as [[r2 l2] [[]| |]] eqn:H2; [|done..]. injection Hm as _ <-.
    rewrite (servers_EnableMetrics_ok _ _ _ _ _ _ H1 H2), Hls. done.
Qed.

(** The waiting goroutine takes the first update whose set it can fetch. *)
Lemma first_update_found getSet failed id ops rest :
  Forall (λ i, ∃ e, getSet i = Err e) failed → getSet id = Ok ops →
  (initializeRollupOperatorSetsOnUpdate getSet
     ((IeOperatorSetUpdated <$> failed) ++ IeOperatorSetUpdated id :: rest)).2 = Some (converted <$> ops, id).
Proof.
  intros Hf Hid. induction Hf as [|i failed [e He] _ IH]; simpl; [by rewrite Hid|].
  rewrite He. by destruct (initializeRollupOperatorSetsOnUpdate _ _).
Qed.

(** What it takes for a rollup to be initialized: its node works, and the operator set can
    be fetched, before the fifth attempt or at some update. *)
Record can_initialize {N : Bn254Ops} (K : BN254G1Point → Prop) (env : AggStartEnv) (getSet : nat → Z → go (list RegistryOperator) * bool)
    (getSetOn : Z → go (list RegistryOperator)) (evs : list InitEvent) (ops : list RegistryOperator) (next : Z) : Prop := {
  ci_set : set_ok K ops;
  ci_range : 0 < next < 2 ^ 64;
  ci_fetched :
    match as_GetNextOperatorSetUpdateId env with
    | Ok 0 => ∃ failed rest, evs = (IeOperatorSetUpdated <$> failed) ++ IeOperatorSetUpdated (next - 1) :: rest ∧
                Forall (λ i, ∃ e, getSetOn i = Err e) failed ∧ getSetOn (next - 1) = Ok ops
    | Ok n => n = next ∧ ∃ k, (k < 5)%nat ∧ (∀ i, (i < k)%nat → ∃ e, getSet i (n - 1) = (Err e, false)) ∧
                (getSet k (n - 1)).1 = Ok ops
    | _ => False
    end }.

(** C24: every configured rollup is initialized to a mainnet operator set.  An aggregator
    that starts has for each configured rollup a writer whose new registry, once the set of
    update [next - 1] could be fetched, holds exactly that set and expects update [next]: the update before mainnet's next one if mainnet already has updates, else
    the first one whose set can be fetched.  A registry that already expects some update is
    left alone when mainnet has updates. *)
Theorem rollups_initialized {N : Bn254Ops} {NL : Bn254Laws N} (K : BN254G1Point → Prop) address threshold
    (env : AggStartEnv) config registry p rollupId info getSet getSetOn evs ops next script c :
  (∀ q, K q → g1_valid q = true) → (∀ q q', K q → K q' → hashG1Point q = hashG1Point q' → q = q') →
  (∀ m, as_rollups env m ≡ₚ map_to_list m) → NewAggregator env config registry = Ok p →
  cfg_RollupsInfo config !! rollupId = Some info →
  can_initialize K env getSet getSetOn evs ops next → healthy (script 0%nat) →
  initialize threshold address = Ok (ch_registry c) →
  let mode := rb_init (pg_rollupBroadcaster p) in
  let first := (initializeRollupOperatorSetsOnUpdate getSetOn evs).2 in
  (rollupId, info) ∈ served (pg_rollupBroadcaster p) ∧
  (∃ c' es, init_rollup address mode (Ok tt) getSet first script c = Ok (c', es) ∧
     holds K threshold ops next (ch_registry c')) ∧
  (mode ≠ InitOnUpdate → ∀ d, reg_nextOperatorUpdateId (ch_registry d) ≠ 0 →
     init_rollup address mode (Ok tt) getSet first script d = Ok (d, [])).
Proof.
  intros HKv HKi Hr Hp Hinfo [Hset Hrange Hf] Hs Hc mode first.
  apply NewAggregator_ok in Hp as (db & n & _ & Hn & _ & Hserved & Hmode & _); [|done].
  rewrite Hn in Hf. split_and!.
  - rewrite Hserved. by apply elem_of_map_to_list.
  - unfold mode, first. rewrite Hmode. destruct (decide (n = 0)) as [->|Hn0].
    + destruct Hf as (failed & rest & -> & Hfailed & Hops). rewrite bool_decide_true by done. cbn [init_rollup].
      rewrite (first_update_found getSetOn failed (next - 1) ops rest) by done.
      destruct (healthy_init address K HKv HKi threshold ops (next - 1) script c) as (c' & Hi & Hh); [lia..|done|done|done|].
      rewrite Z.sub_add in Hh. exists c', []. rewrite Hi. by split_and!.
    + rewrite bool_decide_false by done. cbn [init_rollup].
      assert (n = next ∧ ∃ k, (k < 5)%nat ∧ (∀ i, (i < k)%nat → ∃ e, getSet i (n - 1) = (Err e, false)) ∧
        (getSet k (n - 1)).1 = Ok ops) as (-> & k & Hk & Herr & Hok) by by destruct n.
      destruct (try_initialize address K HKv HKi threshold next ops k getSet script c) as (c' & es & Hi & _ & Hh); [done..|].
      eauto 10.
  - unfold mode. rewrite Hmode. case_bool_decide; [done|]. intros _ d Hd. by apply try_initialize_skips.
Qed.

End Theory.

(** ** The relayer *)

Section Relayer.
Context `{PO : PromOps} {PL : PromLaws PO} `{CO : CliOps} {CL : CliLaws CO}.

Record RelayerProcess := mkRelayerProcess {
  pr_rpcClient : SafeEthClient;
  pr_rpcUrl : string;
  pr_daAccountId : string;
  pr_listener : RelayerMetrics.SelectiveListener;
  pr_metricsServer : option RelayerMetrics.MetricsServer }.

Definition NAMESPACE_ID : Z := 1.

(** [NewConfigFile] is that of the NEAR client, given key path, account, network and
    namespace. *)
Definition NewRelayerFromConfig (dial : string → go unit) (NewConfigFile : string → string → string → Z → go unit)
    (config : RelayerConfig) : go RelayerProcess :=
  let? rpcClient := NewSafeEthClient dial (rc_RpcUrl config) [] in
  let? _ := NewConfigFile (rc_KeyPath config) (rc_DaAccountId config) (rc_Network config) NAMESPACE_ID in
  Ok (mkRelayerProcess rpcClient (rc_RpcUrl config) (rc_DaAccountId config) RelayerMetrics.none None).

(** [relayerMain] up to [Start]; [mux] holds the paths the HTTP mux of the process serves. *)
Definition relayerMain (dial : string → go unit) (NewConfigFile : string → string → string → Z → go unit)
    (NewZapLogger : bool → go unit) (mux : gset string) (config : RelayerConfig) : go RelayerProcess :=
  let? _ := NewZapLogger (rc_Production config) in
  let? rel := NewRelayerFromConfig dial NewConfigFile config in
  if negb (bool_decide (rc_MetricsIpPortAddr config = EmptyString)) then
    match Relayer_EnableMetrics (pr_listener rel) NewRegistry with
    | (_, listener, Ok _) =>
        let? server := RelayerMetrics.StartMetricsServer mux in
        Ok (mkRelayerProcess (pr_rpcClient rel) (pr_rpcUrl rel) (pr_daAccountId rel) listener (Some server))
    | (_, _, Err e) => Err e
    | (_, _, Panic) => Panic
    end
  else Ok rel.

(** A relayer started with the command line compiled from a configuration starts if its
    node and the NEAR client do: it reads from the configured node and submits for the
    configured account, and it has its metrics exactly if an address for them is set. *)
Theorem relayer_from_command_line dial NewConfigFile NewZapLogger ReadYaml (c : RelayerConfig) :
  Forall (λ v, starts_with_dash v = false)
    [rc_RpcUrl c; rc_DaAccountId c; rc_KeyPath c; rc_Network c; rc_MetricsIpPortAddr c] →
  NewZapLogger (rc_Production c) = Ok tt → dial (rc_RpcUrl c) = Ok tt →
  NewConfigFile (rc_KeyPath c) (rc_DaAccountId c) (rc_Network c) NAMESPACE_ID = Ok tt →
  ∃ p, (let? config := relayer_main ReadYaml (CompileCMD c) in
        relayerMain dial NewConfigFile NewZapLogger ∅ config) = Ok p ∧
    ec_rpcUrl (pr_rpcClient p) = rc_RpcUrl c ∧ pr_daAccountId p = rc_DaAccountId c ∧
    (rc_MetricsIpPortAddr c ≠ EmptyString ↔ pr_listener p = RelayerMetrics.listener) ∧
    (rc_MetricsIpPortAddr c ≠ EmptyString ↔ is_Some (pr_metricsServer p)).
Proof.
  intros Hv Hlog Hdial Hnear. rewrite compile_cmd_lemma by done. cbn [res_bind].
  unfold relayerMain. rewrite Hlog. cbn [res_bind].
  unfold NewRelayerFromConfig, NewSafeEthClient. cbn [foldl ec_createClient]. rewrite Hdial. cbn [res_bind].
  rewrite Hnear. cbn [res_bind pr_listener]. case_bool_decide as Hm; cbn [negb].
  - eexists. split; [done|]. split_and!; [done..| |]; (split; [done|]).
    + intros Hn. discriminate Hn.
    + intros [? [=]].
  - destruct (register_all_ok RelayerMetrics.collectors NewRegistry) as (r' & Hr & _).
    { by vm_compute. }
    { rewrite new_registered. apply disjoint_empty_l. }
    unfold Relayer_EnableMetrics, RelayerMetrics.MakeRelayerMetrics. rewrite install_make, Hr.
    eexists. split; [done|]. by split_and!.
Qed.

End Relayer.

Module Examples.

#[local] Existing Instances ToyBls.ops ToyHash.ops ToyAbi.ops ToyBls.bls_laws ToyBn254.ops ToyBn254.laws.
#[local] Existing Instances DatabaseTheory.Examples.G1 DatabaseTheory.Examples.G2.
#[local] Existing Instance MetricsTheory.Examples.ToyProm.

(** A mainnet whose next update is [next], over an empty database. *)
Definition env (next : Z) : AggStartEnv (Key := Z) := {|
  as_dial _ := Ok tt;
  as_NewCollector _ reg := Ok reg;
  as_eth := OperatorStartup.Examples.eth;
  as_ethWs := OperatorStartup.Examples.eth;
  as_ChainID _ := Ok 31337;
  as_SignerFromConfig _ _ := Ok tt;
  as_NewPrivateKeyWallet _ _ := Ok tt;
  as_NewContractSFFLRegistryRollup _ _ := Ok tt;
  as_open _ := Ok DatabaseTheory.Examples.empty_db;
  as_AutoMigrate := Ok tt;
  as_sqlDB := Ok tt;
  as_closeDB := Ok tt;
  as_GetNextOperatorSetUpdateId := Ok next;
  as_operatorRegistrations := Ok OperatorRegistrations.Examples.start;
  as_NewEigenMetrics reg := Ok reg;
  as_rollups := map_to_list |}.

#[local] Notation raw := Config.Examples.raw.
#[local] Notation hex := Config.Examples.hex.
#[local] Notation parse_key := Config.Examples.parse_key.

Definition main (next : Z) : go AggregatorProcess :=
  aggregatorMain hex parse_key (λ _, Ok 7) map_to_list (env next) "config.yaml" (λ _, Ok raw) (λ _, Ok tt) true
    (Ok (mkContractsRaw "0xregistry" "0xretriever")) "0xabcd".

Lemma main_runs : ∃ p, main 4 = Ok p.
Proof.
  destruct (main 4) as [p| |] eqn:Hm; [eauto| |];
    (assert (match main 4 with Ok _ => true | _ => false end = true) as Hok by by vm_compute);
    rewrite Hm in Hok; discriminate Hok.
Qed.

Lemma aggregator_from_config_witness :
  ∃ p, main 4 = Ok p ∧ (3, mkRollupInfo (hex "0xabcd") "http://rollup3") ∈ served (pg_rollupBroadcaster p) ∧
    pg_listeners p = aggregator_listeners.
Proof.
  destruct main_runs as [p Hp]. exists p. split; [exact Hp|].
  destruct (aggregator_from_config hex parse_key (λ _, Ok 7) map_to_list (env 4) "config.yaml" (λ _, Ok raw)
    (λ _, Ok tt) true (Ok (mkContractsRaw "0xregistry" "0xretriever")) "0xabcd" raw p)
    as (_ & _ & _ & Hserved & _ & Hls);
    [reflexivity|reflexivity|reflexivity|split; vm_compute; congruence|exact Hp|].
  split; [|exact Hls]. apply Hserved. split; reflexivity.
Defined.

Definition config : Config Z :=
  mkConfig 1 "http://eth" "ws://eth" {[ 3 := mkRollupInfo 6 "http://rollup3" ]} 1 2 ":8090" ":9092" "db"
    1800000000000 false 7 false ":9091".

(** Mainnet has no update yet; the set of update 0 cannot be fetched, that of update 1 can. *)
Lemma rollups_initialized_witness :
  ∃ p c' es, NewAggregator (env 0) config NewRegistry = Ok p ∧
    init_rollup 7 (rb_init (pg_rollupBroadcaster p)) (Ok tt) (λ _ _, (Err ContextCanceled, false))
      (Some (converted <$> Rollups.Examples.set0, 1)) (λ _, Rollups.Examples.fine)
      (mkChain Rollups.Examples.fresh []) = Ok (c', es) ∧
    holds RegistryContractTheory.Examples.small_key 66 Rollups.Examples.set0 2 (ch_registry c').
Proof.
  destruct (NewAggregator (env 0) config NewRegistry) as [p| |] eqn:Hp.
  2-3: assert (match NewAggregator (env 0) config NewRegistry with Ok _ => true | _ => false end = true) as Hok
         by (by vm_compute); rewrite Hp in Hok; discriminate Hok.
  destruct (rollups_initialized RegistryContractTheory.Examples.small_key 7 66
    (env 0) config NewRegistry p 3 (mkRollupInfo 6 "http://rollup3") (λ _ _, (Err ContextCanceled, false))
    (λ id, if id =? 1 then Ok Rollups.Examples.set0 else Err ContextCanceled)
    [IeOperatorSetUpdated 0; IeOperatorSetUpdated 1] Rollups.Examples.set0 2 (λ _, Rollups.Examples.fine)
    (mkChain Rollups.Examples.fresh [])) as (_ & (c' & es & Hi & Hh) & _);
    [exact RegistryContractTheory.Examples.small_valid|exact RegistryContractTheory.Examples.small_inj
    |reflexivity|exact Hp|reflexivity| |exact Rollups.Examples.fine_healthy|reflexivity|].
  - split.
    + exact Rollups.Examples.set0_ok.
    + lia.
    + exists [0], []. split_and!; [reflexivity| |reflexivity]. constructor; [by eexists|constructor].
  - exists p, c', es. split_and!; [reflexivity|exact Hi|exact Hh].
Defined.

End Examples.
