(* ===== verification/System.v ===== *)
(** * The system: operators, RPC server, aggregation, database and REST API together

    [serve] is one RPC call of an operator, run through the server, the aggregator and the
    aggregation service, with the responses it causes delivered to the aggregator's main
    loop.  The end-to-end theorem composes the attestor's signatures, the server, the
    aggregator's checks, the progress of the aggregation ([BlsAggProgress]), the database
    and the REST API. *)

From stdpp Require Import relations pretty.
From S2P Require Import Prelude CoreTypes Instances Messages MessagesTheory.
From S2P Require Import BlsAgg BlsAggTheory BlsAggService BlsAggProgress.
From S2P Require Import OperatorRegistrations Database DatabaseTheory Aggregator AggregatorTheory Servers.
From S2P Require Import Attestor Operator BlsAggExamples AggregatorExamples ServersExamples.

Section System.
Context `{B : BlsOps} `{H : HashOps} `{A : AbiOps}.
Context {G1 : GormOps StateRootUpdateModel} {G2 : GormOps OperatorSetUpdateModel}.
Context {S : Type} `{OI : !OperatorsInfo S}.

#[local] Notation AggEnv := (AggEnv (S := S)).
#[local] Notation BlsResponse := (MessageBlsAggregationServiceResponse (M := ServiceMessage)).
#[local] Notation Call := (AggEnv * SignedStateRootUpdateMessage)%type.
#[local] Notation Event := (AvsEnv * GEvent (M := ServiceMessage))%type.

Fixpoint deliver_all (env : AggEnv) (agg : Aggregator) (resps : list BlsResponse) : go Aggregator :=
  match resps with
  | [] => Ok agg
  | resp :: resps =>
      let? r := agg_deliver env agg (StateRootResponseC resp) in deliver_all env r.1 resps
  end.

(** A call of an operator, and the main loop taking the responses it caused. *)
Definition serve (agg : Aggregator) (c : Call) : go Aggregator :=
  let? ro := rpc_ProcessSignedStateRootUpdateMessage c.1 agg (Some c.2) in
  deliver_all c.1 (oc_agg (ro_app ro)) (oc_responses (ro_app ro)).

Fixpoint serve_all (agg : Aggregator) (calls : list Call) : go Aggregator :=
  match calls with
  | [] => Ok agg
  | c :: calls => let? agg := serve agg c in serve_all agg calls
  end.

(** What a call sends to the goroutine of its message: nothing if the server or the
    aggregator refuses it. *)
Definition call_event (c : Call) : option Event :=
  let m := c.2 in
  if is_ok (sru_IsValid (Some m)) && is_ok (validateMessageTimestamp c.1 (sru_Timestamp (ssru_Message m)))
     && is_ok (verifySignature c.1 (AnyStateRootUpdate m)) then
    match sru_Digest (ssru_Message m), ssru_BlsSignature m with
    | Ok d, Some sig =>
        Some (ae_avs c.1,
              EvSigned (mkSignedMessage (MsgStateRootUpdate (ssru_Message m)) d sig (ssru_OperatorId m)))
    | _, _ => None
    end
  else None.

Lemma call_event_digest c e : call_event c = Some e →
  ∃ sm, e = (ae_avs c.1, EvSigned sm) ∧ digest_matches sm ∧
    sm_Message sm = MsgStateRootUpdate (ssru_Message c.2).
Proof.
  unfold call_event. destruct (_ && _); [|done].
  destruct (sru_Digest (ssru_Message c.2)) as [d| |] eqn:Hd; [|done..].
  destruct (ssru_BlsSignature c.2) as [sig|]; [|done]. intros [= <-]. eexists. split; [done|]. by split.
Qed.

(** A signature that was verified has its affine point. *)
Lemma call_event_set {BL : BlsLaws B} c env sm :
  call_event c = Some (env, EvSigned sm) → g1_affine_nil (sm_BlsSignature sm) = false.
Proof.
  unfold call_event. destruct (verifySignature c.1 _) as [[]| |] eqn:Hv; [|by rewrite andb_false_r..].
  destruct (_ && _); [|done]. destruct (sru_Digest (ssru_Message c.2)) as [d| |] eqn:Hd; [|done..].
  destruct (ssru_BlsSignature c.2) as [sig|] eqn:Hs; [|done]. intros [= <- <-]. simpl.
  unfold verifySignature in Hv. simpl in Hv. rewrite Hd in Hv. simpl in Hv.
  destruct (operator_info _ _) as [info|]; [|done]. rewrite Hs in Hv.
  destruct (oi_Pubkeys info) as [pk|]; [|done]. destruct (g1_affine_nil sig) eqn:Hn; [|done].
  by rewrite (bls_verify_nil _ _ _ Hn) in Hv.
Qed.

(** ** One call *)

Context (Habi : ∀ vs, abi_pack vs ≠ Panic) (Hverify : verify_total).

Definition timestamp_total (env : AggEnv) ts : validateMessageTimestamp env ts ≠ Panic.
Proof. unfold validateMessageTimestamp. by destruct (_ && _). Qed.

Lemma serve_refused agg (c : Call) :
  operator_valid (ae_operatorRegistrationsService c.1) → signature_set (ArgStateRootUpdate (Some c.2)) →
  call_event c = None → serve agg c = Ok agg.
Proof.
  destruct c as [env m]. intros Hvalid Hset Hev. unfold serve, rpc_ProcessSignedStateRootUpdateMessage.
  cbn [fst snd]. unfold call_event in Hev. cbn [fst snd] in Hev.
  destruct (sru_IsValid (Some m)) as [[]|e|] eqn:Hv; [|done|].
  2:{ exfalso. revert Hv. simpl. by destruct (ssru_BlsSignature m). }
  unfold ProcessSignedStateRootUpdateMessage.
  pose proof (timestamp_total env (sru_Timestamp (ssru_Message m))) as Ht.
  destruct (validateMessageTimestamp env _) as [[]|e|]; [|done|done]. clear Ht.
  pose proof (verifySignature_total env (ArgStateRootUpdate (Some m)) Hvalid Habi Hverify Hv I Hset) as Hvs.
  cbn [arg_any] in Hvs. destruct (verifySignature env (AnyStateRootUpdate m)) as [[]|e|] eqn:Hs; [|done|done].
  exfalso. cbn [is_ok andb] in Hev. unfold verifySignature, any_Digest in Hs.
  destruct (sru_Digest (ssru_Message m)) as [d| |]; [|done..]. simpl in Hv. by destruct (ssru_BlsSignature m).
Qed.

(** The goroutine [g] of [key] runs in the service, or would be started from the snapshot
    [vi0] by the next initialization. *)
Definition sv_holds (key : MessageKey) (vi0 : ValidationInfo) (sv : Service) (g : Goroutine (M := ServiceMessage))
    : Prop :=
  gr_key g = key ∧
  ((sv_signedMessageCs sv !! key = None ∧ g = newGoroutine key vi0) ∨
   ∃ c, sv_signedMessageCs sv !! key = Some c ∧ sv_goroutines sv !! c = Some g).

Lemma initialize_holds env sv key vi0 g qs ps blk :
  sv_holds key vi0 sv g → validateQuorumThresholdPercentages ps = Ok tt →
  fetchValidationInfo env qs ps blk = Ok vi0 →
  ∃ sv' c, InitializeMessageIfNotExists env sv key qs ps blk = (sv', Ok tt) ∧
    sv_signedMessageCs sv' !! key = Some c ∧ sv_goroutines sv' !! c = Some g.
Proof.
  intros [_ Hg] Hps Hfetch. unfold InitializeMessageIfNotExists, initializeMessageChan. rewrite Hps, Hfetch.
  destruct Hg as [[-> ->]|(c & Hc & Hg)]; [|rewrite Hc; by exists sv, c].
  do 2 eexists. split; [done|]. simpl. by rewrite !lookup_insert_eq.
Qed.

Lemma signature_holds env sv (m : ServiceMessage) d sig o c g g' rep out vi0 :
  sv_signedMessageCs sv !! msg_Key m = Some c → sv_goroutines sv !! c = Some g → gr_key g = msg_Key m →
  msg_Digest m = Ok d → gstep env g (EvSigned (mkSignedMessage m d sig o)) = Ok (g', rep, out) →
  ∃ sv' r, ProcessNewSignature env sv None m sig o = Ok (sv', r, out) ∧
    (gr_phase g' ≠ Closed → sv_holds (msg_Key m) vi0 sv' g').
Proof.
  intros Hc Hg Hk Hd Hstep. unfold ProcessNewSignature, sendSignedMessage. rewrite Hc, Hd, Hg, Hstep.
  cbn [res_bind fst snd]. do 2 eexists. split; [done|]. intros Hph.
  destruct (gstep_ok _ _ _ _ _ _ Hstep) as (Hkey & _). rewrite Hk in Hkey. split; [done|]. right. exists c.
  unfold after_step. destruct (gr_phase g'); [..|done]; simpl; by rewrite lookup_insert_eq.
Qed.

Definition holding (key : MessageKey) (vi0 : ValidationInfo) (db : Database) (agg : Aggregator)
    (g : Goroutine (M := ServiceMessage)) : Prop :=
  ag_msgDb agg = db ∧ sv_holds key vi0 (ag_stateRootUpdateBlsAggregationService agg) g.

(** A call that is passed on makes the goroutine take one step; what that reports is
    delivered. *)
Lemma serve_event key vi0 db agg g (c : Call) sm g' rep out :
  holding key vi0 db agg g → call_event c = Some (ae_avs c.1, EvSigned sm) → sru_Key (ssru_Message c.2) = key →
  fetchValidationInfo (ae_avs c.1) QUORUM_NUMBERS [MESSAGE_AGGREGATION_QUORUM_THRESHOLD] 0 = Ok vi0 →
  gstep (ae_avs c.1) g (EvSigned sm) = Ok (g', rep, out) →
  ∃ agg', serve agg c = deliver_all c.1 agg' out ∧ ag_msgDb agg' = db ∧
    (gr_phase g' ≠ Closed → holding key vi0 db agg' g').
Proof.
  destruct c as [env m]. cbn [fst snd]. intros [Hdb Hg] Hev Hkey Hfetch Hstep.
  unfold call_event in Hev. cbn [fst snd] in Hev. unfold serve, rpc_ProcessSignedStateRootUpdateMessage.
  cbn [fst snd]. destruct (sru_IsValid (Some m)) as [[]|e|]; [|done..].
  unfold ProcessSignedStateRootUpdateMessage, forward.
  destruct (validateMessageTimestamp env _) as [[]|e|]; [|done..].
  destruct (verifySignature env (AnyStateRootUpdate m)) as [[]|e|]; [|done..]. cbn [is_ok andb] in Hev.
  destruct (sru_Digest (ssru_Message m)) as [d| |] eqn:Hd; [|done..].
  destruct (ssru_BlsSignature m) as [sig|]; [|done]. injection Hev as <-. rewrite Hkey.
  destruct (initialize_holds (ae_avs env) _ key vi0 g QUORUM_NUMBERS [MESSAGE_AGGREGATION_QUORUM_THRESHOLD] 0
    Hg eq_refl Hfetch) as (sv' & ch & -> & Hch & Hgo).
  destruct (signature_holds (ae_avs env) sv' (MsgStateRootUpdate (ssru_Message m)) d sig (ssru_OperatorId m) ch g g' rep out vi0)
    as (sv2 & r & -> & Hnext); simpl; rewrite ?Hkey; try done; [apply Hg|].
  cbn [res_bind fst snd oc_agg oc_responses ro_app set_result].
  eexists. split; [done|]. split; [done|]. intros Hph. split; [done|]. simpl in Hnext. rewrite Hkey in Hnext. auto.
Qed.

(** ** Sequences of calls *)

(** The calls of one rollup height: they agree on the key, the registry has the same
    snapshot for all of them, and its later queries are answered; a signature that is
    there has its affine point. *)
Record call_ok (vi0 : ValidationInfo) (rollupId : RollupId) (height : BlockNumber) (c : Call) : Prop := {
  ck_registrations : operator_valid (ae_operatorRegistrationsService c.1);
  ck_signature : signature_set (ArgStateRootUpdate (Some c.2));
  ck_rollup : sru_RollupId (ssru_Message c.2) = rollupId;
  ck_height : sru_BlockHeight (ssru_Message c.2) = height;
  ck_bytes : msg_bytes32 (ssru_Message c.2);
  ck_snapshot : fetchValidationInfo (ae_avs c.1) QUORUM_NUMBERS [MESSAGE_AGGREGATION_QUORUM_THRESHOLD] 0 = Ok vi0;
  ck_indices : indices_answered (ae_avs c.1);
}.

Definition height_key (rollupId : RollupId) (height : BlockNumber) : MessageKey :=
  sru_Key (mkStateRootUpdate rollupId height 0 [] [] []).

Lemma ck_key vi0 r h c : call_ok vi0 r h c → sru_Key (ssru_Message c.2) = height_key r h.
Proof. intros Hc. unfold height_key, sru_Key. simpl. by rewrite (ck_rollup _ _ _ _ Hc), (ck_height _ _ _ _ Hc). Qed.

Lemma serve_all_app agg calls1 calls2 :
  serve_all agg (calls1 ++ calls2) = (let? agg := serve_all agg calls1 in serve_all agg calls2).
Proof.
  revert agg. induction calls1 as [|c calls1 IH]; intros agg; simpl; [done|].
  destruct (serve agg c); simpl; [apply IH|done..].
Qed.

Lemma serve_all_silent vi0 r h db calls : ∀ agg g g1,
  Forall (call_ok vi0 r h) calls → holding (height_key r h) vi0 db agg g → gr_phase g ≠ Closed →
  grun g (omap call_event calls) = Ok (g1, []) →
  ∃ agg1, serve_all agg calls = Ok agg1 ∧ holding (height_key r h) vi0 db agg1 g1.
Proof.
  induction calls as [|c calls IH]; intros agg g g1 Hcs Hh Hph Hrun.
  { injection Hrun as <-. by exists agg. }
  apply Forall_cons in Hcs as [Hc Hcs]. cbn [omap list_omap serve_all] in Hrun |- *.
  destruct (call_event c) as [e|] eqn:He.
  2:{ rewrite serve_refused by (done || apply Hc). by apply (IH agg g). }
  destruct (call_event_digest c e He) as (sm & -> & _). cbn [grun] in Hrun.
  apply res_bind_ok in Hrun as ([[g' rep] out] & Hs & ([g2 out2] & Hrun & Heq)%res_bind_ok).
  cbn [fst snd] in Hrun, Heq. injection Heq as -> Hout. apply app_eq_nil in Hout as [-> ->].
  destruct (serve_event _ _ _ _ _ _ _ _ _ _ Hh He (ck_key _ _ _ _ Hc) (ck_snapshot _ _ _ _ Hc) Hs)
    as (agg' & -> & _ & Hh').
  assert (gr_phase g' ≠ Closed) as Hph'.
  { by destruct (gstep_finished _ _ _ _ _ _ Hph Hs) as [[? _]|(_ & ? & ? & _)]. }
  simpl. by apply (IH agg' g'); auto.
Qed.

Lemma omap_split {X Y} (f : X → option Y) l pre y post :
  omap f l = pre ++ y :: post →
  ∃ l1 x l2, l = l1 ++ x :: l2 ∧ omap f l1 = pre ∧ f x = Some y.
Proof.
  revert pre. induction l as [|x l IH]; intros pre Hl; simpl in Hl; [by destruct pre|].
  destruct (f x) as [z|] eqn:Hx.
  - destruct pre as [|w pre]; simplify_eq/=; [by exists [], x, l|].
    destruct (IH pre H1) as (l1 & x' & l2 & -> & <- & ?). exists (x :: l1), x', l2.
    split_and!; [done| |done]. simpl. by rewrite Hx.
  - destruct (IH pre Hl) as (l1 & x' & l2 & -> & <- & ?). exists (x :: l1), x', l2.
    split_and!; [done| |done]. simpl. by rewrite Hx.
Qed.

(** ** End to end *)

(** The operator [o] sends, as its attestor signed it, the state root update [m]: it is
    registered with the aggregator and in the registry snapshot under its key, and the
    message is recent. *)
Definition honest_call (vi0 : ValidationInfo) (m : StateRootUpdateMessage) (o : OperatorId) (c : Call) : Prop :=
  ∃ kp header found op,
    attest kp o (sru_RollupId m) header found = Ok (Some c.2) ∧ ssru_Message c.2 = m ∧
    registered kp o c.1 ∧ validateMessageTimestamp c.1 (sru_Timestamp m) = Ok tt ∧
    vi_operatorsAvsStateDict vi0 !! o = Some op ∧ oas_G2Pubkey op = Some (GetPubKeyG2 kp).

Lemma honest_call_event {BL : BlsLaws B} vi0 m d o (c : Call) :
  honest_call vi0 m o c → sru_Digest m = Ok d →
  ∃ kp op, call_event c = Some (ae_avs c.1,
      EvSigned (mkSignedMessage (MsgStateRootUpdate m) d (SignMessage kp d) o)) ∧
    vi_operatorsAvsStateDict vi0 !! o = Some op ∧ oas_G2Pubkey op = Some (GetPubKeyG2 kp).
Proof.
  intros (kp & hd & found & op & Hatt & Hm & Hreg & Hts & Hop & Hpk) Hd. exists kp, op. split; [|done].
  pose proof (attested_accepted kp o c.1 _ _ _ _ Hreg Hatt) as Hacc. simpl in Hacc.
  unfold attest, SignStateRootUpdateMessage in Hatt.
  set (msg := mkStateRootUpdate _ _ _ _ _ _) in Hatt. clearbody msg.
  destruct (sru_Digest msg) as [d'| |] eqn:Hd'; [|done..]. simpl in Hatt. injection Hatt as Hc.
  destruct c as [env signed]. simpl in *. subst signed. simpl in Hm. subst msg.
  assert (d' = d) as -> by congruence. unfold call_event. cbn [fst snd ssru_Message ssru_BlsSignature sru_IsValid].
  rewrite Hts, Hacc, Hd. done.
Qed.

Lemma honest_submitted {BL : BlsLaws B} vi0 m d o (c : Call) calls :
  honest_call vi0 m o c → c ∈ calls → sru_Digest m = Ok d → submitted vi0 (omap call_event calls) o d.
Proof.
  intros Hc Hin Hd. destruct (honest_call_event vi0 m d o c Hc Hd) as (kp & op & He & Hop & Hpk).
  exists (ae_avs c.1), (mkSignedMessage (MsgStateRootUpdate m) d (SignMessage kp d) o), op, (GetPubKeyG2 kp).
  split_and!; [|done..|apply bls_verify_sign].
  apply list_elem_of_omap. eauto.
Qed.

Lemma sru_Digest_length {HL : HashLaws H} m d : sru_Digest m = Ok d → length d = 32%nat.
Proof.
  unfold sru_Digest, HashMessageWithPrefix. intros (? & _ & (? & _ & [= <-])%res_bind_ok)%res_bind_ok.
  unfold Keccak256. by rewrite length_take, keccak256_length.
Qed.

(** The database accepts the writes of a state root update with its aggregation. *)
Definition db_accepts (db : Database) : Prop := ∀ m a, ∃ d1 row d2,
  StoreStateRootUpdate db m = (d1, Ok row) ∧ StoreStateRootUpdateAggregation d1 row a = (d2, Ok tt).

Context {BL : BlsLaws B} {HL : HashLaws H}.
Context {L1 : GormLaws StateRootUpdateModel G1} {L2 : GormLaws OperatorSetUpdateModel G2}.

(** The first report of a run carries an aggregate signature that verifies. *)
Lemma first_report_verifies (vi0 : ValidationInfo) key pre env sm g1 g2 rep (r : BlsResponse) :
  vi_aggregatedOperatorsDict vi0 = ∅ → Forall (event_ok digest_matches) pre → digest_matches sm →
  grun (newGoroutine key vi0) pre = Ok (g1, []) → gstep env g1 (EvSigned sm) = Ok (g2, rep, [r]) →
  reached (resp_Status r) →
  ∃ apk sig, mba_SignersApkG2 (resp_Aggregation r) = Some apk ∧
    mba_SignersAggSigG1 (resp_Aggregation r) = Some sig ∧
    bls_verify sig apk (mba_MessageDigest (resp_Aggregation r)) = Ok true.
Proof.
  intros Hempty Hpre Hm Hrun Hstep Hr.
  destruct (grun_reports aggregates_verify digest_matches (pre ++ [(env, EvSigned sm)]) (newGoroutine key vi0) g2 [r])
    as [_ Hall].
  { intros. by eapply aggregates_verify_step. }
  { apply Forall_app; split; [done|]. by repeat constructor. }
  { intros d a. simpl. by rewrite Hempty, lookup_empty. }
  { rewrite (grun_app _ _ _ _ _ Hrun). cbn [grun]. by rewrite Hstep. }
  apply Forall_singleton in Hall as [Hn|(env' & m & d & force & vi & HI & Hresp)].
  { destruct Hr; congruence. }
  destruct (response_of_aggregate _ _ _ _ _ _ Hresp) as (a & Ha & _ & -> & -> & -> & _).
  { destruct Hr; congruence. }
  do 2 eexists. split_and!; [done..|]. by apply HI.
Qed.

(** The call at which the aggregation of an honest quorum is first reported. *)
Lemma reporting_call (vi0 : ValidationInfo) (agg0 : Aggregator) (calls : list Call) (r h : Z)
    (d : MessageDigest) (quorum : gset OperatorId) :
  registry_ok vi0 → vi_ok vi0 → majority_ok vi0 →
  sv_signedMessageCs (ag_stateRootUpdateBlsAggregationService agg0) !! height_key r h = None →
  Forall (call_ok vi0 r h) calls → NoDup (accepted_ids vi0 (omap call_event calls)) →
  (∀ o, o ∈ quorum → submitted vi0 (omap call_event calls) o d) → backed_by vi0 quorum →
  ∃ calls1 c calls2 agg1 (resp : BlsResponse),
    calls = calls1 ++ c :: calls2 ∧ ag_msgDb agg1 = ag_msgDb agg0 ∧
    serve_all agg0 (calls1 ++ [c]) = (let? agg := deliver_all c.1 agg1 [resp] in Ok agg) ∧
    resp_Err resp = None ∧ resp_Message resp = Some (MsgStateRootUpdate (ssru_Message c.2)) ∧
    sru_Digest (ssru_Message c.2) = Ok d ∧ mba_MessageDigest (resp_Aggregation resp) = d ∧
    ∃ apk sig, mba_SignersApkG2 (resp_Aggregation resp) = Some apk ∧
      mba_SignersAggSigG1 (resp_Aggregation resp) = Some sig ∧ bls_verify sig apk d = Ok true.
Proof.
  intros Hreg Hok Hmaj Hkey Hcalls Hnd Hquorum Hb.
  assert (Forall (λ e : Event, ∃ sm, e.2 = EvSigned sm ∧ sm_ok sm) (omap call_event calls)) as Hevs.
  { apply Forall_forall. intros e (c & _ & He)%list_elem_of_omap.
    destruct (call_event_digest c e He) as (sm & -> & ? & _). exists sm. split; [done|].
    split; [done|by eapply call_event_set]. }
  assert (Forall (λ e : Event, indices_answered e.1) (omap call_event calls)) as Hidx.
  { apply Forall_forall. intros e (c & Hc & He)%list_elem_of_omap.
    destruct (call_event_digest c e He) as (sm & -> & _). rewrite Forall_forall in Hcalls.
    by apply (ck_indices _ _ _ _ (Hcalls c Hc)). }
  destruct (honest_quorum_first vi0 _ d quorum Hverify Hreg Hmaj Hevs Hidx Hnd Hquorum Hb _ [] _ ∅ eq_refl
    (waiting_start vi0 _ d (height_key r h) Hreg Hok)) as
    (pre & env & sm & post & g1 & g2 & rep & resp & Hsplit & Hrun & _ & Hph & Hstep & Hst & Herr & Hsd & Hm & Hmsg & Hdg).
  destruct (omap_split _ _ _ _ _ Hsplit) as (calls1 & c & calls2 & -> & <- & Hc).
  destruct (call_event_digest c _ Hc) as (sm' & [= -> <-] & _ & Hsm). rewrite Hsm in Hmsg.
  rewrite omap_app in Hevs. apply Forall_app in Hcalls as [Hcs1 [Hck _]%Forall_cons], Hevs as [Hevs _].
  destruct (serve_all_silent vi0 r h (ag_msgDb agg0) calls1 agg0 (newGoroutine (height_key r h) vi0) g1)
    as (agg1 & Hserve & Hhold); [done|by split; [|split; [|left]]|done|done|].
  destruct (serve_event _ _ _ _ _ _ _ _ _ _ Hhold Hc (ck_key _ _ _ _ Hck) (ck_snapshot _ _ _ _ Hck) Hstep)
    as (agg2 & Hs & Hdb & _).
  exists calls1, c, calls2, agg2, resp. split_and!; try done.
  - rewrite serve_all_app, Hserve. cbn [res_bind serve_all]. by rewrite Hs.
  - destruct Hm as [Hm _]. unfold digest_matches in Hm. rewrite Hsm in Hm. simpl in Hm. congruence.
  - rewrite <- Hdg. eapply (first_report_verifies vi0 _ _ _ sm); [apply Hreg| |apply Hm|done..].
    eapply Forall_impl; [exact Hevs|]. intros [e2 ev2] (sm2 & Hev2 & Hm2 & _); simpl in Hev2.
    unfold event_ok; simpl. by rewrite Hev2.
Qed.

(** C2: from the operators to the public API.  Operators holding a quorum of the stake
    each let their attestor sign the state root update [m] and call the aggregator, among
    other calls for this rollup height: invalid, forged, of unknown operators or for
    conflicting updates.  No operator has two submissions accepted, every signature that
    is sent has its affine point, the main loop takes each response before the next call,
    and registry and database answer.  Then at some call the aggregation reports, and a
    GET for the rollup id and height then answers 200 with a message of [m]'s digest and
    an aggregate signature that verifies for it. *)
Theorem state_root_update_served (vi0 : ValidationInfo) (agg0 : Aggregator) (calls : list Call)
    (m : StateRootUpdateMessage) (d : MessageDigest) (quorum : gset OperatorId) enc params :
  registry_ok vi0 → vi_ok vi0 → majority_ok vi0 →
  sv_signedMessageCs (ag_stateRootUpdateBlsAggregationService agg0) !! sru_Key m = None →
  db_wf (ag_msgDb agg0) → db_accepts (ag_msgDb agg0) →
  FetchStateRootUpdate (ag_msgDb agg0) (sru_RollupId m) (sru_BlockHeight m) = Err ErrRecordNotFound →
  Forall (call_ok vi0 (sru_RollupId m) (sru_BlockHeight m)) calls →
  NoDup (accepted_ids vi0 (omap call_event calls)) →
  sru_Digest m = Ok d → (∀ o, o ∈ quorum → ∃ c, c ∈ calls ∧ honest_call vi0 m o c) → backed_by vi0 quorum →
  is_u32 (sru_RollupId m) → is_u64 (sru_BlockHeight m) →
  params "rollupId"%string = pretty (sru_RollupId m) →
  params "blockHeight"%string = pretty (sru_BlockHeight m) → (∀ x, enc x = Ok tt) →
  ∃ calls1 c calls2 agg w m' aggregation apk sig,
    calls = calls1 ++ c :: calls2 ∧ serve_all agg0 (calls1 ++ [c]) = Ok agg ∧
    wrapRequest true (handleGetStateRootUpdateAggregation agg enc params) new_writer = Ok (w, 0%nat) ∧
    rw_sent w = Some (200, ∅) ∧ rw_body w = [JsonBody (m', aggregation)] ∧
    sru_Digest m' = Ok d ∧ mba_MessageDigest aggregation = d ∧
    mba_SignersApkG2 aggregation = Some apk ∧ mba_SignersAggSigG1 aggregation = Some sig ∧
    bls_verify sig apk d = Ok true.
Proof.
  intros Hreg Hok Hmaj Hkey Hwf Hacc Hnew Hcalls Hnd Hd Hquorum Hb Hr Hh Hpr Hph Henc.
  destruct (reporting_call vi0 agg0 calls (sru_RollupId m) (sru_BlockHeight m) d quorum) as
    (calls1 & c & calls2 & agg1 & resp & -> & Hdb & Hserve & Herr & Hmsg & Hdm & Hdg & apk & sig & Hsig); try done.
  { intros o Ho. destruct (Hquorum o Ho) as (c & Hin & Hc). by eapply honest_submitted. }
  apply Forall_app in Hcalls as [_ [Hck _]%Forall_cons].
  pose proof (ck_rollup _ _ _ _ Hck) as Hrc. pose proof (ck_height _ _ _ _ Hck) as Hhc.
  destruct (Hacc (ssru_Message c.2) (resp_Aggregation resp)) as (d1 & row & d2 & Hs1 & Hs2).
  rewrite <- Hdb in Hs1, Hwf, Hnew. rewrite <- Hrc, <- Hhc in Hnew. rewrite <- Hrc in Hr, Hpr. rewrite <- Hhc in Hh, Hph.
  destruct (rest_serves_quorum_lemma agg1 resp (ssru_Message c.2) d1 row d2 enc params) as
    (agg' & effects & w & Hhandle & Hget & Hsent & Hbody); try done.
  { apply Hck. }
  { rewrite Hdg. by eapply sru_Digest_length. }
  exists calls1, c, calls2, agg', w, (ssru_Message c.2), (resp_Aggregation resp), apk, sig.
  split; [done|]. split; [|naive_solver].
  rewrite Hserve. cbn [deliver_all agg_deliver]. by rewrite Hhandle.
Qed.

End System.

Module Examples.

#[local] Existing Instances ToyBls.ops ToyHash.ops ToyAbi.ops.
#[local] Existing Instances ToyBls.bls_laws ToyHash.hash_laws.
#[local] Existing Instances DatabaseTheory.Examples.G1 DatabaseTheory.Examples.G2.
#[local] Existing Instances DatabaseTheory.Examples.L1 DatabaseTheory.Examples.L2.
#[local] Notation empty_db := DatabaseTheory.Examples.empty_db.

Definition keys (k : Z) : OperatorPubkeys := mkOperatorPubkeys (NewG1Point k 0) (NewG2Point (k, 0) (0, 0)).
Definition three : Ors := res_or (mkOrs ∅ ∅ ∅ ∅ OrsExited)
  (NewOperatorRegistrationsServiceInMemory (Ok tt) (Ok tt) (Ok ([101; 102; 103], [keys 1; keys 2; keys 3])) (Ok ∅)).

Lemma three_valid : operator_valid three.
Proof. exact (ors_wf_new (Ok tt) (Ok tt) (Ok ([101; 102; 103], [keys 1; keys 2; keys 3])) (Ok ∅) three eq_refl). Qed.

Definition env3 : AggEnv (S := Ors) := {|
  ae_avs := ex_env false;
  ae_now := 1700000010;
  ae_operatorRegistrationsService := three;
  ae_GetOperatorSetUpdateBlock _ := Ok 100;
  ae_BlockNumber := Ok 1000;
  ae_BlockTime _ := Ok 1700000000;
  ae_GetLastCheckpointToTimestamp := Ok 1600000000;
  ae_SendNewCheckpointTask _ _ _ _ := Ok (task5, 5) |}.

(** Operator [k] attests root [root] at height 7 of rollup 3. *)
Definition attested (k root : Z) : SignedStateRootUpdateMessage :=
  match attest k (op_id k) 3 (mkHeader 7 (replicate 32 root) 1700000000) None with
  | Ok (Some m) => m
  | _ => mkSignedStateRootUpdate (ex_update root) None []
  end.

(** Operator 3 sends a conflicting root first, a stranger sends a message, then operators
    1 and 2 send theirs. *)
Definition ex_calls : list (AggEnv (S := Ors) * SignedStateRootUpdateMessage) :=
  [(env3, attested 3 8);
   (env3, mkSignedStateRootUpdate (ex_update 9) (Some (NewG1Point 5 0)) (op_id 9));
   (env3, attested 1 9); (env3, attested 2 9)].

Lemma ex_calls_ok : Forall (call_ok ex_vi 3 7) ex_calls.
Proof.
  repeat (constructor; [split; [exact three_valid|by intros sig [= <-]|reflexivity|reflexivity|split_and!; reflexivity
    |exact ex_vi_fetched|by intros; eexists]|]). constructor.
Qed.

Lemma ex_honest k : k = 1 ∨ k = 2 → honest_call ex_vi (ex_update 9) (op_id k) (env3, attested k 9).
Proof.
  intros Hk. exists k, (mkHeader 7 (replicate 32 9) 1700000000), None, (op_state k (Z.to_nat k)).
  split_and!.
  - reflexivity.
  - reflexivity.
  - destruct Hk as [-> | ->]; do 2 eexists; split_and!; reflexivity.
  - reflexivity.
  - destruct Hk as [-> | ->]; reflexivity.
  - reflexivity.
Qed.

Lemma ex_abi_total vs : abi_pack vs ≠ Panic.
Proof. discriminate. Qed.

Lemma state_root_update_served_witness :
  ∃ calls1 c calls2 agg w m' aggregation apk sig,
    ex_calls = calls1 ++ c :: calls2 ∧ serve_all (ex_aggregator empty_db) (calls1 ++ [c]) = Ok agg ∧
    wrapRequest true (handleGetStateRootUpdateAggregation agg (λ _, Ok tt) ex_params) new_writer = Ok (w, 0%nat) ∧
    rw_sent w = Some (200, ∅) ∧ rw_body w = [JsonBody (m', aggregation)] ∧
    sru_Digest m' = Ok (ex_update_digest 9) ∧ mba_MessageDigest aggregation = ex_update_digest 9 ∧
    mba_SignersApkG2 aggregation = Some apk ∧ mba_SignersAggSigG1 aggregation = Some sig ∧
    bls_verify sig apk (ex_update_digest 9) = Ok true.
Proof.
  apply (state_root_update_served ex_abi_total ex_verify_total ex_vi (ex_aggregator empty_db) ex_calls (ex_update 9)
    (ex_update_digest 9) {[op_id 1; op_id 2]} (λ _, Ok tt) ex_params).
  - exact ex_registry_ok.
  - exact ex_vi_ok.
  - exact ex_majority_ok.
  - reflexivity.
  - exact DatabaseTheory.Examples.empty_db_wf.
  - intros m a. do 3 eexists. split; reflexivity.
  - reflexivity.
  - exact ex_calls_ok.
  - apply (bool_decide_unpack (NoDup _)). vm_compute. exact I.
  - reflexivity.
  - intros o [->%elem_of_singleton| ->%elem_of_singleton]%elem_of_union.
    + exists (env3, attested 1 9). split; [unfold ex_calls; set_solver|apply ex_honest; auto].
    + exists (env3, attested 2 9). split; [unfold ex_calls; set_solver|apply ex_honest; auto].
  - intros q p Hp. change (({[ 0 := 66 ]} : gmap Z Z) !! q = Some p) in Hp.
    apply lookup_singleton_Some in Hp as [<- <-]. exists 30. split; [reflexivity|]. vm_compute. discriminate.
  - unfold is_u32; simpl; lia.
  - unfold is_u64; simpl; lia.
  - reflexivity.
  - reflexivity.
  - reflexivity.
Defined.

End Examples.
