(* ===== verification/CheckpointSystem.v ===== *)
(** * What a checkpoint commits to

    The composition that the task manager's inclusion check is for: the aggregator's
    database, its RPC and REST servers, the operator that computes the checkpoint response,
    and the contract.  [checkpoint_decides_served]: against a response that operators
    compute for a task, the contract's verdict on a state root update is whether the
    aggregator's REST API served that very update, with a timestamp in the task's window,
    when the operator asked. *)

From S2P Require Import Prelude CoreTypes Instances Messages MessagesTheory Smt AvsReader.
From S2P Require Import RegistryContract RegistryContractTheory SparseMerkle Inclusion.
From S2P Require Import BlsAgg OperatorRegistrations Database DatabaseTheory Aggregator Servers Operator.

Section Database.
Context `{B : BlsOps} {G1 : GormOps StateRootUpdateModel} {G2 : GormOps OperatorSetUpdateModel}.
Context {L1 : GormLaws StateRootUpdateModel G1} {L2 : GormLaws OperatorSetUpdateModel G2}.

(** The stored messages have fields of their Go types; every write keeps this
    ([db_typed_writes]). *)
Definition db_typed (d : Database) : Prop :=
  (∀ r m, r ∈ tbl_rows (db_sru d) → srm_ToMessage r = Ok m → sru_wf m) ∧
  (∀ r m, r ∈ tbl_rows (db_osu d) → osm_ToMessage r = Ok m → osu_wf m).

(** Every row after a write was there before, up to its id and aggregation, or is the new one. *)
Lemma create_rows {R} `{GM : GormModel R} {G : GormOps R} {L : GormLaws R G} (Q : R → Prop) t w r t' out :
  (∀ x i, Q x → Q (set_ID x i)) → (∀ x, x ∈ tbl_rows t → Q x) → Q r →
  gorm_FirstOrCreate t w r = (t', out) → ∀ x, x ∈ tbl_rows t' → Q x.
Proof.
  intros Hid Hold Hr Hst. destruct out as [r'|e|].
  - destruct (List.find w (tbl_rows t)) as [r0|] eqn:Hf.
    + destruct (gorm_FirstOrCreate_found t w r r0 Hf) as (t2 & Heq & Hrows).
      rewrite Heq in Hst. injection Hst as <- _. by rewrite Hrows.
    + destruct (gorm_FirstOrCreate_new _ _ _ _ _ Hf Hst) as (i & _ & -> & ->).
      intros x Hx. apply elem_of_app in Hx as [Hx|Hx]; [auto|]. apply list_elem_of_singleton in Hx as ->. auto.
  - by rewrite (gorm_FirstOrCreate_err _ _ _ _ _ Hst).
  - by apply gorm_FirstOrCreate_safe in Hst.
Qed.

Lemma replace_rows {R} `{GM : GormModel R} {G : GormOps R} {L : GormLaws R G} (Q : R → Prop) t r a t' out :
  (∀ x, Q x → Q (set_Aggregation x (Some a))) → (∀ x, x ∈ tbl_rows t → Q x) →
  gorm_ReplaceAggregation t r a = (t', out) → ∀ x, x ∈ tbl_rows t' → Q x.
Proof.
  intros Hset Hold Hst. destruct out as [[]|e|].
  - rewrite (gorm_Replace_ok _ _ _ _ Hst). intros x (y & -> & Hy)%list_elem_of_fmap. case_bool_decide; auto.
  - by rewrite (gorm_Replace_err _ _ _ _ _ Hst).
  - by apply gorm_Replace_safe in Hst.
Qed.

(** No write of the database breaks this, whether it succeeds or fails. *)
Lemma db_typed_writes d :
  db_typed d →
  (∀ m, sru_wf m → db_typed (StoreStateRootUpdate d m).1) ∧
  (∀ row a, db_typed (StoreStateRootUpdateAggregation d row a).1) ∧
  (∀ m, osu_wf m → db_typed (StoreOperatorSetUpdate d m).1) ∧
  (∀ row a, db_typed (StoreOperatorSetUpdateAggregation d row a).1).
Proof.
  intros [Hs Ho].
  set (Qs := λ r, ∀ m, srm_ToMessage r = Ok m → sru_wf m). set (Qo := λ r, ∀ m, osm_ToMessage r = Ok m → osu_wf m).
  assert (∀ x, x ∈ tbl_rows (db_sru d) → Qs x) as HQs by (intros x Hx m; by apply Hs).
  assert (∀ x, x ∈ tbl_rows (db_osu d) → Qo x) as HQo by (intros x Hx m; by apply Ho).
  split_and!.
  - intros m Hm. unfold StoreStateRootUpdate. destruct (gorm_FirstOrCreate _ _ _) as [t out] eqn:Hst.
    split; [|done]. simpl. intros r m' Hr. revert m'. refine (create_rows Qs _ _ _ _ _ _ HQs _ Hst r Hr); [done|].
    intros m' Hm'. destruct Hm as (?&?&?&[]&[]&[]). unfold srm_ToMessage in Hm'. simpl in Hm'.
    rewrite !to_bytes32_id in Hm' by done. cbn [res_bind] in Hm'. injection Hm' as <-. by destruct m.
  - intros row a. unfold StoreStateRootUpdateAggregation. destruct (gorm_ReplaceAggregation _ _ _) as [t out] eqn:Hst.
    split; [|done]. simpl. intros r m' Hr. revert m'. by refine (replace_rows Qs _ _ _ _ _ _ HQs Hst r Hr).
  - intros m Hm. unfold StoreOperatorSetUpdate. destruct (gorm_FirstOrCreate _ _ _) as [t out] eqn:Hst.
    split; [done|]. simpl. intros r m' Hr. revert m'. refine (create_rows Qo _ _ _ _ _ _ HQo _ Hst r Hr); [done|].
    intros m' [= <-]. by destruct m.
  - intros row a. unfold StoreOperatorSetUpdateAggregation. destruct (gorm_ReplaceAggregation _ _ _) as [t out] eqn:Hst.
    split; [done|]. simpl. intros r m' Hr. revert m'. by refine (replace_rows Qo _ _ _ _ _ _ HQo Hst r Hr).
Qed.

Lemma listed_elem {R} `{GormModel R} (ts : R → Timestamp) from to (rows : list R) r :
  r ∈ listed ts from to rows ↔ r ∈ rows ∧ from ≤ ts r ≤ to ∧ is_Some (row_Aggregation r).
Proof.
  unfold listed, select. rewrite !list_elem_of_filter, bool_decide_eq_true, andb_true_iff, !Z.leb_le. naive_solver.
Qed.

(** The messages of a query are those of the listed rows. *)
Lemma row_pairs_elem {R Msg} `{GormModel R} (toMessage : R → go Msg) rows ms gs m :
  Forall2 (row_pair toMessage) rows (zip ms gs) → length ms = length gs →
  m ∈ ms ↔ ∃ r, r ∈ rows ∧ toMessage r = Ok m.
Proof.
  intros HF Hl. assert (ms = (zip ms gs).*1) as Hms by (by rewrite fst_zip by lia).
  rewrite Hms. clear Hms Hl. revert HF. generalize (zip ms gs) as l. intros l HF.
  induction HF as [|r mg rows l (a & _ & Hm & _) _ IH]; [set_solver|].
  rewrite fmap_cons, elem_of_cons, IH. setoid_rewrite elem_of_cons. split.
  - intros [->|(r' & Hr & Hr')]; [exists r; auto|exists r'; auto].
  - intros (r' & [->|Hr] & Hr'); [left; congruence|right; eauto].
Qed.

Lemma srm_ToMessage_ts r m : srm_ToMessage r = Ok m → sru_Timestamp m = srm_Timestamp r.
Proof.
  unfold srm_ToMessage. by intros (x & _ & (y & _ & (z & _ & [= <-])%res_bind_ok)%res_bind_ok)%res_bind_ok.
Qed.

(** A state root update is in a checkpoint iff it is what fetches of its key return, with an
    aggregation, and its timestamp is in the window. *)
Lemma in_checkpoint d from to cm m :
  db_wf d → from ≤ to → to ≤ max_i64 → FetchCheckpointMessages d from to = Ok cm →
  m ∈ cm_StateRootUpdateMessages cm ↔
  FetchStateRootUpdate d (sru_RollupId m) (sru_BlockHeight m) = Ok m ∧
  (∃ a, FetchStateRootUpdateAggregation d (sru_RollupId m) (sru_BlockHeight m) = Ok a) ∧
  from ≤ sru_Timestamp m ≤ to.
Proof.
  intros Hwf Hft Ht Hcm. destruct (checkpoint_messages_spec d from to Hwf Hft Ht) as (cm' & Hcm' & HF & Hl & _).
  rewrite Hcm in Hcm'. injection Hcm' as <-. rewrite (row_pairs_elem _ _ _ _ _ HF Hl).
  setoid_rewrite listed_elem. unfold FetchStateRootUpdate, FetchStateRootUpdateAggregation. rewrite !gorm_First_law.
  pose proof Hwf as [Hok _]. pose proof (tbl_P _ _ _ Hok) as HP. rewrite Forall_forall in HP. split.
  - intros (r & (Hin & Hts & [a Ha]) & Hm). apply srm_ToMessage_ts in Hm as Hts'. pose proof (srm_ToMessage_key _ _ Hm) as Hk.
    assert (List.find (where_key (sru_RollupId m) (sru_BlockHeight m)) (tbl_rows (db_sru d)) = Some r) as ->.
    { apply (find_key srm_key srm_ok _ _ (sru_RollupId m, sru_BlockHeight m)); [done|apply where_key_selects|]. by split. }
    cbn [res_bind]. rewrite srm_ToMessage_unloaded. split_and!; [done| |lia..]. cbn [unloaded]. simpl in Ha. rewrite Ha.
    destruct (HP r Hin) as (_ & _ & _ & Hagg). rewrite Ha in Hagg.
    exists (res_or (mkMessageBlsAggregation 0 [] [] [] None None [] [] [] []) (am_ToMessage a)).
    by apply res_or_ok, am_ToMessage_ok.
  - intros (Hm & (a & Ha) & Hts). destruct (List.find _ _) as [r|] eqn:Hf; [|done].
    apply (find_key srm_key srm_ok _ _ (sru_RollupId m, sru_BlockHeight m)) in Hf as [Hin Hk];
      [|done|apply where_key_selects].
    cbn [res_bind] in *. rewrite srm_ToMessage_unloaded in Hm. exists r. pose proof (srm_ToMessage_ts _ _ Hm).
    split_and!; [done|lia|lia| |done]. cbn [unloaded] in Ha. simpl. by destruct (srm_Aggregation r).
Qed.

(** The messages of a query are well-formed, and their keys distinct. *)
Lemma checkpoint_typed d from to cm :
  db_wf d → db_typed d → from ≤ to → to ≤ max_i64 → FetchCheckpointMessages d from to = Ok cm →
  Forall sru_wf (cm_StateRootUpdateMessages cm) ∧ Forall osu_wf (cm_OperatorSetUpdateMessages cm) ∧
  NoDup (sru_Key <$> cm_StateRootUpdateMessages cm).
Proof.
  intros Hwf [Hsru Hosu] Hft Ht Hcm.
  destruct (checkpoint_messages_spec d from to Hwf Hft Ht) as (cm' & Hcm' & HF1 & Hl1 & HF2 & Hl2 & Hnd & _).
  rewrite Hcm in Hcm'. injection Hcm' as <-.
  assert (Forall sru_wf (cm_StateRootUpdateMessages cm)) as Hw.
  { apply Forall_forall. intros m (r & Hr & Hm)%(row_pairs_elem _ _ _ _ _ HF1 Hl1).
    apply listed_elem in Hr as [Hr _]. by eapply Hsru. }
  split_and!; [done| |].
  - apply Forall_forall. intros m (r & Hr & Hm)%(row_pairs_elem _ _ _ _ _ HF2 Hl2).
    apply listed_elem in Hr as [Hr _]. by eapply Hosu.
  - rewrite Forall_forall in Hw. apply NoDup_fmap_2_strong; [|by eapply NoDup_fmap_1].
    intros x y Hx Hy [Hr Hh]%sru_Key_inj_lemma; [|by apply Hw..].
    apply list_elem_of_lookup in Hx as [i Hi], Hy as [j Hj]. assert (i = j) as ->; [|congruence].
    eapply NoDup_lookup; [exact Hnd|..]; rewrite list_lookup_fmap; [by rewrite Hi|rewrite Hj; simpl; congruence].
Qed.

End Database.

Section System.
Context `{B : BlsOps} {BL : BlsLaws B} `{H : HashOps} {HL : HashLaws H} `{A : AbiOps} {AL : AbiLaws A}.
Context {G1 : GormOps StateRootUpdateModel} {G2 : GormOps OperatorSetUpdateModel}.
Context {L1 : GormLaws StateRootUpdateModel G1} {L2 : GormLaws OperatorSetUpdateModel G2}.
Context `{T : SmtOps} {TL : SmtLaws T} {P : SmtProofOps T} {PL : SmtProofLaws TL P}.

(** The REST API serves this update with some aggregation. *)
Definition served (agg : Aggregator) (m : StateRootUpdateMessage) : Prop :=
  ∃ a, GetStateRootUpdateAggregation agg (sru_RollupId m) (sru_BlockHeight m) = Ok (m, a).

Lemma served_fetched (agg : Aggregator) m :
  served agg m ↔
  FetchStateRootUpdate (ag_msgDb agg) (sru_RollupId m) (sru_BlockHeight m) = Ok m ∧
  ∃ a, FetchStateRootUpdateAggregation (ag_msgDb agg) (sru_RollupId m) (sru_BlockHeight m) = Ok a.
Proof.
  unfold served, GetStateRootUpdateAggregation.
  destruct (FetchStateRootUpdate _ _ _) as [m'| |]; [|naive_solver..].
  destruct (FetchStateRootUpdateAggregation _ _ _) as [a'| |]; naive_solver.
Qed.

(** ** The operator's response *)

Lemma root_bytes (t : tree) : Forall is_u8 (tree_root t).
Proof. destruct t; [apply Forall_replicate; unfold is_u8; lia|apply keccak256_bytes..]. Qed.

Lemma message_trie_total {M} `{AggMessage M} (msgs : list M) :
  Forall (λ m, ∃ d, msg_Digest m = Ok d) msgs → ∃ t, message_trie msgs = Ok t.
Proof.
  intros Hd. destruct (AddMessages_total msgs smt_new) as [s Hs].
  { eapply Forall_impl; [exact Hd|]. intros m [d Hm]. by rewrite Hm. }
  unfold message_trie. rewrite Hs. cbn [res_bind]. apply smt_commit_total.
Qed.

(** Well-formed messages have a response, and the response a digest. *)
Lemma checkpoint_response_total idx cm :
  is_u32 idx → Forall sru_wf (cm_StateRootUpdateMessages cm) → Forall osu_wf (cm_OperatorSetUpdateMessages cm) →
  ∃ resp d, NewCheckpointTaskResponseFromMessages idx cm = Ok resp ∧ ctr_Digest resp = Ok d ∧
    ctr_ReferenceTaskIndex resp = idx.
Proof.
  intros Hidx Hs Ho.
  destruct (message_trie_total (cm_StateRootUpdateMessages cm)) as [t1 Ht1].
  { eapply Forall_impl; [exact Hs|]. intros m Hm. by apply (digest_total (MsgStateRootUpdate m)). }
  destruct (message_trie_total (cm_OperatorSetUpdateMessages cm)) as [t2 Ht2].
  { eapply Forall_impl; [exact Ho|]. intros m Hm. by apply (digest_total (MsgOperatorSetUpdate m)). }
  set (resp := mkCheckpointTaskResponse idx (smt_Root t1) (smt_Root t2)).
  assert (ctr_wf resp) as Hwf.
  { split_and!; [done|split|split]; simpl; rewrite !smt_tree_root; auto using tree_root_length, root_bytes. }
  destruct (digest_total (MsgCheckpointTaskResponse resp) Hwf) as [d Hd]. exists resp, d. split_and!; [|done|done].
  unfold message_trie in *. apply res_bind_ok in Ht1 as (s1 & Hs1 & Hc1), Ht2 as (s2 & Hs2 & Hc2).
  unfold NewCheckpointTaskResponseFromMessages. rewrite Hs1. cbn [res_bind]. rewrite Hc1. cbn [res_bind].
  rewrite Hs2. cbn [res_bind]. rewrite Hc2. cbn [res_bind]. by rewrite !to_bytes32_id by apply Root_word.
Qed.

(** An operator that asks for a window the server accepts gets the messages. *)
Lemma query_answered (agg : Aggregator) from to cm :
  0 ≤ from ≤ to → to ≤ from + 7200 → to ≤ max_i64 → FetchCheckpointMessages (ag_msgDb agg) from to = Ok cm →
  rpc_GetAggregatedCheckpointMessages agg (Some (mkCheckpointArgs from to)) = Ok cm.
Proof.
  intros Hf Hr Ht Hcm. unfold max_i64 in Ht.
  destruct (checkpoint_range_bounded agg from to) as [Hq _]; [unfold is_u64; lia..|].
  rewrite Hq by lia. by rewrite Hcm.
Qed.

(** ** The verdicts *)

(** No two of the keys collide, nor do two digests, and no digest of these is zero. *)
Record separated (msgs : list StateRootUpdateMessage) (m : StateRootUpdateMessage) : Prop := {
  sp_keys : collision_free (sru_Key m :: (sru_Key <$> msgs));
  sp_nonzero : Forall digest_nonzero (m :: msgs);
  sp_digests :
    Forall (λ m', ¬ Exists keccak_collision (hashed_pairs (MsgStateRootUpdate m') (MsgStateRootUpdate m))) msgs }.

(** C9: a checkpoint commits to what the REST API served.  Let an aggregator with a consistent
    database get an operator's query for a task whose window the server accepts.  The
    operator signs and sends a response for the task, and against this response, unless
    Keccak collides among the strings hashed: for every state root update that the REST API
    serves and whose timestamp is in the window, the Go code makes a proof that the task
    manager accepts with the verdict true; and whatever well-formed proof the task manager
    accepts for an update, its verdict is true exactly if the REST API serves this update
    and its timestamp is in the window. *)
Theorem checkpoint_decides_served (agg : Aggregator) keypair operatorId idx from to :
  db_wf (ag_msgDb agg) → db_typed (ag_msgDb agg) → is_u32 idx →
  0 ≤ from ≤ to → to ≤ from + 7200 → to ≤ max_i64 →
  ∃ cm signed t,
    FetchCheckpointMessages (ag_msgDb agg) from to = Ok cm ∧
    ProcessCheckpointTask (λ from to, rpc_GetAggregatedCheckpointMessages agg (Some (mkCheckpointArgs from to)))
      keypair operatorId (mkCheckpointTaskCreated idx from to) =
      Ok [OnTasksReceived; SendCheckpointTaskResponse signed] ∧
    message_trie (cm_StateRootUpdateMessages cm) = Ok t ∧
    let resp := sctr_TaskResponse signed in
    ctr_ReferenceTaskIndex resp = idx ∧
    ∀ m, sru_wf m → separated (cm_StateRootUpdateMessages cm) m →
      (served agg m ∧ from ≤ sru_Timestamp m ≤ to → ∃ d cp p,
        sru_Digest m = Ok d ∧ ProveCompact t (sru_Key m) = Ok cp ∧
        NewSMTVerifierProof (sru_Key m) d cp = Ok p ∧ sru_verifyMessageInclusionState m resp p = Ok true) ∧
      (∀ p verdict, proof_wf p → collision_free (proof_inputs p ++ tree_inputs (smt_tree t)) →
        sru_verifyMessageInclusionState m resp p = Ok verdict →
        verdict = true ↔ served agg m ∧ from ≤ sru_Timestamp m ≤ to).
Proof.
  intros Hwf Hty Hidx Hft Hrange Ht.
  destruct (checkpoint_messages_spec (ag_msgDb agg) from to Hwf ltac:(lia) Ht) as (cm & Hcm & _).
  destruct (checkpoint_typed _ from to cm Hwf Hty ltac:(lia) Ht Hcm) as (Hsru & Hosu & Hnd).
  destruct (checkpoint_response_total idx cm Hidx Hsru Hosu) as (resp & rd & Hresp & Hrd & Hi).
  destruct (checkpoint_roots idx cm resp Hresp) as [(t & Htr & _) _].
  assert (∀ m, m ∈ cm_StateRootUpdateMessages cm ↔ served agg m ∧ from ≤ sru_Timestamp m ≤ to) as Hin.
  { intros m. rewrite (in_checkpoint _ from to cm m Hwf ltac:(lia) Ht Hcm), served_fetched. naive_solver. }
  exists cm, (mkSignedCheckpointTaskResponse resp (Some (SignMessage keypair rd)) operatorId), t.
  split; [done|]. split; [|split; [done|]; split; [done|]].
  - unfold ProcessCheckpointTask, SignTaskResponse. cbn [tc_FromTimestamp tc_ToTimestamp tc_TaskIndex].
    rewrite (query_answered agg from to cm) by done. cbn [res_bind]. rewrite Hresp. cbn [res_bind]. by rewrite Hrd.
  - intros m Hm [Hk Hnz Hcol]. cbn [sctr_TaskResponse]. split.
    + intros Hmem%Hin. destruct (digest_total (MsgStateRootUpdate m) Hm) as [d Hd]. exists d.
      destruct (message_provable idx cm resp m d Hresp) as (t' & Ht' & Hp & _); [apply Hm|apply Hm|done..|].
      rewrite Htr in Ht'. injection Ht' as <-. destruct (Hp Hmem) as (cp & p & ? & ? & ?). by exists cp, p.
    + intros p verdict Hp Hcp Hv. rewrite <- Hin.
      apply (verdict_lemma idx cm resp t m p verdict); try done; [by constructor|].
      by apply Forall_cons in Hnz as [? _].
Qed.

End System.

Module Examples.

#[local] Existing Instances ToyBls.ops ToyBls.bls_laws ToyAbi.ops ToyAbi.abi_laws.
#[local] Existing Instances Inclusion.Examples.Mix.ops Inclusion.Examples.Mix.mix_laws.
#[local] Existing Instances ToyTrie.trie_ops ToyTrie.trie_laws ToyTrie.proof_ops ToyTrie.proof_laws.
#[local] Existing Instances DatabaseTheory.Examples.G1 DatabaseTheory.Examples.G2.
#[local] Existing Instances DatabaseTheory.Examples.L1 DatabaseTheory.Examples.L2.
Import DatabaseTheory.Examples.

Definition ex_agg : Aggregator :=
  mkAggregator 60 NewMessageBlsAggregatorService NewMessageBlsAggregatorService
    NewMessageBlsAggregatorService ∅ aggregated.
Definition ex_served : StateRootUpdateMessage := update 7 1700000000.

Lemma ex_rows : tbl_rows (db_sru aggregated) =
  [mkStateRootUpdateModel 1 3 7 1700000000 (replicate 32 0) (replicate 32 0) (replicate 32 9)
     (Some (NewMessageBlsAggregationModel (agg 1)))].
Proof. reflexivity. Qed.

Lemma ex_update_typed h : 0 ≤ h < 256 → sru_wf (update h 1700000000).
Proof.
  intros Hh. unfold sru_wf, is_bytes32, is_u32, is_u64, update; simpl.
  assert (Forall is_u8 (replicate 32 0) ∧ Forall is_u8 (replicate 32 9)) as [? ?]
    by (split; apply Forall_replicate; unfold is_u8; lia).
  split_and!; try done; lia.
Qed.

Lemma aggregated_typed : db_typed aggregated.
Proof.
  split; [|intros r m Hr; by apply not_elem_of_nil in Hr].
  intros r m. rewrite ex_rows. intros ->%list_elem_of_singleton [= <-]. by apply (ex_update_typed 7).
Qed.

#[local] Instance keccak_collision_dec p : Decision (keccak_collision p).
Proof. unfold keccak_collision. apply _. Defined.
#[local] Instance digest_nonzero_dec (m : StateRootUpdateMessage) : Decision (digest_nonzero m).
Proof. unfold digest_nonzero. apply _. Defined.

Lemma ex_separated : separated [ex_served] ex_served.
Proof.
  split; (apply (bool_decide_unpack (Forall _ _)) || apply (bool_decide_unpack (collision_free _)));
    vm_compute; exact I.
Qed.

Lemma ex_served_in_window : served ex_agg ex_served ∧ 1699999000 ≤ sru_Timestamp ex_served ≤ 1700000500.
Proof. split; [exists (agg 1); reflexivity|simpl; lia]. Qed.

Lemma checkpoint_decides_served_witness : ∃ signed p,
  ProcessCheckpointTask (λ from to, rpc_GetAggregatedCheckpointMessages ex_agg (Some (mkCheckpointArgs from to)))
    5 [1] (mkCheckpointTaskCreated 7 1699999000 1700000500) = Ok [OnTasksReceived; SendCheckpointTaskResponse signed] ∧
  sru_verifyMessageInclusionState ex_served (sctr_TaskResponse signed) p = Ok true.
Proof.
  destruct (checkpoint_decides_served ex_agg 5 [1] 7 1699999000 1700000500)
    as (cm & signed & t & Hcm & Hrun & _ & _ & Hall).
  - apply aggregated_wf.
  - apply aggregated_typed.
  - unfold is_u32; lia.
  - lia.
  - lia.
  - unfold max_i64; lia.
  - assert (cm_StateRootUpdateMessages cm = [ex_served]) as Hms by (injection Hcm as <-; reflexivity).
    rewrite Hms in Hall. destruct (Hall ex_served) as [Hserved _].
    + apply (ex_update_typed 7). lia.
    + exact ex_separated.
    + destruct Hserved as (d & cp & p & _ & _ & _ & Hv); [|exists signed, p; split; [exact Hrun|exact Hv]].
      exact ex_served_in_window.
Defined.

End Examples.
