(* ===== verification/RollupSystem.v ===== *)
(** * From the operators' signatures to the rollups' registries

    The aggregation of an operator set update, its broadcast and the registry contract
    together.  A registry that holds the operators of the snapshot the aggregation was
    started with accepts the signature of every final response of it
    ([response_accepted]): the non-signers are listed in the order the contract asks
    for, the aggregate keys match, and the stake the aggregator asks for is at least the
    weight the contract asks for.  So an update that is signed by the operators reaches
    every rollup ([operator_set_update_reaches_rollups]).  No operator may have two
    submissions accepted; a response that is not final is read before a submission is added
    to the aggregate it shares ([reread]). *)

From stdpp Require Import relations.
From S2P Require Import Prelude CoreTypes Instances Messages MessagesTheory.
From S2P Require Import BlsAgg BlsAggTheory BlsAggService BlsAggProgress BlsAggSharing AvsReader.
From S2P Require Import RegistryContract RegistryContractTheory.
From S2P Require Import OperatorRegistrations Database DatabaseTheory Aggregator AggregatorTheory Rollups Operator.
From S2P Require Import BlsAggExamples AggregatorExamples.

(** ** The operators of a snapshot, as the registry has them *)

Section Snapshot.
Context `{B : BlsOps} {N : Bn254Ops} {NL : Bn254Laws N} {BN : Bn254BlsLaws B N} {M : Type} `{MI : AggMessage M}.

Definition pubkey_of (vi0 : ValidationInfo) (o : OperatorId) : BN254G1Point :=
  match vi_operatorsAvsStateDict vi0 !! o with
  | Some op => ConvertToBN254G1Point (oas_G1Pubkey op)
  | None => g1_zero
  end.

Definition registered_as (vi0 : ValidationInfo) (o : OperatorId) : RegistryOperator :=
  mkRegistryOperator (pubkey_of vi0 o) (stake (stake0 vi0 o) 0).

Definition snapshot_set (vi0 : ValidationInfo) : list RegistryOperator :=
  registered_as vi0 <$> elements (dom (vi_operatorsAvsStateDict vi0)).

(** The keys of the snapshot are those registered with EigenLayer: the id of an operator
    is the hash of its G1 key, a point of the curve, and its G2 key has the same secret. *)
Record keys_registered (vi0 : ValidationInfo) : Prop := {
  kr_id o op : vi_operatorsAvsStateDict vi0 !! o = Some op → hashG1Point (ConvertToBN254G1Point (oas_G1Pubkey op)) = o;
  kr_valid o op : vi_operatorsAvsStateDict vi0 !! o = Some op → g1_valid (ConvertToBN254G1Point (oas_G1Pubkey op)) = true;
  kr_matches o op pk : vi_operatorsAvsStateDict vi0 !! o = Some op → oas_G2Pubkey op = Some pk →
    key_matches (ConvertToBN254G1Point (oas_G1Pubkey op)) pk;
}.

Lemma pubkeys_valid vi0 (l : list OperatorId) :
  keys_registered vi0 → Forall (λ p, g1_valid p = true) (pubkey_of vi0 <$> l).
Proof.
  intros Hk. apply Forall_forall. intros p (o & -> & _)%list_elem_of_fmap. unfold pubkey_of.
  destruct (vi_operatorsAvsStateDict vi0 !! o) eqn:Ho; [by eapply kr_valid|apply valid_zero].
Qed.

(** The G2 key of an aggregate matches the sum of its signers' G1 keys, and its signature
    is a point of the curve. *)
Definition aggregates_match (vi0 vi : ValidationInfo) : Prop := ∀ d a,
  vi_aggregatedOperatorsDict vi !! d = Some a →
  key_matches (g1_sum (pubkey_of vi0 <$> elements (ao_signersOperatorIdsSet a))) (ao_signersApkG2 a) ∧
  g1_valid (ConvertToBN254G1Point (ao_signersAggSigG1 a)) = true.

Lemma aggregates_match_step {BL : BlsLaws B} P vi0 vi seen (sm : SignedMessage (M := M)) vi' :
  keys_registered vi0 → accounted P vi0 vi seen → sm_OperatorId sm ∉ seen →
  g1_valid (ConvertToBN254G1Point (sm_BlsSignature sm)) = true →
  aggregates_match vi0 vi → handleSignedMessageDigest sm vi = Ok vi' → aggregates_match vi0 vi'.
Proof.
  intros Hk Hacc Hn Hsig Hm (op & pk & d & Hop & Hpk & _ & _ & _ & ->)%handleSignedMessageDigest_ok d' a'; simpl.
  rewrite (acc_dict _ _ _ _ Hacc) in Hop. rewrite lookup_insert_Some. intros [[<- <-]|[_ Ha']]; [|by apply (Hm d')].
  assert (pubkey_of vi0 (sm_OperatorId sm) = ConvertToBN254G1Point (oas_G1Pubkey op)) as Hp.
  { unfold pubkey_of. by rewrite Hop. }
  pose proof (kr_valid _ Hk _ _ Hop) as Hv. pose proof (kr_matches _ Hk _ _ _ Hop Hpk) as Hmatch.
  destruct (vi_aggregatedOperatorsDict vi !! d) as [a|] eqn:Ha; simpl.
  - destruct (Hm d a Ha) as [Hma Hva]. rewrite convert_add by done. split; [|by apply valid_plus].
    pose proof (g1_sum_valid _ (pubkeys_valid vi0 (elements (ao_signersOperatorIdsSet a)) Hk)) as Hvs.
    erewrite g1_sum_perm; [|by rewrite elements_union_singleton by (by eapply acc_not_seen)|by apply pubkeys_valid].
    rewrite fmap_cons, g1_sum_cons, Hp, plus_comm by done. by apply matches_add.
  - rewrite elements_singleton, g2_add_zero_l. cbn [fmap list_fmap]. rewrite g1_sum_cons, Hp, plus_zero_r by done. done.
Qed.

(** The operators of the snapshot are the signers and the listed non-signers. *)
Lemma snapshot_split vi0 vi (a : AggregatedOperators) :
  vi_operatorsAvsStateDict vi = vi_operatorsAvsStateDict vi0 →
  ao_signersOperatorIdsSet a ⊆ dom (vi_operatorsAvsStateDict vi0) →
  snapshot_set vi0 ≡ₚ (registered_as vi0 <$> elements (ao_signersOperatorIdsSet a)) ++
    (registered_as vi0 <$> nonSignersOperatorIds vi a).
Proof.
  intros Hdict Hsub. unfold snapshot_set. rewrite <- fmap_app. apply fmap_Permutation.
  apply NoDup_Permutation; [apply NoDup_elements|apply NoDup_app; split_and!|].
  - apply NoDup_elements.
  - intros o Ho%elem_of_elements [_ ?]%nonSigners_elem. done.
  - apply nonSigners_NoDup.
  - intros o. rewrite elem_of_app, !elem_of_elements, nonSigners_elem, Hdict, elem_of_dom.
    destruct (decide (o ∈ ao_signersOperatorIdsSet a)) as [Ho|Ho]; [|naive_solver].
    pose proof (Hsub o Ho) as Hd. apply elem_of_dom in Hd. naive_solver.
Qed.

Lemma nonsigner_keys vi0 vi (ids : list OperatorId) :
  vi_operatorsAvsStateDict vi = vi_operatorsAvsStateDict vi0 →
  (∀ o, o ∈ ids → is_Some (vi_operatorsAvsStateDict vi0 !! o)) →
  ConvertToBN254G1Point <$> g1_pubkeys vi ids = rg_Pubkey <$> (registered_as vi0 <$> ids).
Proof.
  intros Hdict. induction ids as [|o ids IH]; intros Hin; [done|].
  destruct (Hin o) as [op Hop]; [by left|]. unfold g1_pubkeys. cbn [omap list_omap]. rewrite Hdict, Hop. cbn [fmap option_fmap option_map].
  rewrite !fmap_cons. f_equal; [unfold registered_as, pubkey_of; simpl; by rewrite Hop|].
  rewrite <- Hdict. apply IH. intros o' Ho'. apply Hin. by right.
Qed.

Lemma registered_hash vi0 o :
  keys_registered vi0 → is_Some (vi_operatorsAvsStateDict vi0 !! o) → op_hash (registered_as vi0 o) = o.
Proof. intros Hk [op Hop]. unfold op_hash, registered_as, pubkey_of. simpl. rewrite Hop. by eapply kr_id. Qed.

Lemma nonsigners_hash_sorted vi0 vi (a : AggregatedOperators) :
  vi_operatorsAvsStateDict vi = vi_operatorsAvsStateDict vi0 → keys_registered vi0 →
  StronglySorted (λ o1 o2, be_decode (op_hash o1) < be_decode (op_hash o2))
    (registered_as vi0 <$> nonSignersOperatorIds vi a).
Proof.
  intros Hdict Hk.
  assert (∀ o, o ∈ nonSignersOperatorIds vi a → is_Some (vi_operatorsAvsStateDict vi !! o)) as Hin.
  { by intros o [? _]%nonSigners_elem. }
  assert (StronglySorted (λ x y, be_decode x < be_decode y) (nonSignersOperatorIds vi a)) as Hs.
  { apply (strictly_sorted vi); [|apply nonSigners_NoDup|apply nonSigners_sorted|done].
    intros o Ho. rewrite Hdict in Ho. rewrite <- (registered_hash vi0 o Hk Ho). apply hashG1Point_bytes. }
  induction Hs as [|o l Hs IH Hlt]; [constructor|]. rewrite fmap_cons. constructor.
  - apply IH. intros o' Ho'. apply Hin. by right.
  - apply Forall_fmap, Forall_forall. intros o' Ho'. simpl. rewrite Hdict in Hin.
    rewrite !registered_hash by (done || apply Hin; by constructor). rewrite Forall_forall in Hlt. by apply Hlt.
Qed.

End Snapshot.

(** ** Final responses *)

Section Final.
Context `{B : BlsOps} {M : Type} `{MI : AggMessage M}.

#[local] Notation Event := (AvsEnv * GEvent (M := M))%type.

Lemma status_reached P vi0 vi seen d a s :
  accounted P vi0 vi seen → vi_aggregatedOperatorsDict vi !! d = Some a → backed_by vi0 (ao_signersOperatorIdsSet a) →
  getMessageBlsAggregationStatus d vi = Ok s → reached s.
Proof.
  intros Hacc Ha Hb Hs. destruct s; [|by right| |by left].
  - exfalso. unfold getMessageBlsAggregationStatus in Hs. rewrite Ha in Hs.
    apply res_bind_ok in Hs as ([] & _ & Hs); [done|]. by apply res_bind_ok in Hs as ([] & _ & Hs).
  - by eapply status_not_backed in Hb.
Qed.

(** Once the threshold is reached for a message, its digest is backed. *)
Definition threshold_backed (vi0 : ValidationInfo) (g : Goroutine (M := M)) : Prop :=
  ∀ message, gr_phase g = ThresholdReached message →
  ∃ d a, msg_Digest message = Ok d ∧ vi_aggregatedOperatorsDict (gr_vi g) !! d = Some a ∧
    backed_by vi0 (ao_signersOperatorIdsSet a).

Definition final_is_reached (r : MessageBlsAggregationServiceResponse (M := M)) : Prop :=
  resp_Finished r = true → resp_Err r = None → reached (resp_Status r).

Lemma backed_kept vi0 vi (sm : SignedMessage (M := M)) vi' d a :
  majority_ok vi0 → handleSignedMessageDigest sm vi = Ok vi' →
  vi_aggregatedOperatorsDict vi !! d = Some a → backed_by vi0 (ao_signersOperatorIdsSet a) →
  ∃ a', vi_aggregatedOperatorsDict vi' !! d = Some a' ∧ backed_by vi0 (ao_signersOperatorIdsSet a').
Proof.
  intros Hmaj (op & pk & d' & _ & _ & _ & _ & _ & ->)%handleSignedMessageDigest_ok Ha Hb; simpl.
  destruct (decide (d' = d)) as [->|Hne]; [|exists a; by rewrite lookup_insert_ne].
  rewrite lookup_insert_eq. eexists. split; [done|]. eapply backed_by_mono; [done| |exact Hb].
  rewrite next_aggregate_signers, Ha. simpl. set_solver.
Qed.

Lemma unforced_final (env : AvsEnv) (m : M) d vi r :
  getMessageBlsAggregationResponse env m d vi false = Ok r → final_is_reached r.
Proof.
  intros Hr Hf _. rewrite (resp_Finished_eq _ _ _ _ _ _ Hr), orb_false_r in Hf.
  apply bool_decide_eq_true in Hf. by right.
Qed.

Lemma backed_step vi0 evs env ev g seen g' rep out :
  registry_ok vi0 → majority_ok vi0 → event_ok digest_matches (env, ev) →
  accounted (submitted vi0 evs) vi0 (gr_vi g) seen → threshold_backed vi0 g →
  (∃ seen', accounted (submitted vi0 evs) vi0 (gr_vi g') seen') →
  gstep env g ev = Ok (g', rep, out) → threshold_backed vi0 g' ∧ Forall final_is_reached out.
Proof.
  intros Hreg Hmaj Hev Hacc Hb [seen' Hacc'] Hs. unfold gstep in Hs.
  destruct (gr_phase g) as [|message|] eqn:Hph; [| |injection Hs as <- <- <-; by split].
  - unfold handleSignedMessagePreThreshold in Hs. destruct ev as [sm|].
    2:{ injection Hs as <- <- <-. split; [by intros ?|]. constructor; [by intros ? ?|constructor]. }
    destruct (handleSignedMessageDigest sm (gr_vi g)) as [vi|e|] eqn:Hh; [|injection Hs as <- <- <-; by split|done].
    apply res_bind_ok in Hs as (r & Hr & [= Hs]). pose proof (unforced_final _ _ _ _ _ Hr) as Hf.
    destruct (resp_Status r) eqn:Hst; injection Hs as <- <- <-;
      (split; [|first [by apply Forall_singleton|by apply Forall_nil]]); intros m' [= <-]; [].
    destruct (response_of_aggregate _ _ _ _ _ _ Hr) as (a & Ha & Hst' & _); [congruence|].
    exists (sm_MessageDigest sm), a. split; [exact Hev|]. split; [done|].
    eapply (status_backed _ vi0 vi); [done|exact Hacc'|done|exact Hst'|rewrite Hst; by left].
  - destruct (Hb message Hph) as (d & a & Hd & Ha & Hba). unfold handleSignedMessageThresholdReached in Hs. rewrite Hd in Hs.
    destruct ev as [sm|].
    + case_bool_decide; [|injection Hs as <- <- <-; split; [by intros m' Hm'; apply Hb|done]].
      destruct (handleSignedMessageDigest sm (gr_vi g)) as [vi|e|] eqn:Hh; [|injection Hs as <- <- <-; by split|done].
      apply res_bind_ok in Hs as (r & Hr & [= <- <- <-]). pose proof (unforced_final _ _ _ _ _ Hr) as Hf.
      split; [|by apply Forall_singleton]. intros m'; simpl. case_bool_decide; [done|]. intros [= <-].
      destruct (backed_kept _ _ _ _ _ _ Hmaj Hh Ha Hba) as (a' & Ha' & Hba'). by exists d, a'.
    + apply res_bind_ok in Hs as (r & Hr & [= <- <- <-]). split; [by intros ?|]. constructor; [|constructor].
      intros _ He. unfold getMessageBlsAggregationResponse in Hr. rewrite Ha in Hr.
      destruct (getMessageBlsAggregationStatus d (gr_vi g)) as [s| |] eqn:Hst; [|by injection Hr as <-|done].
      destruct (env_GetCheckSignaturesIndices _ _ _ _); [|by injection Hr as <-|done]. injection Hr as <-. simpl.
      by eapply (status_reached _ vi0 (gr_vi g)).
Qed.

(** A final response without error reports a quorum. *)
Lemma final_response_reached vi0 key evs g out r :
  registry_ok vi0 → majority_ok vi0 → NoDup (accepted_ids vi0 evs) → Forall (event_ok digest_matches) evs →
  grun (newGoroutine key vi0) evs = Ok (g, out) → r ∈ out → final_is_reached r.
Proof.
  intros Hreg Hmaj Hnd Hevs Hrun Hr.
  enough (Forall final_is_reached out) as Hall by (rewrite Forall_forall in Hall; by apply Hall).
  apply (grun_steps (λ g seen, accounted (submitted vi0 evs) vi0 (gr_vi g) seen ∧ threshold_backed vi0 g)
    final_is_reached vi0 evs) with (rest := evs) (before := []) (g := newGoroutine key vi0) (seen := ∅) (g' := g);
    [|done|done|split; [by apply accounted_start, Hreg|by intros ?]|by intros o ?%not_elem_of_empty|done].
  intros env ev g1 seen g2 rep out1 Hin [Hacc Hb] Hnew Hs.
  assert (∃ seen', accounted (submitted vi0 evs) vi0 (gr_vi g2) seen' ∧
    ∀ o, o ∈ seen' → o ∈ seen ∨ accepted_id vi0 (env, ev) = Some o) as (seen' & Hacc' & Hseen').
  { destruct (gstep_ok _ _ _ _ _ _ Hs) as (_ & [->|(sm & -> & Hsm)] & _); [exists seen; auto|].
    pose proof (accepted_id_handled _ _ env _ _ (acc_dict _ _ _ _ Hacc) Hsm) as Haid.
    exists ({[sm_OperatorId sm]} ∪ seen). split; [eapply accounted_submitted; eauto using reg_separate|].
    intros o [->%elem_of_singleton|?]%elem_of_union; auto. }
  rewrite Forall_forall in Hevs. specialize (Hevs _ Hin).
  destruct (backed_step vi0 evs env ev g1 seen g2 rep out1) as [Hb' HQ]; [done..|by exists seen'|done|].
  split; [done|]. by exists seen'.
Qed.

(** ** A quorum leads to a final response *)

Lemma answered_response (env : AvsEnv) (m : M) d vi a force :
  vi_ok vi → vi_aggregatedOperatorsDict vi !! d = Some a → indices_answered env →
  ∃ r, getMessageBlsAggregationResponse env m d vi force = Ok r ∧ resp_Err r = None ∧
    mba_MessageDigest (resp_Aggregation r) = d ∧ resp_Message r = Some m.
Proof.
  intros Hok Ha Hi. unfold getMessageBlsAggregationResponse. rewrite Ha.
  destruct (status_defined _ _ _ Hok Ha) as [s ->].
  destruct (Hi (u32 (vi_ethBlockNumber vi)) (vi_quorumNumbers vi) (nonSignersOperatorIds vi a)) as [idx ->].
  eexists. split; [done|]. done.
Qed.

(** A final response without error for digest [d], with a message [P] holds of. *)
Definition final_for (d : MessageDigest) (P : M → Prop) (r : MessageBlsAggregationServiceResponse (M := M)) : Prop :=
  resp_Finished r = true ∧ resp_Err r = None ∧ mba_MessageDigest (resp_Aggregation r) = d ∧
  ∃ m, resp_Message r = Some m ∧ P m.

(** The submissions of a run, and the registry's answers. *)
Definition submission (P : M → Prop) (d : MessageDigest) (e : Event) : Prop :=
  indices_answered e.1 ∧
  ∃ sm, e.2 = EvSigned sm ∧ sm_ok sm ∧ (sm_MessageDigest sm = d → P (sm_Message sm)).

Lemma reached_run d P envT evs : verify_total → indices_answered envT → Forall (submission P d) evs →
  ∀ g m a, gr_phase g = ThresholdReached m → msg_Digest m = Ok d → P m → vi_ok (gr_vi g) →
  vi_aggregatedOperatorsDict (gr_vi g) !! d = Some a →
  ∃ g' out, grun g (evs ++ [(envT, EvTimer)]) = Ok (g', out) ∧ ∃ r, r ∈ out ∧ final_for d P r.
Proof.
  intros Hv HiT Hevs. induction Hevs as [|[env ev] evs (Hi & sm & Hev & Hm & HP) _ IH];
    intros g m a Hph Hd HPm Hok Ha; cbn [grun app]; unfold gstep; rewrite Hph; unfold handleSignedMessageThresholdReached; rewrite Hd.
  { destruct (answered_response envT m d (gr_vi g) a true Hok Ha HiT) as (r & Hr & He & Hdg & Hmsg). rewrite Hr. simpl.
    do 2 eexists. split; [done|]. exists r. split; [by left|]. split_and!; [|done..|by exists m].
    rewrite (resp_Finished_eq _ _ _ _ _ _ Hr). apply orb_true_r. }
  simpl in Hi, Hev. subst ev. case_bool_decide as Hsd; [|simpl].
  2:{ destruct (IH g m a Hph Hd HPm Hok Ha) as (g' & out & Hrun & Hr). rewrite Hrun. simpl. eauto. }
  pose proof (handle_total sm (gr_vi g) Hv Hok Hm) as Hh.
  destruct (handleSignedMessageDigest sm (gr_vi g)) as [vi|e|] eqn:Hsm; [| |done]; simpl.
  2:{ destruct (IH g m a Hph Hd HPm Hok Ha) as (g' & out & Hrun & Hr). rewrite Hrun. simpl. eauto. }
  pose proof (vi_ok_step _ _ _ Hok Hsm) as Hok'.
  assert (∃ a', vi_aggregatedOperatorsDict vi !! d = Some a') as [a' Ha'].
  { destruct (handleSignedMessageDigest_ok _ _ _ Hsm) as (op & pk & d' & _ & _ & _ & _ & _ & ->). simpl.
    destruct (decide (d' = d)) as [->|]; [rewrite lookup_insert_eq; eauto|rewrite lookup_insert_ne by done; eauto]. }
  rewrite Hsd. destruct (answered_response env (sm_Message sm) d vi a' false Hok' Ha' Hi) as (r & Hr & He & Hdg & Hmsg).
  rewrite Hr. cbn [res_bind fst snd]. case_bool_decide as Hfull.
  - rewrite closed_total by done. simpl. do 2 eexists. split; [done|]. exists r. split; [by left|].
    split_and!; [|done..|by exists (sm_Message sm); auto].
    rewrite (resp_Finished_eq _ _ _ _ _ _ Hr). by rewrite bool_decide_true.
  - destruct (IH (mkGoroutine (gr_key g) vi (ThresholdReached m)) m a') as (g' & out & Hrun & r' & Hr' & Hfin); [done..|].
    rewrite Hrun. simpl. do 2 eexists. split; [done|]. exists r'. split; [by right|done].
Qed.

(** A submission that is reported before the threshold. *)
Lemma pre_reported (env : AvsEnv) g (sm : SignedMessage (M := M)) g' rep r :
  gr_phase g = PreThreshold → gstep env g (EvSigned sm) = Ok (g', rep, [r]) → reached (resp_Status r) →
  ∃ vi, handleSignedMessageDigest sm (gr_vi g) = Ok vi ∧
    getMessageBlsAggregationResponse env (sm_Message sm) (sm_MessageDigest sm) vi false = Ok r ∧
    g' = mkGoroutine (gr_key g) vi (match resp_Status r with
           | MessageBlsAggregationStatusThresholdReached => ThresholdReached (sm_Message sm)
           | _ => Closed end).
Proof.
  intros Hph Hs Hst. unfold gstep in Hs. rewrite Hph in Hs. unfold handleSignedMessagePreThreshold in Hs.
  destruct (handleSignedMessageDigest sm (gr_vi g)) as [vi| |]; [|done..]. exists vi. split; [done|].
  apply res_bind_ok in Hs as (r' & Hr & [= Hs]).
  destruct (resp_Status r') eqn:Hs'; simplify_eq; (split; [done|]); rewrite ?Hs'; try done.
  destruct Hst; congruence.
Qed.

(** Operators with a quorum of the stake submit digest [d] among any other submissions,
    and then the timer fires: a final response without error reports [d]. *)
Lemma honest_quorum_final (vi0 : ValidationInfo) (key : MessageKey) (evs : list Event) (d : MessageDigest)
    (P : M → Prop) (envT : AvsEnv) (quorum : gset OperatorId) :
  verify_total → registry_ok vi0 → vi_ok vi0 → majority_ok vi0 → indices_answered envT →
  Forall (submission P d) evs → NoDup (accepted_ids vi0 evs) →
  (∀ o, o ∈ quorum → submitted vi0 evs o d) → backed_by vi0 quorum →
  ∃ g out, grun (newGoroutine key vi0) (evs ++ [(envT, EvTimer)]) = Ok (g, out) ∧ ∃ r, r ∈ out ∧ final_for d P r.
Proof.
  intros Hv Hreg Hok Hmaj HiT Hevs Hnd HH Hb.
  assert (Forall (λ e : Event, ∃ sm, e.2 = EvSigned sm ∧ sm_ok sm) evs) as Hsm.
  { eapply Forall_impl; [exact Hevs|]. intros e (_ & sm & ? & ? & _). eauto. }
  assert (Forall (λ e : Event, indices_answered e.1) evs) as Hi.
  { eapply Forall_impl; [exact Hevs|]. by intros e (? & _). }
  destruct (honest_quorum_first vi0 evs d quorum Hv Hreg Hmaj Hsm Hi Hnd HH Hb evs [] _ ∅ eq_refl
    (waiting_start _ _ _ key Hreg Hok)) as
    (pre & env & sm & post & g1 & g2 & rep & r & Hevs' & Hrun & [Hok1 _] & Hph & Hstep & Hst & He & Hd & Hm & Hmsg & Hdg).
  rewrite Hevs' in Hevs |- *. apply Forall_app in Hevs as [_ [(_ & sm' & [= <-] & _ & HP) Hpost]%Forall_cons].
  destruct (pre_reported env g1 sm g2 rep r Hph Hstep Hst) as (vi & Hh & Hr & ->). specialize (HP Hd).
  destruct (response_of_aggregate _ _ _ _ _ _ Hr) as (a & Ha & _); [destruct Hst; congruence|]. rewrite Hd in Ha.
  rewrite <- app_assoc, (grun_app _ _ _ _ _ Hrun). cbn [app grun]. rewrite Hstep. cbn [res_bind fst snd].
  destruct Hst as [Hst|Hst]; rewrite Hst.
  - destruct (reached_run d P envT post Hv HiT Hpost (mkGoroutine (gr_key g1) vi (ThresholdReached (sm_Message sm)))
      (sm_Message sm) a) as (g' & out & -> & r' & Hin & Hfin); [done|destruct Hm as [Hm _]; unfold digest_matches in Hm; congruence|done| |done|].
    { by eapply vi_ok_step. }
    cbn [res_bind fst snd app]. do 2 eexists. split; [done|]. exists r'. split; [by right|done].
  - rewrite closed_total by done. cbn [res_bind fst snd app]. do 2 eexists. split; [done|]. exists r. split; [by left|].
    split_and!; [|done..|by exists (sm_Message sm)].
    rewrite (resp_Finished_eq _ _ _ _ _ _ Hr), Hst. done.
Qed.

End Final.


(** ** The contract accepts what the aggregator reports *)

Section Accepted.
Context `{B : BlsOps} {BL : BlsLaws B} {N : Bn254Ops} {NL : Bn254Laws N} {BN : Bn254BlsLaws B N}.
Context `{H : HashOps} `{A : AbiOps} {M : Type} `{MI : AggMessage M}.
Context (K : BN254G1Point → Prop) (K_valid : ∀ p, K p → g1_valid p = true).

#[local] Notation Event := (AvsEnv * GEvent (M := M))%type.

(** A submission as [ProcessNewSignature] makes it, whose signature is a curve point. *)
Definition on_curve (sm : SignedMessage (M := M)) : Prop :=
  digest_matches sm ∧ g1_valid (ConvertToBN254G1Point (sm_BlsSignature sm)) = true.

(** What is known of the state a response of the run reports on. *)
Definition run_state (vi0 : ValidationInfo) (evs : list Event) (vi : ValidationInfo) (seen : gset OperatorId) : Prop :=
  accounted (submitted vi0 evs) vi0 vi seen ∧ aggregates_match vi0 vi ∧ aggregates_verify vi.

Lemma run_state_reports vi0 key evs g out :
  registry_ok vi0 → keys_registered vi0 → NoDup (accepted_ids vi0 evs) → Forall (event_ok on_curve) evs →
  grun (newGoroutine key vi0) evs = Ok (g, out) →
  Forall (reports_on (λ vi, ∃ seen, run_state vi0 evs vi seen)) out.
Proof.
  intros Hreg Hk Hnd Hevs Hrun. apply (grun_fresh (run_state vi0 evs) vi0 evs key g); [| |done| |done].
  - intros vi seen (Hacc & _). apply Hacc.
  - intros env sm vi vi' seen Hin (Hacc & Hm & Hv) Hn Hsm.
    rewrite Forall_forall in Hevs. destruct (Hevs _ Hin) as [Hdg Hval]. split_and!.
    + eapply accounted_submitted; eauto using reg_separate.
    + by eapply aggregates_match_step.
    + by eapply aggregates_verify_step.
  - split_and!; [by apply accounted_start, Hreg|..]; intros d a; by rewrite (reg_fresh _ Hreg), lookup_empty.
Qed.

(** The weights of the snapshot's operators. *)
Lemma snapshot_total vi0 t :
  majority_ok vi0 → vi_totalStakePerQuorum vi0 !! 0 = Some t → zsum (rg_Weight <$> snapshot_set vi0) = t.
Proof.
  intros Hmaj Ht. rewrite (maj_totals _ Hmaj _ _ Ht). unfold snapshot_set, set_zsum. by rewrite <- list_fmap_compose.
Qed.

Lemma threshold_share t p q s : 0 ≤ t → q ≤ p → t * p ≤ 100 * s → t * q / 100 ≤ s.
Proof. intros Ht Hq Hs. apply Z.div_le_upper_bound; [lia|]. nia. Qed.

(** A registry that holds the operators of the snapshot, and asks for no larger share
    than the aggregation, accepts the signature of a response that reports a quorum. *)
Lemma response_accepted vi0 key evs g out r info os t p :
  registry_ok vi0 → majority_ok vi0 → keys_registered vi0 → NoDup (accepted_ids vi0 evs) →
  Forall (event_ok on_curve) evs → grun (newGoroutine key vi0) evs = Ok (g, out) → r ∈ out →
  reached (resp_Status r) → ExtractBindingRollup (resp_Aggregation r) = Ok info →
  vi_totalStakePerQuorum vi0 !! 0 = Some t → vi_quorumThresholdPercentagesMap vi0 !! 0 = Some p →
  0 < t → 100 * t < 2 ^ 128 → 0 ≤ os_quorumThreshold os ≤ p →
  os_represents K os (snapshot_set vi0) →
  verifyCalldata os (mba_MessageDigest (resp_Aggregation r)) info = Ok true.
Proof.
  intros Hreg Hmaj Hk Hnd Hevs Hrun Hr Hst Hinfo Ht Hp Hpos Hmax Hq HR.
  pose proof (run_state_reports vi0 key evs g out Hreg Hk Hnd Hevs Hrun) as Hall. rewrite Forall_forall in Hall.
  destruct (Hall r Hr) as [Hn|(env & m & d & force & vi & [seen (Hacc & Hm & Hv)] & Hresp)]; [destruct Hst; congruence|].
  destruct (response_of_aggregate _ _ _ _ _ _ Hresp) as (a & Ha & Hs & Hdg & Hapk & Hsig & Hnons & _).
  { destruct Hst; congruence. }
  destruct (Hm d a Ha) as [Hmatch Hval]. specialize (Hv d a Ha).
  assert (ao_signersOperatorIdsSet a ⊆ dom (vi_operatorsAvsStateDict vi0)) as Hsub.
  { intros o Ho. apply (acc_signer _ _ _ _ Hacc d a o Ha) in Ho as [Ho _]. by eapply submitted_dom. }
  pose proof (snapshot_split vi0 vi a (acc_dict _ _ _ _ Hacc) Hsub) as Hsplit.
  pose proof (rep_total _ _ _ _ _ HR) as Htotal. rewrite (snapshot_total vi0 t Hmaj Ht) in Htotal.
  unfold ExtractBindingRollup in Hinfo. rewrite Hapk, Hsig in Hinfo. cbn [go_deref res_bind] in Hinfo. injection Hinfo as <-.
  rewrite (verifyCalldata_accepts K K_valid os (registered_as vi0 <$> elements (ao_signersOperatorIdsSet a))
    (registered_as vi0 <$> nonSignersOperatorIds vi a)).
  - f_equal. apply bool_decide_eq_true. rewrite <- list_fmap_compose, Htotal.
    destruct (status_backed _ vi0 vi seen d a _ Hreg Hacc Ha Hs Hst 0 p Hp) as (t' & Ht' & Hle).
    assert (t' = t) as -> by congruence. apply (threshold_share t p); [lia|lia|exact Hle].
  - exact (represents_perm K K_valid _ _ _ _ _ Hsplit HR).
  - cbn [rsi_NonSignerPubkeys]. rewrite Hnons. apply nonsigner_keys; [apply Hacc|].
    intros o [Ho _]%nonSigners_elem. by rewrite (acc_dict _ _ _ _ Hacc) in Ho.
  - by apply nonsigners_hash_sorted; [apply Hacc|].
  - lia.
  - rewrite Htotal. pose proof (reg_percent _ Hreg 0 p Hp). nia.
  - done.
  - cbn [rsi_Sigma rsi_ApkG2]. rewrite Hdg. by apply convert_verify.
  - rewrite <- list_fmap_compose. exact Hmatch.
Qed.

End Accepted.

(** ** End to end *)

Section EndToEnd.
Context `{B : BlsOps} {BL : BlsLaws B} {N : Bn254Ops} {NL : Bn254Laws N} {BN : Bn254BlsLaws B N}.
Context `{H : HashOps} {HL : HashLaws H} `{A : AbiOps} {AL : AbiLaws A}.
Context {G1 : GormOps StateRootUpdateModel} {G2 : GormOps OperatorSetUpdateModel}.
Context (address : Address) (K : BN254G1Point → Prop)
  (K_valid : ∀ p, K p → g1_valid p = true)
  (K_coordinates : ∀ p, K p → coordinates_ok p)
  (K_inj : ∀ p q, K p → K q → hashG1Point p = hashG1Point q → p = q).
Context (pdqsort : (nat → nat → bool) → list RegistryOperator → list RegistryOperator)
  (pdqsort_perm : ∀ less l, pdqsort less l ≡ₚ l)
  (order : gmap string operatorUpdate → list (string * operatorUpdate))
  (order_perm : ∀ m, order m ≡ₚ map_to_list m).

#[local] Notation Event := (AvsEnv * GEvent (M := ServiceMessage))%type.
#[local] Notation BlsResponse := (MessageBlsAggregationServiceResponse (M := ServiceMessage)).

(** Mainnet's update [id] takes the operator set from [prev] to [new], and [m] with digest
    [d] is the message of its delta. *)
Record set_update (prev new : list RegistryOperator) (id : Z) (m : OperatorSetUpdateMessage) (d : MessageDigest) : Prop := {
  su_prev : set_ok K prev;
  su_new : set_ok K new;
  su_message : ∃ ts delta,
    GetOperatorSetUpdateDelta pdqsort order (Ok (mkOperatorSetUpdateInfo prev new)) = Ok delta ∧
    osu_ToBinding m = Ok (mkOsuBinding id ts (converted <$> delta));
  su_digest : osu_Digest m = Ok d;
  su_id : 0 ≤ id ∧ id + 1 < 2 ^ 64;
}.

(** The snapshot of the block before the update has the operators [prev]. *)
Record snapshot_of (prev : list RegistryOperator) (vi0 : ValidationInfo) : Prop := {
  sn_registry : registry_ok vi0;
  sn_ok : vi_ok vi0;
  sn_majority : majority_ok vi0;
  sn_keys : keys_registered vi0;
  sn_operators : snapshot_set vi0 ≡ₚ prev;
  sn_threshold : vi_quorumThresholdPercentagesMap vi0 !! 0 = Some MESSAGE_AGGREGATION_QUORUM_THRESHOLD;
  sn_total : ∃ t, vi_totalStakePerQuorum vi0 !! 0 = Some t ∧ 0 < t ∧ 100 * t < 2 ^ 128;
}.

(** The database answers, with or without an error. *)
Definition db_answers (db : Database) : Prop :=
  (∀ m, (StoreOperatorSetUpdate db m).2 ≠ Panic) ∧
  (∀ m row a, (StoreOperatorSetUpdateAggregation (StoreOperatorSetUpdate db m).1 row a).2 ≠ Panic).

(** The deferred broadcast. *)
Lemma final_broadcast (agg : Aggregator) (r : BlsResponse) m info :
  db_answers (ag_msgDb agg) → resp_Err r = None → resp_Finished r = true →
  resp_Message r = Some (MsgOperatorSetUpdate m) → ExtractBindingRollup (resp_Aggregation r) = Ok info →
  ∃ agg' effects, handleOperatorSetUpdateReachedQuorum agg r = Ok (agg', effects) ∧
    Aggregator.BroadcastOperatorSetUpdate m info ∈ effects.
Proof.
  intros [Hdb1 Hdb2] He Hf Hm Hi.
  assert (∃ x, handleOperatorSetUpdateReachedQuorum agg r = Ok x) as [[agg' effects] Hh].
  { unfold handleOperatorSetUpdateReachedQuorum. rewrite He, Hm, Hf, Hi. cbn [res_bind].
    specialize (Hdb1 m). specialize (Hdb2 m). destruct (StoreOperatorSetUpdate (ag_msgDb agg) m) as [d1 [row|e|]]; [|by eexists|done].
    specialize (Hdb2 row (resp_Aggregation r)). simpl in Hdb2.
    destruct (StoreOperatorSetUpdateAggregation d1 row (resp_Aggregation r)) as [d2 [[]|e|]]; [by eexists..|done]. }
  exists agg', effects. split; [done|]. by apply (broadcast_exactly_final agg agg' r effects m info Hh).
Qed.

Lemma on_curve_matches (evs : list Event) : Forall (event_ok on_curve) evs → Forall (event_ok digest_matches) evs.
Proof. intros Hevs. eapply Forall_impl; [exact Hevs|]. intros [e [sm|]]; [by intros [? _]|done]. Qed.

(** A final response has the keys and the signature the contract needs. *)
Lemma final_extracts vi0 prev key (evs : list Event) g out (r : BlsResponse) :
  snapshot_of prev vi0 → NoDup (accepted_ids vi0 evs) → Forall (event_ok on_curve) evs →
  grun (newGoroutine key vi0) evs = Ok (g, out) → r ∈ out → resp_Finished r = true → resp_Err r = None →
  ∃ info, ExtractBindingRollup (resp_Aggregation r) = Ok info.
Proof.
  intros Hsn Hnd Hevs Hrun Hr Hf He. pose proof (on_curve_matches _ Hevs) as Hdm.
  destruct (final_response_reached vi0 key evs g out r (sn_registry _ _ Hsn) (sn_majority _ _ Hsn) Hnd Hdm Hrun Hr Hf He) as [Hst|Hst];
  (destruct (grun_reports (λ _, True) digest_matches evs (newGoroutine key vi0) g out) as [_ Hall]; [done..|];
   rewrite Forall_forall in Hall; destruct (Hall r Hr) as [?|(env & x & d & force & vi & _ & Hresp)]; [congruence|];
   destruct (response_of_aggregate _ _ _ _ _ _ Hresp) as (a & _ & _ & _ & Hapk & Hsig & _); [congruence|];
   unfold ExtractBindingRollup; rewrite Hapk, Hsig; by eexists).
Qed.

(** The signature of a final response is one of a quorum. *)
Lemma final_quorum_signed vi0 prev key (evs : list Event) g out (r : BlsResponse) m b info threshold :
  snapshot_of prev vi0 → NoDup (accepted_ids vi0 evs) → Forall (event_ok on_curve) evs →
  grun (newGoroutine key vi0) evs = Ok (g, out) → r ∈ out → resp_Finished r = true → resp_Err r = None →
  osu_Digest m = Ok (mba_MessageDigest (resp_Aggregation r)) → osu_ToBinding m = Ok b → is_u64 (osu_Id m) →
  ExtractBindingRollup (resp_Aggregation r) = Ok info → 0 ≤ threshold ≤ MESSAGE_AGGREGATION_QUORUM_THRESHOLD →
  quorum_signed K threshold prev b info.
Proof.
  intros [Hreg Hok Hmaj Hk Hset Hthr (t & Ht & Hpos & Hmax)] Hnd Hevs Hrun Hr Hf He Hd Hb Hid Hi Hq.
  exists (mba_MessageDigest (resp_Aggregation r)). split.
  { unfold osu_Digest, osu_AbiEncode in Hd. rewrite Hb in Hd. by apply hashWithPrefix_digest in Hd. }
  intros os HR Hq'. pose proof (on_curve_matches _ Hevs) as Hdm.
  eapply (response_accepted K K_valid vi0); [done..| |done|exact Ht|exact Hthr|done|done|by rewrite Hq'|].
  - by eapply final_response_reached.
  - exact (represents_perm K K_valid _ _ _ _ _ (Permutation_sym Hset) HR).
Qed.

(** Every rollup executes the update. *)
Lemma broadcast_all threshold prev new delta id ts m info : ∀ writers scripts ctxDone,
  set_ok K prev → set_ok K new →
  GetOperatorSetUpdateDelta pdqsort order (Ok (mkOperatorSetUpdateInfo prev new)) = Ok delta →
  osu_ToBinding m = Ok (mkOsuBinding id ts (converted <$> delta)) →
  quorum_signed K threshold prev (mkOsuBinding id ts (converted <$> delta)) info →
  0 ≤ id → id + 1 < 2 ^ 64 →
  Forall (λ w : RollupId * Chain, holds K threshold prev id (ch_registry w.2)) writers →
  (∀ i, healthy (scripts i 0%nat)) → (∀ i, ctxDone i = false) →
  ∃ writers', Rollups.BroadcastOperatorSetUpdate address scripts ctxDone m info writers = Ok (writers', []) ∧
    writers'.*1 = writers.*1 ∧
    Forall (λ w : RollupId * Chain, holds K threshold new (id + 1) (ch_registry w.2)) writers'.
Proof.
  intros writers scripts ctxDone Hprev Hnew Hdelta Hb Hq H0 Hmax Hw. revert scripts ctxDone.
  induction Hw as [|[rollupId c] writers Hc Hw IH]; intros scripts ctxDone Hs Hctx.
  { exists []. by split. }
  destruct (Hs 0%nat) as (_ & _ & _ & _ & _ & _ & Hp).
  destruct (signed_update_accepted address K K_valid K_coordinates K_inj pdqsort pdqsort_perm order order_perm threshold prev new delta
    id ts info _ (ch_registry c) Hprev Hnew Hdelta Hq H0 Hmax Hp Hc) as (r' & Hacc & Hr').
  destruct (IH (λ i, scripts (S i)) (λ i, ctxDone (S i))) as (ws & Hbc & Hids & Hws); [intros i; apply Hs|intros i; apply Hctx|].
  eexists. split.
  { cbn [Rollups.BroadcastOperatorSetUpdate]. rewrite Hctx, (healthy_update address _ _ _ _ _ _ (Hs 0%nat) Hb Hacc), Hbc. done. }
  split; [cbn [fmap list_fmap]; f_equal; exact Hids|]. by constructor.
Qed.

(** C3: an operator set update signed by the operators reaches every rollup.  Mainnet's
    update takes the set [prev] to [new]; operators of the set before it with a quorum of
    the stake submit the update's digest to the aggregation, among other submissions,
    forged or for other digests, and then the timer of the aggregation fires.  No operator
    has two submissions accepted, and the signatures are points of the curve.  Then a final
    response is delivered, the aggregator broadcasts the update whatever its database does,
    and every rollup whose registry held [prev], is not paused and asks for no larger share
    than the aggregator, the network working, checks the aggregate signature successfully
    and ends with exactly the set [new]. *)
Theorem operator_set_update_reaches_rollups (prev new : list RegistryOperator) (id : Z) (m : OperatorSetUpdateMessage)
    (d : MessageDigest) (vi0 : ValidationInfo) (evs : list Event)
    (envT : AvsEnv) (quorum : gset OperatorId) (agg : Aggregator) threshold scripts ctxDone
    (writers : list (RollupId * Chain)) :
  verify_total → set_update prev new id m d → snapshot_of prev vi0 → indices_answered envT →
  Forall (submission (λ x, x = MsgOperatorSetUpdate m) d) evs → Forall (event_ok on_curve) evs →
  NoDup (accepted_ids vi0 evs) → (∀ o, o ∈ quorum → submitted vi0 evs o d) → backed_by vi0 quorum →
  db_answers (ag_msgDb agg) → 0 ≤ threshold ≤ MESSAGE_AGGREGATION_QUORUM_THRESHOLD →
  Forall (λ w, holds K threshold prev id (ch_registry w.2)) writers →
  (∀ i, healthy (scripts i 0%nat)) → (∀ i, ctxDone i = false) →
  ∃ g out r agg' effects info writers',
    grun (newGoroutine (osu_Key m) vi0) (evs ++ [(envT, EvTimer)]) = Ok (g, out) ∧ r ∈ out ∧
    handleOperatorSetUpdateReachedQuorum agg r = Ok (agg', effects) ∧
    Aggregator.BroadcastOperatorSetUpdate m info ∈ effects ∧
    Rollups.BroadcastOperatorSetUpdate address scripts ctxDone m info writers = Ok (writers', []) ∧
    writers'.*1 = writers.*1 ∧ Forall (λ w, holds K threshold new (id + 1) (ch_registry w.2)) writers'.
Proof.
  intros Hv [Hprev Hnew (ts & delta & Hdelta & Hb) Hd [H0 Hmax]] Hsn HiT Hsub Hcurve Hnd HH Hback Hdb Hq Hw Hs Hctx.
  destruct (honest_quorum_final vi0 (osu_Key m) evs d _ envT quorum Hv (sn_registry _ _ Hsn) (sn_ok _ _ Hsn)
    (sn_majority _ _ Hsn) HiT Hsub Hnd HH Hback) as (g & out & Hrun & r & Hr & Hf & He & Hdg & x & Hm & ->).
  assert (Forall (event_ok on_curve) (evs ++ [(envT, EvTimer)])) as Hcurve'.
  { apply Forall_app; split; [done|by repeat constructor]. }
  assert (NoDup (accepted_ids vi0 (evs ++ [(envT, EvTimer)]))) as Hnd'.
  { unfold accepted_ids. rewrite omap_app. simpl. by rewrite app_nil_r. }
  destruct (final_extracts vi0 prev (osu_Key m) _ g out r Hsn Hnd' Hcurve' Hrun Hr Hf He) as [info Hi].
  destruct (final_broadcast agg r m info Hdb He Hf Hm Hi) as (agg' & effects & Hh & Hin).
  pose proof (osu_ToBinding_Id _ _ Hb) as Hid. simpl in Hid. rewrite <- Hdg in Hd.
  pose proof (final_quorum_signed vi0 prev (osu_Key m) _ g out r m _ info threshold Hsn Hnd' Hcurve' Hrun Hr Hf He Hd Hb
    ltac:(unfold is_u64; lia) Hi Hq) as Hsigned.
  destruct (broadcast_all threshold prev new delta id ts m info writers scripts ctxDone Hprev Hnew Hdelta Hb Hsigned H0 Hmax Hw Hs Hctx)
    as (writers' & Hbc & Hids & Hws).
  by exists g, out, r, agg', effects, info, writers'.
Qed.

(** ** State root updates *)

(** A non-signer the registry does not know makes it revert. *)
Lemma nonSigners_known os keys : ∀ prev apk w r,
  nonSigners_loop os prev keys apk w = Ok r → Forall (λ p, getOperatorWeight os (hashG1Point p) ≠ 0) keys.
Proof.
  induction keys as [|k keys IH]; intros prev apk w r Hl; [constructor|]. cbn [nonSigners_loop] in Hl. inv_bind Hl u Hu.
  inv_bind Hl u' Hz. apply require_ok, negb_true_iff, bool_decide_eq_false in Hz. inv_bind Hl apk' Ha. inv_bind Hl w' Hw.
  constructor; [done|]. by eapply IH.
Qed.

(** A state root update is checked against the set the rollup has, while it is aggregated
    with the current set of mainnet: a rollup that has not yet received the update with
    which an operator joined refuses every signature that lists it as a non-signer. *)
Theorem unknown_nonsigner_refused ih sender reg m info p r :
  p ∈ rsi_NonSignerPubkeys info → getOperatorWeight (reg_operatorSet reg) (hashG1Point p) = 0 →
  accept_tx ih sender reg (TxUpdateStateRoot m info) ≠ Ok r.
Proof.
  intros Hp Hz Hacc. cbn [accept_tx] in Hacc. unfold updateStateRoot in Hacc. inv_require Hacc. inv_bind Hacc d Hd.
  inv_bind Hacc met Hmet. unfold verifyCalldata in Hmet. inv_require Hmet. inv_bind Hmet x Hx.
  apply nonSigners_known in Hx. rewrite Forall_forall in Hx. by destruct (Hx p Hp).
Qed.

(** C29: a quorum's state root is stored by the rollups.  Let the aggregation of a state root
    update be started with a snapshot of the operators [prev], no operator have two
    submissions accepted, and the signatures be points of the curve.  Take a response that
    reports a quorum for the message's digest, and read its aggregate key and signature
    when the goroutine is in state [g]: the response is final, or no submission has been
    added to its aggregate since it was sent.  A registry that holds [prev], is not paused
    and asks for no larger share accepts the message with the signature so read; it then
    has the message's state root for this rollup and height, every other state root is as
    before, and storage values are read against this root. *)
Theorem quorum_state_root_stored (prev : list RegistryOperator) (vi0 : ValidationInfo) (key : MessageKey)
    (evs : list Event) g out (r : BlsResponse) (m : StateRootUpdateMessage) info ih sender reg :
  snapshot_of prev vi0 → NoDup (accepted_ids vi0 evs) → Forall (event_ok on_curve) evs →
  grun (newGoroutine key vi0) evs = Ok (g, out) → r ∈ out → reached (resp_Status r) →
  resp_Finished r = true ∨ reread (gr_vi g) r = r →
  sru_Digest m = Ok (mba_MessageDigest (resp_Aggregation r)) →
  ExtractBindingRollup (resp_Aggregation (reread (gr_vi g) r)) = Ok info →
  os_represents K (reg_operatorSet reg) prev →
  0 ≤ os_quorumThreshold (reg_operatorSet reg) ≤ MESSAGE_AGGREGATION_QUORUM_THRESHOLD →
  ih_paused ih PAUSED_UPDATE_STATE_ROOT = false →
  ∃ reg', accept_tx ih sender reg (TxUpdateStateRoot m info) = Ok reg' ∧ reg_operatorSet reg' = reg_operatorSet reg ∧
    (∀ rollupId height, getStateRoot reg' rollupId height =
       if bool_decide ((rollupId, height) = (sru_RollupId m, sru_BlockHeight m)) then sru_StateRoot m
       else getStateRoot reg rollupId height) ∧
    ∀ proof, getStorageValue reg' m proof = proof (sru_StateRoot m).
Proof.
  intros [Hreg Hok Hmaj Hk Hset Hthr (t & Ht & Hpos & Hmax)] Hnd Hevs Hrun Hr Hst Hread Hd Hi HR Hq Hp.
  assert (reread (gr_vi g) r = r) as Hsame.
  { destruct Hread as [Hf|]; [|done]. pose proof (grun_final_reread _ _ _ _ Hrun) as Hall.
    rewrite Forall_forall in Hall. by apply Hall. }
  rewrite Hsame in Hi.
  assert (verifyCalldata (reg_operatorSet reg) (mba_MessageDigest (resp_Aggregation r)) info = Ok true) as Hver.
  { eapply (response_accepted K K_valid vi0); [done..|exact Ht|exact Hthr|done|done|done|].
    exact (represents_perm K K_valid _ _ _ _ _ (Permutation_sym Hset) HR). }
  assert (sru_hashCalldata m = Ok (mba_MessageDigest (resp_Aggregation r))) as Hh by (by apply hashWithPrefix_digest in Hd).
  exists (_pushStateRoot reg (sru_RollupId m) (sru_BlockHeight m) (sru_StateRoot m)).
  assert (∀ rollupId height, getStateRoot (_pushStateRoot reg (sru_RollupId m) (sru_BlockHeight m) (sru_StateRoot m)) rollupId height =
    if bool_decide ((rollupId, height) = (sru_RollupId m, sru_BlockHeight m)) then sru_StateRoot m
    else getStateRoot reg rollupId height) as Hget.
  { intros rollupId height. unfold getStateRoot, _pushStateRoot. cbn. case_bool_decide as Heq.
    - by rewrite Heq, lookup_insert_eq.
    - by rewrite lookup_insert_ne. }
  split_and!; [|done|exact Hget|].
  - cbn [accept_tx]. unfold updateStateRoot. rewrite Hp. cbn [negb require res_bind]. rewrite Hh. cbn [res_bind]. by rewrite Hver.
  - intros proof. pose proof (Hget (sru_RollupId m) (sru_BlockHeight m)) as Hg. rewrite bool_decide_true in Hg by done.
    unfold getStorageValue. rewrite Hg. by rewrite bool_decide_true.
Qed.

End EndToEnd.

Module Examples.

#[local] Existing Instances ToyBls.ops ToyHash.ops ToyAbi.ops ToyBn254.ops.
#[local] Existing Instances ToyBls.bls_laws ToyHash.hash_laws ToyAbi.abi_laws ToyBn254.laws ToyBn254.pairing_laws.
#[local] Existing Instances DatabaseTheory.Examples.G1 DatabaseTheory.Examples.G2.
#[local] Notation empty_db := DatabaseTheory.Examples.empty_db.
#[local] Notation operator := Rollups.Examples.operator.
#[local] Notation keep := Rollups.Examples.keep.
#[local] Notation small_key := RegistryContractTheory.Examples.small_key.
#[local] Notation small_valid := RegistryContractTheory.Examples.small_valid.
#[local] Notation small_inj := RegistryContractTheory.Examples.small_inj.
#[local] Notation fine := Rollups.Examples.fine.

(** Operators 1, 2 and 3 with stake 10; operator 3 leaves, 4 joins, 2 gets more stake. *)
Definition prev : list RegistryOperator := [operator 1 10; operator 2 10; operator 3 10].
Definition new : list RegistryOperator := [operator 1 10; operator 2 25; operator 4 5].
Definition delta : list RegistryOperator :=
  res_or [] (GetOperatorSetUpdateDelta keep map_to_list (Ok (mkOperatorSetUpdateInfo prev new))).
Definition update : OperatorSetUpdateMessage := Rollups.Examples.message 4 delta.
Definition digest : MessageDigest := res_or [] (osu_Digest update).

(** Operator 3 submits another update first, then operators 1 and 2 the right one. *)
Definition other : OperatorSetUpdateMessage := Rollups.Examples.message 4 [].
Definition signed (k : Z) (m : OperatorSetUpdateMessage) : SignedMessage (M := ServiceMessage) :=
  mkSignedMessage (MsgOperatorSetUpdate m) (res_or [] (osu_Digest m)) (SignMessage k (res_or [] (osu_Digest m))) (op_id k).
Definition submissions : list (AvsEnv * GEvent (M := ServiceMessage)) :=
  [(ex_env false, EvSigned (signed 3 other)); (ex_env false, EvSigned (signed 1 update));
   (ex_env false, EvSigned (signed 2 update))].

Definition rollup : Chain :=
  mkChain (ch_registry (InitializeOperatorSet 7 (λ _, fine) (converted <$> prev) 3
    (mkChain Rollups.Examples.fresh [])).1) [].

Lemma ex_prev_ok : set_ok small_key prev.
Proof. split; [by apply (bool_decide_unpack _)|intros op Hop; Rollups.Examples.each_operator Hop..|done]. Qed.
Lemma ex_new_ok : set_ok small_key new.
Proof. split; [by apply (bool_decide_unpack _)|intros op Hop; Rollups.Examples.each_operator Hop..|done]. Qed.

Lemma rollup_holds : holds small_key 66 prev 4 (ch_registry rollup).
Proof.
  destruct (healthy_init 7 small_key small_valid small_inj 66 prev 3 (λ _, fine) (mkChain Rollups.Examples.fresh []))
    as (c & Hc & Hh); [lia|lia|exact ex_prev_ok|exact Rollups.Examples.fine_healthy|reflexivity|].
  unfold rollup. rewrite Hc. exact Hh.
Qed.

Lemma ex_set_update_ok : set_update small_key keep map_to_list prev new 4 update digest.
Proof.
  split; [exact ex_prev_ok|exact ex_new_ok| |vm_compute; reflexivity|lia].
  exists 1700000000, delta. split; vm_compute; reflexivity.
Qed.

Lemma ex_snapshot_of : snapshot_of prev ex_vi.
Proof.
  split; [exact ex_registry_ok|exact ex_vi_ok|exact ex_majority_ok| | |reflexivity|by exists 30].
  - split; intros o op; intros.
    + apply ex_operators_cases in H as [[-> ->]|[[-> ->]|[-> ->]]]; reflexivity.
    + done.
    + apply ex_operators_cases in H as [[-> ->]|[[-> ->]|[-> ->]]]; injection H0 as <-; reflexivity.
  - assert (snapshot_set ex_vi = [operator 3 10; operator 1 10; operator 2 10]) as -> by (vm_compute; reflexivity).
    unfold prev. solve_Permutation.
Qed.

Lemma operator_set_update_reaches_rollups_witness :
  ∃ g out r agg' effects info writers',
    grun (newGoroutine (osu_Key update) ex_vi) (submissions ++ [(ex_env false, EvTimer)]) = Ok (g, out) ∧ r ∈ out ∧
    handleOperatorSetUpdateReachedQuorum (ex_aggregator empty_db) r = Ok (agg', effects) ∧
    Aggregator.BroadcastOperatorSetUpdate update info ∈ effects ∧
    Rollups.BroadcastOperatorSetUpdate 7 (λ _ _, fine) (λ _, false) update info [(3, rollup)] = Ok (writers', []) ∧
    writers'.*1 = [3] ∧ Forall (λ w, holds small_key 66 new 5 (ch_registry w.2)) writers'.
Proof.
  apply (operator_set_update_reaches_rollups 7 small_key small_valid Rollups.Examples.small_coordinates small_inj
    keep (λ _ l, reflexivity l) map_to_list (λ m, reflexivity (map_to_list m))
    prev new 4 update digest ex_vi submissions (ex_env false) {[op_id 1; op_id 2]} (ex_aggregator empty_db) 66
    (λ _ _, fine) (λ _, false) [(3, rollup)]).
  - exact ex_verify_total.
  - exact ex_set_update_ok.
  - exact ex_snapshot_of.
  - intros blk qs ids. by eexists.
  - repeat (apply Forall_cons_2; [split; [intros blk qs ids; by eexists|]; eexists; split; [reflexivity|]; split; [split; reflexivity|]|]);
      [|done|done|constructor].
    intros Heq. exfalso. revert Heq. vm_compute. discriminate.
  - repeat constructor.
  - apply (bool_decide_unpack (NoDup _)). vm_compute. exact I.
  - intros o [->%elem_of_singleton| ->%elem_of_singleton]%elem_of_union.
    + exists (ex_env false), (signed 1 update), (op_state 1 1%nat), (ex_pk 1).
      split_and!; [|reflexivity|vm_compute; reflexivity|reflexivity|reflexivity|apply bls_verify_sign].
      right. left.
    + exists (ex_env false), (signed 2 update), (op_state 2 2%nat), (ex_pk 2).
      split_and!; [|reflexivity|vm_compute; reflexivity|reflexivity|reflexivity|apply bls_verify_sign].
      right. right. left.
  - intros q p Hp. change (({[ 0 := 66 ]} : gmap Z Z) !! q = Some p) in Hp.
    apply lookup_singleton_Some in Hp as [<- <-]. exists 30. split; [reflexivity|]. vm_compute. discriminate.
  - split; intros; lazymatch goal with |- ?x ≠ _ => eassert (x = Ok _) as -> by reflexivity end; discriminate.
  - vm_compute. split; discriminate.
  - apply Forall_singleton, rollup_holds.
  - intros _. exact Rollups.Examples.fine_healthy.
  - reflexivity.
Defined.

(** All operators sign a state root, so that the last response is final; operator 3 signs
    after the first one is sent. *)
Definition root_signed (k : Z) : AvsEnv * GEvent (M := ServiceMessage) :=
  (ex_env false, EvSigned (mkSignedMessage (MsgStateRootUpdate (ex_update 9)) (ex_update_digest 9)
     (SignMessage k (ex_update_digest 9)) (op_id k))).
Definition root_run := grun (newGoroutine (sru_Key (ex_update 9)) ex_vi) [root_signed 1; root_signed 2; root_signed 3].
Definition no_run : Goroutine (M := ServiceMessage) * list (MessageBlsAggregationServiceResponse (M := ServiceMessage)) :=
  (newGoroutine [] ex_vi, []).
Definition root_response : MessageBlsAggregationServiceResponse (M := ServiceMessage) :=
  default (ex_response 9) (last (res_or no_run root_run).2).
Definition no_info : RollupOperatorsSignatureInfo := Rollups.Examples.signed_by 0 (Rollups.Examples.binding 0 []).
Definition root_info : RollupOperatorsSignatureInfo := 
  res_or no_info (ExtractBindingRollup (resp_Aggregation (reread (gr_vi (res_or no_run root_run).1) root_response))).

Lemma quorum_state_root_stored_witness :
  ∃ reg', accept_tx Rollups.Examples.nothing_paused 99 (ch_registry rollup) (TxUpdateStateRoot (ex_update 9) root_info) = Ok reg' ∧
    getStateRoot reg' 3 7 = replicate 32 9.
Proof.
  destruct (quorum_state_root_stored small_key small_valid prev ex_vi (sru_Key (ex_update 9)) [root_signed 1; root_signed 2; root_signed 3]
    (res_or no_run root_run).1 (res_or no_run root_run).2 root_response (ex_update 9) root_info Rollups.Examples.nothing_paused 99
    (ch_registry rollup)) as (reg' & Hacc & _ & Hget & _).
  - exact ex_snapshot_of.
  - apply (bool_decide_unpack (NoDup _)). vm_compute. exact I.
  - repeat constructor.
  - rewrite <- surjective_pairing. apply res_or_ok. vm_compute. reflexivity.
  - unfold root_response. destruct (last _) as [x|] eqn:Hlast; [by apply last_Some_elem_of|].
    apply last_None in Hlast. assert (length (res_or no_run root_run).2 = 2%nat) as Hlen by (vm_compute; reflexivity).
    by rewrite Hlast in Hlen.
  - right. vm_compute. reflexivity.
  - left. vm_compute. reflexivity.
  - vm_compute. reflexivity.
  - apply res_or_ok. vm_compute. reflexivity.
  - apply rollup_holds.
  - vm_compute. split; discriminate.
  - reflexivity.
  - exists reg'. split; [exact Hacc|]. rewrite Hget. vm_compute. reflexivity.
Defined.

End Examples.
